(* ===== verification/_CoqProject ===== *)
-Q . S2P
Prelude.v
GoRuntime.v
Services.v
GoStrings.v
Config.v
StoreApi.v
Pebble.v
ComApi.v
Router.v
StateApi.v
Fsm.v
Observation.v
Replication.v
RaftStore.v
Durability.v
Mqtt5.v
Network.v
Transport.v
RaftOverMqtt.v
RaftBinding.v
StateService.v
Grpc.v
GrpcOverMqtt.v
StateOverGrpc.v
Dda.v
Plog.v
Cmd.v
