(* ===== verification/Prelude.v ===== *)
(** * DDA: a verification library for the Data Distribution Agent

    DDA is a sidecar that gives an application three services: communication
    (events, actions, queries over MQTT 5), local storage (a Pebble key-value
    store) and state synchronization (a Raft state machine replicated among
    the agents of a cluster), all of them offered over gRPC.  This library
    models the agent's code and proves what makes its parts, and their
    composition, correct.

    ** The program's parts and their files

    - [Prelude]: bytes and byte strings in lexicographic order, lists, the
      tactics and the hint databases [dda].
    - [GoRuntime], [GoStrings]: what the source uses of Go: error values,
      machine integers, maps ranged over in any order, channels, a monad
      whose runs return, block or panic; [strings], [strconv], [filepath].
    - [Services]: services/services.go, retryable errors and
      [RetryWithBackoff].
    - [Config]: config/config.go, the configuration, its defaults and checks.
    - [StoreApi], [Pebble]: services/store, the storage interface as a class
      with its laws, and the Pebble binding, which is proved an instance.
    - [ComApi], [Router], [Mqtt5]: services/com, the data of the patterns,
      the router (api/router.go), which hands each message to the channels of
      its topic, and the MQTT binding (mqtt5/mqtt5.go): publications,
      subscriptions, topics, the five routers, connecting and reconnecting.
    - [StateApi], [Fsm], [RaftStore], [Transport], [RaftBinding]:
      services/state, the data and the codec, the replicated state machine
      (raft/fsm.go) with its heap of byte slices, the log and stable store and
      the observers of the membership (raft/store.go), the remote operations
      between nodes (raft/transport.go), and the binding (raft/raft.go):
      opening, closing, proposing with leader forwarding, observing.
    - [Observation]: the machine's lock as raft/fsm.go holds it while it sends
      state changes through the bounded channels of raft/raft.go.
    - [Grpc]: apis/grpc, every handler, the streams, the server and its web
      proxy.
    - [Dda], [Plog], [Cmd]: dda/dda.go with the service factories,
      plog/plog.go, and cmd/dda/dda.go.
    - [Network], [Durability], [Replication], [StateService],
      [RaftOverMqtt], [GrpcOverMqtt], [StateOverGrpc]: the composition of
      these parts, see below.

    A Go struct is a record with the struct's field names, a method a
    definition of the method's name that takes the receiver's state and
    returns it changed.  Errors are [option error].  Where a struct shares
    memory (the slices of the state machine, the channels of the router) the
    memory is explicit.  What runs concurrently is a step relation whose
    steps are what the code does under one lock: [Router.step], [Fsm.step],
    [Observation.bstep], [RaftStore.mstep], [Grpc.corr_step], [Cmd.happens],
    and the lock
    operations themselves in the modules [Locks], where their order matters.

    ** How the parts meet

    - [RaftStore] is written against the class [StoreApi]; [Pebble] has the
      instance and its laws, which leave open what a range deletion without an
      end key deletes ([deletion_end]), as the engine does not say.  [Mqtt5]
      calls the operations of [Router] with
      its own subscribe, publish and unsubscribe functions, and [Router]'s
      theorems about an arbitrary binding are instantiated with them
      ([routed_topics_at_broker]).
    - [Network] puts any number of MQTT bindings on one network: agents open,
      publish, subscribe, answer, cancel, reconnect and close in any order,
      brokers deliver what was published to whomever, late, repeatedly or
      never.  It allows more sends than the code makes, and is used for what
      never goes wrong; that messages do arrive is shown of the router
      ([dispatches_complete]).  The operations are those of [Mqtt5], which it names by pattern
      ([Subscribe], [Request], [Answer], [get], [put]); a history records the
      calls and receptions.
    - [Durability] follows a Raft node's store through the disk: opened by
      [NewRaftStore] on its directory, called, with success or not, closed,
      with errors or not, or lost in a crash, and opened again.
    - [Transport] is proved against any communication service.
      [RaftOverMqtt] instantiates it with the MQTT binding: a remote
      operation from the caller to the consumer and back, through both
      bindings' publications.  [GrpcOverMqtt] gives the gRPC server the MQTT
      binding as its communication service: an action from a client of one
      agent to a client of another and its results back.  [StateOverGrpc]
      feeds the server's stream of state changes from the state machine.
    - [Replication] runs the state machines of a cluster under what the Raft
      library promises: the committed entries in one order, snapshots taken,
      persisted and installed with their position, nodes starting anew.  What
      must never happen is shown with whole applications as steps, which
      [Observation] justifies; that a node does not stop is shown with the
      bounded channels of [Observation] itself.  [StateService] joins it with [RaftBinding]: what a successful
      [ProposeInput] means for [State] on any node.

    ** What the theorems show

    - Composition: replicas agree with the fold of the log and so with each
      other ([replicas_agree]), no entry stops them while the consumers of
      their observations receive ([replicas_catch_up]), a proposal that succeeded is read everywhere ([proposal_replicated]), a
      remote operation reaches exactly the nodes addressed and its outcome
      comes back, unless it is an error that is to be kept back
      ([remote_operation], [rpc_exchange]), as do an action and its results
      between clients ([action_over_grpc]); a client that observes the state
      follows it ([client_mirrors_state]).
    - The network: what consumers receive was published for them
      ([events_are_published]), results come from an agent that received the
      very request ([results_answer_requests]), no packet makes an agent
      panic ([handle_is_a_run]), a reconnection restores the subscriptions
      ([reconnect_restores]), and each routed topic has a subscription, under
      its own name or a share name ([routed_topics_at_broker]).
    - Progress: dispatches end and deliver all they have to if their consumers
      receive ([dispatches_complete]), a proposal is retried until a node
      accepts it ([propose_succeeds]); each with what can hold it up.
    - Durability: no acknowledged call of the Raft store is lost, in a crash
      or by closing, and a failed one leaves all, nothing or a first part of
      its effect ([acknowledged_calls_survive]).
    - Refinement: the Pebble binding is a map ([PebbleBinding_refines_map]),
      the Raft store a log ([RaftStore_refines_log], [RaftStore_reads_log]);
      deletions without an end key included, with either reading of it.
    - Atomicity: the steps [Fsm] takes as one are critical sections that wait
      for room in the observers' buffers; they refine those steps
      ([sections_are_atomic]), and end while their consumers receive
      ([consumers_keep_up]); a consumer that stops receiving can freeze them
      ([abandoned_observation_freezes]).
    - Invariants under every interleaving: the router never panics and its
      topics are those subscribed; observers are told exactly the changes of
      the state and of the membership; the state shares no memory with
      clients; gRPC results go to their own action; the agent opens and
      closes its services in order.
    - Round trips: actions, queries, remote operations, snapshots, stored
      pairs.  Bounds: backoff delays and snapshot timeouts never overflow.
      Termination: retries, scans, catching up, and the command's end, if
      closing the agent ends ([main_ends]).  Errors:
      closed bindings, every branch of [Apply], silent nodes.
    - Divergences from what the code intends are theorems of their own, such
      as [observer_lost], [subscribe_and_close_deadlock],
      [shared_subscription_lost_on_reconnect], [restore_is_not_observed],
      [cancelled_observation_panics], [abandoned_observation_freezes],
      [delete_prefix_keeps_all], [failed_open_looks_open],
      [delete_all_not_durable], [final_result_published_twice],
      [prefix_of_another_package].

    ** Fuel and bounds

    [RetryWithBackoff] and the scans take fuel, and yield [None] without
    enough of it.  With a positive maximum of retries fuel above it suffices
    ([RetryWithBackoff_terminates]); with unlimited retries fuel for one step
    more than there are failing attempts ([propose_succeeds]); a scan needs
    one more than the store has pairs.  Integers are [Z]: 64-bit arithmetic
    that can leave its range is wrapped by [swrap] and [uwrap].

    ** Assumptions

    Code outside the repository is a class with the functions the source
    calls, and a second class with their documented behaviour as laws:
    [PebbleEngine] and [PebbleLaws], [Paho] with [PahoLaws] and [PahoSent],
    [MsgPack] and [MsgPackLaws], [HraftLog], [HraftRpc], [ResponseLaws],
    [RaftWorld] and [RaftLaws].  [ResponseLaws] is about the responses the
    codec is documented to carry, which leaves out an [ApplyResponse] with an
    error in its field of interface type.  Each theorem that uses laws has a run with
    concrete functions that satisfy them, in the modules [Run] and
    [MemEngine].  In [Network] the callers pass the scopes the API declares,
    each correlation id is new ([uuid.NewString]), and only agents publish.

    ** Not modelled

    Generated code: the gRPC stubs beyond the fields of their messages.
    Tests, test data and test tools.  The side channel package, which is
    empty.  The texts the usage function and the log print, and the exact
    text of [fmt] verbs where no caller depends on it.  Time itself: a wait is
    a step that may fail, a timeout an outcome of waiting.  A crash in the
    middle of a call of the store: crashes happen between two calls.  The Go
    memory model below the locks: accesses the code does not guard by a lock
    are steps of their own only where a theorem is about them. *)

From Stdlib Require Export ZArith Lia Ascii String.
From stdpp Require Export base tactics option list numbers strings sorting gmap sets relations.

(** Go strings are byte sequences: [string] is used for them, and a byte is
    an [ascii].  A Go byte slice that can be [nil] is an [option (list byte)]. *)
Abbreviation byte := ascii.
Abbreviation bytes := (list ascii).
Abbreviation slice := (option (list ascii)).

Declare Scope dda_scope.
Delimit Scope dda_scope with dda.
Open Scope Z_scope.

#[global] Instance byte_inhabited : Inhabited ascii := populate zero.

(** [nil] and an empty slice have the same elements. *)
Definition sl (s : slice) : bytes := default [] s.

(** The Go conversions [[]byte(s)] and [string(b)]. *)
Definition bytes_of_string (s : string) : bytes := list_ascii_of_string s.
Definition string_of_bytes (b : bytes) : string := string_of_list_ascii b.

Create HintDb dda discriminated.
Create Rewrite HintDb dda.

Lemma string_bytes_string (s : string) : string_of_bytes (bytes_of_string s) = s.
Proof. apply string_of_list_ascii_of_string. Qed.

Lemma bytes_string_bytes (b : bytes) : bytes_of_string (string_of_bytes b) = b.
Proof. apply list_ascii_of_string_of_list_ascii. Qed.

#[export] Hint Rewrite string_bytes_string bytes_string_bytes : dda.

Lemma bytes_of_string_inj (s t : string) :
  bytes_of_string s = bytes_of_string t -> s = t.
Proof. intros H. by rewrite <- (string_bytes_string s), H, string_bytes_string. Qed.

(** ** Bytes as numbers *)

Definition byte_val (b : byte) : Z := Z.of_N (N_of_ascii b).
Definition byte_of (z : Z) : byte := ascii_of_N (Z.to_N (z mod 256)).
Arguments byte_val : simpl never.
Arguments byte_of : simpl never.

Lemma byte_val_range (b : byte) : 0 <= byte_val b < 256.
Proof. unfold byte_val. pose proof (N_ascii_bounded b). lia. Qed.

Lemma byte_of_val (b : byte) : byte_of (byte_val b) = b.
Proof.
  unfold byte_of. rewrite Z.mod_small by apply byte_val_range.
  unfold byte_val. rewrite N2Z.id. apply ascii_N_embedding.
Qed.

Lemma byte_val_of (z : Z) : byte_val (byte_of z) = z mod 256.
Proof.
  unfold byte_val, byte_of.
  pose proof (Z.mod_pos_bound z 256 ltac:(lia)).
  rewrite N_ascii_embedding by lia. lia.
Qed.

Lemma byte_val_inj (a b : byte) : byte_val a = byte_val b -> a = b.
Proof. intros H. by rewrite <- (byte_of_val a), H, byte_of_val. Qed.

(** ** Lexicographic order on byte strings ([bytes.Compare]) *)

Fixpoint bytes_compare (a b : bytes) : comparison :=
  match a, b with
  | [], [] => Eq
  | [], _ :: _ => Lt
  | _ :: _, [] => Gt
  | x :: a', y :: b' =>
      match byte_val x ?= byte_val y with
      | Eq => bytes_compare a' b'
      | c => c
      end
  end.

Definition bytes_lt (a b : bytes) : Prop := bytes_compare a b = Lt.
Definition bytes_le (a b : bytes) : Prop := bytes_compare a b <> Gt.

#[global] Instance bytes_lt_dec (a b : bytes) : Decision (bytes_lt a b).
Proof. unfold bytes_lt. destruct (bytes_compare a b); (by left) || (by right). Defined.
#[global] Instance bytes_le_dec (a b : bytes) : Decision (bytes_le a b).
Proof. unfold bytes_le. destruct (bytes_compare a b); [left|left|right]; naive_solver. Defined.

Lemma bytes_compare_refl (a : bytes) : bytes_compare a a = Eq.
Proof. induction a as [|x a IH]; simpl; [done|]. by rewrite Z.compare_refl. Qed.

Lemma bytes_compare_eq (a b : bytes) : bytes_compare a b = Eq -> a = b.
Proof.
  revert b. induction a as [|x a IH]; intros [|y b]; simpl; try done.
  destruct (Z.compare_spec (byte_val x) (byte_val y)) as [E| |]; try done.
  intros H. f_equal; [by apply byte_val_inj | by apply IH].
Qed.

Lemma bytes_compare_antisym (a b : bytes) :
  bytes_compare b a = CompOpp (bytes_compare a b).
Proof.
  revert b. induction a as [|x a IH]; intros [|y b]; simpl; try done.
  rewrite Z.compare_antisym.
  destruct (byte_val x ?= byte_val y); simpl; auto.
Qed.

Lemma bytes_lt_irrefl (a : bytes) : ~ bytes_lt a a.
Proof. unfold bytes_lt. by rewrite bytes_compare_refl. Qed.

Lemma bytes_lt_trans (a b c : bytes) : bytes_lt a b -> bytes_lt b c -> bytes_lt a c.
Proof.
  unfold bytes_lt. revert b c.
  induction a as [|x a IH]; intros [|y b] [|z c]; simpl; try done.
  destruct (Z.compare_spec (byte_val x) (byte_val y)) as [E1|E1|E1]; try done;
    destruct (Z.compare_spec (byte_val y) (byte_val z)) as [E2|E2|E2]; try done;
    destruct (Z.compare_spec (byte_val x) (byte_val z)) as [E3|E3|E3]; try done; try lia.
  apply IH.
Qed.

Lemma bytes_le_lteq (a b : bytes) : bytes_le a b <-> bytes_lt a b \/ a = b.
Proof.
  unfold bytes_le, bytes_lt. destruct (bytes_compare a b) eqn:E; split; intros H; auto.
  - right. by apply bytes_compare_eq.
  - done.
  - destruct H as [H|H]; [done|subst]. by rewrite bytes_compare_refl in E.
Qed.

Lemma bytes_not_lt (a b : bytes) : ~ bytes_lt a b <-> bytes_le b a.
Proof.
  unfold bytes_lt, bytes_le. rewrite (bytes_compare_antisym a b).
  destruct (bytes_compare a b); simpl; split; intros H; try done; by intros ?.
Qed.

Lemma bytes_le_refl (a : bytes) : bytes_le a a.
Proof. apply bytes_le_lteq. by right. Qed.

Lemma bytes_le_trans (a b c : bytes) : bytes_le a b -> bytes_le b c -> bytes_le a c.
Proof.
  rewrite !bytes_le_lteq. intros [H1|H1] [H2|H2]; subst; auto.
  left. by eapply bytes_lt_trans.
Qed.

Lemma bytes_lt_le_trans (a b c : bytes) : bytes_lt a b -> bytes_le b c -> bytes_lt a c.
Proof. rewrite bytes_le_lteq. intros ? [?|?]; subst; eauto using bytes_lt_trans. Qed.

Lemma bytes_le_lt_trans (a b c : bytes) : bytes_le a b -> bytes_lt b c -> bytes_lt a c.
Proof. rewrite bytes_le_lteq. intros [?|?] ?; subst; eauto using bytes_lt_trans. Qed.

Lemma bytes_lt_nil (a : bytes) : ~ bytes_lt a [].
Proof. by destruct a. Qed.

Lemma bytes_nil_le (a : bytes) : bytes_le [] a.
Proof. by destruct a. Qed.

#[global] Instance bytes_lt_strict : StrictOrder bytes_lt.
Proof.
  split; [intros a; apply bytes_lt_irrefl | intros a b c; apply bytes_lt_trans].
Qed.

#[global] Instance bytes_le_total : Total bytes_le.
Proof.
  intros a b. destruct (decide (bytes_lt a b)).
  - left. apply bytes_le_lteq. by left.
  - right. by apply bytes_not_lt.
Qed.

#[global] Instance bytes_le_transitive : Transitive bytes_le.
Proof. intros a b c. apply bytes_le_trans. Qed.

#[global] Instance bytes_le_antisymm : AntiSymm (=) bytes_le.
Proof.
  intros a b. rewrite !bytes_le_lteq. intros [H|H] [H'|H']; auto.
  by destruct (bytes_lt_irrefl a); eapply bytes_lt_trans.
Qed.

#[export] Hint Resolve bytes_le_refl bytes_nil_le bytes_lt_trans bytes_le_trans : dda.

Lemma bytes_compare_app (q a b : bytes) : bytes_compare (q ++ a) (q ++ b) = bytes_compare a b.
Proof. induction q as [|x q IH]; simpl; [done|]. by rewrite Z.compare_refl. Qed.

(** A key between two keys with a common prefix has that prefix. *)
Lemma bytes_between (q a b k : bytes) :
  bytes_le (q ++ a) k -> bytes_lt k (q ++ b) ->
  exists k', k = q ++ k' /\ bytes_le a k' /\ bytes_lt k' b.
Proof.
  unfold bytes_le, bytes_lt. revert k. induction q as [|x q IH]; intros k; simpl; [by eauto|].
  destruct k as [|y k]; [done|]. simpl. rewrite (Z.compare_antisym (byte_val x)).
  destruct (Z.compare_spec (byte_val x) (byte_val y)) as [E|E|E]; try done.
  intros Hle Hlt. destruct (IH k Hle Hlt) as (k' & -> & ? & ?).
  exists k'. split; [|done]. by rewrite (byte_val_inj _ _ E).
Qed.

Lemma bytes_le_app (a k : bytes) : bytes_le a (a ++ k).
Proof.
  unfold bytes_le. rewrite <- (app_nil_r a) at 1. rewrite bytes_compare_app. by destruct k.
Qed.

(** ** Lists *)

Lemma forallb_Forall {A} (f : A -> bool) (l : list A) :
  forallb f l = true <-> Forall (fun x => f x = true) l.
Proof.
  induction l as [|x l IH]; simpl; [done|].
  rewrite andb_true_iff, Forall_cons, IH. done.
Qed.

(** The sum over a list with one element replaced, or removed. *)
Lemma sum_list_insert {A} (f : A -> nat) (l : list A) i x y : l !! i = Some x ->
  (sum_list_with f (<[i := y]> l) + f x = sum_list_with f l + f y)%nat.
Proof.
  revert i. induction l as [|z l IH]; intros [|i]; [done..| |]; simpl.
  - intros [= ->]. lia.
  - intros Hi. specialize (IH i Hi). lia.
Qed.

Lemma sum_list_delete {A} (f : A -> nat) (l : list A) i x : l !! i = Some x ->
  (sum_list_with f (delete i l) + f x = sum_list_with f l)%nat.
Proof.
  revert i. induction l as [|z l IH]; intros [|i]; [done..| |]; simpl.
  - intros [= ->]. lia.
  - intros Hi. specialize (IH i Hi). lia.
Qed.

Lemma elem_of_list_delete {A} (l : list A) i x : x ∈ delete i l -> x ∈ l.
Proof.
  rewrite delete_take_drop. intros [Hin|Hin]%elem_of_app.
  - rewrite <- (take_drop i l). apply elem_of_app. by left.
  - rewrite <- (take_drop (S i) l). apply elem_of_app. by right.
Qed.

(** ** Tactics *)

(** Destruct the innermost match or pair binding the goal is blocked on. *)
Ltac step_match :=
  match goal with
  | |- context [match ?x with _ => _ end] =>
      lazymatch x with
      | context [match _ with _ => _ end] => fail
      | _ => let E := fresh "E" in destruct x eqn:E
      end
  end.

(** The same on a hypothesis. *)
Ltac step_match_in H :=
  match type of H with
  | context [match ?x with _ => _ end] =>
      lazymatch x with
      | context [match _ with _ => _ end] => fail
      | _ => let E := fresh "E" in destruct x eqn:E
      end
  end.

Ltac crush := repeat (step_match; simplify_eq/=); try done.

(** Close an equation between closed terms by evaluating both sides in the
    virtual machine, without normalising their type. *)
Ltac by_vm :=
  lazymatch goal with
  | |- ?x = ?y => vm_cast_no_check (@eq_refl _ y)
  end.
