(* ===== verification/GoRuntime.v ===== *)
(** * The parts of the Go language and its runtime the source relies on

    Error values, machine integers, maps ranged over in an unspecified order,
    channels, and a state monad whose runs can also block or panic. *)

From stdpp Require Import pretty.
From S2P Require Import Prelude.

(** ** Error values

    A Go [error] is [option error], [None] being [nil].  [ErrText] is an error
    made by [errors.New] or [fmt.Errorf]; nothing under [src/] unwraps errors,
    so the operand of a [%w] verb only contributes its text.  [ErrVar] is an
    error compared by identity: a package-level variable, or an error of a
    library; its last argument is what its [Retryable] method returns, when it
    has one.  [ErrRetryable] is [*services.retryableError]. *)
Inductive error :=
  | ErrText (msg : string)
  | ErrVar (id msg : string) (retryable : option bool)
  | ErrRetryable (inner : error).

Abbreviation goerr := (option error).

#[global] Instance error_eq_dec : EqDecision error.
Proof. solve_decision. Defined.

(** Go's [==] on two error values: both [nil], or the same variable.  Errors
    made by [fmt.Errorf] and [&retryableError{}] are pointers to fresh
    objects and equal nothing they are compared with in the source. *)
Definition err_eqb (a b : goerr) : bool :=
  match a, b with
  | None, None => true
  | Some (ErrVar i _ _), Some (ErrVar j _ _) => String.eqb i j
  | _, _ => false
  end.

Arguments err_eqb : simpl never.

Lemma err_eqb_nil (b : goerr) : err_eqb None b = true <-> b = None.
Proof. unfold err_eqb. by destruct b. Qed.

Definition context_Canceled := ErrVar "context.Canceled" "context canceled" None.
Definition context_DeadlineExceeded :=
  ErrVar "context.DeadlineExceeded" "context deadline exceeded" None.

(** ** Machine integers *)

Definition uwrap (w z : Z) : Z := z mod 2 ^ w.
Definition swrap (w z : Z) : Z := (z + 2 ^ (w - 1)) mod 2 ^ w - 2 ^ (w - 1).

Definition in_uint (w z : Z) : Prop := 0 <= z < 2 ^ w.
Definition in_sint (w z : Z) : Prop := - 2 ^ (w - 1) <= z < 2 ^ (w - 1).

Lemma pow2_half (w : Z) : 0 < w -> 2 ^ w = 2 * 2 ^ (w - 1).
Proof. intros. rewrite <- Z.pow_succ_r by lia. f_equal; lia. Qed.

Lemma uwrap_range (w z : Z) : 0 <= w -> in_uint w (uwrap w z).
Proof. intros. apply Z.mod_pos_bound. by apply Z.pow_pos_nonneg. Qed.

Lemma uwrap_id (w z : Z) : in_uint w z -> uwrap w z = z.
Proof. intros. by apply Z.mod_small. Qed.

Lemma swrap_range (w z : Z) : 0 < w -> in_sint w (swrap w z).
Proof.
  intros Hw. unfold in_sint, swrap. rewrite (pow2_half w Hw).
  pose proof (Z.mod_pos_bound (z + 2 ^ (w - 1)) (2 * 2 ^ (w - 1))).
  pose proof (Z.pow_pos_nonneg 2 (w - 1)). lia.
Qed.

Lemma swrap_id (w z : Z) : 0 < w -> in_sint w z -> swrap w z = z.
Proof.
  unfold in_sint, swrap. intros Hw H. rewrite Z.mod_small; [lia|].
  rewrite (pow2_half w Hw). lia.
Qed.

Abbreviation int64 := (swrap 64).
Abbreviation uint64 := (uwrap 64).
Abbreviation MaxInt64 := 9223372036854775807.
Abbreviation MaxUint64 := 18446744073709551615.

(** [time.Duration] counts nanoseconds in an [int64]. *)
Definition Millisecond : Z := 1000000.
Definition Second : Z := 1000000000.

(** ** Ranging over a map

    Go leaves the iteration order of [for k, v := range m] unspecified: the
    order is a parameter, of which only this law is used. *)
Class MapRange := {
  range : forall {K V : Type} `{Countable K}, gmap K V -> list (K * V);
  range_perm : forall {K V : Type} `{Countable K} (m : gmap K V),
      range m ≡ₚ map_to_list m;
}.

(** One possible order, for concrete runs. *)
Definition range_in_map_order : MapRange :=
  {| range := fun K V _ _ m => map_to_list m; range_perm := fun K V _ _ m => reflexivity _ |}.

Section MapRangeLemmas.
Context `{MapRange} {K V : Type} `{Countable K}.
Implicit Types m : gmap K V.

Lemma elem_of_range m k v : (k, v) ∈ range m <-> m !! k = Some v.
Proof. rewrite range_perm. apply elem_of_map_to_list. Qed.

Lemma NoDup_range_keys m : NoDup (range m).*1.
Proof. rewrite range_perm. apply NoDup_fst_map_to_list. Qed.

Lemma elem_of_range_keys m k : k ∈ (range m).*1 <-> is_Some (m !! k).
Proof.
  rewrite list_elem_of_fmap. split.
  - intros ([k' v] & -> & Hin). apply elem_of_range in Hin. simpl. by exists v.
  - intros [v Hv]. exists (k, v). split; [done|]. by apply elem_of_range.
Qed.

Lemma range_empty : range (∅ : gmap K V) = [].
Proof. apply Permutation_nil_r. by rewrite range_perm, map_to_list_empty. Qed.
End MapRangeLemmas.

(** ** Runs that return, block for ever on a channel, or panic *)

Inductive run (S A : Type) :=
  | Ret (a : A) (s : S)
  | Blocked (s : S)
  | Panic (msg : string).
Arguments Ret {_ _} _ _.
Arguments Blocked {_ _} _.
Arguments Panic {_ _} _.

Definition M (S A : Type) := S -> run S A.

Definition mret {S A} (a : A) : M S A := fun s => Ret a s.
Definition mbind {S A B} (m : M S A) (k : A -> M S B) : M S B := fun s =>
  match m s with
  | Ret a s' => k a s'
  | Blocked s' => Blocked s'
  | Panic msg => Panic msg
  end.
Definition mget {S} : M S S := fun s => Ret s s.
Definition mput {S} (s : S) : M S unit := fun _ => Ret tt s.
Definition mpanic {S A} (msg : string) : M S A := fun _ => Panic msg.

Notation "'let!' x ':=' m 'in' k" := (mbind m (fun x => k))
  (at level 10, x name, m at level 100, k at level 200) : dda_scope.
Notation "'run!' m ';' k" := (mbind m (fun _ => k))
  (at level 10, m at level 100, k at level 200) : dda_scope.
Open Scope dda_scope.

(** A Go [for _, x := range xs] loop. *)
Fixpoint mfor {S A} (xs : list A) (body : A -> M S unit) : M S unit :=
  match xs with
  | [] => mret tt
  | x :: xs' => run! body x; mfor xs' body
  end.

Lemma mfor_app {S A} (xs ys : list A) (body : A -> M S unit) s :
  mfor (xs ++ ys) body s = (run! mfor xs body; mfor ys body) s.
Proof.
  revert s. induction xs as [|x xs IH]; intros s; [done|]. simpl.
  unfold mbind in *. by destruct (body x s).
Qed.

(** A loop that returns keeps an invariant its body keeps; the invariant may
    speak of the elements still to come. *)
Lemma mfor_invariant {S A} (P : list A -> S -> Prop) (body : A -> M S unit) xs s s' :
  (forall x xs s s', P (x :: xs) s -> body x s = Ret tt s' -> P xs s') ->
  P xs s -> mfor xs body s = Ret tt s' -> P [] s'.
Proof.
  intros Hbody. revert s. induction xs as [|x xs IH]; intros s HP Hrun; [by injection Hrun as <-|].
  simpl in Hrun. unfold mbind in Hrun. destruct (body x s) as [[] s1|s1|msg] eqn:E; [|done|done].
  by apply (IH s1); [eapply Hbody|].
Qed.

(** ** Channels

    A channel holds at most [ch_cap] values ([make(chan T, n)]); a receive on
    a closed channel that has been drained yields the zero value at once. *)
Record Chan (A : Type) := MkChan {
  ch_cap : nat;
  ch_buf : list A;
  ch_closed : bool;
}.
Arguments MkChan {_} _ _ _.
Arguments ch_cap {_} _.
Arguments ch_buf {_} _.
Arguments ch_closed {_} _.

Definition make_chan {A} (n : nat) : Chan A := MkChan n [] false.

Inductive send_result (A : Type) :=
  | Sent (c : Chan A)
  | WouldBlock
  | SendPanic.
Arguments Sent {_} _.
Arguments WouldBlock {_}.
Arguments SendPanic {_}.

Definition chan_send {A} (c : Chan A) (x : A) : send_result A :=
  if ch_closed c then SendPanic
  else if Nat.ltb (length (ch_buf c)) (ch_cap c)
  then Sent (MkChan (ch_cap c) (ch_buf c ++ [x]) false)
  else WouldBlock.

(** [close(c)]: panics on a channel that is closed already. *)
Definition chan_close {A} (c : Chan A) : option (Chan A) :=
  if ch_closed c then None else Some (MkChan (ch_cap c) (ch_buf c) true).

Inductive recv_result (A : Type) :=
  | Received (x : A) (c : Chan A)
  | Drained
  | Empty.
Arguments Received {_} _ _.
Arguments Drained {_}.
Arguments Empty {_}.

Definition chan_recv {A} (c : Chan A) : recv_result A :=
  match ch_buf c with
  | x :: rest => Received x (MkChan (ch_cap c) rest (ch_closed c))
  | [] => if ch_closed c then Drained else Empty
  end.

Lemma chan_send_open {A} (c : Chan A) x :
  ch_closed c = false -> chan_send c x <> SendPanic.
Proof. unfold chan_send. intros ->. by case_match. Qed.

Lemma chan_send_fits {A} (c : Chan A) x :
  ch_closed c = false -> (length (ch_buf c) < ch_cap c)%nat ->
  chan_send c x = Sent (MkChan (ch_cap c) (ch_buf c ++ [x]) false).
Proof.
  unfold chan_send. intros -> Hlt. by rewrite (proj2 (Nat.ltb_lt _ _) Hlt).
Qed.

(** ** Formatting *)

(** [fmt]'s [%v] on a byte slice: the decimal values between brackets. *)
Definition fmt_bytes (b : slice) : string :=
  "[" +:+ String.concat " " ((fun c => pretty (byte_val c)) <$> sl b) +:+ "]".
