(* ===== verification/Services.v ===== *)
(** * Retryable errors and retry with backoff ([services/services.go]) *)

From S2P Require Import Prelude GoRuntime.

(** [func (r *retryableError) Error() string] and the text of other errors. *)
Fixpoint Error (e : error) : string :=
  match e with
  | ErrText msg => msg
  | ErrVar _ msg _ => msg
  | ErrRetryable inner => "retryable error: " +:+ Error inner
  end.

(** [func RetryableErrorf(format string, a ...any) error], the text being
    formatted by the caller. *)
Definition RetryableErrorf (msg : string) : goerr := Some (ErrRetryable (ErrText msg)).

Definition NewRetryableError (err : goerr) : goerr :=
  match err with
  | None => None
  | Some e => Some (ErrRetryable e)
  end.

(** [rerr, ok := err.(retryable); return ok && rerr.Retryable()] *)
Definition IsRetryable (err : goerr) : bool :=
  match err with
  | Some (ErrRetryable _) => true
  | Some (ErrVar _ _ (Some b)) => b
  | _ => false
  end.

Definition ErrorRetryable (err : goerr) : goerr :=
  match err with
  | Some (ErrRetryable inner) => Some inner
  | _ => err
  end.

Record Backoff := {
  Base : Z;   (* time.Duration *)
  Cap : Z;    (* time.Duration *)
  Max : Z;    (* int *)
}.

Section Retry.
(** [op cnt] runs the operation; [wait d] sleeps on the timer and yields
    [ctx.Err()] if the context is done before the timer fires. *)
Context {St : Type}.
Variable op : Z -> St -> goerr * St.
Variable wait : Z -> St -> goerr * St.
Variable b : Backoff.

(** The delay before the next attempt. *)
Definition delay (base : Z) : Z := if 0 <? Cap b then Z.min (Cap b) base else base.

(** One iteration of the loop: the value returned, or [retry] and [base]
    for the next iteration. *)
Definition retry_iter (retry base : Z) (s : St) : (goerr * St) + (Z * Z * St) :=
  let '(err, s1) := op (int64 (retry + 1)) s in
  if negb (IsRetryable err) then inl (err, s1)
  else
    let retry := int64 (retry + 1) in
    if (0 <? Max b) && (Max b <? retry)
    then inl (RetryableErrorf "reached maximum number of retry attempts", s1)
    else
      let d := delay base in
      match wait d s1 with
      | (Some e, s2) => inl (Some e, s2)
      | (None, s2) => inr (retry, if d =? base then int64 (base * 2) else base, s2)
      end.

Fixpoint retry_loop (fuel : nat) (retry base : Z) (s : St) : option (goerr * St) :=
  match fuel with
  | O => None
  | S fuel' =>
      match retry_iter retry base s with
      | inl res => Some res
      | inr (retry', base', s') => retry_loop fuel' retry' base' s'
      end
  end.

Definition RetryWithBackoff (fuel : nat) (s : St) : option (goerr * St) :=
  retry_loop fuel 0 (Base b) s.
End Retry.

(** ** What a run of the loop does, as seen by the operation and the timer *)

(** Instrumented operation and timer: they append to a log what they were
    called with and what they returned, and are otherwise [op] and [wait]. *)
Record retry_log := { ops : list (Z * goerr); waits : list (Z * goerr) }.

Section Instrument.
Context {St : Type}.
Variable op : Z -> St -> goerr * St.
Variable wait : Z -> St -> goerr * St.

Definition log_op (cnt : Z) (s : St * retry_log) : goerr * (St * retry_log) :=
  let '(e, s') := op cnt s.1 in
  (e, (s', {| ops := ops s.2 ++ [(cnt, e)]; waits := waits s.2 |})).

Definition log_wait (d : Z) (s : St * retry_log) : goerr * (St * retry_log) :=
  let '(e, s') := wait d s.1 in
  (e, (s', {| ops := ops s.2; waits := waits s.2 ++ [(d, e)] |})).

(** The context was never done while waiting. *)
Definition no_cancel (l : list (Z * goerr)) : Prop := Forall (fun x => x.2 = None) l.
Definition all_retryable (l : list (Z * goerr)) : Prop :=
  Forall (fun x => IsRetryable x.2 = true) l.

(** How a run can end: with the non-retryable outcome of the operation,
    after the allowed number of retries, or because the context is done. *)
Inductive retry_end (b : Backoff) (err : goerr) (l : retry_log) : Prop :=
  | end_result os n :
      ops l = os ++ [(n, err)] -> IsRetryable err = false ->
      all_retryable os -> no_cancel (waits l) ->
      length (waits l) = length os -> retry_end b err l
  | end_max :
      err = RetryableErrorf "reached maximum number of retry attempts" ->
      0 < Max b -> Z.of_nat (length (ops l)) = Max b + 1 ->
      all_retryable (ops l) -> no_cancel (waits l) -> retry_end b err l
  | end_ctx ws d :
      waits l = ws ++ [(d, err)] -> is_Some err ->
      all_retryable (ops l) -> no_cancel ws ->
      length (ops l) = length (waits l) -> retry_end b err l.

(** The state of the loop before an iteration. *)
Record loop_inv (b : Backoff) (retry base : Z) (l : retry_log) : Prop := {
  inv_retry : retry = Z.of_nat (length (ops l));
  inv_waits : length (waits l) = length (ops l);
  inv_ops : (ops l).*1 = seqZ 1 retry;
  inv_retryable : all_retryable (ops l);
  inv_cancel : no_cancel (waits l);
  inv_max : 0 < Max b -> retry <= Max b;
}.

Lemma seqZ_snoc (m n : Z) : 0 <= n -> seqZ m (n + 1) = seqZ m n ++ [m + n].
Proof.
  intros Hn. rewrite seqZ_app by lia. f_equal.
Qed.

Lemma retry_loop_end b fuel retry base s l res s' l' :
  loop_inv b retry base l ->
  Z.of_nat (length (ops l) + fuel) < 2 ^ 63 ->
  retry_loop log_op log_wait b fuel retry base (s, l) = Some (res, (s', l')) ->
  retry_end b res l' /\ (ops l').*1 = seqZ 1 (Z.of_nat (length (ops l'))).
Proof.
  revert retry base s l.
  induction fuel as [|fuel IH]; intros retry base s l [Hr Hw Ho Hre Hc Hm] Hlt; simpl; [done|].
  unfold retry_iter, log_op at 1; simpl.
  assert (int64 (retry + 1) = retry + 1) as Hint.
  { apply swrap_id; [lia|]. unfold in_sint. lia. }
  rewrite Hint. destruct (op (retry + 1) s) as [err s1] eqn:Eop.
  assert ((ops l ++ [(retry + 1, err)]).*1 = seqZ 1 (retry + 1)) as Ho'.
  { rewrite fmap_app, Ho, seqZ_snoc by lia. f_equal. simpl. f_equal. lia. }
  destruct (IsRetryable err) eqn:Er; simpl.
  2:{ intros [= <- <- <-]. split.
      - eapply end_result; simpl; eauto.
      - simpl. rewrite length_app, Nat2Z.inj_add, <- Hr. apply Ho'. }
  assert (all_retryable (ops l ++ [(retry + 1, err)])) as Hre'.
  { apply Forall_app. auto. }
  assert (Z.of_nat (length (ops l ++ [(retry + 1, err)])) = retry + 1) as Hlen.
  { rewrite length_app, Nat2Z.inj_add, <- Hr. done. }
  destruct ((0 <? Max b) && (Max b <? retry + 1)) eqn:Emax.
  { intros [= <- <- <-]. split.
    - apply end_max; simpl; auto; [|rewrite Hlen]; lia.
    - simpl. by rewrite Hlen. }
  unfold log_wait at 1; simpl.
  destruct (wait (delay b base) s1) as [[e|] s2] eqn:Ew.
  { intros [= <- <- <-]. split.
    - eapply end_ctx; simpl; eauto. rewrite !length_app, Hw. done.
    - simpl. by rewrite Hlen. }
  intros Hrun. eapply IH in Hrun; [done| |].
  - split; simpl; auto.
    + by rewrite !length_app, Hw.
    + apply Forall_app. auto.
    + lia.
  - simpl. rewrite length_app. simpl. lia.
Qed.

(** C21: a run of [RetryWithBackoff] that returns has called the operation
    with 1, 2, 3, ... and ended in one of the three documented ways: with a
    non-retryable outcome of the last call (nil included), with the
    "reached maximum" error after exactly [Max+1] calls, all retryable, or
    with [ctx.Err()] because the context was done during a wait; the calls
    before the end all returned retryable errors. *)
Theorem RetryWithBackoff_outcome (b : Backoff) (fuel : nat) (s s' : St) (res : goerr) (l' : retry_log) :
  Z.of_nat fuel < 2 ^ 63 ->
  RetryWithBackoff log_op log_wait b fuel (s, {| ops := []; waits := [] |}) = Some (res, (s', l')) ->
  retry_end b res l' /\ (ops l').*1 = seqZ 1 (Z.of_nat (length (ops l'))).
Proof.
  intros Hlt Hrun. eapply retry_loop_end; [| |exact Hrun]; [|simpl; lia].
  split; simpl; try done; try lia; constructor.
Qed.

End Instrument.

Section RetryProperties.
Context {St : Type}.
Variable op : Z -> St -> goerr * St.
Variable wait : Z -> St -> goerr * St.
Variable b : Backoff.

Lemma retry_loop_terminates fuel retry base s :
  0 < Max b < MaxInt64 -> 0 <= retry <= Max b -> Max b - retry < Z.of_nat fuel ->
  is_Some (retry_loop op wait b fuel retry base s).
Proof.
  intros Hmax. revert retry base s.
  induction fuel as [|fuel IH]; intros retry base s Hr Hf; [lia|]. simpl.
  destruct (retry_iter op wait b retry base s) as [res|[[retry' base'] s']] eqn:E;
    [by eexists|].
  assert (retry' = retry + 1 /\ retry + 1 <= Max b) as [-> Hle].
  { unfold retry_iter in E.
    rewrite (swrap_id 64 (retry + 1)) in E by (unfold in_sint; lia).
    destruct (op _ _); destruct (negb _); [done|].
    destruct ((0 <? Max b) && (Max b <? retry + 1)) eqn:Em; [done|].
    destruct (wait _ _) as [[?|] ?]; simplify_eq. lia. }
  apply IH; lia.
Qed.

(** C37: with a maximum number of retries the loop ends whatever the
    operation and the timer do: [Max+1] iterations always suffice. *)
Theorem RetryWithBackoff_terminates (s : St) :
  0 < Max b < MaxInt64 ->
  is_Some (RetryWithBackoff op wait b (S (Z.to_nat (Max b))) s).
Proof. intros H. apply retry_loop_terminates; lia. Qed.

(** What a successful run shows: [I] is kept from attempt to attempt, and
    [Q] is what an attempt that succeeds establishes. *)
Lemma retry_loop_success (I Q : St -> Prop) fuel retry base s s' :
  (forall cnt s err s1, I s -> op cnt s = (err, s1) -> I s1 /\ (err = None -> Q s1)) ->
  (forall d s err s1, I s -> wait d s = (err, s1) -> I s1) ->
  I s -> retry_loop op wait b fuel retry base s = Some (None, s') -> Q s'.
Proof.
  intros Hop Hwait. revert retry base s. induction fuel as [|fuel IH]; intros retry base s Hi; simpl; [done|].
  unfold retry_iter. destruct (op (int64 (retry + 1)) s) as [err s1] eqn:Eop.
  destruct (Hop _ _ _ _ Hi Eop) as [Hi1 Hq]. destruct (negb (IsRetryable err)).
  { intros [= -> <-]. auto. }
  destruct (_ && _); [done|]. destruct (wait (delay b base) s1) as [[e|] s2] eqn:Ew; [done|].
  intros Hrun. eapply IH; [|exact Hrun]. by eapply Hwait.
Qed.

(** The state after [n] attempts that can be retried, each followed by a wait
    that is not cut short. *)
Fixpoint attempts (n : nat) (retry base : Z) (s : St) : option (Z * Z * St) :=
  match n with
  | O => Some (retry, base, s)
  | S n =>
      match retry_iter op wait b retry base s with
      | inr (retry, base, s) => attempts n retry base s
      | inl _ => None
      end
  end.

Lemma retry_loop_attempts n fuel retry base s r bs s1 err s2 :
  attempts n retry base s = Some (r, bs, s1) -> op (int64 (r + 1)) s1 = (err, s2) -> IsRetryable err = false ->
  (n < fuel)%nat -> retry_loop op wait b fuel retry base s = Some (err, s2).
Proof.
  revert fuel retry base s. induction n as [|n IH]; intros fuel retry base s; simpl.
  - intros [= -> -> ->] Hop Hr Hf. destruct fuel; [lia|]. simpl. unfold retry_iter. by rewrite Hop, Hr.
  - destruct (retry_iter op wait b retry base s) as [res|[[r1 b1] s0]] eqn:E; [done|].
    intros Ha Hop Hr Hf. destruct fuel; [lia|]. simpl. rewrite E. eapply IH; eauto. lia.
Qed.

(** The [i]-th delay of a capped exponential backoff. *)
Definition capped_delay (i : nat) : Z := Z.min (Cap b) (Base b * 2 ^ Z.of_nat i).

(** [base] is the exact exponential until it exceeds [Cap], then stays. *)
Definition base_inv (i : nat) (base : Z) : Prop :=
  base = Base b * 2 ^ Z.of_nat i \/ (Cap b < base /\ Cap b < Base b * 2 ^ Z.of_nat i).

Lemma base_inv_next i base :
  0 < Base b -> 0 < Cap b < 2 ^ 62 -> base_inv i base ->
  delay b base = capped_delay i /\
  base_inv (S i) (if delay b base =? base then int64 (base * 2) else base).
Proof.
  intros Hb Hc Hi. unfold delay, capped_delay, base_inv in *.
  rewrite (proj2 (Z.ltb_lt _ _)) by lia.
  rewrite Nat2Z.inj_succ, Z.pow_succ_r by lia.
  set (p := 2 ^ Z.of_nat i) in *. assert (0 < p) by (apply Z.pow_pos_nonneg; lia).
  assert (0 < Base b * p) by nia.
  split; [lia|].
  destruct (Z.eqb_spec (Z.min (Cap b) base) base) as [E|E].
  - assert (base = Base b * p) as -> by lia. left.
    rewrite (swrap_id 64) by (unfold in_sint; lia). lia.
  - right. destruct Hi as [->|[? ?]]; nia.
Qed.

Lemma retry_loop_delays fuel retry base s l res s' l' :
  0 < Base b -> 0 < Cap b < 2 ^ 62 ->
  base_inv (length (waits l)) base ->
  retry_loop (log_op op) (log_wait wait) b fuel retry base (s, l) = Some (res, (s', l')) ->
  exists ds, (waits l').*1 = (waits l).*1 ++ ds /\
    forall j d, ds !! j = Some d -> d = capped_delay (length (waits l) + j).
Proof.
  intros Hb Hc. revert retry base s l.
  induction fuel as [|fuel IH]; intros retry base s l Hi; simpl; [done|].
  destruct (base_inv_next _ _ Hb Hc Hi) as [Hd Hn].
  unfold retry_iter, log_op at 1; simpl.
  destruct (op _ s) as [err s1]. destruct (negb _).
  { intros [= <- <- <-]. exists []. simpl. rewrite app_nil_r. done. }
  destruct (_ && _).
  { intros [= <- <- <-]. exists []. simpl. rewrite app_nil_r. done. }
  unfold log_wait at 1; simpl.
  destruct (wait (delay b base) s1) as [[e|] s2].
  { intros [= <- <- <-]. exists [delay b base]. simpl. rewrite fmap_app. split; [done|].
    intros [|j] d; simpl; [|done]. intros [= <-]. by rewrite Nat.add_0_r. }
  intros Hrun. eapply IH in Hrun as (ds & E & Hds); simpl in *.
  2:{ rewrite length_app. simpl. by rewrite Nat.add_1_r. }
  exists (delay b base :: ds). rewrite E, fmap_app, <- app_assoc. split; [done|].
  intros [|j] d; simpl; [intros [= <-]; by rewrite Nat.add_0_r|].
  intros Hj. rewrite (Hds _ _ Hj), length_app. simpl. f_equal. lia.
Qed.

(** C38: with a cap below 2^62 ns the [i]-th wait lasts exactly
    [min Cap (Base * 2^i)]: the doubling never overflows an [int64], and
    the delay never exceeds the cap. *)
Theorem RetryWithBackoff_delays (fuel : nat) (s s' : St) (res : goerr) (l' : retry_log) :
  0 < Base b -> 0 < Cap b < 2 ^ 62 ->
  RetryWithBackoff (log_op op) (log_wait wait) b fuel (s, {| ops := []; waits := [] |})
    = Some (res, (s', l')) ->
  forall i d, (waits l').*1 !! i = Some d -> d = capped_delay i.
Proof.
  intros Hb Hc Hrun i d Hi.
  eapply retry_loop_delays in Hrun as (ds & E & Hds); simpl; try done.
  - rewrite E in Hi. apply (Hds i d Hi).
  - left. simpl. lia.
Qed.
End RetryProperties.

(** ** Concrete runs *)

(** An operation that fails with a retryable error [n] times, then succeeds. *)
Definition flaky (_ : Z) (n : nat) : goerr * nat :=
  match n with
  | O => (None, O)
  | S n' => (RetryableErrorf "flaky", n')
  end.
Definition never_done (_ : Z) (n : nat) : goerr * nat := (None, n).
Definition backoff2 : Backoff := {| Base := 10; Cap := 35; Max := 5 |}.

Lemma RetryWithBackoff_outcome_witness :
  retry_end backoff2 None
    {| ops := [(1, RetryableErrorf "flaky"); (2, RetryableErrorf "flaky"); (3, None)];
       waits := [(10, None); (20, None)] |} /\ [1; 2; 3] = seqZ 1 3.
Proof.
  apply (RetryWithBackoff_outcome flaky never_done backoff2 10 2%nat 0%nat None
    {| ops := [(1, RetryableErrorf "flaky"); (2, RetryableErrorf "flaky"); (3, None)];
       waits := [(10, None); (20, None)] |}); [lia|vm_compute; reflexivity].
Defined.

Lemma RetryWithBackoff_terminates_witness :
  is_Some (RetryWithBackoff flaky never_done backoff2 6 9%nat).
Proof.
  apply (RetryWithBackoff_terminates flaky never_done backoff2 9%nat). vm_compute. auto.
Defined.

Lemma RetryWithBackoff_delays_witness : 35 = capped_delay backoff2 3.
Proof.
  apply (RetryWithBackoff_delays flaky never_done backoff2 10 4%nat 0%nat None
    {| ops := [(1, RetryableErrorf "flaky"); (2, RetryableErrorf "flaky");
               (3, RetryableErrorf "flaky"); (4, RetryableErrorf "flaky"); (5, None)];
       waits := [(10, None); (20, None); (35, None); (35, None)] |});
    [simpl; lia|simpl; lia|vm_compute; reflexivity|reflexivity].
Defined.

(** ** Wrapping and unwrapping *)

Lemma ErrorRetryable_New (e : error) :
  ErrorRetryable (NewRetryableError (Some e)) = Some e /\
  IsRetryable (NewRetryableError (Some e)) = true.
Proof. done. Qed.

Lemma NewRetryableError_nil : NewRetryableError None = None.
Proof. done. Qed.

Lemma IsRetryable_nil : IsRetryable None = false.
Proof. done. Qed.

#[export] Hint Rewrite NewRetryableError_nil IsRetryable_nil : dda.
