(* ===== verification/GoStrings.v ===== *)
(** * The parts of Go's [strings], [strconv] and [path/filepath] the source uses

    With the round trips their users rely on: splitting what was joined and
    parsing what was formatted. *)

From Stdlib Require Import DecimalString DecimalZ DecimalFacts.
From S2P Require Import Prelude GoRuntime.

(** ** [strings] *)

Definition chr (s : string) : ascii :=
  match s with
  | String c _ => c
  | EmptyString => zero
  end.

(** [strings.Split] at a separator of one byte. *)
Fixpoint strings_Split (s : string) (sep : ascii) : list string :=
  match s with
  | EmptyString => [""]
  | String a s' =>
      if Ascii.eqb a sep then "" :: strings_Split s' sep
      else
        match strings_Split s' sep with
        | [] => [String a ""]
        | w :: ws => String a w :: ws
        end
  end.

Fixpoint strings_Join (elems : list string) (sep : string) : string :=
  match elems with
  | [] => ""
  | [e] => e
  | e :: rest => e +:+ sep +:+ strings_Join rest sep
  end.

Definition strings_HasPrefix (s prefix : string) : bool := String.prefix prefix s.

Definition strings_CutPrefix (s prefix : string) : string * bool :=
  if strings_HasPrefix s prefix
  then (String.substring (String.length prefix) (String.length s - String.length prefix) s, true)
  else (s, false).

(** [strings.LastIndex] of a one-byte substring. *)
Fixpoint last_index_from (i : Z) (s : string) (c : ascii) (last : Z) : Z :=
  match s with
  | EmptyString => last
  | String a s' => last_index_from (i + 1) s' c (if Ascii.eqb a c then i else last)
  end.
Definition strings_LastIndex (s : string) (c : ascii) : Z := last_index_from 0 s c (-1).

(** [s[i:]] for [0 <= i <= len(s)] *)
Definition string_from (s : string) (i : Z) : string :=
  String.substring (Z.to_nat i) (String.length s - Z.to_nat i) s.

(** No byte of the string is [c]. *)
Fixpoint string_free (c : ascii) (s : string) : bool :=
  match s with
  | EmptyString => true
  | String a s' => negb (Ascii.eqb a c) && string_free c s'
  end.

Lemma Split_free c s : string_free c s = true -> strings_Split s c = [s].
Proof.
  induction s as [|a s IH]; simpl; [done|]. destruct (Ascii.eqb a c); [done|]. simpl.
  intros Hs. by rewrite IH.
Qed.

Lemma Split_app c e s :
  string_free c e = true -> strings_Split (e +:+ String c s) c = e :: strings_Split s c.
Proof.
  induction e as [|a e IH]; simpl; [by rewrite Ascii.eqb_refl|].
  destruct (Ascii.eqb a c); [done|]. simpl. intros He. by rewrite IH.
Qed.

Lemma string_app_assoc (a b c : string) : (a +:+ b) +:+ c = a +:+ b +:+ c.
Proof.
  induction a as [|x a IH]; [done|].
  change (String x ((a +:+ b) +:+ c) = String x (a +:+ b +:+ c)). by rewrite IH.
Qed.

Lemma string_app_inj (p a b : string) : p +:+ a = p +:+ b -> a = b.
Proof. induction p as [|x p IH]; [done|]. intros [= E]. by apply IH. Qed.

(** Splitting what was joined. *)
Lemma Split_Join c (l : list string) :
  l <> [] -> forallb (string_free c) l = true -> strings_Split (strings_Join l (String c "")) c = l.
Proof.
  induction l as [|e l IH]; [done|]. intros _. simpl. intros [He Hl]%andb_true_iff.
  destruct l as [|e' l]; [by apply Split_free|].
  change (e +:+ String c "" +:+ strings_Join (e' :: l) (String c ""))
    with (e +:+ String c (strings_Join (e' :: l) (String c ""))).
  rewrite Split_app by done. by rewrite IH.
Qed.

Lemma string_free_app c s t : string_free c (s +:+ t) = string_free c s && string_free c t.
Proof. induction s as [|a s IH]; simpl; [done|]. by rewrite IH, andb_assoc. Qed.

(** ** [strconv] *)

(** [strconv.FormatInt(i, 10)] *)
Definition strconv_FormatInt (i : Z) : string := NilEmpty.string_of_int (Z.to_int i).

Definition parse_uint (s : string) : option Z :=
  match s with
  | EmptyString => None
  | _ => Z.of_uint <$> NilEmpty.uint_of_string s
  end.

Definition strconv_ErrSyntax : error := ErrVar "strconv.ErrSyntax" "invalid syntax" None.
Definition strconv_ErrRange : error := ErrVar "strconv.ErrRange" "value out of range" None.

(** [strconv.ParseInt(s, 10, 64)] *)
Definition strconv_ParseInt (s : string) : Z * goerr :=
  let '(neg, digits) :=
    match s with
    | String "+" r => (false, r)
    | String "-" r => (true, r)
    | _ => (false, s)
    end in
  match parse_uint digits with
  | None => (0, Some strconv_ErrSyntax)
  | Some un =>
      if neg then
        if 2 ^ 63 <? un then (- 2 ^ 63, Some strconv_ErrRange) else (- un, None)
      else if 2 ^ 63 <=? un then (2 ^ 63 - 1, Some strconv_ErrRange) else (un, None)
  end.

Lemma uint_string_nonempty (d : Decimal.uint) : d <> Decimal.Nil -> NilEmpty.string_of_uint d <> "".
Proof. by destruct d. Qed.

Lemma to_uint_nonnil (p : positive) : Pos.to_uint p <> Decimal.Nil.
Proof. apply DecimalPos.Unsigned.to_uint_nonnil. Qed.

Lemma parse_uint_to_uint (d : Decimal.uint) :
  d <> Decimal.Nil -> parse_uint (NilEmpty.string_of_uint d) = Some (Z.of_uint d).
Proof.
  intros Hd. unfold parse_uint. pose proof (uint_string_nonempty d Hd).
  destruct (NilEmpty.string_of_uint d) eqn:E; [done|]. rewrite <- E, NilEmpty.usu. done.
Qed.

(** A formatted natural number starts with a digit. *)
Lemma uint_string_digit (d : Decimal.uint) a s :
  NilEmpty.string_of_uint d = String a s -> a <> "+"%char /\ a <> "-"%char.
Proof. destruct d; simpl; intros E; by simplify_eq. Qed.

Lemma ParseInt_uint (d : Decimal.uint) :
  d <> Decimal.Nil -> strconv_ParseInt (NilEmpty.string_of_uint d) =
  if 2 ^ 63 <=? Z.of_uint d then (2 ^ 63 - 1, Some strconv_ErrRange) else (Z.of_uint d, None).
Proof.
  intros Hd. pose proof (parse_uint_to_uint d Hd) as Hp.
  unfold strconv_ParseInt. destruct (NilEmpty.string_of_uint d) as [|a s] eqn:E; [by destruct d|].
  destruct (uint_string_digit d a s E) as [Hplus Hminus].
  destruct a as [[] [] [] [] [] [] [] []]; try (by rewrite Hp); done.
Qed.

(** Parsing a formatted 64-bit integer gives it back. *)
Lemma ParseInt_FormatInt (z : Z) : in_sint 64 z -> strconv_ParseInt (strconv_FormatInt z) = (z, None).
Proof.
  unfold in_sint, strconv_FormatInt. intros Hz. destruct z as [|p|p].
  - done.
  - simpl. rewrite ParseInt_uint by apply to_uint_nonnil.
    assert (Z.of_uint (Pos.to_uint p) = Z.pos p) as -> by apply (DecimalZ.of_to (Z.pos p)).
    destruct (Z.leb_spec (2 ^ 63) (Z.pos p)); [lia|done].
  - unfold strconv_ParseInt. simpl. rewrite parse_uint_to_uint by apply to_uint_nonnil.
    assert (Z.of_uint (Pos.to_uint p) = Z.pos p) as -> by apply (DecimalZ.of_to (Z.pos p)).
    destruct (Z.ltb_spec (2 ^ 63) (Z.pos p)); [lia|done].
Qed.

(** ** [path/filepath] (Unix) *)

Definition clean_step (rooted : bool) (out : list string) (elem : string) : list string :=
  if String.eqb elem "" || String.eqb elem "." then out
  else if String.eqb elem ".." then
    match out with
    | x :: out' => if String.eqb x ".." then ".." :: out else out'
    | [] => if rooted then [] else [".."]
    end
  else elem :: out.

Definition filepath_Clean (path : string) : string :=
  if String.eqb path "" then "."
  else
    let rooted := strings_HasPrefix path "/" in
    let s := strings_Join (reverse (foldl (clean_step rooted) [] (strings_Split path "/"))) "/" in
    if rooted then "/" +:+ s else if String.eqb s "" then "." else s.

Fixpoint filepath_Join (elem : list string) : string :=
  match elem with
  | [] => ""
  | e :: rest => if String.eqb e "" then filepath_Join rest else filepath_Clean (strings_Join elem "/")
  end.

(** A name that cleaning a path leaves alone. *)
Definition plain_name (e : string) : Prop := string_free "/" e = true /\ e <> "" /\ e <> "." /\ e <> "..".

Lemma Split_nonempty (s : string) c : strings_Split s c <> [].
Proof. destruct s as [|a s]; simpl; [done|]. destruct (Ascii.eqb a c); [done|]. by destruct (strings_Split s c). Qed.

Lemma Split_snoc c (s t : string) : strings_Split (s +:+ String c t) c = strings_Split s c ++ strings_Split t c.
Proof.
  induction s as [|a s IH]; simpl; [by rewrite Ascii.eqb_refl|].
  destruct (Ascii.eqb a c); simpl; [by rewrite IH|]. rewrite IH. pose proof (Split_nonempty s c). by destruct (strings_Split s c).
Qed.

Lemma Join_snoc (l : list string) (sep : string) : exists pre, forall e, strings_Join (l ++ [e]) sep = pre +:+ e.
Proof.
  induction l as [|x l [pre IH]]; [by exists ""|].
  exists (x +:+ sep +:+ pre). intros e. rewrite !string_app_assoc, <- IH. by destruct l.
Qed.

Lemma clean_plain (rooted : bool) (out : list string) (e : string) :
  plain_name e -> clean_step rooted out e = e :: out.
Proof.
  intros (_ & H1 & H2 & H3). unfold clean_step.
  by rewrite (proj2 (String.eqb_neq e "") H1), (proj2 (String.eqb_neq e ".") H2), (proj2 (String.eqb_neq e "..") H3).
Qed.

Lemma HasPrefix_byte (c : ascii) (s t : string) :
  s <> "" -> strings_HasPrefix (s +:+ t) (String c "") = strings_HasPrefix s (String c "").
Proof.
  assert (forall s, String.prefix "" s = true) as Hp by by intros [].
  destruct s as [|a s]; [done|]. intros _. unfold strings_HasPrefix.
  change (String a s +:+ t) with (String a (s +:+ t)). cbn [String.prefix]. by rewrite !Hp.
Qed.

Lemma Join_plain (loc : string) :
  loc <> "" -> exists pre, forall e, plain_name e -> filepath_Join [loc; e] = pre +:+ e.
Proof.
  intros Hloc. set (rooted := strings_HasPrefix loc "/").
  destruct (Join_snoc (reverse (foldl (clean_step rooted) [] (strings_Split loc "/"))) "/") as [pre Hpre].
  exists (if rooted then "/" +:+ pre else pre). intros e He.
  change (filepath_Join [loc; e]) with (if String.eqb loc "" then filepath_Join [e] else filepath_Clean (loc +:+ String "/" e)).
  rewrite (proj2 (String.eqb_neq loc "") Hloc). unfold filepath_Clean.
  assert (String.eqb (loc +:+ String "/" e) "" = false) as -> by by destruct loc.
  assert (strings_HasPrefix (loc +:+ String "/" e) "/" = rooted) as -> by by apply HasPrefix_byte.
  rewrite Split_snoc, (Split_free "/" e), foldl_app by apply He. cbn [foldl]. rewrite clean_plain, reverse_cons, Hpre by done.
  destruct rooted; [done|]. destruct (String.eqb_spec (pre +:+ e) "") as [E|]; [|done].
  destruct He as (_ & He & _). destruct pre; [done|discriminate].
Qed.

(** Different names joined to one directory are different paths. *)
Lemma filepath_Join_ne (loc e1 e2 : string) :
  loc <> "" -> plain_name e1 -> plain_name e2 -> e1 <> e2 -> filepath_Join [loc; e1] <> filepath_Join [loc; e2].
Proof.
  intros Hloc H1 H2 Hne E. destruct (Join_plain loc Hloc) as [pre Hpre]. rewrite !Hpre in E by done.
  by apply string_app_inj in E.
Qed.
