(* ===== verification/Config.v ===== *)
(** * Configuration ([config/config.go])

    The configuration types, their validation, their defaults, and reading a
    configuration file. *)

From S2P Require Import Prelude GoRuntime GoStrings.

(** ** Validation of names used as topic levels *)

(** The bytes matched by the character class [[-_.0-9a-zA-Z]]. *)
Definition name_byte (c : byte) : bool :=
  let n := byte_val c in
  (n =? 45) || (n =? 95) || (n =? 46) ||
  ((48 <=? n) && (n <=? 57)) || ((97 <=? n) && (n <=? 122)) || ((65 <=? n) && (n <=? 90)).

(** [regexp.MustCompile("^[-_.0-9a-zA-Z]+$").MatchString]: without the [m]
    flag, [^] and [$] match only at the ends of the text; the class holds
    ASCII characters only, so a byte at or above 0x80 never matches. *)
Definition compliesWithNamingConvention (name : string) : bool :=
  match bytes_of_string name with
  | [] => false
  | b => forallb name_byte b
  end.

(** [strings.Join] *)
Definition quote : string := String (ascii_of_nat 34) "".

Definition ValidateName (name : string) (context : list string) : goerr :=
  if negb (compliesWithNamingConvention name) then
    Some (ErrText ("invalid " +:+ strings_Join context " " +:+ " " +:+ quote +:+ name +:+ quote
      +:+ ": must only contain characters 0-9, a-z, A-Z, dot, hyphen, or underscore"))
  else None.

Definition ValidateNonEmpty (value : string) (context : list string) : goerr :=
  if String.eqb value "" then
    Some (ErrText ("invalid " +:+ strings_Join context " " +:+ " " +:+ quote +:+ value +:+ quote
      +:+ ": must not be empty"))
  else None.

(** ** Configuration types *)

(** A value of a [map[string]any] of options as the YAML decoder makes it. *)
Inductive any :=
  | AnyInt (z : Z)
  | AnyBool (b : bool)
  | AnyString (s : string)
  | AnyOther.

(** [opts[key]]; [None] is the nil interface of a missing key. *)
Abbreviation Opts := (gmap string any).

(** [opts[key] == true] *)
Definition opt_is_true (opts : Opts) (key : string) : bool :=
  match opts !! key with
  | Some (AnyBool b) => b
  | _ => false
  end.

(** [switch v := opts[key].(type) { case int: ... }] *)
Definition opt_int (opts : Opts) (key : string) : option Z :=
  match opts !! key with
  | Some (AnyInt z) => Some z
  | _ => None
  end.

Record Identity := { Name : string; Id : string }.

Record ConfigApi := {
  Address : string;
  api_Disabled : bool;
  Keepalive : Z;
}.

Record ConfigWebApi := {
  web_Address : string;
  web_Disabled : bool;
  AccessControlAllowOrigin : list string;
}.

Record ConfigApis := {
  Grpc : ConfigApi;
  GrpcWeb : ConfigWebApi;
  apis_Cert : string;
  apis_Key : string;
}.

Record AuthOptions := {
  Method : string;
  Cert : string;
  Key : string;
  Verify_ : bool;
  Username : string;
  Password : string;
}.

Record ConfigComService := {
  com_Protocol : string;
  Url : string;
  Auth : AuthOptions;
  com_Opts : Opts;
  com_Disabled : bool;
}.

Record ConfigStoreService := {
  Engine : string;
  Location : string;
  store_Disabled : bool;
}.

Record ConfigStateService := {
  state_Protocol : string;
  Store : string;
  Bootstrap : bool;
  state_Disabled : bool;
  state_Opts : Opts;
}.

Record ConfigServices := {
  Com : ConfigComService;
  StoreSvc : ConfigStoreService;
  State : ConfigStateService;
}.

Record Config := {
  Version : string;
  Identity_ : Identity;
  Cluster : string;
  Apis : ConfigApis;
  Services : ConfigServices;
}.

Definition configSchemaVersion : string := "1".

Definition Verify (c : Config) : goerr :=
  if negb (String.eqb (Version c) configSchemaVersion) then
    Some (ErrText ("incompatible configuration version " +:+ quote +:+ Version c +:+ quote
      +:+ ", requiring version " +:+ quote +:+ configSchemaVersion +:+ quote))
  else
    match ValidateName (Cluster c) ["configuration cluster"] with
    | Some err => Some err
    | None => None
    end.

(** [New] draws the identity from [uuid.NewString()], passed in here. *)
Definition New (uuid : string) : Config := {|
  Version := configSchemaVersion;
  Identity_ := {| Name := "DDA"; Id := uuid |};
  Cluster := "dda";
  Apis := {|
    Grpc := {| Address := ":8900"; api_Disabled := false; Keepalive := 2 * 3600 * Second |};
    GrpcWeb := {| web_Address := ":8800"; web_Disabled := false; AccessControlAllowOrigin := [] |};
    apis_Cert := "";
    apis_Key := "";
  |};
  Services := {|
    Com := {|
      com_Protocol := "mqtt5";
      Url := "";
      Auth := {| Method := "none"; Cert := ""; Key := ""; Verify_ := true;
                 Username := ""; Password := "" |};
      com_Opts := ∅;
      com_Disabled := false;
    |};
    StoreSvc := {| Engine := "pebble"; Location := ""; store_Disabled := true |};
    State := {| state_Protocol := "raft"; Store := ""; Bootstrap := false;
                state_Disabled := true; state_Opts := ∅ |};
  |};
|}.

Section ReadConfig.
(** [os.ReadFile] and [yaml.Unmarshal], which updates
    the configuration it is given. *)
Variable read_file : string -> bytes + error.
Variable yaml_Unmarshal : bytes -> Config -> goerr * Config.

Definition ReadConfig (uuid : string) (file : string) : Config + error :=
  match read_file (filepath_Clean file) with
  | inr err => inr err
  | inl c =>
      let config := New uuid in
      match yaml_Unmarshal c config with
      | (Some err, _) => inr err
      | (None, config) => inl config
      end
  end.
End ReadConfig.

(** ** Properties of validated names *)

(** A name that contains no byte of another kind. *)
Definition good_name (name : string) : Prop :=
  name <> ""%string /\ Forall (fun c => name_byte c = true) (bytes_of_string name).

Lemma compliesWithNamingConvention_spec (name : string) :
  compliesWithNamingConvention name = true <-> good_name name.
Proof.
  unfold compliesWithNamingConvention, good_name. destruct name as [|c name].
  - simpl. split; [done|]. by intros [[] _].
  - change (bytes_of_string (String c name)) with (c :: bytes_of_string name).
    rewrite forallb_Forall. split; [done|]. by intros [_ H].
Qed.

Lemma ValidateName_nil (name : string) (context : list string) :
  ValidateName name context = None <-> good_name name.
Proof.
  rewrite <- compliesWithNamingConvention_spec. unfold ValidateName.
  destruct (compliesWithNamingConvention name); simpl; split; done.
Qed.

Lemma ValidateNonEmpty_nil (value : string) (context : list string) :
  ValidateNonEmpty value context = None <-> value <> ""%string.
Proof. unfold ValidateNonEmpty. destruct (String.eqb_spec value ""); simplify_eq/=; split; done. Qed.

#[export] Hint Rewrite ValidateName_nil ValidateNonEmpty_nil : dda.

(** A topic separator, a wildcard or a space is not a byte of a name. *)
Lemma name_byte_not_special (c : byte) :
  name_byte c = true -> c <> "/"%char /\ c <> "+"%char /\ c <> "#"%char /\ c <> "$"%char.
Proof. intros H. repeat split; intros ->; by vm_compute in H. Qed.

(** [ValidateName] accepts exactly the non-empty names over the
    characters 0-9, a-z, A-Z, dot, hyphen and underscore; an accepted name
    holds no topic separator, wildcard or [$], so it is one topic level. *)
Theorem ValidateName_one_level (name : string) (context : list string) :
  (ValidateName name context = None <-> good_name name) /\
  (ValidateName name context = None ->
   name <> ""%string /\ Forall (fun c => c <> "/"%char /\ c <> "+"%char /\ c <> "#"%char /\ c <> "$"%char)
                  (bytes_of_string name)).
Proof.
  split; [apply ValidateName_nil|].
  intros [Hne Hall]%ValidateName_nil. split; [done|].
  eapply Forall_impl; [exact Hall|]. apply name_byte_not_special.
Qed.

(** The defaults verify. *)
Lemma Verify_New (uuid : string) : Verify (New uuid) = None.
Proof. reflexivity. Qed.

Lemma Verify_nil (c : Config) :
  Verify c = None <-> Version c = configSchemaVersion /\ good_name (Cluster c).
Proof.
  unfold Verify. destruct (String.eqb_spec (Version c) configSchemaVersion) as [E|E]; simpl.
  - destruct (ValidateName _ _) eqn:Ev.
    + split; [done|]. intros [_ Hg].
      apply (ValidateName_nil _ ["configuration cluster"%string]) in Hg. congruence.
    + split; [|done]. intros _. split; [done|]. by apply ValidateName_nil in Ev.
  - split; [done|]. by intros [? _].
Qed.
