(* ===== verification/StoreApi.v ===== *)
(** * The storage API ([services/store/api/api.go])

    The operations a storage binding offers to its clients (the gRPC server,
    the agent, the Raft log and stable store), and what it promises them, as
    two type classes: [StoreApi] is the Go interface, [StoreApiLaws] its
    contract, stated on a map of keys to values. *)

From S2P Require Import Prelude GoRuntime.

(** ** Key ranges *)

(** [lo <= key < hi]; a [nil] bound does not restrict the keys. *)
Definition above (lo : slice) (k : bytes) : Prop := bytes_le (sl lo) k.
Definition below (hi : slice) (k : bytes) : Prop :=
  match hi with None => True | Some h => bytes_lt k h end.
Definition in_range (lo hi : slice) (k : bytes) : Prop := above lo k /\ below hi k.

#[global] Instance in_range_dec lo hi k : Decision (in_range lo hi k).
Proof. unfold in_range, above, below. destruct hi; apply _. Defined.

(** What a range deletion ends at.  [DeleteRange] is documented for a
    right-open range; that a missing end key means no bound, as it does for a
    scan ([unbounded]), is not: a nil key can as well be the empty key it
    compares equal to, below which there is none. *)
Definition deletion_end (unbounded : bool) (hi : slice) : slice :=
  match hi with
  | Some h => Some h
  | None => if unbounded then None else Some []
  end.

Lemma below_empty k : ~ below (Some []) k.
Proof. apply bytes_lt_nil. Qed.

(** The key-value pairs of [m] in a range, in ascending key order. *)
Record sorted_items (m : gmap bytes bytes) (lo hi : slice) (l : list (bytes * bytes)) : Prop := {
  items_sorted : StronglySorted bytes_lt l.*1;
  items_elem : forall k v, (k, v) ∈ l <-> m !! k = Some v /\ in_range lo hi k;
}.

(** Visiting pairs with a callback that may stop the scan. *)
Fixpoint scan_items {St} (cb : bytes -> bytes -> St -> bool * St)
    (l : list (bytes * bytes)) (s : St) : St :=
  match l with
  | [] => s
  | (k, v) :: l' => let '(continue, s') := cb k v s in
                  if continue then scan_items cb l' s' else s'
  end.

Lemma StronglySorted_lt_NoDup (l : list bytes) : StronglySorted bytes_lt l -> NoDup l.
Proof.
  induction 1 as [|x l _ IH Hx]; constructor; [|done].
  intros Hin. rewrite Forall_forall in Hx. by apply (bytes_lt_irrefl x), Hx.
Qed.

(** Two sorted lists with the same elements are equal. *)
Lemma sorted_keys_unique (l1 l2 : list (bytes * bytes)) :
  StronglySorted bytes_lt l1.*1 -> StronglySorted bytes_lt l2.*1 ->
  (forall kv, kv ∈ l1 <-> kv ∈ l2) -> l1 = l2.
Proof.
  revert l2. induction l1 as [|[k1 v1] l1 IH]; intros [|[k2 v2] l2] H1 H2 Hin.
  - done.
  - exfalso. apply (not_elem_of_nil (k2, v2)), Hin. left.
  - exfalso. apply (not_elem_of_nil (k1, v1)), Hin. left.
  - simpl in H1, H2. apply StronglySorted_inv in H1 as [H1 F1], H2 as [H2 F2].
    rewrite Forall_forall in F1, F2.
    assert (forall l k v, (k, v) ∈ l -> k ∈ (l : list (bytes * bytes)).*1) as Hk.
    { intros l k v Hl. apply list_elem_of_fmap. by exists (k, v). }
    assert ((k1, v1) = (k2, v2)) as [= -> ->].
    { pose proof (proj1 (Hin (k1, v1)) (ltac:(left))) as [E1|E1]%elem_of_cons; [done|].
      pose proof (proj2 (Hin (k2, v2)) (ltac:(left))) as [E2|E2]%elem_of_cons; [done|].
      exfalso. apply (bytes_lt_irrefl k1). eapply bytes_lt_trans; [apply F1|apply F2]; eauto. }
    f_equal. apply IH; [done..|]. intros kv. split; intros Hkv.
    + pose proof (proj1 (Hin kv) (ltac:(by right))) as H.
      apply elem_of_cons in H as [H|H]; [subst kv|done].
      exfalso. apply (bytes_lt_irrefl k2), F1. eauto.
    + pose proof (proj2 (Hin kv) (ltac:(by right))) as H.
      apply elem_of_cons in H as [H|H]; [subst kv|done].
      exfalso. apply (bytes_lt_irrefl k2), F2. eauto.
Qed.

(** ** The interface *)

(** [type ScanKeyValueB = func(key []byte, value []byte) bool] and
    [type ScanKeyValue = func(key string, value []byte) bool], with the
    callback's own state passed along.  Loops over the store take fuel; the
    contract says how much is enough. *)
Abbreviation ScanKeyValueB St := (bytes -> bytes -> St -> bool * St).
Abbreviation ScanKeyValue St := (string -> bytes -> St -> bool * St).

Class StoreApi (B : Type) := {
  api_Get : B -> string -> slice * goerr;
  api_GetB : B -> slice -> slice * goerr;
  api_Set : B -> string -> slice -> goerr * B;
  api_SetB : B -> slice -> slice -> goerr * B;
  api_Delete : B -> string -> goerr * B;
  api_DeleteB : B -> slice -> goerr * B;
  api_DeleteAll : nat -> B -> option (goerr * B);
  api_DeletePrefix : B -> string -> goerr * B;
  api_DeletePrefixB : B -> slice -> goerr * B;
  api_DeleteRange : B -> string -> string -> goerr * B;
  api_DeleteRangeB : B -> slice -> slice -> goerr * B;
  api_ScanPrefix : forall {St}, nat -> B -> string -> ScanKeyValue St -> St -> option (goerr * St);
  api_ScanPrefixB : forall {St}, nat -> B -> slice -> ScanKeyValueB St -> St -> option (goerr * St);
  api_ScanRange : forall {St}, nat -> B -> string -> string -> ScanKeyValue St -> St -> option (goerr * St);
  api_ScanRangeB : forall {St}, nat -> B -> slice -> slice -> ScanKeyValueB St -> St -> option (goerr * St);
  api_ScanRangeReverseB :
    forall {St}, nat -> B -> slice -> slice -> ScanKeyValueB St -> St -> option (goerr * St);
  api_KeyUpperBound : slice -> slice;
}.

(** The string-keyed methods are the byte-keyed ones on the key's bytes. *)
Definition string_cb {St} (cb : ScanKeyValue St) : ScanKeyValueB St :=
  fun key value => cb (string_of_bytes key) value.

(** What a successful call does to the map a binding holds; [None] is a
    binding that is not open.  Nothing is promised about the map after an
    engine error. *)
Class StoreApiLaws (B : Type) `{StoreApi B} := {
  store_view : B -> option (gmap bytes bytes);
  nil_end_unbounded : bool;   (* see [deletion_end] *)

  GetB_open : forall b k v, api_GetB b k = (v, None) ->
    exists m, store_view b = Some m /\ v = m !! sl k;
  SetB_open : forall b k v b', api_SetB b k v = (None, b') ->
    exists m v', store_view b = Some m /\ v = Some v' /\ store_view b' = Some (<[sl k := v']> m);
  DeleteB_open : forall b k b', api_DeleteB b k = (None, b') ->
    exists m, store_view b = Some m /\ store_view b' = Some (delete (sl k) m);
  DeleteRangeB_open : forall b lo hi b', api_DeleteRangeB b lo hi = (None, b') ->
    exists m, store_view b = Some m /\
      store_view b' = Some (filter (fun kv => ~ in_range lo (deletion_end nil_end_unbounded hi) kv.1) m);
  ScanRangeB_open : forall St fuel b lo hi (cb : ScanKeyValueB St) s s',
    api_ScanRangeB fuel b lo hi cb s = Some (None, s') ->
    exists m l, store_view b = Some m /\ sorted_items m lo hi l /\ s' = scan_items cb l s;
  ScanRangeReverseB_open : forall St fuel b lo hi (cb : ScanKeyValueB St) s s',
    api_ScanRangeReverseB fuel b lo hi cb s = Some (None, s') ->
    exists m l, store_view b = Some m /\ sorted_items m lo hi l /\ s' = scan_items cb (reverse l) s;
  Scan_fuel : forall St fuel b lo hi (cb : ScanKeyValueB St) s,
    (forall m, store_view b = Some m -> (size m < fuel)%nat) ->
    is_Some (api_ScanRangeB fuel b lo hi cb s) /\
    is_Some (api_ScanRangeReverseB fuel b lo hi cb s);

  KeyUpperBound_nil : forall k,
    api_KeyUpperBound k = None <-> Forall (fun c => byte_val c = 255) (sl k);
  Get_string : forall b k, api_Get b k = api_GetB b (Some (bytes_of_string k));
  Set_string : forall b k v, api_Set b k v = api_SetB b (Some (bytes_of_string k)) v;
  Delete_string : forall b k, api_Delete b k = api_DeleteB b (Some (bytes_of_string k));
  ScanRange_string : forall St fuel b lo hi (cb : ScanKeyValue St) s,
    api_ScanRange fuel b lo hi cb s =
    api_ScanRangeB fuel b (Some (bytes_of_string lo)) (Some (bytes_of_string hi)) (string_cb cb) s;
}.
