(* ===== verification/Pebble.v ===== *)
(** * The Pebble storage binding ([services/store/pebble/pebble.go])

    [PebbleBinding] over the Pebble engine, which is a parameter: the class
    [PebbleEngine] has the engine's functions the source calls, and
    [PebbleLaws] the documented behaviour of them it relies on. *)

From Stdlib Require Import Sorting.Sorted.
From S2P Require Import Prelude GoRuntime Services Config StoreApi.

(** ** The engine *)

Class PebbleEngine := {
  DB : Type;      (* *pebble.DB *)
  Iter : Type;    (* *pebble.Iterator *)
  Disk : Type;    (* the file system *)
  (* pebble.Open(loc, opts): [mem] when opts.FS is a fresh vfs.NewMem() *)
  eng_Open : Disk -> string -> bool -> DB + error;
  eng_Close : DB -> Disk -> goerr * Disk;
  eng_Get : DB -> bytes -> bytes + error;
  (* the last argument is pebble.Sync (true) or pebble.NoSync *)
  eng_Set : DB -> bytes -> bytes -> bool -> goerr * DB;
  eng_Delete : DB -> bytes -> bool -> goerr * DB;
  eng_DeleteRange : DB -> slice -> slice -> bool -> goerr * DB;
  eng_Flush : DB -> goerr * DB;
  (* LowerBound and UpperBound of the options *)
  eng_NewIter : DB -> slice -> slice -> Iter;
  iter_First : Iter -> Iter;
  iter_Last : Iter -> Iter;
  iter_Next : Iter -> Iter;
  iter_Prev : Iter -> Iter;
  iter_Valid : Iter -> bool;
  iter_Key : Iter -> bytes;
  iter_Value : Iter -> bytes;
  iter_Close : Iter -> goerr;
}.

(** [pebble.ErrNotFound] *)
Definition ErrNotFound : error := ErrVar "pebble.ErrNotFound" "pebble: not found" None.

(** The documented behaviour: point operations act on a map, an iterator is a
    snapshot of the pairs within its bounds in key order, and an iterator
    that stops being valid without having been exhausted reports an error
    when it is closed.  Of a range deletion without an end key the
    documentation says nothing, so it is left open which of the two readings
    of [deletion_end] the engine has.

    [db_durable] is what a crash leaves of a database: a write with
    [pebble.Sync] makes all there is durable, as does a flush that succeeds,
    and closing writes it to the database's own directory.  A write is applied
    atomically: one that fails has taken effect or not, for its readers and on
    the disk, and closing with an error leaves what was durable or all. *)
Class PebbleLaws `{PebbleEngine} := {
  db_view : DB -> gmap bytes bytes;
  db_durable : DB -> gmap bytes bytes;
  db_loc : DB -> option string;   (* None: in memory *)
  disk_view : Disk -> string -> gmap bytes bytes;
  it_items : Iter -> list (bytes * bytes);
  it_pos : Iter -> Z;

  open_mem : forall disk loc db, eng_Open disk loc true = inl db ->
    db_view db = ∅ /\ db_loc db = None;
  open_loc : forall disk loc db, eng_Open disk loc false = inl db ->
    db_loc db = Some loc /\ db_view db = disk_view disk loc /\ db_durable db = disk_view disk loc;
  close_loc : forall db disk disk' loc, db_loc db = Some loc -> eng_Close db disk = (None, disk') ->
    forall l, disk_view disk' l = if decide (l = loc) then db_view db else disk_view disk l;

  get_found : forall db k v, eng_Get db k = inl v -> db_view db !! k = Some v;
  get_not_found : forall db k e, eng_Get db k = inr e ->
    err_eqb (Some e) (Some ErrNotFound) = true -> db_view db !! k = None;
  set_view : forall db k v sync db', eng_Set db k v sync = (None, db') ->
    db_view db' = <[k := v]> (db_view db) /\ db_loc db' = db_loc db;
  delete_view : forall db k sync db', eng_Delete db k sync = (None, db') ->
    db_view db' = delete k (db_view db) /\ db_loc db' = db_loc db;
  eng_nil_unbounded : bool;
  delete_range_view : forall db lo hi sync db',
    eng_DeleteRange db lo hi sync = (None, db') ->
    db_view db' = filter (fun kv => ~ in_range lo (deletion_end eng_nil_unbounded hi) kv.1) (db_view db) /\
    db_loc db' = db_loc db;
  flush_view : forall db err db', eng_Flush db = (err, db') ->
    db_view db' = db_view db /\ db_loc db' = db_loc db /\ (err = None -> db_durable db' = db_view db);
  set_durable : forall db k v db', eng_Set db k v true = (None, db') -> db_durable db' = db_view db';
  delete_durable : forall db k db', eng_Delete db k true = (None, db') -> db_durable db' = db_view db';
  delete_range_durable : forall db lo hi db', eng_DeleteRange db lo hi true = (None, db') ->
    db_durable db' = db_view db';

  set_failed : forall db k v sync err db', eng_Set db k v sync = (Some err, db') ->
    db_loc db' = db_loc db /\ db_view db' ∈ [db_view db; <[k := v]> (db_view db)] /\
    db_durable db' ∈ [db_durable db; db_view db; <[k := v]> (db_view db)];
  delete_range_failed : forall db lo hi sync err db', eng_DeleteRange db lo hi sync = (Some err, db') ->
    let deleted := filter (fun kv => ~ in_range lo (deletion_end eng_nil_unbounded hi) kv.1) (db_view db) in
    db_loc db' = db_loc db /\ db_view db' ∈ [db_view db; deleted] /\
    db_durable db' ∈ [db_durable db; db_view db; deleted];
  close_failed : forall db disk err disk' loc, db_loc db = Some loc -> eng_Close db disk = (Some err, disk') ->
    disk_view disk' loc ∈ [db_durable db; db_view db] /\
    forall l, l <> loc -> disk_view disk' l = disk_view disk l;

  new_iter_items : forall db lo hi, sorted_items (db_view db) lo hi (it_items (eng_NewIter db lo hi));
  first_pos : forall it, it_items (iter_First it) = it_items it /\ it_pos (iter_First it) = 0;
  last_pos : forall it, it_items (iter_Last it) = it_items it /\
    it_pos (iter_Last it) = Z.of_nat (length (it_items it)) - 1;
  next_pos : forall it, iter_Valid it = true ->
    it_items (iter_Next it) = it_items it /\ it_pos (iter_Next it) = it_pos it + 1;
  prev_pos : forall it, iter_Valid it = true ->
    it_items (iter_Prev it) = it_items it /\ it_pos (iter_Prev it) = it_pos it - 1;
  valid_item : forall it, iter_Valid it = true ->
    0 <= it_pos it /\ it_items it !! Z.to_nat (it_pos it) = Some (iter_Key it, iter_Value it);
  invalid_end : forall it, iter_Valid it = false -> iter_Close it = None ->
    it_pos it < 0 \/ Z.of_nat (length (it_items it)) <= it_pos it;
}.

(** ** The binding *)

Section Binding.
Context `{PebbleEngine}.

(** [type PebbleBinding struct]: [db] is nil until the binding is open.
    Each method runs under [mu] and is one step here. *)
Record PebbleBinding := { db : option DB }.

Definition with_db (d : DB) : PebbleBinding := {| db := Some d |}.

Definition not_open (what : string) : goerr :=
  Some (ErrText (what +:+ " failed as binding is not yet open")).

Definition Open (cfg : Config) (disk : Disk) (b : PebbleBinding) : goerr * PebbleBinding :=
  match db b with
  | Some _ => (None, b)
  | None =>
      let loc := Location (StoreSvc (Services cfg)) in
      match eng_Open disk loc (String.eqb loc "") with
      | inr err => (Some err, {| db := None |})
      | inl d => (None, {| db := Some d |})
      end
  end.

(** A failure of the engine is logged only. *)
Definition Close (disk : Disk) (b : PebbleBinding) : Disk * PebbleBinding :=
  match db b with
  | None => (disk, b)
  | Some d => let '(err, disk') := eng_Close d disk in (disk', {| db := None |})
  end.

Definition GetB (b : PebbleBinding) (key : slice) : slice * goerr :=
  match db b with
  | None => (None, not_open ("GetB " +:+ fmt_bytes key))
  | Some d =>
      match eng_Get d (sl key) with
      | inr err =>
          if err_eqb (Some err) (Some ErrNotFound) then (None, None)
          else (None, NewRetryableError (Some err))
      | inl v => (Some v, None)
      end
  end.

Definition Get (b : PebbleBinding) (key : string) : slice * goerr :=
  GetB b (Some (bytes_of_string key)).

(** The outcome of an engine call that changes the database. *)
Definition engine_result (r : goerr * DB) : goerr * PebbleBinding :=
  match r with
  | (Some err, d) => (NewRetryableError (Some err), with_db d)
  | (None, d) => (None, with_db d)
  end.

Definition SetB (b : PebbleBinding) (key : slice) (value : slice) : goerr * PebbleBinding :=
  match value with
  | None => (Some (ErrText ("SetB " +:+ fmt_bytes key +:+ " failed as value must not be nil")), b)
  | Some v =>
      match db b with
      | None => (not_open ("SetB " +:+ fmt_bytes key), b)
      | Some d => engine_result (eng_Set d (sl key) v true)
      end
  end.

Definition Set_ (b : PebbleBinding) (key : string) (value : slice) : goerr * PebbleBinding :=
  SetB b (Some (bytes_of_string key)) value.

Definition DeleteB (b : PebbleBinding) (key : slice) : goerr * PebbleBinding :=
  match db b with
  | None => (not_open ("DeleteB " +:+ fmt_bytes key), b)
  | Some d => engine_result (eng_Delete d (sl key) true)
  end.

Definition Delete (b : PebbleBinding) (key : string) : goerr * PebbleBinding :=
  DeleteB b (Some (bytes_of_string key)).

(** The loop of [DeleteAll]: the error of the first failing deletion, with
    the iterator at that point. *)
Fixpoint delete_loop (fuel : nat) (it : Iter) (d : DB) : option (goerr * Iter * DB) :=
  match fuel with
  | O => None
  | S fuel' =>
      if iter_Valid it then
        match eng_Delete d (iter_Key it) false with
        | (Some err, d') => Some (Some err, it, d')
        | (None, d') => delete_loop fuel' (iter_Next it) d'
        end
      else Some (None, it, d)
  end.

Definition fmt_err (e : goerr) : string :=
  match e with Some e => Error e | None => "%!w(<nil>)" end.

(** The error of the deferred [Flush] is dropped. *)
Definition DeleteAll (fuel : nat) (b : PebbleBinding) : option (goerr * PebbleBinding) :=
  match db b with
  | None => Some (not_open "DeleteAll", b)
  | Some d =>
      match delete_loop fuel (iter_First (eng_NewIter d None None)) d with
      | None => None
      | Some (Some err, it, d') =>
          Some (NewRetryableError (Some (ErrText ("DeleteAll failed on key "
                  +:+ fmt_bytes (Some (iter_Key it)) +:+ ": " +:+ Error err +:+ ": "
                  +:+ fmt_err (iter_Close it)))),
                with_db (eng_Flush d').2)
      | Some (None, it, d') => Some (iter_Close it, with_db (eng_Flush d').2)
      end
  end.

(** The loop of [KeyUpperBound] for the indices below [n], last to first:
    [end[i] = end[i] + 1], wrapping at 256. *)
Fixpoint upper_bound_loop (n : nat) (end_ : bytes) : slice :=
  match n with
  | O => None
  | S i =>
      let x := byte_of (byte_val (end_ !!! i) + 1) in
      let end_ := <[i := x]> end_ in
      if negb (byte_val x =? 0) then Some (take (i + 1) end_)
      else upper_bound_loop i end_
  end.

Definition KeyUpperBound (key : slice) : slice :=
  upper_bound_loop (length (sl key)) (sl key).

Definition DeletePrefixB (b : PebbleBinding) (prefix : slice) : goerr * PebbleBinding :=
  match db b with
  | None => (not_open ("DeletePrefixB " +:+ fmt_bytes prefix), b)
  | Some d => engine_result (eng_DeleteRange d prefix (KeyUpperBound prefix) true)
  end.

Definition DeletePrefix (b : PebbleBinding) (prefix : string) : goerr * PebbleBinding :=
  DeletePrefixB b (Some (bytes_of_string prefix)).

Definition fmt_range (start end_ : slice) : string :=
  "[" +:+ fmt_bytes start +:+ "," +:+ fmt_bytes end_ +:+ ")".

Definition DeleteRangeB (b : PebbleBinding) (start end_ : slice) : goerr * PebbleBinding :=
  match db b with
  | None => (not_open ("DeleteRangeB " +:+ fmt_range start end_), b)
  | Some d => engine_result (eng_DeleteRange d start end_ true)
  end.

Definition DeleteRange (b : PebbleBinding) (start end_ : string) : goerr * PebbleBinding :=
  DeleteRangeB b (Some (bytes_of_string start)) (Some (bytes_of_string end_)).

Section Scan.
Context {St : Type}.

(** The loops of the scans, [advance] being [iter.Next] or [iter.Prev]. *)
Fixpoint scan_loop (advance : Iter -> Iter) (fuel : nat) (it : Iter)
    (callback : ScanKeyValueB St) (s : St) : option (Iter * St) :=
  match fuel with
  | O => None
  | S fuel' =>
      if iter_Valid it then
        let '(continue, s') := callback (iter_Key it) (iter_Value it) s in
        if continue then scan_loop advance fuel' (advance it) callback s'
        else Some (it, s')
      else Some (it, s)
  end.

Definition finish_scan (r : option (Iter * St)) : option (goerr * St) :=
  match r with
  | None => None
  | Some (it, s) => Some (iter_Close it, s)
  end.

Definition ScanPrefixB (fuel : nat) (b : PebbleBinding) (prefix : slice)
    (callback : ScanKeyValueB St) (s : St) : option (goerr * St) :=
  match db b with
  | None => Some (not_open ("ScanPrefixB " +:+ fmt_bytes prefix), s)
  | Some d =>
      let it := eng_NewIter d prefix (KeyUpperBound prefix) in
      finish_scan (scan_loop iter_Next fuel (iter_First it) callback s)
  end.

Definition ScanPrefix (fuel : nat) (b : PebbleBinding) (prefix : string)
    (callback : ScanKeyValue St) (s : St) : option (goerr * St) :=
  ScanPrefixB fuel b (Some (bytes_of_string prefix)) (string_cb callback) s.

Definition ScanRangeB (fuel : nat) (b : PebbleBinding) (start end_ : slice)
    (callback : ScanKeyValueB St) (s : St) : option (goerr * St) :=
  match db b with
  | None => Some (not_open ("ScanRangeB " +:+ fmt_range start end_), s)
  | Some d =>
      let it := eng_NewIter d start end_ in
      finish_scan (scan_loop iter_Next fuel (iter_First it) callback s)
  end.

Definition ScanRange (fuel : nat) (b : PebbleBinding) (start end_ : string)
    (callback : ScanKeyValue St) (s : St) : option (goerr * St) :=
  ScanRangeB fuel b (Some (bytes_of_string start)) (Some (bytes_of_string end_))
    (string_cb callback) s.

Definition ScanRangeReverseB (fuel : nat) (b : PebbleBinding) (start end_ : slice)
    (callback : ScanKeyValueB St) (s : St) : option (goerr * St) :=
  match db b with
  | None => Some (not_open ("ScanRangeReverseB " +:+ fmt_range start end_), s)
  | Some d =>
      let it := eng_NewIter d start end_ in
      finish_scan (scan_loop iter_Prev fuel (iter_Last it) callback s)
  end.
End Scan.
End Binding.

(** ** The exclusive upper bound of a prefix *)

Definition xff : byte := byte_of 255.

Lemma byte_val_xff : byte_val xff = 255.
Proof. reflexivity. Qed.

Lemma byte_val_succ (c : byte) :
  (c = xff /\ byte_val (byte_of (byte_val c + 1)) = 0) \/
  (byte_val c < 255 /\ byte_val (byte_of (byte_val c + 1)) = byte_val c + 1).
Proof.
  rewrite byte_val_of. pose proof (byte_val_range c).
  destruct (decide (byte_val c = 255)) as [E|E].
  - left. split; [|by rewrite E]. unfold xff. by rewrite <- E, byte_of_val.
  - right. split; [lia|]. apply Z.mod_small. lia.
Qed.

Lemma upper_bound_loop_spec (n : nat) (e : bytes) :
  (n <= length e)%nat ->
  match upper_bound_loop n e with
  | None => take n e = replicate n xff
  | Some u => exists q c m, take n e = q ++ c :: replicate m xff /\
                byte_val c < 255 /\ u = q ++ [byte_of (byte_val c + 1)]
  end.
Proof.
  revert e. induction n as [|i IH]; intros e Hn; simpl upper_bound_loop; [done|].
  assert (i < length e)%nat as Hi by lia.
  pose proof (list_lookup_lookup_total_lt e i Hi) as Hc. set (c := e !!! i) in *.
  rewrite (take_S_r _ _ _ Hc).
  destruct (byte_val_succ c) as [[Ec E0]|[Hlt E1]].
  - rewrite E0. simpl. specialize (IH (<[i:=byte_of (byte_val c + 1)]> e)).
    rewrite length_insert, take_insert_ge in IH by lia. specialize (IH ltac:(lia)).
    destruct (upper_bound_loop _ _) as [u|].
    + destruct IH as (q & d & m & -> & ? & ->). exists q, d, (S m). split_and!; [|done..].
      by rewrite replicate_S_end, <- app_assoc, Ec.
    + rewrite IH, Ec. by rewrite <- replicate_S_end.
  - rewrite E1. pose proof (byte_val_range c). destruct (Z.eqb_spec (byte_val c + 1) 0); [lia|]. simpl.
    exists (take i e), c, O. split_and!; [done|lia|].
    rewrite Nat.add_1_r. erewrite take_S_r by (by apply list_lookup_insert_eq).
    by rewrite take_insert_ge.
Qed.

Lemma ff_le_prefix (m : nat) (k : bytes) :
  bytes_le (replicate m xff) k -> replicate m xff `prefix_of` k.
Proof.
  revert k. induction m as [|m IH]; intros k; simpl; [intros; apply prefix_nil|].
  destruct k as [|x k]; [by intros H; destruct H|].
  unfold bytes_le. cbn [bytes_compare]. pose proof (byte_val_range x). pose proof byte_val_xff.
  destruct (Z.compare_spec (byte_val xff) (byte_val x)) as [E|E|E]; [|lia|done].
  intros Hle. by apply prefix_cons_alt; [apply byte_val_inj|apply IH].
Qed.

Lemma prefix_le (p k : bytes) : p `prefix_of` k -> bytes_le p k.
Proof. intros [k' ->]. apply bytes_le_app. Qed.

(** [KeyUpperBound] returns nil exactly for the keys made of 0xFF bytes
    only (the empty key included), and otherwise a key such that the keys in
    [[prefix, KeyUpperBound(prefix))] are exactly the keys with that prefix;
    when it returns nil the keys with that prefix are those at or above it. *)
Theorem KeyUpperBound_prefix_range (prefix : slice) :
  (KeyUpperBound prefix = None <-> sl prefix = replicate (length (sl prefix)) xff) /\
  (forall k, sl prefix `prefix_of` k <-> in_range prefix (KeyUpperBound prefix) k).
Proof.
  unfold KeyUpperBound, in_range, above. set (p := sl prefix).
  pose proof (upper_bound_loop_spec (length p) p ltac:(done)) as Hs.
  rewrite take_ge in Hs by done.
  destruct (upper_bound_loop (length p) p) as [u|].
  - destruct Hs as (q & c & m & Ep & Hc & ->). split.
    + split; [done|]. intros E. exfalso.
      assert (c ∈ p) as Hin by (rewrite Ep; set_solver).
      rewrite E in Hin. apply elem_of_replicate in Hin as [-> _].
      rewrite byte_val_xff in Hc. lia.
    + intros k. rewrite Ep. destruct (byte_val_succ c) as [[-> ?]|[? E1]];
        [rewrite byte_val_xff in Hc; lia|].
      split.
      * intros Hk. split; [by apply prefix_le|]. destruct Hk as [k' ->]. unfold below, bytes_lt.
        rewrite <- app_assoc, bytes_compare_app. simpl. rewrite E1.
        destruct (Z.compare_spec (byte_val c) (byte_val c + 1)); [lia|done|lia].
      * intros [Hle Hlt]. destruct (bytes_between _ _ _ _ Hle Hlt) as (k' & -> & Hle' & Hlt').
        apply prefix_app. destruct k' as [|x k']; [by destruct Hle'|].
        unfold bytes_le, bytes_lt in Hle', Hlt'. simpl in Hle', Hlt'. rewrite E1 in Hlt'.
        destruct (Z.compare_spec (byte_val x) (byte_val c + 1)); [by destruct k'| |done].
        destruct (Z.compare_spec (byte_val c) (byte_val x)) as [E|E|E]; [|lia|done].
        by apply prefix_cons_alt; [apply byte_val_inj|apply ff_le_prefix].
  - split; [done|]. intros k. split.
    + intros Hk. split; [by apply prefix_le|done].
    + intros [Hle _]. rewrite Hs in *. by apply ff_le_prefix.
Qed.

(** ** Loops over an iterator *)

Section Loops.
Context `{PebbleLaws}.

(** Invariant of a forward loop: the iterator stands at the items still to
    be visited. *)
Definition ahead (it : Iter) : list (bytes * bytes) := drop (Z.to_nat (it_pos it)) (it_items it).
(** Of a backward loop. *)
Definition behind (it : Iter) : list (bytes * bytes) :=
  reverse (take (Z.to_nat (it_pos it + 1)) (it_items it)).

Lemma ahead_valid it : iter_Valid it = true ->
  ahead it = (iter_Key it, iter_Value it) :: ahead (iter_Next it) /\ 0 <= it_pos (iter_Next it).
Proof.
  intros Hv. destruct (valid_item it Hv) as [Hp Hi]. destruct (next_pos it Hv) as [E1 E2].
  unfold ahead. rewrite E1, E2, Z2Nat.inj_add, Nat.add_1_r by lia.
  split; [by apply drop_S|lia].
Qed.

Lemma ahead_invalid it :
  iter_Valid it = false -> iter_Close it = None -> 0 <= it_pos it -> ahead it = [].
Proof.
  intros Hv Hc Hp. destruct (invalid_end it Hv Hc); [lia|].
  apply drop_ge. lia.
Qed.

Lemma behind_valid it : iter_Valid it = true ->
  behind it = (iter_Key it, iter_Value it) :: behind (iter_Prev it) /\
  it_pos (iter_Prev it) < Z.of_nat (length (it_items (iter_Prev it))).
Proof.
  intros Hv. destruct (valid_item it Hv) as [Hp Hi]. destruct (prev_pos it Hv) as [E1 E2].
  pose proof (lookup_lt_Some _ _ _ Hi). unfold behind. rewrite E1, E2.
  replace (it_pos it - 1 + 1) with (it_pos it) by lia.
  rewrite Z2Nat.inj_add, Nat.add_1_r by lia. split; [|lia].
  by rewrite (take_S_r _ _ _ Hi), reverse_snoc.
Qed.

Lemma behind_invalid it :
  iter_Valid it = false -> iter_Close it = None ->
  it_pos it < Z.of_nat (length (it_items it)) -> behind it = [].
Proof.
  intros Hv Hc Hp. destruct (invalid_end it Hv Hc); [|lia].
  unfold behind. replace (Z.to_nat (it_pos it + 1)) with O by lia. done.
Qed.

Lemma scan_next_spec {St} (cb : ScanKeyValueB St) fuel it it' s s' :
  0 <= it_pos it -> scan_loop iter_Next fuel it cb s = Some (it', s') ->
  iter_Close it' = None -> s' = scan_items cb (ahead it) s.
Proof.
  revert it s. induction fuel as [|fuel IH]; intros it s Hp; simpl; [done|].
  destruct (iter_Valid it) eqn:Hv.
  - destruct (ahead_valid it Hv) as [-> Hn]. simpl.
    destruct (cb _ _ s) as [[] s1]; [by apply IH|]. by intros [= <- <-].
  - intros [= <- <-] Hc. by rewrite (ahead_invalid it Hv Hc Hp).
Qed.

Lemma scan_prev_spec {St} (cb : ScanKeyValueB St) fuel it it' s s' :
  it_pos it < Z.of_nat (length (it_items it)) ->
  scan_loop iter_Prev fuel it cb s = Some (it', s') ->
  iter_Close it' = None -> s' = scan_items cb (behind it) s.
Proof.
  revert it s. induction fuel as [|fuel IH]; intros it s Hp; simpl; [done|].
  destruct (iter_Valid it) eqn:Hv.
  - destruct (behind_valid it Hv) as [-> Hn]. simpl.
    destruct (cb _ _ s) as [[] s1]; [by apply IH|]. by intros [= <- <-].
  - intros [= <- <-] Hc. by rewrite (behind_invalid it Hv Hc Hp).
Qed.

Lemma scan_next_fuel {St} (cb : ScanKeyValueB St) fuel it s :
  0 <= it_pos it -> (length (ahead it) < fuel)%nat -> is_Some (scan_loop iter_Next fuel it cb s).
Proof.
  revert it s. induction fuel as [|fuel IH]; intros it s Hp; simpl; [lia|].
  destruct (iter_Valid it) eqn:Hv; [|by eauto].
  destruct (ahead_valid it Hv) as [-> Hn]. simpl.
  destruct (cb _ _ s) as [[] s1]; [|by eauto]. intros. apply IH; [done|lia].
Qed.

Lemma scan_prev_fuel {St} (cb : ScanKeyValueB St) fuel it s :
  (length (behind it) < fuel)%nat -> is_Some (scan_loop iter_Prev fuel it cb s).
Proof.
  revert it s. induction fuel as [|fuel IH]; intros it s; simpl; [lia|].
  destruct (iter_Valid it) eqn:Hv; [|by eauto].
  destruct (behind_valid it Hv) as [-> Hn]. simpl.
  destruct (cb _ _ s) as [[] s1]; [|by eauto]. intros. apply IH. lia.
Qed.

Lemma ahead_first d lo hi :
  ahead (iter_First (eng_NewIter d lo hi)) = it_items (eng_NewIter d lo hi) /\
  0 <= it_pos (iter_First (eng_NewIter d lo hi)).
Proof. unfold ahead. destruct (first_pos (eng_NewIter d lo hi)) as [-> ->]. by split. Qed.

Lemma behind_last d lo hi :
  behind (iter_Last (eng_NewIter d lo hi)) = reverse (it_items (eng_NewIter d lo hi)) /\
  it_pos (iter_Last (eng_NewIter d lo hi)) < Z.of_nat (length (it_items (iter_Last (eng_NewIter d lo hi)))).
Proof.
  unfold behind. destruct (last_pos (eng_NewIter d lo hi)) as [-> ->]. split; [|lia].
  rewrite take_ge by lia. done.
Qed.

(** The items within some bounds are at most the pairs of the map. *)
Lemma sorted_items_size m lo hi l : sorted_items m lo hi l -> (length l <= size m)%nat.
Proof.
  intros [Hs He]. rewrite <- length_map_to_list. apply submseteq_length, NoDup_submseteq.
  - by apply (NoDup_fmap_1 fst), StronglySorted_lt_NoDup.
  - intros [k v] Hin. apply elem_of_map_to_list. by apply He.
Qed.

Lemma delete_loop_spec fuel it d it' d' :
  0 <= it_pos it -> delete_loop fuel it d = Some (None, it', d') ->
  iter_Close it' = None ->
  db_view d' = foldl (fun m kv => delete kv.1 m) (db_view d) (ahead it) /\ db_loc d' = db_loc d.
Proof.
  revert it d. induction fuel as [|fuel IH]; intros it d Hp; simpl; [done|].
  destruct (iter_Valid it) eqn:Hv.
  - destruct (ahead_valid it Hv) as [-> Hn]. simpl.
    destruct (eng_Delete _ _ _) as [[e|] d1] eqn:Ed; [done|].
    apply delete_view in Ed as [<- <-]. by apply IH.
  - intros [= <- <-] Hc. by rewrite (ahead_invalid it Hv Hc Hp).
Qed.

Lemma delete_loop_fuel fuel it d :
  0 <= it_pos it -> (length (ahead it) < fuel)%nat -> is_Some (delete_loop fuel it d).
Proof.
  revert it d. induction fuel as [|fuel IH]; intros it d Hp; simpl; [lia|].
  destruct (iter_Valid it) eqn:Hv; [|by eauto].
  destruct (ahead_valid it Hv) as [-> Hn]. simpl.
  destruct (eng_Delete _ _ _) as [[e|] d1]; [by eauto|]. intros. apply IH; [done|lia].
Qed.

Lemma foldl_delete_lookup (l : list (bytes * bytes)) (m : gmap bytes bytes) k :
  foldl (fun m kv => delete kv.1 m) m l !! k = if decide (k ∈ l.*1) then None else m !! k.
Proof.
  revert m. induction l as [|[k' v] l IH]; intros m.
  - done.
  - change (foldl _ m ((k', v) :: l)) with (foldl (fun (m : gmap bytes bytes) (kv : bytes * bytes) =>
      delete kv.1 m) (delete k' m) l).
    rewrite IH, fmap_cons. simpl fst. repeat case_decide; try done.
    + match goal with Hc : k ∉ k' :: _ |- _ => destruct Hc; by right end.
    + match goal with Hc : k ∈ _ :: _ |- _ => apply elem_of_cons in Hc as [<-|]; [|done] end.
      apply lookup_delete_eq.
    + apply lookup_delete_ne. intros ->. match goal with Hc : k ∉ k :: _ |- _ => destruct Hc; left end.
Qed.
End Loops.

(** ** The binding implements the storage API *)

#[export] Instance pebble_StoreApi `{PebbleEngine} : StoreApi PebbleBinding := {|
  api_Get := Get; api_GetB := GetB; api_Set := Set_; api_SetB := SetB;
  api_Delete := Delete; api_DeleteB := DeleteB; api_DeleteAll := DeleteAll;
  api_DeletePrefix := DeletePrefix; api_DeletePrefixB := DeletePrefixB;
  api_DeleteRange := DeleteRange; api_DeleteRangeB := DeleteRangeB;
  api_ScanPrefix := @ScanPrefix _; api_ScanPrefixB := @ScanPrefixB _;
  api_ScanRange := @ScanRange _; api_ScanRangeB := @ScanRangeB _;
  api_ScanRangeReverseB := @ScanRangeReverseB _; api_KeyUpperBound := KeyUpperBound;
|}.

Section Refinement.
Context `{PebbleLaws}.

Definition view (b : PebbleBinding) : option (gmap bytes bytes) := db_view <$> db b.

(** Destruct the engine call of a method, keeping the successful case. *)
Ltac engine_ok :=
  match goal with
  | |- context [engine_result ?r] =>
      let E := fresh "E" in destruct r as [[?|] ?] eqn:E; simpl; [done|intros [= <-]]
  end.

Lemma GetB_view b k v : GetB b k = (v, None) -> exists m, view b = Some m /\ v = m !! sl k.
Proof.
  unfold GetB, view. destruct b as [[d|]]; simpl; [|done]. intros Hg. exists (db_view d).
  split; [done|]. destruct (eng_Get d (sl k)) as [w|e] eqn:E.
  - simplify_eq. symmetry. by apply get_found.
  - destruct (err_eqb (Some e) (Some ErrNotFound)) eqn:En; simplify_eq.
    symmetry. by eapply get_not_found; [exact E|].
Qed.

Lemma SetB_view b k v b' : SetB b k v = (None, b') ->
  exists m w, view b = Some m /\ v = Some w /\ view b' = Some (<[sl k := w]> m).
Proof.
  unfold SetB, view. destruct v as [w|]; [|done]. destruct b as [[d|]]; simpl; [|done].
  engine_ok. exists (db_view d), w. simpl. apply set_view in E as [-> _]. done.
Qed.

Lemma DeleteB_view b k b' : DeleteB b k = (None, b') ->
  exists m, view b = Some m /\ view b' = Some (delete (sl k) m).
Proof.
  unfold DeleteB, view. destruct b as [[d|]]; simpl; [|done].
  engine_ok. exists (db_view d). simpl. apply delete_view in E as [-> _]. done.
Qed.

(** The pairs a range deletion leaves. *)
Definition without_range (lo hi : slice) (m : gmap bytes bytes) : gmap bytes bytes :=
  filter (fun kv => ~ in_range lo (deletion_end eng_nil_unbounded hi) kv.1) m.

Lemma DeleteRangeB_view b lo hi b' : DeleteRangeB b lo hi = (None, b') ->
  exists m, view b = Some m /\ view b' = Some (without_range lo hi m).
Proof.
  unfold DeleteRangeB, view. destruct b as [[d|]]; simpl; [|done].
  engine_ok. exists (db_view d). simpl. apply delete_range_view in E as [-> _]. done.
Qed.

Lemma finish_scan_Some {St} (r : option (Iter * St)) s' :
  finish_scan r = Some (None, s') -> exists it, r = Some (it, s') /\ iter_Close it = None.
Proof. destruct r as [[it s]|]; simpl; [|done]. intros [= Hc <-]. eauto. Qed.

Lemma ScanRangeB_view St fuel b lo hi (cb : ScanKeyValueB St) s s' :
  ScanRangeB fuel b lo hi cb s = Some (None, s') ->
  exists m l, view b = Some m /\ sorted_items m lo hi l /\ s' = scan_items cb l s.
Proof.
  unfold ScanRangeB, view. destruct b as [[d|]]; simpl; [|done].
  intros (it & Hl & Hc)%finish_scan_Some. destruct (ahead_first d lo hi) as [Ea Hp].
  eexists _, _. split; [done|]. split; [apply (new_iter_items d lo hi)|].
  rewrite <- Ea. by eapply scan_next_spec.
Qed.

Lemma ScanRangeReverseB_view St fuel b lo hi (cb : ScanKeyValueB St) s s' :
  ScanRangeReverseB fuel b lo hi cb s = Some (None, s') ->
  exists m l, view b = Some m /\ sorted_items m lo hi l /\ s' = scan_items cb (reverse l) s.
Proof.
  unfold ScanRangeReverseB, view. destruct b as [[d|]]; simpl; [|done].
  intros (it & Hl & Hc)%finish_scan_Some. destruct (behind_last d lo hi) as [Ea Hp].
  eexists _, _. split; [done|]. split; [apply (new_iter_items d lo hi)|].
  rewrite <- Ea. by eapply scan_prev_spec.
Qed.

Lemma new_iter_size d lo hi : (length (it_items (eng_NewIter d lo hi)) <= size (db_view d))%nat.
Proof. eapply sorted_items_size, new_iter_items. Qed.

Lemma Scan_view_fuel St fuel b lo hi (cb : ScanKeyValueB St) s :
  (forall m, view b = Some m -> (size m < fuel)%nat) ->
  is_Some (ScanRangeB fuel b lo hi cb s) /\ is_Some (ScanRangeReverseB fuel b lo hi cb s).
Proof.
  unfold view, ScanRangeB, ScanRangeReverseB. destruct b as [[d|]]; simpl; [|by eauto].
  intros Hf. specialize (Hf _ eq_refl). pose proof (new_iter_size d lo hi).
  destruct (ahead_first d lo hi) as [Ea Hp], (behind_last d lo hi) as [Eb Hq].
  split.
  - destruct (scan_next_fuel cb fuel (iter_First (eng_NewIter d lo hi)) s Hp) as [[it s1] ->];
      [rewrite Ea; lia|by eexists].
  - destruct (scan_prev_fuel cb fuel (iter_Last (eng_NewIter d lo hi)) s) as [[it s1] ->];
      [rewrite Eb, length_reverse; lia|by eexists].
Qed.

Lemma KeyUpperBound_none p : KeyUpperBound p = None <-> Forall (fun c => byte_val c = 255) (sl p).
Proof.
  rewrite (proj1 (KeyUpperBound_prefix_range p)). split.
  - intros ->. by apply Forall_replicate.
  - intros Hp. symmetry. apply replicate_as_Forall. split; [done|]. eapply Forall_impl; [exact Hp|].
    intros c Hc. by apply byte_val_inj.
Qed.

#[export] Instance pebble_StoreApiLaws : StoreApiLaws PebbleBinding := {|
  store_view := view; nil_end_unbounded := eng_nil_unbounded; KeyUpperBound_nil := KeyUpperBound_none;
  GetB_open := GetB_view; SetB_open := SetB_view; DeleteB_open := DeleteB_view;
  DeleteRangeB_open := DeleteRangeB_view; ScanRangeB_open := ScanRangeB_view;
  ScanRangeReverseB_open := ScanRangeReverseB_view; Scan_fuel := Scan_view_fuel;
  Get_string := fun _ _ => eq_refl; Set_string := fun _ _ _ => eq_refl;
  Delete_string := fun _ _ => eq_refl; ScanRange_string := fun _ _ _ _ _ _ _ => eq_refl;
|}.

Lemma DeleteAll_view fuel b b' :
  DeleteAll fuel b = Some (None, b') -> is_Some (view b) /\ view b' = Some ∅.
Proof.
  unfold DeleteAll, view. destruct b as [[d|]]; simpl; [|done].
  destruct (ahead_first d None None) as [Ea Hp].
  destruct (delete_loop _ _ _) as [[[[e|] it] d']|] eqn:E; simpl; [done| |done].
  intros [= Hc <-]. split; [by eauto|]. simpl.
  destruct (delete_loop_spec _ _ _ _ _ Hp E Hc) as [Ev _].
  destruct (eng_Flush d') as [ef df] eqn:Ef. simpl. destruct (flush_view _ _ _ Ef) as [-> _]. rewrite Ev, Ea. f_equal. apply map_eq. intros k.
  rewrite foldl_delete_lookup, lookup_empty. case_decide as Hin; [done|].
  destruct (db_view d !! k) as [v|] eqn:Hk; [|done]. exfalso. apply Hin, list_elem_of_fmap.
  exists (k, v). split; [done|]. apply (new_iter_items d None None).
  split; [done|]. split; [apply bytes_nil_le|done].
Qed.

Lemma DeleteAll_fuel fuel b :
  (forall m, view b = Some m -> (size m < fuel)%nat) -> is_Some (DeleteAll fuel b).
Proof.
  unfold DeleteAll, view. destruct b as [[d|]]; simpl; [|by eauto]. intros Hf.
  specialize (Hf _ eq_refl). pose proof (new_iter_size d None None).
  destruct (ahead_first d None None) as [Ea Hp].
  destruct (delete_loop_fuel fuel (iter_First (eng_NewIter d None None)) d Hp) as [[[[e|] it] d'] ->];
    [rewrite Ea; lia|by eexists..].
Qed.

(** The pairs a prefix deletion leaves: none with the prefix, unless this has
    no upper bound and the engine deletes nothing without an end key. *)
Definition without_prefix (unbounded : bool) (p : slice) (m : gmap bytes bytes) : gmap bytes bytes :=
  if decide (Forall (fun c => byte_val c = 255) (sl p) /\ unbounded = false) then m
  else filter (fun kv => ~ sl p `prefix_of` kv.1) m.

Lemma without_range_prefix p m :
  without_range p (KeyUpperBound p) m = without_prefix eng_nil_unbounded p m.
Proof.
  unfold without_range, without_prefix. destruct (KeyUpperBound_prefix_range p) as [_ Hp].
  assert (filter (fun kv => ~ in_range p (KeyUpperBound p) kv.1) m = filter (fun kv => ~ sl p `prefix_of` kv.1) m) as E.
  { apply map_filter_ext. intros k v _. simpl. by rewrite Hp. }
  unfold deletion_end. destruct (decide _) as [[Hn Hu]|Hn]; rewrite <- KeyUpperBound_none in Hn.
  2:{ destruct (KeyUpperBound p) as [u|]; [exact E|]. destruct eng_nil_unbounded; [exact E|]. by destruct Hn. }
  rewrite Hn, Hu. apply map_filter_id. intros k v _ [_ Hk]. by apply below_empty in Hk.
Qed.

Lemma DeletePrefixB_view b p b' : DeletePrefixB b p = (None, b') ->
  exists m, view b = Some m /\ view b' = Some (without_prefix eng_nil_unbounded p m).
Proof.
  destruct b as [[d|]]; [|done]. intros E.
  destruct (DeleteRangeB_view {| db := Some d |} p (KeyUpperBound p) b' E) as (m & Hm & Hv).
  exists m. by rewrite <- without_range_prefix.
Qed.

Lemma ScanPrefixB_range St fuel b p (cb : ScanKeyValueB St) s :
  view b <> None -> ScanPrefixB fuel b p cb s = ScanRangeB fuel b p (KeyUpperBound p) cb s.
Proof. unfold ScanPrefixB, ScanRangeB, view. by destruct b as [[d|]]. Qed.
End Refinement.

(** ** What a crash leaves *)

Section Durable.
Context `{PebbleLaws}.

(** The binding is open at a directory, and [R] holds of the pairs it reads
    as well as of those that are durable. *)
Definition holds_at (loc : string) (R : gmap bytes bytes -> Prop) (b : PebbleBinding) : Prop :=
  exists d, db b = Some d /\ db_loc d = Some loc /\ R (db_view d) /\ R (db_durable d).

Lemma holds_at_mono loc R R' b : (forall m, R m -> R' m) -> holds_at loc R b -> holds_at loc R' b.
Proof. intros HR (d & ? & ? & ? & ?). exists d. auto. Qed.

Lemma Open_durable cfg disk b :
  Location (StoreSvc (Services cfg)) <> "" -> Open cfg disk {| db := None |} = (None, b) ->
  holds_at (Location (StoreSvc (Services cfg)))
    (fun m => m = disk_view disk (Location (StoreSvc (Services cfg)))) b.
Proof.
  intros Hloc. unfold Open. simpl. rewrite (proj2 (String.eqb_neq _ _) Hloc).
  destruct (eng_Open _ _ false) as [d|e] eqn:Eo; [|done]. intros [= <-].
  destruct (open_loc _ _ _ Eo) as (Hl & Hv & Hd). by exists d.
Qed.

(** A map is one of some alternatives, of all of which [R] holds. *)
Lemma one_of (R : gmap bytes bytes -> Prop) m ms : m ∈ ms -> foldr (fun x P => R x /\ P) True ms -> R m.
Proof.
  induction ms as [|x ms IH]; [by intros ?%not_elem_of_nil|]. intros [->|Hm]%elem_of_cons [Hx Hms]; auto.
Qed.

(** A write that succeeds is durable, and one that fails has happened or not. *)
Lemma SetB_holds loc R R' b k v err b' :
  SetB b k v = (err, b') -> holds_at loc R b ->
  (err <> None -> forall m, R m -> R' m) ->
  (forall m w, v = Some w -> R m -> R' (<[sl k := w]> m)) -> holds_at loc R' b'.
Proof.
  intros Hs (d & Hd & Hl & HV & HD) Hf Hw. unfold SetB in Hs. destruct v as [w|].
  2:{ injection Hs as <- <-. exists d. split_and!; [done|done|apply Hf; done..]. }
  rewrite Hd in Hs. specialize (Hw _ w eq_refl HV). destruct (eng_Set d (sl k) w true) as [[e|] d'] eqn:E; simpl in Hs;
    injection Hs as <- <-; (exists d'; split; [done|]).
  - destruct (set_failed _ _ _ _ _ _ E) as (Hl' & HV' & HD').
    rewrite Hl'. split_and!; [done|eapply one_of; [exact HV'|]|eapply one_of; [exact HD'|]]; simpl; auto.
  - destruct (set_view _ _ _ _ _ E) as [HV' Hl']. rewrite Hl', (set_durable _ _ _ _ E), HV'. done.
Qed.

Lemma DeleteRangeB_holds loc R R' b lo hi err b' :
  DeleteRangeB b lo hi = (err, b') -> holds_at loc R b ->
  (err <> None -> forall m, R m -> R' m) ->
  (forall m, R m -> R' (without_range lo hi m)) -> holds_at loc R' b'.
Proof.
  intros Hs (d & Hd & Hl & HV & HD) Hf Hw. unfold DeleteRangeB in Hs. rewrite Hd in Hs. specialize (Hw _ HV).
  destruct (eng_DeleteRange d lo hi true) as [[e|] d'] eqn:E; simpl in Hs;
    injection Hs as <- <-; (exists d'; split; [done|]).
  - destruct (delete_range_failed _ _ _ _ _ _ E) as (Hl' & HV' & HD').
    rewrite Hl'. split_and!; [done|eapply one_of; [exact HV'|]|eapply one_of; [exact HD'|]]; simpl; auto.
  - destruct (delete_range_view _ _ _ _ _ E) as [HV' Hl']. rewrite Hl', (delete_range_durable _ _ _ _ E), HV'. done.
Qed.

(** Closing, with or without an error of the engine. *)
Lemma Close_holds loc R b disk disk' b' :
  Close disk b = (disk', b') -> holds_at loc R b ->
  R (disk_view disk' loc) /\ forall l, l <> loc -> disk_view disk' l = disk_view disk l.
Proof.
  intros Hs (d & Hd & Hl & HV & HD). unfold Close in Hs. rewrite Hd in Hs.
  destruct (eng_Close d disk) as [[e|] disk1] eqn:E; injection Hs as <- _.
  - destruct (close_failed _ _ _ _ _ Hl E) as [Hv Ho].
    split; [eapply one_of; [exact Hv|simpl; auto]|done].
  - pose proof (close_loc _ _ _ _ Hl E) as Hv. split; [by rewrite Hv, decide_True|].
    intros l Hne. by rewrite Hv, decide_False.
Qed.

(** What a crash of the process or the machine leaves of an open store. *)
Definition crashed (b : PebbleBinding) (disk' : Disk) : Prop :=
  forall d loc, db b = Some d -> db_loc d = Some loc -> disk_view disk' loc = db_durable d.

Lemma crashed_holds loc R b disk' : crashed b disk' -> holds_at loc R b -> R (disk_view disk' loc).
Proof. intros Hc (d & Hd & Hl & _ & HD). by rewrite (Hc d loc Hd Hl). Qed.
End Durable.

(** ** An in-memory engine, for concrete runs *)

Module MemEngine.
(** [durable] is what was synced or flushed. *)
Record mem_db := { map : gmap bytes bytes; durable : gmap bytes bytes; loc : option string }.
Record mem_iter := { items : list (bytes * bytes); pos : Z }.

Definition key_le (p q : bytes * bytes) : Prop := bytes_le p.1 q.1.
#[local] Instance key_le_dec p q : Decision (key_le p q).
Proof. apply bytes_le_dec. Defined.
#[local] Instance key_le_total : Total key_le.
Proof. intros p q. apply bytes_le_total. Qed.
#[local] Instance key_le_trans : Transitive key_le.
Proof. intros p q r. apply bytes_le_trans. Qed.

Definition items_of (m : gmap bytes bytes) (lo hi : slice) : list (bytes * bytes) :=
  merge_sort key_le (map_to_list (filter (fun kv => in_range lo hi kv.1) m)).

Lemma key_le_strict l :
  StronglySorted key_le l -> NoDup l.*1 -> StronglySorted bytes_lt l.*1.
Proof.
  induction 1 as [|p l Hs IH Hall]; [constructor|].
  rewrite !fmap_cons. intros [Hnin Hn]%NoDup_cons. constructor; [by apply IH|].
  rewrite Forall_fmap. rewrite Forall_forall in Hall |- *. intros q Hq. simpl.
  destruct (proj1 (bytes_le_lteq _ _) (Hall q Hq)) as [?|E]; [done|].
  destruct Hnin. rewrite E. by apply list_elem_of_fmap_2.
Qed.

Lemma items_of_sorted m lo hi : sorted_items m lo hi (items_of m lo hi).
Proof.
  unfold items_of. set (m' := filter _ m).
  pose proof (merge_sort_Permutation key_le (map_to_list m')) as Hp.
  pose proof (StronglySorted_merge_sort key_le (map_to_list m')) as Hs.
  assert (NoDup (merge_sort key_le (map_to_list m')).*1) as Hn.
  { rewrite Hp. apply NoDup_fst_map_to_list. }
  split; [by apply key_le_strict|].
  intros k v. rewrite Hp, elem_of_map_to_list. unfold m'.
  rewrite map_lookup_filter_Some. done.
Qed.

Definition valid (it : mem_iter) : bool := (0 <=? pos it) && (pos it <? Z.of_nat (length (items it))).
Definition current (it : mem_iter) : bytes * bytes := default ([], []) (items it !! Z.to_nat (pos it)).
Definition move (f : Z -> Z) (it : mem_iter) : mem_iter := {| items := items it; pos := f (pos it) |}.

Definition write (d : mem_db) (m : gmap bytes bytes) (sync : bool) : mem_db :=
  {| map := m; durable := if sync then m else durable d; loc := loc d |}.

#[export] Instance engine : PebbleEngine := {|
  DB := mem_db;
  Iter := mem_iter;
  Disk := gmap string (gmap bytes bytes);
  eng_Open disk l mem := inl (if mem then {| map := ∅; durable := ∅; loc := None |}
                              else {| map := default ∅ (disk !! l); durable := default ∅ (disk !! l); loc := Some l |});
  eng_Close d disk := (None, match loc d with Some l => <[l := map d]> disk | None => disk end);
  eng_Get d k := match map d !! k with Some v => inl v | None => inr ErrNotFound end;
  eng_Set d k v sync := (None, write d (<[k := v]> (map d)) sync);
  eng_Delete d k sync := (None, write d (delete k (map d)) sync);
  eng_DeleteRange d lo hi sync :=
    (None, write d (filter (fun kv => ~ in_range lo (deletion_end false hi) kv.1) (map d)) sync);
  eng_Flush d := (None, write d (map d) true);
  eng_NewIter d lo hi := {| items := items_of (map d) lo hi; pos := -1 |};
  iter_First := move (fun _ => 0);
  iter_Last it := move (fun _ => Z.of_nat (length (items it)) - 1) it;
  iter_Next := move (fun p => p + 1);
  iter_Prev := move (fun p => p - 1);
  iter_Valid := valid;
  iter_Key it := (current it).1;
  iter_Value it := (current it).2;
  iter_Close _ := None;
|}.

Lemma valid_current it : valid it = true ->
  0 <= pos it /\ items it !! Z.to_nat (pos it) = Some ((current it).1, (current it).2).
Proof.
  unfold valid, current. intros Hv. split; [lia|].
  destruct (lookup_lt_is_Some_2 (items it) (Z.to_nat (pos it))) as [[k v] ->]; [lia|done].
Qed.

Lemma invalid_pos it : valid it = false -> pos it < 0 \/ Z.of_nat (length (items it)) <= pos it.
Proof. unfold valid. lia. Qed.

#[export] Instance laws : PebbleLaws.
Proof.
  refine {| db_view := map; db_durable := durable; db_loc := loc; it_items := items; it_pos := pos;
            disk_view := fun disk l => default ∅ ((disk : Disk) !! l); eng_nil_unbounded := false |};
    simpl; intros; simplify_eq/=; try done.
  - rewrite H. case_decide as E; [subst; by rewrite lookup_insert_eq|by rewrite lookup_insert_ne].
  - by destruct (map db0 !! k); simplify_eq.
  - by destruct (map db0 !! k); simplify_eq.
  - apply items_of_sorted.
  - by apply valid_current.
  - by apply invalid_pos.
Defined.
End MemEngine.

(** An engine whose flushes fail. *)
Module Unflushed.
Import MemEngine.

#[export] Instance engine : PebbleEngine := {|
  DB := mem_db; Iter := mem_iter; Disk := @Disk MemEngine.engine;
  eng_Open := @eng_Open MemEngine.engine; eng_Close := @eng_Close MemEngine.engine;
  eng_Get := @eng_Get MemEngine.engine; eng_Set := @eng_Set MemEngine.engine;
  eng_Delete := @eng_Delete MemEngine.engine; eng_DeleteRange := @eng_DeleteRange MemEngine.engine;
  eng_Flush := fun d => (Some (ErrText "flush failed"), d);
  eng_NewIter := @eng_NewIter MemEngine.engine;
  iter_First := @iter_First MemEngine.engine; iter_Last := @iter_Last MemEngine.engine;
  iter_Next := @iter_Next MemEngine.engine; iter_Prev := @iter_Prev MemEngine.engine;
  iter_Valid := @iter_Valid MemEngine.engine; iter_Key := @iter_Key MemEngine.engine;
  iter_Value := @iter_Value MemEngine.engine; iter_Close := @iter_Close MemEngine.engine;
|}.

#[export] Instance laws : PebbleLaws.
Proof.
  refine {| db_view := map; db_durable := durable; db_loc := loc; it_items := items; it_pos := pos;
            disk_view := fun disk l => default ∅ ((disk : Disk) !! l); eng_nil_unbounded := false |};
    simpl; intros; simplify_eq/=; try done.
  - rewrite H. case_decide as E; [subst; by rewrite lookup_insert_eq|by rewrite lookup_insert_ne].
  - by destruct (map db0 !! k); simplify_eq.
  - by destruct (map db0 !! k); simplify_eq.
  - apply items_of_sorted.
  - by apply valid_current.
  - by apply invalid_pos.
Defined.

Definition one_pair : gmap bytes bytes := {[bytes_of_string "k" := bytes_of_string "v"]}.
Definition full : PebbleBinding :=
  with_db ({| map := one_pair; durable := one_pair; loc := Some "here" |} : DB).
Definition emptied : PebbleBinding :=
  with_db ({| map := ∅; durable := one_pair; loc := Some "here" |} : DB).
(** [DeleteAll] deletes without syncing and leaves that to a flush whose
    error it drops: if the flush fails, it succeeds all the same, and a crash
    brings back what was deleted. *)
Theorem delete_all_not_durable :
  DeleteAll 2 full = Some (None, emptied) /\ view emptied = Some ∅ /\
  forall disk, crashed emptied disk -> disk_view disk "here" = one_pair.
Proof. split_and!; [by_vm|done|]. intros disk Hc. by apply (Hc _ "here" eq_refl). Qed.
End Unflushed.

(** ** What clients rely on *)

(** Calls that change a store, and what they mean on a map. *)
Inductive StoreOp :=
  | OpSet (k : slice) (v : bytes)
  | OpDelete (k : slice)
  | OpDeleteRange (lo hi : slice)
  | OpDeletePrefix (p : slice)
  | OpDeleteAll.

Definition map_op (unbounded : bool) (m : gmap bytes bytes) (op : StoreOp) : gmap bytes bytes :=
  match op with
  | OpSet k v => <[sl k := v]> m
  | OpDelete k => delete (sl k) m
  | OpDeleteRange lo hi => filter (fun kv => ~ in_range lo (deletion_end unbounded hi) kv.1) m
  | OpDeletePrefix p => without_prefix unbounded p m
  | OpDeleteAll => ∅
  end.

Section Clients.
Context `{PebbleEngine}.

Definition store_op (fuel : nat) (b : PebbleBinding) (op : StoreOp) : option (goerr * PebbleBinding) :=
  match op with
  | OpSet k v => Some (SetB b k (Some v))
  | OpDelete k => Some (DeleteB b k)
  | OpDeleteRange lo hi => Some (DeleteRangeB b lo hi)
  | OpDeletePrefix p => Some (DeletePrefixB b p)
  | OpDeleteAll => DeleteAll fuel b
  end.

(** A sequence of calls, up to the first error. *)
Fixpoint store_ops (fuel : nat) (b : PebbleBinding) (ops : list StoreOp)
    : option (goerr * PebbleBinding) :=
  match ops with
  | [] => Some (None, b)
  | op :: ops' =>
      match store_op fuel b op with
      | Some (None, b') => store_ops fuel b' ops'
      | r => r
      end
  end.

End Clients.

Section Claims.
Context `{PebbleLaws}.

Lemma store_op_view fuel b op b' :
  store_op fuel b op = Some (None, b') ->
  exists m, view b = Some m /\ view b' = Some (map_op eng_nil_unbounded m op).
Proof.
  destruct op as [k v|k|lo hi|p|]; simpl; intros Hr.
  - injection Hr as Hr. apply (SetB_view b k (Some v)) in Hr as (m & w & ? & [= ->] & ?). eauto.
  - injection Hr as Hr. by apply DeleteB_view in Hr.
  - injection Hr as Hr. by apply DeleteRangeB_view in Hr.
  - injection Hr as Hr. by apply DeletePrefixB_view in Hr.
  - apply DeleteAll_view in Hr as [[m Hm] ?]. eauto.
Qed.

(** An operation adds at most one pair. *)
Lemma map_op_size u m op : (size (map_op u m op) <= S (size m))%nat.
Proof.
  assert (forall P (Hd : forall kv : bytes * bytes, Decision (P kv)), size (filter P m) <= size m)%nat as Hf.
  { intros P Hd. apply map_subseteq_size, map_filter_subseteq. }
  destruct op as [k v|k|lo hi|p|]; simpl.
  - destruct (m !! sl k) eqn:E; [rewrite map_size_insert_Some by (by eexists)|rewrite map_size_insert_None by done]; lia.
  - pose proof (map_subseteq_size _ _ (delete_subseteq m (sl k))). lia.
  - specialize (Hf _ (fun kv => not_dec (in_range_dec lo (deletion_end u hi) kv.1))). lia.
  - unfold without_prefix. case_decide; [lia|]. pose proof (Hf (fun kv => ~ sl p `prefix_of` kv.1) _). lia.
  - rewrite map_size_empty. lia.
Qed.

Lemma store_op_fuel fuel b op m :
  view b = Some m -> (size m < fuel)%nat -> is_Some (store_op fuel b op).
Proof.
  intros Hv Hf. destruct op; simpl; try by eexists. apply DeleteAll_fuel. intros m' Hm'. by simplify_eq.
Qed.

(** C9: a sequence of sets, deletions, range and prefix deletions and clears
    terminates, with fuel above the number of pairs there can be; if all
    return nil the store holds the map these operations compute on the map
    it held before, and a successful [GetB] then returns that map's value,
    nil for a key it does not contain.  A prefix without an upper bound (the
    empty one, or 0xFF bytes only) and a range without an end key are passed
    to the engine without an end key: if the engine takes this as no bound,
    all keys with the prefix, or from the start on, are deleted, as
    promised; if it takes it as the empty key, none is. *)
Theorem PebbleBinding_refines_map (fuel : nat) (b : PebbleBinding) (ops : list StoreOp)
    (m : gmap bytes bytes) :
  view b = Some m -> (size m + length ops < fuel)%nat ->
  exists err b', store_ops fuel b ops = Some (err, b') /\
    (err = None -> view b' = Some (foldl (map_op eng_nil_unbounded) m ops) /\
       forall k v, GetB b' k = (v, None) -> v = foldl (map_op eng_nil_unbounded) m ops !! sl k).
Proof.
  revert b m. induction ops as [|op ops IH]; intros b m Hv Hf; simpl.
  - exists None, b. split; [done|]. intros _. split; [done|]. intros k v (m' & Hm' & ->)%GetB_view. by simplify_eq.
  - destruct (store_op_fuel fuel b op m Hv) as [[[e|] b1] E]; [simpl in Hf; lia|..]; rewrite E.
    + by exists (Some e), b1.
    + apply store_op_view in E as (m1 & Hm & Hm1). rewrite Hv in Hm. injection Hm as <-.
      apply IH; [done|]. pose proof (map_op_size eng_nil_unbounded m op). simpl in Hf. lia.
Qed.

(** C25: with fuel above the number of pairs [ScanPrefixB] returns, and when
    it returns nil the callback has been called, in ascending key order, on
    exactly the pairs whose key starts with the prefix, up to the first
    call that returned false. *)
Theorem ScanPrefixB_exact (St : Type) (fuel : nat) (b : PebbleBinding) (prefix : slice)
    (cb : ScanKeyValueB St) (s : St) (m : gmap bytes bytes) :
  view b = Some m -> (size m < fuel)%nat ->
  exists err s', ScanPrefixB fuel b prefix cb s = Some (err, s') /\
    (err = None -> exists l, StronglySorted bytes_lt l.*1 /\
      (forall k v, (k, v) ∈ l <-> m !! k = Some v /\ sl prefix `prefix_of` k) /\
      s' = scan_items cb l s).
Proof.
  intros Hv Hf. rewrite ScanPrefixB_range by (by rewrite Hv).
  destruct (Scan_view_fuel St fuel b prefix (KeyUpperBound prefix) cb s) as [[[err s'] Hs] _].
  { intros m' Hm'. by simplify_eq. }
  exists err, s'. split; [done|]. intros ->.
  apply ScanRangeB_view in Hs as (m' & l & Hm' & [Hl He] & ->). simplify_eq.
  exists l. split_and!; [done| |done]. intros k v. rewrite He.
  by rewrite (proj2 (KeyUpperBound_prefix_range prefix) k).
Qed.

(** values set in a store kept at a location are there again after the
    binding is closed, without an error of the engine, and opened anew. *)
Theorem reopen_keeps_pairs (cfg : Config) (disk disk' : Disk) (b1 b2 b3 : PebbleBinding)
    (d : DB) (k v : slice) :
  Location (StoreSvc (Services cfg)) <> ""%string ->
  Open cfg disk {| db := None |} = (None, b1) ->
  SetB b1 k v = (None, b2) ->
  db b2 = Some d -> eng_Close d disk = (None, disk') ->
  Open cfg (Close disk b2).1 (Close disk b2).2 = (None, b3) ->
  view b3 = view b2 /\ forall w, GetB b3 k = (w, None) -> w = v.
Proof.
  intros Hloc Ho Hs Hd Hc Hr. unfold Open in Ho. simpl in Ho.
  rewrite (proj2 (String.eqb_neq _ _) Hloc) in Ho.
  destruct (eng_Open disk _ false) as [d1|e] eqn:Eo; [|done]. injection Ho as <-.
  apply open_loc in Eo as [Eo _]. unfold SetB in Hs. destruct v as [w|]; [|done]. simpl in Hs.
  destruct (eng_Set d1 (sl k) w true) as [[e|] d2] eqn:Es; simpl in Hs; [done|].
  injection Hs as <-. simpl in Hd. injection Hd as <-.
  apply set_view in Es as [Ev El]. rewrite Eo in El.
  unfold Close, Open in Hr. simpl in Hr. rewrite Hc in Hr. simpl in Hr.
  rewrite (proj2 (String.eqb_neq _ _) Hloc) in Hr.
  destruct (eng_Open disk' _ false) as [d3|e] eqn:Eo'; [|done]. injection Hr as <-.
  apply open_loc in Eo' as (_ & Ev3 & _). rewrite (close_loc _ _ _ _ El Hc), decide_True in Ev3 by done.
  assert (view (with_db d3) = view (with_db d2)) as Hv.
  { unfold view. simpl. by rewrite Ev3. }
  split; [done|]. intros w' (m & Hm & ->)%GetB_view. unfold view in Hm. simpl in Hm.
  injection Hm as <-. by rewrite Ev3, Ev, lookup_insert_eq.
Qed.

(** on a binding that is not open every method fails with a
    non-retryable error and changes nothing: no callback is called. *)
Theorem closed_binding_fails (fuel : nat) (b : PebbleBinding) (op : StoreOp) :
  view b = None ->
  (exists e, store_op fuel b op = Some (Some e, b) /\ IsRetryable (Some e) = false) /\
  (forall k, exists e, GetB b k = (None, Some e) /\ IsRetryable (Some e) = false) /\
  (forall St lo hi (cb : ScanKeyValueB St) s,
    exists e1 e2 e3, ScanRangeB fuel b lo hi cb s = Some (Some e1, s) /\
      ScanRangeReverseB fuel b lo hi cb s = Some (Some e2, s) /\
      ScanPrefixB fuel b lo cb s = Some (Some e3, s)).
Proof.
  unfold view. destruct b as [[d|]]; [done|]. intros _. split_and!.
  - destruct op; simpl; eauto.
  - simpl. eauto.
  - simpl. unfold not_open. eauto 10.
Qed.
End Claims.

(** ** Concrete runs *)

Section Witnesses.
Import MemEngine.
#[local] Open Scope string_scope.

Definition bs (s : string) : bytes := bytes_of_string s.
Definition mem_binding (m : gmap bytes bytes) : PebbleBinding :=
  {| db := Some ({| map := m; durable := m; loc := None |} : DB) |}.
Definition demo_ops : list StoreOp :=
  [OpSet (Some (bs "a1")) (bs "x"); OpSet (Some (bs "a2")) (bs "y");
   OpSet (Some (bs "b")) (bs "z"); OpDelete (Some (bs "a1")); OpDeletePrefix (Some (bs "b"));
   OpDeletePrefix (Some [])].
Definition demo_map : gmap bytes bytes :=
  <[bs "a1" := bs "x"]> (<[bs "a2" := bs "y"]> (<[bs "b" := bs "z"]> ∅)).

(** The binding a sequence of calls leaves. *)
Definition after (r : option (goerr * PebbleBinding)) : PebbleBinding :=
  match r with Some (_, b) => b | None => {| db := None |} end.
Definition demo_after : PebbleBinding := after (store_ops 7 (mem_binding ∅) demo_ops).

(** With this engine the last of the calls deletes nothing. *)
Lemma PebbleBinding_refines_map_witness :
  view demo_after = Some (foldl (map_op false) ∅ demo_ops) /\
    (forall k v, GetB demo_after k = (v, None) -> v = foldl (map_op false) ∅ demo_ops !! sl k) /\
    foldl (map_op false) ∅ demo_ops = {[bs "a2" := bs "y"]}.
Proof.
  destruct (PebbleBinding_refines_map 7 (mem_binding ∅) demo_ops ∅) as (err & b' & Hr & Hv);
    [reflexivity|apply Nat.ltb_lt; by_vm|].
  assert (store_ops 7 (mem_binding ∅) demo_ops = Some (None, demo_after)) as Hd by by_vm.
  rewrite Hd in Hr. injection Hr as <- <-. destruct (Hv eq_refl) as [H1 H2]. split_and!; [exact H1|exact H2|by_vm].
Defined.

(** Collects the keys visited; stops after two. *)
Definition first_two : ScanKeyValueB (list bytes) :=
  fun k v acc => (Nat.ltb (length acc) 1, (acc ++ [k])%list).

Lemma ScanPrefixB_exact_witness :
  exists err s', ScanPrefixB 4 (mem_binding demo_map) (Some (bs "a")) first_two [] = Some (err, s') /\
    (err = None -> exists l, StronglySorted bytes_lt l.*1 /\
      (forall k v, (k, v) ∈ l <-> demo_map !! k = Some v /\ bs "a" `prefix_of` k) /\
      s' = scan_items first_two l []).
Proof.
  apply (ScanPrefixB_exact (list bytes) 4 (mem_binding demo_map) (Some (bs "a")) first_two [] demo_map).
  - reflexivity.
  - apply Nat.ltb_lt. by_vm.
Defined.

(** Over an engine that reads a missing end key as the empty key a prefix
    without an upper bound deletes nothing, and says it did. *)
Theorem delete_prefix_keeps_all :
  (DeletePrefix (mem_binding demo_map) "").1 = None /\
  view (DeletePrefix (mem_binding demo_map) "").2 = Some demo_map /\
  ScanPrefix 4 (mem_binding demo_map) "" (fun _ _ n => (true, S n)) 0%nat = Some (None, 3%nat).
Proof. split_and!; by_vm. Qed.

Lemma closed_binding_fails_witness :
  exists e, store_op 1 {| db := None |} OpDeleteAll = Some (Some e, {| db := None |}) /\
    IsRetryable (Some e) = false.
Proof. apply (closed_binding_fails 1 {| db := None |} OpDeleteAll). reflexivity. Defined.

Definition cfg_at (l : string) : Config :=
  let c := New "id" in
  {| Version := Version c; Identity_ := Identity_ c; Cluster := Cluster c; Apis := Apis c;
     Services := {| Com := Com (Services c);
                    StoreSvc := {| Engine := "pebble"; Location := l; store_Disabled := false |};
                    State := State (Services c) |} |}.

Definition opened : PebbleBinding := (Open (cfg_at "here") (∅ : Disk) {| db := None |}).2.
Definition written : PebbleBinding := (SetB opened (Some (bs "k")) (Some (bs "v"))).2.
Definition reopened : PebbleBinding :=
  (Open (cfg_at "here") (Close (∅ : Disk) written).1 (Close (∅ : Disk) written).2).2.
Definition written_db : DB := {| map := {[bs "k" := bs "v"]}; durable := {[bs "k" := bs "v"]}; loc := Some "here" |}.

Lemma reopen_keeps_pairs_witness :
  view reopened = view written /\
    forall w, GetB reopened (Some (bs "k")) = (w, None) -> w = Some (bs "v").
Proof.
  apply (reopen_keeps_pairs (cfg_at "here") (∅ : Disk) {["here" := {[bs "k" := bs "v"]}]}
    opened written reopened written_db (Some (bs "k")) (Some (bs "v")));
    [discriminate|by_vm..].
Defined.
End Witnesses.
