(* ===== verification/ComApi.v ===== *)
(** * The communication API ([services/com/api/api.go])

    Scopes, subscription filters and the data of the communication patterns.
    Field names carry a prefix per type ([ev_], [ac_], ...), as Go allows the
    same field name in several structs. *)

From stdpp Require Import pretty.
From S2P Require Import Prelude GoRuntime.

(** ** Scopes *)

Abbreviation Scope := string.
Definition ScopeDef : Scope := "".
Definition ScopeCom : Scope := "com".
Definition ScopeState : Scope := "sta".
Definition ScopeSideChannel : Scope := "sdc".

Definition ToScope (scope : string) : Scope * goerr :=
  if String.eqb scope ScopeDef then (ScopeCom, None)
  else if String.eqb scope ScopeCom then (ScopeCom, None)
  else if String.eqb scope ScopeState then (ScopeState, None)
  else if String.eqb scope ScopeSideChannel then (ScopeSideChannel, None)
  else ("", Some (ErrText ("unknown scope " +:+ scope))).

(** ** Filters and data *)

Record SubscriptionFilter := {
  sf_Scope : Scope;
  sf_Type : string;
  sf_Share : string;
}.

Record Event := {
  ev_Type : string;
  ev_Id : string;
  ev_Source : string;
  ev_Time : string;
  ev_Data : slice;
  ev_DataContentType : string;
}.

Record Action := {
  ac_Type : string;
  ac_Id : string;
  ac_Source : string;
  ac_Params : slice;
  ac_DataContentType : string;
}.

Record ActionResult := {
  ar_Context : string;
  ar_Data : slice;
  ar_DataContentType : string;
  ar_SequenceNumber : Z;   (* int64 *)
}.

(** [C] is the type of the callback: what the closure captured. *)
Record ActionWithCallback (C : Type) := {
  awc_Action : Action;
  awc_Callback : C;
}.
Arguments awc_Action {_} _.
Arguments awc_Callback {_} _.

Record Query := {
  qu_Type : string;
  qu_Id : string;
  qu_Source : string;
  qu_Data : slice;
  qu_DataContentType : string;
}.

Record QueryResult := {
  qr_Context : string;
  qr_Data : slice;
  qr_DataContentType : string;
  qr_SequenceNumber : Z;   (* int64 *)
}.

Record QueryWithCallback (C : Type) := {
  qwc_Query : Query;
  qwc_Callback : C;
}.
Arguments qwc_Query {_} _.
Arguments qwc_Callback {_} _.

(** The scope of a publication with an optional scope argument. *)
Definition opt_scope (scope : list Scope) : Scope :=
  match scope with
  | [] => ScopeDef
  | s :: _ => s
  end.

Definition known_scope (s : Scope) : Prop :=
  s = ScopeDef \/ s = ScopeCom \/ s = ScopeState \/ s = ScopeSideChannel.

Lemma ToScope_known (s : Scope) : snd (ToScope s) = None <-> known_scope s.
Proof.
  unfold ToScope, known_scope.
  destruct (String.eqb_spec s ScopeDef), (String.eqb_spec s ScopeCom),
    (String.eqb_spec s ScopeState), (String.eqb_spec s ScopeSideChannel); simpl; naive_solver.
Qed.

(** ** Texts

    [fmt]'s [%+v] of the pattern data, for error messages. *)

Definition fmt_Event (e : Event) : string :=
  "{Type:" +:+ ev_Type e +:+ " Id:" +:+ ev_Id e +:+ " Source:" +:+ ev_Source e +:+ " Time:" +:+ ev_Time e +:+
  " Data:" +:+ fmt_bytes (ev_Data e) +:+ " DataContentType:" +:+ ev_DataContentType e +:+ "}".

Definition fmt_Action (a : Action) : string :=
  "{Type:" +:+ ac_Type a +:+ " Id:" +:+ ac_Id a +:+ " Source:" +:+ ac_Source a +:+
  " Params:" +:+ fmt_bytes (ac_Params a) +:+ " DataContentType:" +:+ ac_DataContentType a +:+ "}".

Definition fmt_ActionResult (r : ActionResult) : string :=
  "{Context:" +:+ ar_Context r +:+ " Data:" +:+ fmt_bytes (ar_Data r) +:+ " DataContentType:" +:+
  ar_DataContentType r +:+ " SequenceNumber:" +:+ pretty (ar_SequenceNumber r) +:+ "}".

Definition fmt_Query (q : Query) : string :=
  "{Type:" +:+ qu_Type q +:+ " Id:" +:+ qu_Id q +:+ " Source:" +:+ qu_Source q +:+
  " Data:" +:+ fmt_bytes (qu_Data q) +:+ " DataContentType:" +:+ qu_DataContentType q +:+ "}".

Definition fmt_QueryResult (r : QueryResult) : string :=
  "{Context:" +:+ qr_Context r +:+ " Data:" +:+ fmt_bytes (qr_Data r) +:+ " DataContentType:" +:+
  qr_DataContentType r +:+ " SequenceNumber:" +:+ pretty (qr_SequenceNumber r) +:+ "}".
