(* ===== verification/Router.v ===== *)
(** * The router ([services/com/api/router.go])

    A [Router] keeps, per subscribed topic, the route channels messages on
    that topic are dispatched to.  The file has the three operations, then
    the system they form when they run concurrently (dispatching goroutines
    hold the read lock, [Add] and [remove] the write lock) and the moves of
    dispatches under way and their consumers, and the theorems: what is
    dispatched to whom, that dispatches complete, that no run ever panics on a
    channel, and how the routes follow the subscriptions of a communication
    binding, which may be shared with others ([Mqtt5] instantiates it). *)

From S2P Require Import Prelude GoRuntime.

Section Router.
(** [R] is the routable message, [T] the topic type with its zero value, and
    [W] the state of the communication binding. *)
Context {R : Type} {T : Type} `{Countable T} {W : Type}.
Variable zerocid : T.

(** [type ComBindingFunc[T comparable] func() error] *)
Definition ComBindingFunc : Type := W -> goerr * W.

Record RouteFilter := { Topic : T; CorrelationId : T }.

(** A [*RouteChannel]: [rc_addr] is the pointer, and names the channel
    [ReceiveChan] as well, which is made with it; [CtxDone] names the
    context whose [Done] channel it holds. *)
Record RouteChannel := {
  rc_addr : nat;
  CtxDone : nat;
  correlationId : T;
  unsub : ComBindingFunc;
}.

(** The router's state with the heap of receive channels, the calls
    [context.AfterFunc] has registered (context, topic of the filter, route
    channel), and the binding. *)
Record RouterState := {
  routes : gmap T (list RouteChannel);
  chans : gmap nat (Chan R);
  next_addr : nat;
  after_funcs : list (nat * T * RouteChannel);
  binding : W;
}.

Definition NewRouter (w : W) : RouterState :=
  {| routes := ∅; chans := ∅; next_addr := 0; after_funcs := []; binding := w |}.

Definition receiveBufferSize : nat := 1.

(** [topicSet] is the set of keys, the result its elements in some order. *)
Definition GetTopics `{MapRange} (s : RouterState) : list T := (range (routes s)).*1.

(** Registering [rc] under a topic whose channels so far are [rcs]. *)
Definition register (topic : T) (rcs : list RouteChannel) (rc : RouteChannel) (ctx : nat)
    (s : RouterState) : RouterState :=
  {| routes := <[topic := rcs ++ [rc]]> (routes s);
     chans := chans s;
     next_addr := next_addr s;
     after_funcs := after_funcs s ++ [(ctx, topic, rc)];
     binding := binding s |}.

Definition with_binding (w : W) (s : RouterState) : RouterState :=
  {| routes := routes s; chans := chans s; next_addr := next_addr s;
     after_funcs := after_funcs s; binding := w |}.

(** [make(chan R, size)] and [&RouteChannel{...}] *)
Definition alloc (size : nat) (s : RouterState) : RouterState :=
  {| routes := routes s; chans := <[next_addr s := make_chan size]> (chans s);
     next_addr := S (next_addr s); after_funcs := after_funcs s; binding := binding s |}.

Definition Add (ctx : nat) (filter : RouteFilter) (subscribe publish unsubscribe : ComBindingFunc)
    (bufferSize : list nat) (s : RouterState) : (RouteChannel + error) * RouterState :=
  let size := match bufferSize with [] => receiveBufferSize | n :: _ => n end in
  let rc := {| rc_addr := next_addr s; CtxDone := ctx;
               correlationId := CorrelationId filter; unsub := unsubscribe |} in
  let s := alloc size s in
  match routes s !! Topic filter with
  | Some rcs =>   (* subscription already set up *)
      match publish (binding s) with
      | (Some err, w) => (inr err, with_binding w s)
      | (None, w) => (inl rc, register (Topic filter) rcs rc ctx (with_binding w s))
      end
  | None =>       (* subscription not yet set up *)
      match subscribe (binding s) with
      | (Some err, w) => (inr err, with_binding w s)
      | (None, w) =>
          match publish w with
          | (Some err, w) => (inr err, with_binding (unsubscribe w).2 s)
          | (None, w) => (inl rc, register (Topic filter) [] rc ctx (with_binding w s))
          end
      end
  end.

(** The route channels of [rcs] a message with the given correlation id goes
    to: all non-response channels for the zero id, else the correlated ones. *)
Definition targets (cid : T) (rcs : list RouteChannel) : list RouteChannel :=
  if decide (cid = zerocid)
  then filter (fun rc => correlationId rc = zerocid) rcs
  else filter (fun rc => cid = correlationId rc) rcs.

Definition dispatch_targets (f : RouteFilter) (s : RouterState) : list RouteChannel :=
  match routes s !! Topic f with
  | Some rcs => targets (CorrelationId f) rcs
  | None => []
  end.

(** The closure [dispatch] of the method [dispatch]: skip the channel if its
    context is done, else send, blocking until there is room. *)
Definition dispatch1 (cancelled : gset nat) (rc : RouteChannel) (message : R)
    : M (gmap nat (Chan R)) unit := fun cs =>
  if decide (CtxDone rc ∈ cancelled) then Ret tt cs
  else
    match cs !! rc_addr rc with
    | None => Blocked cs
    | Some c =>
        match chan_send c message with
        | Sent c' => Ret tt (<[rc_addr rc := c']> cs)
        | WouldBlock => Blocked cs
        | SendPanic => Panic "send on closed channel"
        end
    end.

Definition dispatch (cancelled : gset nat) (f : RouteFilter) (message : R) (s : RouterState)
    : run (gmap nat (Chan R)) unit :=
  mfor (dispatch_targets f s) (fun rc => dispatch1 cancelled rc message) (chans s).

(** [Dispatch] and [DispatchChan]: one message, and the messages received. *)
Definition Dispatch := dispatch.

Definition DispatchChan (cancelled : gset nat) (f : RouteFilter) (messages : list R) (s : RouterState)
    : run (gmap nat (Chan R)) unit :=
  mfor messages (fun msg cs => dispatch cancelled f msg
    {| routes := routes s; chans := cs; next_addr := next_addr s;
       after_funcs := after_funcs s; binding := binding s |}) (chans s).

(** The loop of [remove]: shift the entries behind the route channel. *)
Definition remove_step (addr : nat) (acc : bool * list RouteChannel) (i : nat)
    : bool * list RouteChannel :=
  let '(found, rcs) := acc in
  match rcs !! i with
  | None => acc
  | Some rc =>
      if found then (found, <[(i - 1)%nat := rc]> rcs)
      else if Nat.eqb (rc_addr rc) addr then (true, rcs)
      else acc
  end.

Definition remove_loop (addr : nat) (rcs : list RouteChannel) : bool * list RouteChannel :=
  foldl (remove_step addr) (false, rcs) (seq 0 (length rcs)).

Definition set_routes (m : gmap T (list RouteChannel)) (w : W) (s : RouterState) : RouterState :=
  {| routes := m; chans := chans s; next_addr := next_addr s;
     after_funcs := after_funcs s; binding := w |}.

(** [close(routeChannel.ReceiveChan)] *)
Definition close_chan (addr : nat) (s : RouterState) : run RouterState unit :=
  match chans s !! addr with
  | None => Panic "close of nil channel"
  | Some c =>
      match chan_close c with
      | None => Panic "close of closed channel"
      | Some c' =>
          Ret tt {| routes := routes s; chans := <[addr := c']> (chans s);
                    next_addr := next_addr s; after_funcs := after_funcs s; binding := binding s |}
      end
  end.

(** [remove]: the entry freed at the end of the slice is beyond the slice
    stored, so it is not represented; the deferred [close] comes last. *)
Definition remove (topic : T) (rc : RouteChannel) (s : RouterState) : run RouterState unit :=
  match routes s !! topic with
  | None => Ret tt s
  | Some rcs =>
      let l := length rcs in
      let '(found, rcs) := remove_loop (rc_addr rc) rcs in
      if found then
        if Nat.eqb l 1 then
          match unsub rc (binding s) with
          | (Some _, w) => close_chan (rc_addr rc) (set_routes (<[topic := take 0 rcs]> (routes s)) w s)
          | (None, w) => close_chan (rc_addr rc) (set_routes (delete topic (routes s)) w s)
          end
        else
          close_chan (rc_addr rc)
            (set_routes (<[topic := take (l - 1) rcs]> (routes s)) (binding s) s)
      else Ret tt s
  end.

End Router.

Arguments RouteChannel : clear implicits.
Arguments RouteFilter : clear implicits.
Arguments RouterState _ _ {_ _} _.
Arguments ComBindingFunc : clear implicits.

(** ** Removing a route channel *)

Section Remove.
Context {R : Type} {T : Type} `{Countable T} {W : Type}.
Implicit Types rcs : list (RouteChannel T W).

(** What the in-place loop computes: drop the first entry with the address. *)
Fixpoint del_first (addr : nat) rcs : list (RouteChannel T W) :=
  match rcs with
  | [] => []
  | rc :: rest => if Nat.eqb (rc_addr rc) addr then rest else rc :: del_first addr rest
  end.

Lemma del_first_app_in addr rcs1 rcs2 :
  addr ∈ rc_addr <$> rcs1 -> del_first addr (rcs1 ++ rcs2) = del_first addr rcs1 ++ rcs2.
Proof.
  induction rcs1 as [|rc rcs1 IH]; simpl; [by intros ?%not_elem_of_nil|].
  destruct (Nat.eqb_spec (rc_addr rc) addr) as [|Hne]; [done|].
  intros [->|Hin]%elem_of_cons; [done|]. simpl. by rewrite IH.
Qed.

Lemma del_first_notin addr rcs : addr ∉ rc_addr <$> rcs -> del_first addr rcs = rcs.
Proof.
  induction rcs as [|rc rcs IH]; simpl; [done|].
  intros [Hne Hn]%not_elem_of_cons. destruct (Nat.eqb_spec (rc_addr rc) addr); [done|]. by rewrite IH.
Qed.

Lemma del_first_snoc_notin addr rcs rc :
  addr ∉ rc_addr <$> rcs -> rc_addr rc = addr -> del_first addr (rcs ++ [rc]) = rcs.
Proof.
  induction rcs as [|rc' rcs IH]; simpl.
  - intros _ ->. by rewrite Nat.eqb_refl.
  - intros [Hne Hn]%not_elem_of_cons E. destruct (Nat.eqb_spec (rc_addr rc') addr); [done|].
    by rewrite IH.
Qed.

(** The loop after the first [i] iterations. *)
Definition remove_inv (addr : nat) rcs (i : nat) (acc : bool * list (RouteChannel T W)) : Prop :=
  length acc.2 = length rcs /\ drop i acc.2 = drop i rcs /\
  if acc.1 then addr ∈ rc_addr <$> take i rcs /\ take (i - 1) acc.2 = del_first addr (take i rcs)
  else acc.2 = rcs /\ addr ∉ rc_addr <$> take i rcs.

Lemma remove_inv_loop addr rcs i :
  (i <= length rcs)%nat -> remove_inv addr rcs i (foldl (remove_step addr) (false, rcs) (seq 0 i)).
Proof.
  induction i as [|i IH]; intros Hi.
  - split_and!; simpl; try done. split; [done|]. apply not_elem_of_nil.
  - rewrite seq_S, foldl_app. simpl. specialize (IH ltac:(lia)).
    destruct (foldl _ _ (seq 0 i)) as [found rs]. destruct IH as (Hlen & Hdrop & Hf). simpl in *.
    destruct (lookup_lt_is_Some_2 rcs i Hi) as [rc Hrc].
    assert (rs !! i = Some rc) as Hrs.
    { rewrite <- Hrc, <- (Nat.add_0_r i), <- !lookup_drop. by rewrite Hdrop. }
    assert (take (S i) rcs = take i rcs ++ [rc]) as Htake by (by apply take_S_r).
    assert (forall rs' : list (RouteChannel T W), drop i rs' = drop i rcs ->
              drop (S i) rs' = drop (S i) rcs) as HdropS.
    { intros rs' Hd. rewrite <- Nat.add_1_r, <- !drop_drop. by rewrite Hd. }
    rewrite Hrs. destruct found.
    + destruct Hf as [Hin Hdel]. assert (0 < i)%nat as Hpos.
      { destruct i; [|lia]. simpl in Hin. by apply not_elem_of_nil in Hin. }
      unfold remove_inv; simpl. rewrite length_insert, Htake, fmap_app.
      split_and!; [done| | |].
      * rewrite drop_insert_lt by lia. by apply HdropS.
      * set_solver.
      * rewrite Nat.sub_0_r, del_first_app_in by done. rewrite <- Hdel.
        assert (i = S (i - 1))%nat as E by lia. rewrite E at 1.
        rewrite (take_S_r _ _ rc) by (apply list_lookup_insert_eq; lia).
        rewrite take_insert_ge by lia. done.
    + destruct Hf as [-> Hnin]. unfold remove_inv.
      destruct (Nat.eqb_spec (rc_addr rc) addr) as [E|E]; simpl; rewrite Htake, fmap_app.
      * split_and!; [done|by apply HdropS|set_solver|].
        by rewrite Nat.sub_0_r, del_first_snoc_notin.
      * split_and!; [done|by apply HdropS|done|]. simpl. set_solver.
Qed.

Lemma remove_loop_pair addr rcs :
  exists rs, remove_loop addr rcs = (bool_decide (addr ∈ rc_addr <$> rcs), rs) /\
    (addr ∈ rc_addr <$> rcs -> take (length rcs - 1) rs = del_first addr rcs) /\
    (addr ∉ rc_addr <$> rcs -> rs = rcs).
Proof.
  unfold remove_loop. pose proof (remove_inv_loop addr rcs (length rcs) ltac:(done)) as Hinv.
  destruct (foldl _ _ _) as [found rs]. destruct Hinv as (Hlen & _ & Hf). simpl in *.
  rewrite take_ge in Hf by done. exists rs. destruct found.
  - destruct Hf as [Hin Hdel]. by rewrite bool_decide_true.
  - destruct Hf as [-> Hnin]. by rewrite bool_decide_false.
Qed.

Lemma elem_of_del_first addr rcs rc : rc ∈ del_first addr rcs -> rc ∈ rcs.
Proof.
  induction rcs as [|rc' rcs IH]; simpl; [done|]. destruct (Nat.eqb _ _); [by right|].
  intros [->|Hin]%elem_of_cons; [left|right]; auto.
Qed.

Lemma NoDup_del_first addr rcs : NoDup (rc_addr <$> rcs) ->
  NoDup (rc_addr <$> del_first addr rcs) /\ addr ∉ rc_addr <$> del_first addr rcs.
Proof.
  induction rcs as [|rc rcs IH]; simpl; [split; [constructor|apply not_elem_of_nil]|].
  intros [Hn Hnd]%NoDup_cons. destruct (Nat.eqb_spec (rc_addr rc) addr) as [<-|Hne]; [done|].
  destruct (IH Hnd) as [IH1 IH2]. split.
  - simpl. constructor; [|done]. intros Hin. apply Hn.
    apply list_elem_of_fmap in Hin as (rc' & -> & Hin). apply list_elem_of_fmap.
    exists rc'. split; [done|]. by eapply elem_of_del_first.
  - simpl. by apply not_elem_of_cons.
Qed.
Lemma remove_cases (topic : T) (rc : RouteChannel T W) (s : RouterState R T W)
    (rcs : list (RouteChannel T W)) (c : Chan R) :
  routes s !! topic = Some rcs -> chans s !! rc_addr rc = Some c -> ch_closed c = false ->
  (rc_addr rc ∉ rc_addr <$> rcs -> remove topic rc s = Ret tt s) /\
  (rc_addr rc ∈ rc_addr <$> rcs -> exists s', remove topic rc s = Ret tt s' /\
    chans s' = <[rc_addr rc := MkChan (ch_cap c) (ch_buf c) true]> (chans s) /\
    next_addr s' = next_addr s /\ after_funcs s' = after_funcs s /\
    (length rcs <> 1%nat -> binding s' = binding s /\
       routes s' = <[topic := del_first (rc_addr rc) rcs]> (routes s)) /\
    (length rcs = 1%nat -> binding s' = (unsub rc (binding s)).2 /\
       routes s' = match (unsub rc (binding s)).1 with
                   | None => delete topic (routes s)
                   | Some _ => <[topic := []]> (routes s)
                   end)).
Proof.
  intros Hr Hc Ho. unfold remove. rewrite Hr.
  destruct (remove_loop_pair (rc_addr rc) rcs) as (rs & -> & Hin & Hnin).
  split; intros Hmem.
  - by rewrite bool_decide_false.
  - rewrite bool_decide_true by done. rewrite (Hin Hmem).
    destruct (Nat.eqb_spec (length rcs) 1) as [E|E].
    + destruct (unsub rc (binding s)) as [[e|] w]; unfold close_chan, chan_close; simpl;
        rewrite Hc, Ho; eexists; split_and!; simpl; try done.
    + unfold close_chan, chan_close; simpl; rewrite Hc, Ho. eexists. split_and!; simpl; try done.
Qed.
End Remove.

(** ** The router under concurrent use

    Goroutines dispatch under the read lock, one send at a time, so their
    sends interleave with each other, with receivers and with cancellations;
    [Add] and [remove] run under the write lock, that is, as single steps
    taken when no dispatch is in progress. *)

Section System.
Context {R : Type} {T : Type} `{Countable T} {W : Type}.
(** Where a dispatching goroutine stands for the first of its remaining route
    channels: before the first [select] of the closure, or at the second. *)
Inductive phase := Checking | Selecting.

Record dispatching := {
  d_message : R;
  d_phase : phase;
  d_rest : list (RouteChannel T W);
}.

Record Sys := {
  router : RouterState R T W;
  cancelled : gset nat;             (* contexts that are done *)
  dispatchers : list dispatching;   (* holders of the read lock *)
}.

Definition set_chans (cs : gmap nat (Chan R)) (s : RouterState R T W) : RouterState R T W :=
  {| routes := routes s; chans := cs; next_addr := next_addr s;
     after_funcs := after_funcs s; binding := binding s |}.

Definition drop_after (i : nat) (s : RouterState R T W) : RouterState R T W :=
  {| routes := routes s; chans := chans s; next_addr := next_addr s;
     after_funcs := delete i (after_funcs s); binding := binding s |}.

(** *** The channels of registered route channels are open *)

Definition open_chan (cs : gmap nat (Chan R)) (a : nat) : Prop :=
  exists c, cs !! a = Some c /\ ch_closed c = false.

Record router_ok (s : RouterState R T W) : Prop := {
  ok_open : forall t rcs rc, routes s !! t = Some rcs -> rc ∈ rcs -> open_chan (chans s) (rc_addr rc);
  ok_fresh : forall a, is_Some (chans s !! a) -> (a < next_addr s)%nat;
  ok_nodup : forall t rcs, routes s !! t = Some rcs -> NoDup (rc_addr <$> rcs);
  ok_disjoint : forall t1 t2 rcs1 rcs2 a,
    routes s !! t1 = Some rcs1 -> routes s !! t2 = Some rcs2 ->
    a ∈ rc_addr <$> rcs1 -> a ∈ rc_addr <$> rcs2 -> t1 = t2;
}.

Lemma ok_addr s t rcs a :
  router_ok s -> routes s !! t = Some rcs -> a ∈ rc_addr <$> rcs ->
  open_chan (chans s) a /\ (a < next_addr s)%nat.
Proof.
  intros Hok Hr (rc & -> & Hin)%list_elem_of_fmap. pose proof (ok_open s Hok _ _ _ Hr Hin) as Ho.
  split; [done|]. destruct Ho as (c & Hc & _). apply (ok_fresh s Hok). eauto.
Qed.

(** Changing routes and channels so that each topic keeps a part of its route
    channels and these stay open. *)
Lemma router_ok_shrink (s s' : RouterState R T W) :
  router_ok s -> next_addr s' = next_addr s ->
  (forall a, is_Some (chans s' !! a) -> is_Some (chans s !! a)) ->
  (forall t rcs', routes s' !! t = Some rcs' -> exists rcs, routes s !! t = Some rcs /\
     NoDup (rc_addr <$> rcs') /\ (forall rc, rc ∈ rcs' -> rc ∈ rcs) /\
     forall a, a ∈ rc_addr <$> rcs' -> open_chan (chans s) a -> open_chan (chans s') a) ->
  router_ok s'.
Proof.
  intros Hok Hn Hc Hr.
  assert (forall a (l1 l2 : list (RouteChannel T W)), (forall rc, rc ∈ l1 -> rc ∈ l2) ->
    a ∈ rc_addr <$> l1 -> a ∈ rc_addr <$> l2) as Hsub.
  { intros a l1 l2 Hl (rc & -> & Hin)%list_elem_of_fmap. apply list_elem_of_fmap. eauto. }
  split.
  - intros t rcs' rc Ht Hin. destruct (Hr _ _ Ht) as (rcs & Hs & _ & Hsubs & Hopen).
    apply Hopen; [by apply list_elem_of_fmap_2|]. eapply (ok_open s Hok); eauto.
  - intros a Ha. rewrite Hn. by apply (ok_fresh s Hok), Hc.
  - intros t rcs' Ht. by destruct (Hr _ _ Ht) as (rcs & Hs & Hnd & _).
  - intros t1 t2 rcs1 rcs2 a Ht1 Ht2 Ha1 Ha2.
    destruct (Hr _ _ Ht1) as (l1 & Hs1 & _ & Hsub1 & _), (Hr _ _ Ht2) as (l2 & Hs2 & _ & Hsub2 & _).
    eapply (ok_disjoint s Hok); eauto.
Qed.

Lemma open_chan_insert_open (cs : gmap nat (Chan R)) a b c :
  ch_closed c = false -> open_chan cs a -> open_chan (<[b := c]> cs) a.
Proof.
  intros Hc (d & Hd & Ho). unfold open_chan. destruct (decide (a = b)) as [->|Hne].
  - exists c. by rewrite lookup_insert_eq.
  - exists d. by rewrite lookup_insert_ne.
Qed.

Lemma router_ok_alloc size s : router_ok s -> router_ok (alloc size s).
Proof.
  intros Hok. split; simpl.
  - intros t rcs rc Ht Hin. apply open_chan_insert_open; [done|]. eapply (ok_open s Hok); eauto.
  - intros a Ha. destruct (decide (a = next_addr s)) as [->|Hne]; [lia|].
    rewrite lookup_insert_ne in Ha by done. apply (ok_fresh s Hok) in Ha. lia.
  - apply (ok_nodup s Hok).
  - apply (ok_disjoint s Hok).
Qed.

Lemma router_ok_new w : router_ok (NewRouter w).
Proof. split; simpl; intros *; rewrite ?lookup_empty; try done. Qed.

Lemma router_ok_binding w s : router_ok s -> router_ok (with_binding w s).
Proof. intros []. by split. Qed.

Lemma router_ok_register topic rcs rc ctx w s size :
  router_ok s -> rc_addr rc = next_addr s ->
  routes s !! topic = Some rcs \/ (routes s !! topic = None /\ rcs = []) ->
  router_ok (register topic rcs rc ctx (with_binding w (alloc size s))).
Proof.
  intros Hok Ha Hr.
  assert (forall t l, routes s !! t = Some l -> next_addr s ∉ rc_addr <$> l) as Hnew.
  { intros t l Ht Hin. destruct (ok_addr s t l _ Hok Ht Hin) as [_ ?]. lia. }
  assert (next_addr s ∉ rc_addr <$> rcs) as Hnin.
  { destruct Hr as [Hr|[_ ->]]; [by eapply Hnew|apply not_elem_of_nil]. }
  pose proof (router_ok_alloc size s Hok) as Hok'.
  split; simpl.
  - intros t l rc' [[<- <-]|[Hne Ht]]%lookup_insert_Some Hin.
    + apply elem_of_app in Hin as [Hin| ->%list_elem_of_singleton].
      * destruct Hr as [Hr|[_ ->]]; [|by apply not_elem_of_nil in Hin].
        by apply (ok_open _ Hok' topic rcs).
      * rewrite Ha. unfold open_chan. rewrite lookup_insert_eq. by eexists.
    + by apply (ok_open _ Hok' t l).
  - apply (ok_fresh _ Hok').
  - intros t l [[<- <-]|[Hne Ht]]%lookup_insert_Some; [|by apply (ok_nodup s Hok) in Ht].
    rewrite fmap_app. simpl. rewrite Ha. apply NoDup_app. split_and!.
    + destruct Hr as [Hr|[_ ->]]; [by apply (ok_nodup s Hok) in Hr|constructor].
    + intros a Hin ->%list_elem_of_singleton. done.
    + apply NoDup_singleton.
  - intros t1 t2 l1 l2 a H1 H2 Ha1 Ha2. destruct (decide (a = next_addr s)) as [->|Hne].
    + apply lookup_insert_Some in H1 as [[<- _]|[_ H1]]; [|by apply Hnew in H1].
      apply lookup_insert_Some in H2 as [[<- _]|[_ H2]]; [done|by apply Hnew in H2].
    + assert (forall t l, <[topic:=rcs ++ [rc]]> (routes s) !! t = Some l -> a ∈ rc_addr <$> l ->
        exists l', routes s !! t = Some l' /\ a ∈ rc_addr <$> l') as Hold.
      { intros t l [[<- <-]|[_ Ht]]%lookup_insert_Some Hin; [|eauto].
        rewrite fmap_app in Hin. apply elem_of_app in Hin as [Hin|Hin].
        - destruct Hr as [Hr|[_ ->]]; [eauto|by apply not_elem_of_nil in Hin].
        - simpl in Hin. apply list_elem_of_singleton in Hin. congruence. }
      destruct (Hold _ _ H1 Ha1) as (m1 & ? & ?), (Hold _ _ H2 Ha2) as (m2 & ? & ?).
      eapply (ok_disjoint s Hok); eauto.
Qed.

Lemma router_ok_Add ctx f sub pub uns size s :
  router_ok s -> router_ok (Add ctx f sub pub uns size s).2.
Proof.
  intros Hok. unfold Add. destruct (routes (alloc _ s) !! Topic f) as [rcs|] eqn:Er; simpl in Er.
  - destruct (pub _) as [[e|] w]; simpl.
    + by apply router_ok_binding, router_ok_alloc.
    + apply router_ok_register; auto.
  - destruct (sub _) as [[e|] w]; simpl.
    + by apply router_ok_binding, router_ok_alloc.
    + destruct (pub w) as [[e|] w']; simpl.
      * by apply router_ok_binding, router_ok_alloc.
      * apply router_ok_register; auto.
Qed.

(** What is left of the route channels of a topic keeps its own channels
    open when the channel of a removed one is closed. *)
Lemma open_chan_close (cs : gmap nat (Chan R)) addr c (rcs : list (RouteChannel T W)) a :
  NoDup (rc_addr <$> rcs) -> a ∈ rc_addr <$> del_first addr rcs ->
  open_chan cs a -> open_chan (<[addr := c]> cs) a.
Proof.
  intros Hnd Ha (d & Hd & Ho). exists d. rewrite lookup_insert_ne; [done|].
  intros ->. by destruct (NoDup_del_first a rcs Hnd).
Qed.

Lemma lookup_closed_None (cs : gmap nat (Chan R)) a b c :
  is_Some (cs !! b) -> is_Some (<[b := c]> cs !! a) -> is_Some (cs !! a).
Proof. intros Hb. destruct (decide (a = b)) as [->|]; [done|]. by rewrite lookup_insert_ne. Qed.

Lemma remove_ok topic rc s :
  router_ok s -> exists s', remove topic rc s = Ret tt s' /\ router_ok s' /\
    after_funcs s' = after_funcs s /\
    (forall t, t <> topic -> routes s' !! t = routes s !! t).
Proof.
  intros Hok. destruct (routes s !! topic) as [rcs|] eqn:Hr.
  2:{ exists s. unfold remove. by rewrite Hr. }
  destruct (decide (rc_addr rc ∈ rc_addr <$> rcs)) as [Hin|Hnin].
  2:{ exists s. split; [|done]. unfold remove. rewrite Hr.
      destruct (remove_loop_pair (rc_addr rc) rcs) as (rs & -> & _). by rewrite bool_decide_false. }
  destruct (ok_addr s _ _ _ Hok Hr Hin) as [(c & Hc & Ho) _].
  destruct (remove_cases topic rc s rcs c Hr Hc Ho) as [_ Hrem].
  destruct (Hrem Hin) as (s' & Hs' & Hch & Hn & Haf & Hmany & Hone). exists s'.
  pose proof (ok_nodup s Hok _ _ Hr) as Hnd.
  destruct (NoDup_del_first (rc_addr rc) rcs Hnd) as [Hnd' Hgone].
  assert (forall rcs', rcs' = [] \/ rcs' = del_first (rc_addr rc) rcs ->
    NoDup (rc_addr <$> rcs') /\ (forall r, r ∈ rcs' -> r ∈ rcs) /\
    forall a, a ∈ rc_addr <$> rcs' -> open_chan (chans s) a -> open_chan (chans s') a) as Hkeep.
  { rewrite Hch. intros rcs' [-> | ->].
    - split_and!; [constructor|intros ? Hn0; by apply not_elem_of_nil in Hn0|].
      intros ? Hn0. by apply not_elem_of_nil in Hn0.
    - split_and!; [done|apply elem_of_del_first|]. intros a Ha. by apply (open_chan_close _ _ _ rcs). }
  assert (forall m, routes s' = m ->
    (m = <[topic := del_first (rc_addr rc) rcs]> (routes s) \/ m = <[topic := []]> (routes s) \/
     m = delete topic (routes s)) ->
    router_ok s' /\ forall t, t <> topic -> routes s' !! t = routes s !! t) as Hfin.
  { intros m Hm Hcase. split.
    - apply (router_ok_shrink s); [done|done| |].
      + rewrite Hch. intros a. apply lookup_closed_None. eauto.
      + rewrite Hm. intros t rcs' Ht. destruct (decide (t = topic)) as [->|Hne].
        * exists rcs. split; [done|]. apply Hkeep.
          destruct Hcase as [->|[->| ->]]; rewrite ?lookup_insert_eq, ?lookup_delete_eq in Ht; naive_solver.
        * exists rcs'. assert (routes s !! t = Some rcs') as Hold.
          { destruct Hcase as [->|[->| ->]];
              by rewrite ?lookup_insert_ne, ?lookup_delete_ne in Ht. }
          split_and!; [done|by apply (ok_nodup s Hok) in Hold|done|].
          intros a Ha (d & Hd & Hod). exists d. rewrite Hch, lookup_insert_ne; [done|].
          intros <-. apply Hne. by eapply (ok_disjoint s Hok).
    - intros t Hne. rewrite Hm.
      destruct Hcase as [->|[->| ->]]; by rewrite ?lookup_insert_ne, ?lookup_delete_ne. }
  destruct (decide (length rcs = 1%nat)) as [El|El].
  - destruct (Hone El) as [_ Hm]. destruct (Hfin _ Hm); [|done].
    destruct (unsub rc (binding s)).1; auto.
  - destruct (Hmany El) as [_ Hm]. destruct (Hfin _ Hm); auto.
Qed.

(** on a well-formed router [remove] never panics and leaves it
    well-formed.  Removing a route channel that is not registered under the
    topic changes nothing.  Removing a registered one closes its channel and
    keeps the other channels in their order; the topic is unsubscribed, with
    the route channel's own function, exactly when it was the last one: the
    topic is then forgotten, or kept without channels if that failed. *)
Theorem remove_spec (topic : T) (rc : RouteChannel T W) (s : RouterState R T W) :
  router_ok s ->
  exists s', remove topic rc s = Ret tt s' /\ router_ok s' /\
    (rc_addr rc ∉ rc_addr <$> default [] (routes s !! topic) -> s' = s) /\
    (forall rcs, routes s !! topic = Some rcs -> rc_addr rc ∈ rc_addr <$> rcs ->
      ~ open_chan (chans s') (rc_addr rc) /\
      (length rcs <> 1%nat -> binding s' = binding s /\
         routes s' = <[topic := del_first (rc_addr rc) rcs]> (routes s)) /\
      (length rcs = 1%nat -> binding s' = (unsub rc (binding s)).2 /\
         routes s' = match (unsub rc (binding s)).1 with
                     | None => delete topic (routes s)
                     | Some _ => <[topic := []]> (routes s)
                     end)).
Proof.
  intros Hok. destruct (remove_ok topic rc s Hok) as (s' & Hs' & Hok' & _). exists s'.
  split_and!; [done|done| |].
  - intros Hnin. destruct (routes s !! topic) as [rcs|] eqn:Hr; unfold remove in Hs'; rewrite Hr in Hs'.
    + destruct (remove_loop_pair (rc_addr rc) rcs) as (rs & Hl & _).
      rewrite Hl, bool_decide_false in Hs' by done. by simplify_eq.
    + by simplify_eq.
  - intros rcs Hr Hin. destruct (ok_addr s _ _ _ Hok Hr Hin) as [(c & Hc & Ho) _].
    destruct (remove_cases topic rc s rcs c Hr Hc Ho) as [_ Hrem].
    destruct (Hrem Hin) as (s2 & Hs2 & Hch & _ & _ & Hmany & Hone).
    rewrite Hs' in Hs2. injection Hs2 as <-. split_and!; [|done..].
    intros (d & Hd & Hod). rewrite Hch, lookup_insert_eq in Hd. by injection Hd as <-.
Qed.

(** *** The steps of the system *)

Variable zerocid : T.
(** The binding functions a caller of [Add] may pass for a topic. *)
Variable good_binding :
  T -> ComBindingFunc W -> ComBindingFunc W -> ComBindingFunc W -> Prop.
(** What others may make of the binding meanwhile, such as the routers of
    other patterns. *)
Variable others : W -> W -> Prop.

(** A step leads to a state, or to [None], a panic. *)
Inductive step (s : Sys) : option Sys -> Prop :=
  | step_add ctx f sub pub unsub size :
      dispatchers s = [] -> good_binding (Topic f) sub pub unsub ->
      step s (Some {| router := (Add ctx f sub pub unsub size (router s)).2;
                      cancelled := cancelled s; dispatchers := [] |})
  | step_dispatch f msg :
      step s (Some {| router := router s; cancelled := cancelled s;
        dispatchers := dispatchers s ++
          [{| d_message := msg; d_phase := Checking;
              d_rest := dispatch_targets zerocid f (router s) |}] |})
  | step_skip i d rc rest :
      dispatchers s !! i = Some d -> d_rest d = rc :: rest -> CtxDone rc ∈ cancelled s ->
      step s (Some {| router := router s; cancelled := cancelled s;
        dispatchers := <[i := {| d_message := d_message d; d_phase := Checking; d_rest := rest |}]>
          (dispatchers s) |})
  | step_check i d rc rest :
      dispatchers s !! i = Some d -> d_rest d = rc :: rest -> d_phase d = Checking ->
      CtxDone rc ∉ cancelled s ->
      step s (Some {| router := router s; cancelled := cancelled s;
        dispatchers := <[i := {| d_message := d_message d; d_phase := Selecting; d_rest := rc :: rest |}]>
          (dispatchers s) |})
  | step_send i d rc rest c c' :
      dispatchers s !! i = Some d -> d_rest d = rc :: rest -> d_phase d = Selecting ->
      chans (router s) !! rc_addr rc = Some c -> chan_send c (d_message d) = Sent c' ->
      step s (Some {| router := set_chans (<[rc_addr rc := c']> (chans (router s))) (router s);
        cancelled := cancelled s;
        dispatchers := <[i := {| d_message := d_message d; d_phase := Checking; d_rest := rest |}]>
          (dispatchers s) |})
  | step_send_panic i d rc rest c :
      dispatchers s !! i = Some d -> d_rest d = rc :: rest -> d_phase d = Selecting ->
      chans (router s) !! rc_addr rc = Some c -> chan_send c (d_message d) = SendPanic ->
      step s None
  | step_done i d :
      dispatchers s !! i = Some d -> d_rest d = [] ->
      step s (Some {| router := router s; cancelled := cancelled s;
        dispatchers := delete i (dispatchers s) |})
  | step_cancel ctx :
      step s (Some {| router := router s; cancelled := {[ctx]} ∪ cancelled s;
        dispatchers := dispatchers s |})
  | step_after i ctx topic rc r :
      after_funcs (router s) !! i = Some (ctx, topic, rc) -> ctx ∈ cancelled s ->
      dispatchers s = [] -> remove topic rc (drop_after i (router s)) = Ret tt r ->
      step s (Some {| router := r; cancelled := cancelled s; dispatchers := [] |})
  | step_after_panic i ctx topic rc msg :
      after_funcs (router s) !! i = Some (ctx, topic, rc) -> ctx ∈ cancelled s ->
      dispatchers s = [] -> remove topic rc (drop_after i (router s)) = Panic msg ->
      step s None
  | step_receive a c x c' :
      chans (router s) !! a = Some c -> chan_recv c = Received x c' ->
      step s (Some {| router := set_chans (<[a := c']> (chans (router s))) (router s);
        cancelled := cancelled s; dispatchers := dispatchers s |})
  | step_others w :
      others (binding (router s)) w ->
      step s (Some {| router := with_binding w (router s); cancelled := cancelled s; dispatchers := dispatchers s |}).

Inductive reachable (w : W) : option Sys -> Prop :=
  | reachable_init :
      reachable w (Some {| router := NewRouter w; cancelled := ∅; dispatchers := [] |})
  | reachable_step s o : reachable w (Some s) -> step s o -> reachable w o.

(** *** No run panics *)

(** Dispatching goroutines hold the read lock, so the route channels they
    still have to serve are registered. *)
Record sys_ok (s : Sys) : Prop := {
  sys_router : router_ok (router s);
  sys_rest : forall d rc, d ∈ dispatchers s -> rc ∈ d_rest d ->
    exists t rcs, routes (router s) !! t = Some rcs /\ rc ∈ rcs;
}.

Lemma elem_of_targets cid (rcs : list (RouteChannel T W)) rc : rc ∈ targets zerocid cid rcs -> rc ∈ rcs.
Proof. unfold targets. case_decide; intros [_ ?]%list_elem_of_filter; done. Qed.

Lemma elem_of_dispatch_targets f (s : RouterState R T W) rc :
  rc ∈ dispatch_targets zerocid f s -> exists t rcs, routes s !! t = Some rcs /\ rc ∈ rcs.
Proof.
  unfold dispatch_targets. destruct (routes s !! Topic f) as [rcs|] eqn:E.
  - intros ?%elem_of_targets. eauto.
  - by intros ?%not_elem_of_nil.
Qed.

(** Replacing a channel by one that is open or closed alike. *)
Lemma router_ok_set_chan s a c c' :
  router_ok s -> chans s !! a = Some c -> ch_closed c' = ch_closed c ->
  router_ok (set_chans (<[a := c']> (chans s)) s).
Proof.
  intros Hok Hc Heq. apply (router_ok_shrink s); simpl; [done|done| |].
  - intros b. apply lookup_closed_None. eauto.
  - intros t rcs Ht. exists rcs. split_and!; [done|by apply (ok_nodup s Hok) in Ht|done|].
    intros b Hb Hopen. destruct (decide (b = a)) as [->|Hne].
    + destruct Hopen as (d & Hd & Ho). exists c'. rewrite lookup_insert_eq. split; [done|]. congruence.
    + destruct Hopen as (d & Hd & Ho). exists d. by rewrite lookup_insert_ne.
Qed.

Lemma chan_send_closed (c c' : Chan R) x : chan_send c x = Sent c' -> ch_closed c' = ch_closed c.
Proof. unfold chan_send. destruct (ch_closed c); [done|]. case_match; [|done]. by intros [= <-]. Qed.

Lemma chan_recv_closed (c c' : Chan R) x : chan_recv c = Received x c' -> ch_closed c' = ch_closed c.
Proof. unfold chan_recv. destruct (ch_buf c); [by destruct (ch_closed c)|]. by intros [= _ <-]. Qed.

Lemma router_ok_drop_after i s : router_ok s -> router_ok (drop_after i s).
Proof. intros []. by split. Qed.

(** A dispatcher that advances, or goes from one phase to the other. *)
Lemma sys_rest_update (ds : list dispatching) (m : gmap T (list (RouteChannel T W))) i d msg ph rest :
  (forall e rc, e ∈ ds -> rc ∈ d_rest e -> exists t rcs, m !! t = Some rcs /\ rc ∈ rcs) ->
  ds !! i = Some d -> (forall rc, rc ∈ rest -> rc ∈ d_rest d) ->
  forall e rc, e ∈ <[i := {| d_message := msg; d_phase := ph; d_rest := rest |}]> ds ->
    rc ∈ d_rest e -> exists t rcs, m !! t = Some rcs /\ rc ∈ rcs.
Proof.
  intros Hall Hi Hrest e rc [j Hj]%list_elem_of_lookup Hrc.
  apply list_lookup_insert_Some in Hj as [(-> & <- & _)|[_ Hj]].
  - apply (Hall d); [by eapply list_elem_of_lookup_2|auto].
  - apply (Hall e); [by eapply list_elem_of_lookup_2|done].
Qed.

Lemma routing_ok_step s o : sys_ok s -> step s o -> exists s', o = Some s' /\ sys_ok s'.
Proof.
  intros [Hok Hrest] Hstep.
  assert (forall i d rc rest c, dispatchers s !! i = Some d -> d_rest d = rc :: rest ->
    chans (router s) !! rc_addr rc = Some c -> ch_closed c = false) as Hopen.
  { intros i d rc rest c Hi Hd Hc.
    destruct (Hrest d rc) as (t & rcs & Ht & Hin);
      [by eapply list_elem_of_lookup_2|rewrite Hd; left|].
    destruct (ok_open _ Hok _ _ _ Ht Hin) as (c' & Hc' & Ho). congruence. }
  destruct Hstep as [ctx f sub pub uns size Hno Hg|f msg|i d rc rest Hi Hd Hcan|i d rc rest Hi Hd Hph Hcan
    |i d rc rest c c' Hi Hd Hph Hc Hs|i d rc rest c Hi Hd Hph Hc Hs|i d Hi Hd|ctx
    |i ctx t rc r Ha Hcan Hno Hrem|i ctx t rc msg Ha Hcan Hno Hrem|a c x c' Hc Hr|w Ho].
  - eexists. split; [done|]. split; simpl; [by apply router_ok_Add|by intros ? ? ?%not_elem_of_nil].
  - eexists. split; [done|]. split; simpl; [done|]. intros d rc [Hin|Hin]%elem_of_app Hrc; [eauto|].
    apply list_elem_of_singleton in Hin as ->. simpl in Hrc. by eapply elem_of_dispatch_targets.
  - eexists. split; [done|]. split; simpl; [done|]. eapply sys_rest_update; eauto.
    rewrite Hd. intros. by right.
  - eexists. split; [done|]. split; simpl; [done|]. eapply sys_rest_update; eauto. by rewrite Hd.
  - eexists. split; [done|]. split; simpl.
    + eapply router_ok_set_chan; eauto. by eapply chan_send_closed.
    + eapply sys_rest_update; eauto. rewrite Hd. intros. by right.
  - exfalso. apply (chan_send_open c (d_message d)); [|done]. by eapply Hopen.
  - eexists. split; [done|]. split; simpl; [done|].
    intros e rc Hj%elem_of_list_delete Hrc. by apply (Hrest e).
  - eexists. split; [done|]. split; simpl; [done|]. apply Hrest.
  - eexists. split; [done|]. split; simpl; [|by intros ? ? ?%not_elem_of_nil].
    destruct (remove_ok t rc (drop_after i (router s))) as (s' & Hs' & Hok' & _);
      [by apply router_ok_drop_after|]. congruence.
  - exfalso. destruct (remove_ok t rc (drop_after i (router s))) as (s' & Hs' & _);
      [by apply router_ok_drop_after|]. congruence.
  - eexists. split; [done|]. split; simpl; [|apply Hrest].
    eapply router_ok_set_chan; eauto. by eapply chan_recv_closed.
  - eexists. split; [done|]. split; simpl; [by apply router_ok_binding|apply Hrest].
Qed.

Lemma reachable_ok w o : reachable w o -> exists s, o = Some s /\ sys_ok s.
Proof.
  induction 1 as [|s o _ (s' & [= <-] & Hok) Hstep]; [|by eapply routing_ok_step].
  eexists. split; [done|]. split; simpl; [apply router_ok_new|by intros ? ? ?%not_elem_of_nil].
Qed.

(** C11: whatever the interleaving of additions, dispatches, cancellations,
    removals and receives, the router never panics: it neither sends on a
    closed receive channel nor closes one twice; and in every state it can
    reach the receive channels of the registered route channels are open. *)
Theorem router_never_panics (w : W) (o : option Sys) :
  reachable w o ->
  exists s, o = Some s /\
    forall t rcs rc, routes (router s) !! t = Some rcs -> rc ∈ rcs ->
      open_chan (chans (router s)) (rc_addr rc).
Proof.
  intros (s & -> & [Hok _])%reachable_ok. exists s. split; [done|]. apply (ok_open _ Hok).
Qed.

(** *** The subscriptions of the binding *)

(** The topics subscribed at the communication binding, and those of them
    that bring the messages of a routed topic. *)
Context {U : Type} `{Countable U}.
Variable subs : W -> gset U.
Variable serves : T -> U -> Prop.
Hypothesis serves_one : forall t t' u, serves t u -> serves t' u -> t = t'.

(** A subscribe (unsubscribe) function adds (removes) a topic that serves
    the routed one when it succeeds and changes no subscription when it
    fails; publishing changes none; and others leave the subscriptions alone
    that serve a topic routed here. *)
Hypothesis binding_subs : forall t sub pub uns, good_binding t sub pub uns -> exists u, serves t u /\
  (forall w, subs (sub w).2 = match (sub w).1 with None => {[u]} ∪ subs w | Some _ => subs w end) /\
  forall w, subs (uns w).2 = match (uns w).1 with None => subs w ∖ {[u]} | Some _ => subs w end.
Hypothesis binding_pub : forall t sub pub uns w, good_binding t sub pub uns -> subs (pub w).2 = subs w.
Hypothesis binding_others : forall w w' t u, others w w' -> serves t u -> u ∈ subs w -> u ∈ subs w'.

(** The unsubscribe function of a pending removal belongs to its topic. *)
Definition removals_ok (s : RouterState R T W) : Prop :=
  forall ctx t rc, (ctx, t, rc) ∈ after_funcs s -> exists sub pub, good_binding t sub pub (unsub rc).

Definition subscribed (s : RouterState R T W) : Prop :=
  forall t, is_Some (routes s !! t) -> exists u, serves t u /\ u ∈ subs (binding s).

Lemma subscribed_register topic rcs rc ctx w size (s : RouterState R T W) u :
  subscribed s -> subs (binding s) ⊆ subs w -> serves topic u -> u ∈ subs w ->
  subscribed (register topic rcs rc ctx (with_binding w (alloc size s))).
Proof.
  intros Hsub Hle Hu Hin t [l Hl]. simpl in *.
  apply lookup_insert_Some in Hl as [[<- _]|[_ Ht]]; [by exists u|]. destruct (Hsub t) as (u' & ? & ?); [eauto|].
  exists u'. split; [done|by apply Hle].
Qed.

Lemma removals_register topic rcs rc ctx w size (s : RouterState R T W) sub pub :
  removals_ok s -> good_binding topic sub pub (unsub rc) ->
  removals_ok (register topic rcs rc ctx (with_binding w (alloc size s))).
Proof.
  intros Hr Hg c t r [Hin|Hin]%elem_of_app; [by eapply Hr|].
  apply list_elem_of_singleton in Hin as [= -> -> ->]. eauto.
Qed.

Lemma subscribed_Add ctx f sub pub uns size s :
  subscribed s -> removals_ok s -> good_binding (Topic f) sub pub uns ->
  subscribed (Add ctx f sub pub uns size s).2 /\ removals_ok (Add ctx f sub pub uns size s).2.
Proof.
  intros Hs Hr Hg. unfold Add. set (n := match size with [] => _ | _ => _ end).
  pose proof (binding_pub _ _ _ _ (binding s) Hg) as Hp.
  destruct (binding_subs _ _ _ _ Hg) as (u & Hu & Hsub & Huns). specialize (Hsub (binding s)).
  destruct (routes (alloc n s) !! Topic f) as [rcs|] eqn:Er; simpl in Er.
  - simpl. destruct (pub (binding s)) as [[e|] w] eqn:E; simpl in *.
    + split; [|done]. intros t Ht. simpl. rewrite Hp. by apply Hs.
    + split; [|by eapply removals_register]. destruct (Hs (Topic f)) as (u' & Hu' & Hin); [eauto|].
      apply (subscribed_register _ _ _ _ _ _ _ u'); [done|by rewrite Hp|done|by rewrite Hp].
  - simpl. destruct (sub (binding s)) as [[e|] w] eqn:E; simpl in *.
    + split; [|done]. intros t Ht. simpl. rewrite Hsub. by apply Hs.
    + pose proof (binding_pub _ _ _ _ w Hg) as Hpw.
      destruct (pub w) as [[e|] w'] eqn:Ep; simpl in *.
      * split; [|done]. intros t Ht. simpl in *. rewrite (Huns w'), Hpw, Hsub.
        destruct (Hs t Ht) as (u' & Hu' & Hin). exists u'. split; [done|].
        assert (u' <> u). { intros ->. rewrite (serves_one t (Topic f) u), Er in Ht by done. by destruct Ht. }
        destruct (uns w').1; set_solver.
      * split; [|by eapply removals_register].
        apply (subscribed_register _ _ _ _ _ _ _ u); [done|rewrite Hpw, Hsub; set_solver|done|rewrite Hpw, Hsub; set_solver].
Qed.

Lemma subscribed_remove t rc s s' sub pub :
  router_ok s -> subscribed s -> removals_ok s -> good_binding t sub pub (unsub rc) ->
  remove t rc s = Ret tt s' -> subscribed s' /\ removals_ok s'.
Proof.
  intros Hok Hs Hr Hg Hrem. destruct (remove_ok t rc s Hok) as (s2 & Hs2 & _ & Haf & _).
  assert (s2 = s') as -> by congruence. split; [|intros c t' r; rewrite Haf; apply Hr].
  destruct (routes s !! t) as [rcs|] eqn:Ht.
  2:{ unfold remove in Hrem. rewrite Ht in Hrem. by injection Hrem as <-. }
  destruct (decide (rc_addr rc ∈ rc_addr <$> rcs)) as [Hin|Hnin].
  2:{ unfold remove in Hrem. rewrite Ht in Hrem.
      destruct (remove_loop_pair (rc_addr rc) rcs) as (rs & Hl & _).
      rewrite Hl, bool_decide_false in Hrem by done. by injection Hrem as <-. }
  destruct (ok_addr s _ _ _ Hok Ht Hin) as [(c & Hc & Ho) _].
  destruct (remove_cases t rc s rcs c Ht Hc Ho) as [_ H1].
  destruct (H1 Hin) as (s3 & Hs3 & _ & _ & _ & Hmany & Hone).
  assert (s3 = s') as -> by congruence.
  destruct (binding_subs _ _ _ _ Hg) as (u & Hu & _ & Huns). specialize (Huns (binding s)).
  intros t' Ht'. assert (is_Some (routes s !! t')) as Ht2.
  { destruct (decide (t' = t)) as [->|Hne]; [by eexists|].
    destruct (decide (length rcs = 1%nat)) as [El|El].
    - destruct (Hone El) as [_ Hm]. rewrite Hm in Ht'. destruct (unsub rc (binding s)).1;
        by rewrite ?lookup_insert_ne, ?lookup_delete_ne in Ht'.
    - destruct (Hmany El) as [_ Hm]. by rewrite Hm, lookup_insert_ne in Ht'. }
  destruct (Hs t' Ht2) as (u' & Hu' & Hin'). exists u'. split; [done|].
  destruct (decide (length rcs = 1%nat)) as [El|El]; [|by rewrite (proj1 (Hmany El))].
  destruct (Hone El) as [Hb Hm]. rewrite Hb, Huns. rewrite Hm in Ht'. destruct (unsub rc (binding s)).1; [done|].
  assert (u' <> u); [|set_solver]. intros ->. rewrite (serves_one t' t u), lookup_delete_eq in Ht' by done.
  by destruct Ht'.
Qed.

Lemma reachable_subscribed (w : W) (s : Sys) :
  reachable w (Some s) -> subscribed (router s) /\ removals_ok (router s).
Proof.
  intros Hre.
  remember (Some s) as o eqn:Eo. revert s Eo.
  induction Hre as [|s0 o Hre IH Hstep]; intros s Eo.
  - injection Eo as <-. split; [by intros t [? ?]|by intros ? ? ? ?%not_elem_of_nil].
  - destruct (reachable_ok _ _ Hre) as (s0' & [= <-] & [Hok _]).
    destruct (IH s0 eq_refl) as [Hs Hr].
    destruct Hstep as [ctx f sub pub uns size Hno Hg| | | | | | | |i ctx t rc r Ha Hcan Hno Hrem| | |w' Ho];
      simplify_eq/=; try done.
    + by apply subscribed_Add.
    + destruct (Hr ctx t rc) as (sub & pub & Hg); [eapply list_elem_of_lookup_2; exact Ha|].
      eapply subscribed_remove; [by apply (router_ok_drop_after i)| | | |exact Hrem]; simpl; try done.
      intros c t' r' Hin. apply (Hr c t' r'). exact (elem_of_list_delete _ i _ Hin).
    + split; [|done]. intros t Ht. destruct (Hs t Ht) as (u & Hu & Hin). exists u. split; [done|].
      by eapply binding_others.
Qed.


End System.

(** ** Whom a message is for *)

Section Targets.
Context {R : Type} {T : Type} `{Countable T} {W : Type}.
Variable zerocid : T.

Lemma NoDup_targets cid (rcs : list (RouteChannel T W)) :
  NoDup (rc_addr <$> rcs) -> NoDup (rc_addr <$> targets zerocid cid rcs).
Proof.
  intros Hnd. unfold targets.
  case_decide; eapply sublist_NoDup; [exact Hnd| |exact Hnd|]; by apply fmap_sublist, sublist_filter.
Qed.

Lemma NoDup_dispatch_targets f (s : RouterState R T W) :
  router_ok s -> NoDup (rc_addr <$> dispatch_targets zerocid f s).
Proof.
  intros Hok. unfold dispatch_targets. destruct (routes s !! Topic f) as [rcs|] eqn:E; [|constructor].
  apply NoDup_targets. by apply (ok_nodup s Hok) in E.
Qed.

(** The route channels of a topic that await messages with a correlation id. *)
Definition awaiting (f : RouteFilter T) (s : RouterState R T W) : list (RouteChannel T W) :=
  filter (fun rc => correlationId rc = CorrelationId f) (default [] (routes s !! Topic f)).

Lemma dispatch_targets_awaiting f (s : RouterState R T W) rc :
  rc ∈ dispatch_targets zerocid f s <-> rc ∈ awaiting f s.
Proof.
  unfold awaiting, dispatch_targets. destruct (routes s !! Topic f) as [rcs|]; simpl.
  - unfold targets. case_decide; rewrite !list_elem_of_filter; naive_solver congruence.
  - done.
Qed.

End Targets.

(** ** Dispatches under way complete *)

Section Moves.
Context {R : Type} {T : Type} `{Countable T} {W : Type}.
Abbreviation State := (@Sys R T _ _ W).
Abbreviation Turn := (@dispatching R T W).
Variables (zerocid : T) (good_binding : T -> ComBindingFunc W -> ComBindingFunc W -> ComBindingFunc W -> Prop)
  (others : W -> W -> Prop).

(** The channels whose consumers go on receiving. *)
Variable receiving : nat -> Prop.

(** [s] with a dispatching goroutine, or its channels and it, moved on. *)
Definition turn (i : nat) (d : Turn) (s : State) : State :=
  {| router := router s; cancelled := cancelled s; dispatchers := <[i := d]> (dispatchers s) |}.
Definition at_next (d : Turn) (rest : list (RouteChannel T W)) : Turn :=
  {| d_message := d_message d; d_phase := Checking; d_rest := rest |}.
Definition with_chan (a : nat) (c : Chan R) (s : State) : State :=
  {| router := set_chans (<[a := c]> (chans (router s))) (router s); cancelled := cancelled s; dispatchers := dispatchers s |}.

(** Who moves: a dispatching goroutine, or a consumer, which receives. *)
Inductive mover := Dispatcher (i : nat) | Consumer (a : nat) (x : R).

(** The moves of the goroutines under way: a dispatch goes through its route channels one after the other,
    skips one whose context is done, else waits to send; and consumers
    receive. *)
Inductive move (s : State) : mover -> State -> Prop :=
  | move_skip i d rc rest :
      dispatchers s !! i = Some d -> d_rest d = rc :: rest -> CtxDone rc ∈ cancelled s ->
      move s (Dispatcher i) (turn i (at_next d rest) s)
  | move_check i d rc rest :
      dispatchers s !! i = Some d -> d_rest d = rc :: rest -> d_phase d = Checking -> CtxDone rc ∉ cancelled s ->
      move s (Dispatcher i) (turn i {| d_message := d_message d; d_phase := Selecting; d_rest := rc :: rest |} s)
  | move_send i d rc rest c c' :
      dispatchers s !! i = Some d -> d_rest d = rc :: rest -> d_phase d = Selecting ->
      chans (router s) !! rc_addr rc = Some c -> chan_send c (d_message d) = Sent c' ->
      move s (Dispatcher i) (with_chan (rc_addr rc) c' (turn i (at_next d rest) s))
  | move_done i d :
      dispatchers s !! i = Some d -> d_rest d = [] ->
      move s (Dispatcher i) {| router := router s; cancelled := cancelled s; dispatchers := delete i (dispatchers s) |}
  | move_receive a c x c' :
      receiving a -> chans (router s) !! a = Some c -> chan_recv c = Received x c' ->
      move s (Consumer a x) (with_chan a c' s).

(** They are steps of the system. *)
Lemma move_step s l s' : move s l s' -> step zerocid good_binding others s (Some s').
Proof.
  intros [i d rc rest Hi Hd Hc|i d rc rest Hi Hd Hp Hc|i d rc rest c c' Hi Hd Hp Hc Hs|i d Hi Hd|a c x c' _ Hc Hr].
  - by eapply step_skip.
  - by eapply step_check.
  - exact (step_send _ _ _ s i d rc rest c c' Hi Hd Hp Hc Hs).
  - exact (step_done _ _ _ s i d Hi Hd).
  - exact (step_receive _ _ _ s a c x c' Hc Hr).
Qed.

Inductive moves : State -> list mover -> State -> Prop :=
  | moves_none s : moves s [] s
  | moves_more s m s1 ms s2 : move s m s1 -> moves s1 ms s2 -> moves s (m :: ms) s2.

(** *** Every run of moves ends *)

(** What is left to do: a check, a send and a receive per route channel, the
    end of each dispatch, and a receive per message buffered. *)
Definition turn_work (d : Turn) : nat :=
  1 + 3 * length (d_rest d) + match d_phase d with Checking => 1 | Selecting => 0 end.
#[local] Arguments turn_work : simpl never.
Definition chan_work (cs : gmap nat (Chan R)) : nat := map_fold (fun _ c n => (length (ch_buf c) + n)%nat) 0%nat cs.
Definition work (s : State) : nat := sum_list_with turn_work (dispatchers s) + chan_work (chans (router s)).

Lemma chan_work_insert cs a c c' : cs !! a = Some c ->
  (chan_work (<[a := c']> cs) + length (ch_buf c) = chan_work cs + length (ch_buf c'))%nat.
Proof.
  intros Hc. unfold chan_work.
  rewrite (map_fold_delete_L _ _ a c cs) by (done || intros; lia).
  rewrite (map_fold_delete_L _ _ a c' (<[a := c']> cs)) by (by rewrite ?lookup_insert_eq || (intros; lia)).
  rewrite delete_insert_eq. lia.
Qed.

Lemma move_works s l s' : move s l s' -> (work s' < work s)%nat.
Proof.
  intros [i d rc rest Hi Hd Hc|i d rc rest Hi Hd Hp Hc|i d rc rest c c' Hi Hd Hp Hc Hs|i d Hi Hd|a c x c' _ Hc Hr];
    unfold work; simpl.
  - pose proof (sum_list_insert turn_work _ _ _ (at_next d rest) Hi) as E. unfold turn_work at 2 4, at_next in E.
    rewrite Hd in E. simpl in E. unfold at_next. destruct (d_phase d); lia.
  - pose proof (sum_list_insert turn_work _ _ _ {| d_message := d_message d; d_phase := Selecting; d_rest := rc :: rest |} Hi) as E.
    unfold turn_work at 2 4 in E. rewrite Hd, Hp in E. simpl in E. lia.
  - pose proof (sum_list_insert turn_work _ _ _ (at_next d rest) Hi) as E. unfold turn_work at 2 4, at_next in E.
    rewrite Hd, Hp in E. simpl in E. unfold at_next. pose proof (chan_work_insert _ _ _ c' Hc) as E'.
    unfold chan_send in Hs. destruct (ch_closed c); [done|]. destruct (Nat.ltb _ _); [|done]. injection Hs as <-.
    simpl in E'. rewrite length_app in E'. simpl in E'. lia.
  - pose proof (sum_list_delete turn_work _ _ _ Hi) as E. unfold turn_work at 2 in E. lia.
  - pose proof (chan_work_insert _ _ _ c' Hc) as E'. unfold chan_recv in Hr.
    destruct (ch_buf c) as [|y rest] eqn:Eb; [by destruct (ch_closed c)|]. injection Hr as -> <-. simpl in E'. lia.
Qed.

Lemma moves_bounded s ms s' : moves s ms s' -> (length ms + work s' <= work s)%nat.
Proof. induction 1 as [|s l s1 ms s2 Hm _ IH]; simpl; [lia|]. pose proof (move_works _ _ _ Hm). lia. Qed.

(** *** What is received *)

Definition received (a : nat) (ms : list mover) : list R :=
  omap (fun m => match m with Consumer b x => if decide (b = a) then Some x else None | _ => None end) ms.
Definition buffered (a : nat) (s : State) : list R := from_option ch_buf [] (chans (router s) !! a).

(** The messages that dispatches under way still have to send on a channel. *)
Definition pending_of (a : nat) (d : Turn) : list R :=
  (fun _ => d_message d) <$> filter (fun rc => rc_addr rc = a) (d_rest d).
Definition pending (a : nat) (s : State) : list R := concat (pending_of a <$> dispatchers s).

Definition uncancelled (a : nat) (s : State) : Prop :=
  forall d rc, d ∈ dispatchers s -> rc ∈ d_rest d -> rc_addr rc = a -> CtxDone rc ∉ cancelled s.

Lemma pending_insert (ds : list Turn) a i d d' l :
  ds !! i = Some d -> pending_of a d = l ++ pending_of a d' ->
  concat (pending_of a <$> ds) ≡ₚ l ++ concat (pending_of a <$> <[i := d']> ds).
Proof.
  revert i. induction ds as [|e ds IH]; intros [|i]; [done..| |]; simpl.
  - intros [= ->] ->. by rewrite app_assoc.
  - intros Hi Hd. rewrite (IH i Hi Hd). apply Permutation_app_swap_app.
Qed.

Lemma pending_delete (ds : list Turn) a i d :
  ds !! i = Some d -> d_rest d = [] -> concat (pending_of a <$> delete i ds) = concat (pending_of a <$> ds).
Proof.
  revert i. induction ds as [|e ds IH]; intros [|i]; [done..| |]; simpl.
  - intros [= ->]. unfold pending_of at 2. by intros ->.
  - intros Hi Hd. exact (f_equal (app (pending_of a e)) (IH i Hi Hd)).
Qed.

(** What a dispatch under way awaits was awaited before a move. *)
Lemma move_pending s l s' d rc : move s l s' -> d ∈ dispatchers s' -> rc ∈ d_rest d ->
  exists d0, d0 ∈ dispatchers s /\ rc ∈ d_rest d0.
Proof.
  assert (Hins : forall i d0 (d1 : Turn) e, dispatchers s !! i = Some d0 -> (forall r, r ∈ d_rest d1 -> r ∈ d_rest d0) ->
    e ∈ <[i := d1]> (dispatchers s) -> rc ∈ d_rest e -> exists d0, d0 ∈ dispatchers s /\ rc ∈ d_rest d0).
  { intros i d0 d1 e Hi Hsub [j Hj]%list_elem_of_lookup Hrc.
    apply list_lookup_insert_Some in Hj as [(-> & <- & _)|[_ Hj]].
    - exists d0. split; [by eapply list_elem_of_lookup_2|auto].
    - exists e. split; [by eapply list_elem_of_lookup_2|done]. }
  intros [i d0 rc0 rest Hi Hd Hc|i d0 rc0 rest Hi Hd Hp Hc|i d0 rc0 rest c c' Hi Hd Hp Hc Hs|i d0 Hi Hd|a c x c' _ Hc Hr];
    simpl; intros Hin Hrc; [| | | |eauto].
  - eapply Hins; [exact Hi| |exact Hin|exact Hrc]. simpl. rewrite Hd. intros. by right.
  - eapply Hins; [exact Hi| |exact Hin|exact Hrc]. simpl. by rewrite Hd.
  - eapply Hins; [exact Hi| |exact Hin|exact Hrc]. simpl. rewrite Hd. intros. by right.
  - apply elem_of_list_delete in Hin. eauto.
Qed.

Lemma move_cancelled s l s' : move s l s' -> cancelled s' = cancelled s.
Proof. by destruct 1. Qed.

Lemma move_uncancelled s l s' a : move s l s' -> uncancelled a s -> uncancelled a s'.
Proof.
  intros Hm Hu d rc Hd Hrc Ha. rewrite (move_cancelled _ _ _ Hm).
  destruct (move_pending _ _ _ _ _ Hm Hd Hrc) as (d0 & ? & ?). by eapply Hu.
Qed.

Lemma pending_of_at_next a d rc rest : d_rest d = rc :: rest ->
  pending_of a d = (if decide (rc_addr rc = a) then [d_message d] else []) ++ pending_of a (at_next d rest).
Proof. intros Hd. unfold pending_of. rewrite Hd, filter_cons. by destruct (decide _). Qed.

(** A move passes a message on: from a dispatch to the end of a channel, from
    the front of a channel to its consumer. *)
Lemma move_passes s l s' a : move s l s' -> uncancelled a s ->
  exists p, received a [l] ++ buffered a s' = buffered a s ++ p /\ pending a s ≡ₚ p ++ pending a s'.
Proof.
  intros Hm Hu. destruct Hm as [i d rc rest Hi Hd Hc|i d rc rest Hi Hd Hp Hc|i d rc rest c c' Hi Hd Hp Hc Hs|i d Hi Hd|b c x c' _ Hc Hr];
    unfold pending, buffered, turn, with_chan; simpl.
  - exists []. rewrite app_nil_r. split; [done|]. apply (pending_insert _ _ i d); [done|].
    rewrite (pending_of_at_next a d rc rest Hd), decide_False; [done|]. intros E.
    eapply Hu; [by eapply list_elem_of_lookup_2|rewrite Hd; left|done..].
  - exists []. rewrite app_nil_r. split; [done|]. apply (pending_insert _ _ i d); [done|].
    unfold pending_of. simpl. by rewrite Hd.
  - exists (if decide (rc_addr rc = a) then [d_message d] else []). split.
    + unfold chan_send in Hs. destruct (ch_closed c); [done|]. destruct (Nat.ltb _ _); [|done]. injection Hs as <-.
      destruct (decide (rc_addr rc = a)) as [<-|Hne]; [by rewrite lookup_insert_eq, Hc|].
      by rewrite lookup_insert_ne, app_nil_r.
    + apply (pending_insert _ _ i d); [done|]. by apply pending_of_at_next.
  - exists []. rewrite app_nil_r. split; [done|]. simpl. by rewrite (pending_delete _ a i d).
  - exists []. rewrite app_nil_r. split; [|done]. unfold received. simpl.
    unfold chan_recv in Hr. destruct (ch_buf c) as [|y rest] eqn:Eb; [by destruct (ch_closed c)|]. injection Hr as -> <-.
    destruct (decide (b = a)) as [->|Hne]; simpl; [rewrite lookup_insert_eq, Hc; simpl; by rewrite Eb|]. by rewrite lookup_insert_ne.
Qed.

Lemma moves_pass s l s' a : moves s l s' -> uncancelled a s ->
  exists p, received a l ++ buffered a s' = buffered a s ++ p /\ pending a s ≡ₚ p ++ pending a s'.
Proof.
  induction 1 as [s|s l s1 l' s2 Hm _ IH]; intros Hu.
  - exists []. by rewrite app_nil_r.
  - destruct (move_passes _ _ _ a Hm Hu) as (p & E & Hp). destruct IH as (p' & E' & Hp'); [by eapply move_uncancelled|].
    exists (p ++ p'). split.
    + change (l :: l') with ([l] ++ l'). unfold received in *. rewrite omap_app, <- app_assoc, E', app_assoc, E. by rewrite app_assoc.
    + by rewrite Hp, Hp', app_assoc.
Qed.

(** *** Nothing but a consumer holds a dispatch up *)

(** The channels are buffered ones. *)
Definition buffers (s : State) : Prop := forall a c, chans (router s) !! a = Some c -> (0 < ch_cap c)%nat.

Lemma move_buffers s l s' : move s l s' -> buffers s -> buffers s'.
Proof.
  assert (forall a c c', chans (router s) !! a = Some c -> ch_cap c' = ch_cap c -> buffers s ->
    forall b d, <[a := c']> (chans (router s)) !! b = Some d -> (0 < ch_cap d)%nat) as Hins.
  { intros a c c' Hc E Hb b d [[_ <-]|[_ Hd]]%lookup_insert_Some; [rewrite E|]; by eapply Hb. }
  intros [i d rc rest Hi Hd Hc|i d rc rest Hi Hd Hp Hc|i d rc rest c c' Hi Hd Hp Hc Hs|i d Hi Hd|a c x c' _ Hc Hr] Hb; try exact Hb.
  - intros b d'. simpl. eapply Hins; [exact Hc| |done]. unfold chan_send in Hs. destruct (ch_closed c); [done|].
    destruct (Nat.ltb _ _); [|done]. by injection Hs as <-.
  - intros b d'. simpl. eapply Hins; [exact Hc| |done]. unfold chan_recv in Hr.
    destruct (ch_buf c); [by destruct (ch_closed c)|]. by injection Hr as _ <-.
Qed.

(** A dispatch that cannot move on waits to send on a full channel, of a
    consumer whose context is not done. *)
Definition held_up (s : State) (d : Turn) (rc : RouteChannel T W) (c : Chan R) : Prop :=
  (exists rest, d_rest d = rc :: rest) /\ CtxDone rc ∉ cancelled s /\
  chans (router s) !! rc_addr rc = Some c /\ length (ch_buf c) = ch_cap c.

(** The channels hold no more than they have room for. *)
Definition within_room (s : State) : Prop :=
  forall a c, chans (router s) !! a = Some c -> (length (ch_buf c) <= ch_cap c)%nat.

Lemma chans_Add ctx f sub pub uns size (s : RouterState R T W) :
  chans (Add ctx f sub pub uns size s).2 =
  <[next_addr s := make_chan (match size with [] => receiveBufferSize | n :: _ => n end)]> (chans s).
Proof.
  unfold Add. destruct (routes _ !! _); [by destruct (pub _) as [[]]|].
  destruct (sub _) as [[e|] w]; [done|]. by destruct (pub w) as [[]].
Qed.

Lemma chans_remove t rc (s s' : RouterState R T W) : remove t rc s = Ret tt s' ->
  chans s' = chans s \/
  exists c, chans s !! rc_addr rc = Some c /\ chans s' = <[rc_addr rc := MkChan (ch_cap c) (ch_buf c) true]> (chans s).
Proof.
  assert (Hclose : forall r, chans r = chans s -> close_chan (rc_addr rc) r = Ret tt s' ->
    exists c, chans s !! rc_addr rc = Some c /\ chans s' = <[rc_addr rc := MkChan (ch_cap c) (ch_buf c) true]> (chans s)).
  { intros r E. unfold close_chan, chan_close. rewrite E. destruct (chans s !! _) as [c|]; [|done].
    destruct (ch_closed c); [done|]. intros [= <-]. by exists c. }
  unfold remove. destruct (routes s !! t) as [rcs|]; [|intros [= <-]; by left].
  destruct (remove_loop _ _) as [[] rs]; [|intros [= <-]; by left].
  destruct (Nat.eqb _ 1); [destruct (unsub rc _) as [[e|] w]|]; intros Hc; right; (eapply Hclose; [|exact Hc]; done).
Qed.

Lemma step_room s s' : step zerocid good_binding others s (Some s') -> within_room s -> within_room s'.
Proof.
  assert (Hins : forall r a c, (forall b d, chans r !! b = Some d -> (length (ch_buf d) <= ch_cap d)%nat) ->
    (length (ch_buf c) <= ch_cap c)%nat ->
    forall b (d : Chan R), <[a := c]> (chans (W := W) (T := T) r) !! b = Some d -> (length (ch_buf d) <= ch_cap d)%nat).
  { intros r a c Hr Hc b d [[_ <-]|[_ Hd]]%lookup_insert_Some; [done|by eapply Hr]. }
  intros Hs Hroom a0 c0. unfold within_room in Hroom. inversion Hs; subst; simpl; try exact (Hroom a0 c0).
  - rewrite chans_Add. apply Hins; [done|simpl; lia].
  - apply Hins; [done|]. match goal with E : chan_send ?c _ = Sent _ |- _ => unfold chan_send in E; destruct (ch_closed c); [done|];
      destruct (Nat.ltb_spec (length (ch_buf c)) (ch_cap c)); [|done] end. simplify_eq/=. rewrite length_app. simpl. lia.
  - match goal with E : remove _ _ _ = _ |- _ => destruct (chans_remove _ _ _ _ E) as [->|(c & Hc & ->)] end;
      [by apply Hroom|]. apply (Hins _ _ _ Hroom). simpl. by eapply Hroom.
  - apply Hins; [done|]. match goal with E : chan_recv ?c = _, Hc : _ !! _ = Some ?c |- _ => pose proof (Hroom _ _ Hc) as Hl;
      unfold chan_recv in E; destruct (ch_buf c) as [|? ?] eqn:Eb; [by destruct (ch_closed c)|] end. simplify_eq/=. lia.
Qed.

Lemma reachable_room w s : reachable zerocid good_binding others w (Some s) -> within_room s.
Proof.
  intros Hr. remember (Some s) as o eqn:Eo. revert s Eo. induction Hr as [|s0 o _ IH Hs]; intros s Eo.
  - injection Eo as <-. by intros a c.
  - subst o. by eapply step_room, IH.
Qed.

Lemma moves_or_held s i d : sys_ok s -> within_room s -> dispatchers s !! i = Some d ->
  (exists s', move s (Dispatcher i) s') \/ exists rc c, held_up s d rc c.
Proof.
  intros [Hok Hrest] Hroom Hi. destruct (d_rest d) as [|rc rest] eqn:Hd.
  { left. eexists. by eapply move_done. }
  destruct (decide (CtxDone rc ∈ cancelled s)) as [Hc|Hc]; [left; eexists; by eapply move_skip|].
  destruct (d_phase d) eqn:Hp; [left; eexists; by eapply move_check|].
  destruct (Hrest d rc) as (t & rcs & Ht & Hin); [by eapply list_elem_of_lookup_2|rewrite Hd; left|].
  destruct (ok_open _ Hok _ _ _ Ht Hin) as (c & Hlk & Ho). pose proof (Hroom _ _ Hlk) as Hr.
  destruct (decide (length (ch_buf c) < ch_cap c)%nat) as [Hlt|Hge].
  - left. eexists. eapply move_send; [done..|exact Hlk|by apply chan_send_fits].
  - right. exists rc, c. split_and!; [by eexists|done|done|lia].
Qed.

(** What is known of a state from which the goroutines move on. *)
Record under_way (s : State) : Prop := {
  way_ok : sys_ok s;
  way_room : within_room s;
  way_buffers : buffers s;
  way_receiving : forall d rc, d ∈ dispatchers s -> rc ∈ d_rest d -> CtxDone rc ∉ cancelled s -> receiving (rc_addr rc);
}.

Lemma moves_under_way s ms s' : moves s ms s' -> under_way s -> under_way s'.
Proof.
  induction 1 as [|s m s1 ms s2 Hm _ IH]; [done|]. intros [Hok Hroom Hb Hrec]. apply IH.
  pose proof (move_step _ _ _ Hm) as Hs. split.
  - destruct (routing_ok_step _ _ _ _ _ Hok Hs) as (? & [= <-] & ?). done.
  - by eapply step_room.
  - by eapply move_buffers.
  - intros d rc Hd Hrc Hc. rewrite (move_cancelled _ _ _ Hm) in Hc.
    destruct (move_pending _ _ _ _ _ Hm Hd Hrc) as (d0 & ? & ?). by eapply Hrec.
Qed.

Lemma receive_move s a c x rest : receiving a -> chans (router s) !! a = Some c -> ch_buf c = x :: rest ->
  exists s', move s (Consumer a x) s'.
Proof. intros Ha Hc Hb. eexists. eapply move_receive; [done..|]. unfold chan_recv. by rewrite Hb. Qed.

(** When nobody can move, all dispatches are done and all has been received. *)
Lemma no_move_left s : under_way s -> (forall m s', ~ move s m s') ->
  dispatchers s = [] /\ forall a, receiving a -> buffered a s = [].
Proof.
  intros [Hok Hroom Hb Hrec] Hno.
  assert (Hempty : forall a c, receiving a -> chans (router s) !! a = Some c -> ch_buf c = []).
  { intros a c Ha Hc. destruct (ch_buf c) as [|x rest] eqn:E; [done|].
    destruct (receive_move s a c x rest Ha Hc E) as [s' Hm]. by destruct (Hno _ _ Hm). }
  split.
  - destruct (dispatchers s) as [|d ds] eqn:Ed; [done|]. exfalso.
    assert (dispatchers s !! 0%nat = Some d) as Hi by (by rewrite Ed).
    destruct (moves_or_held s 0 d Hok Hroom Hi) as [[s' Hm]|(rc & c & [rest Hd] & Hc & Hlk & Hfull)]; [by destruct (Hno _ _ Hm)|].
    assert (receiving (rc_addr rc)) as Hr by (apply (Hrec d); [left|rewrite Hd; left|done]).
    pose proof (Hb _ _ Hlk). rewrite (Hempty _ _ Hr Hlk) in Hfull. simpl in Hfull. lia.
  - intros a Ha. unfold buffered. destruct (chans (router s) !! a) as [c|] eqn:E; [|done]. by apply (Hempty a).
Qed.

(** A dispatch has begun. *)
Definition begun (f : RouteFilter T) (x : R) (s : State) : State :=
  {| router := router s; cancelled := cancelled s;
     dispatchers := dispatchers s ++
       [{| d_message := x; d_phase := Checking; d_rest := dispatch_targets zerocid f (router s) |}] |}.

Lemma filter_one (l : list (RouteChannel T W)) a : NoDup (rc_addr <$> l) ->
  length (filter (fun rc => rc_addr rc = a) l) = if decide (a ∈ rc_addr <$> l) then 1%nat else 0%nat.
Proof.
  induction l as [|rc l IH]; [done|]. rewrite fmap_cons. intros [Hnin Hnd]%NoDup_cons.
  rewrite filter_cons. specialize (IH Hnd). destruct (decide (rc_addr rc = a)) as [<-|Hne].
  - rewrite decide_False in IH by done. rewrite decide_True by left. simpl. by rewrite IH.
  - rewrite IH. apply decide_ext. rewrite elem_of_cons. naive_solver.
Qed.

Lemma pending_begun f x a s : router_ok (router s) ->
  pending a (begun f x s) = pending a s ++ if decide (a ∈ rc_addr <$> awaiting f (router s)) then [x] else [].
Proof.
  intros Hok. unfold pending, begun. simpl. rewrite fmap_app, concat_app. simpl. rewrite app_nil_r. f_equal.
  unfold pending_of. simpl.
  pose proof (filter_one _ a (NoDup_dispatch_targets zerocid f (router s) Hok)) as Hl.
  rewrite (decide_ext _ (a ∈ rc_addr <$> awaiting f (router s))) in Hl.
  - destruct (filter _ _) as [|rc [|rc' l]]; simpl in Hl; case_decide; done.
  - rewrite !list_elem_of_fmap. by setoid_rewrite dispatch_targets_awaiting.
Qed.

(** C19: dispatches complete if their consumers go on receiving, and nothing
    else is needed.  From any reachable state with dispatches under way, whose
    consumers that are not cancelled go on receiving from their buffered
    channels, and however dispatching goroutines and consumers take turns:
    every run of their moves ends after a number of them that the state
    bounds; when none can move, all dispatches are done, and each consumer has
    received what its channel held and then exactly the messages that the
    dispatches under way still had for it; and at any time on the way, a
    dispatch that cannot move is held up by one consumer, which is not
    cancelled and leaves its channel full: the dispatch serves its route
    channels one after the other, so it is held up for those after it too.
    And a dispatch that begins has its message for each route channel
    registered for its topic and correlation id, once. *)
Theorem dispatches_complete (w : W) (s : State) :
  reachable zerocid good_binding others w (Some s) -> buffers s ->
  (forall d rc, d ∈ dispatchers s -> rc ∈ d_rest d -> CtxDone rc ∉ cancelled s -> receiving (rc_addr rc)) ->
  forall ms s', moves s ms s' ->
    (length ms <= work s)%nat /\
    ((forall m s2, ~ move s' m s2) -> dispatchers s' = [] /\
       forall a, receiving a -> uncancelled a s -> exists p, p ≡ₚ pending a s /\ received a ms = buffered a s ++ p) /\
    (forall i d, dispatchers s' !! i = Some d ->
       (exists s2, move s' (Dispatcher i) s2) \/ exists rc c, held_up s' d rc c) /\
    (forall f x, step zerocid good_binding others s' (Some (begun f x s')) /\ forall a, pending a (begun f x s') =
       pending a s' ++ if decide (a ∈ rc_addr <$> awaiting f (router s')) then [x] else []).
Proof.
  intros Hr Hb Hrec ms s' Hms.
  assert (under_way s') as Hway.
  { eapply moves_under_way; [exact Hms|]. destruct (reachable_ok _ _ _ _ _ Hr) as (? & [= <-] & Hok).
    split; [done|by eapply reachable_room|done|done]. }
  split_and!.
  - pose proof (moves_bounded _ _ _ Hms). lia.
  - intros Hno. destruct (no_move_left s' Hway Hno) as [Hd He]. split; [done|]. intros a Ha Hu.
    destruct (moves_pass _ _ _ a Hms Hu) as (p & E & Hp). exists p. rewrite (He a Ha), app_nil_r in E.
    unfold pending at 2 in Hp. rewrite Hd in Hp. simpl in Hp. by rewrite app_nil_r in Hp.
  - intros i d. apply moves_or_held; apply Hway.
  - intros f x. split; [exact (step_dispatch _ _ _ s' f x)|]. intros a. apply pending_begun, Hway.
Qed.
End Moves.

(** ** What one dispatch delivers *)

Section Dispatch.
Context {R : Type} {T : Type} `{Countable T} {W : Type}.
Variable zerocid : T.

Definition push (x : R) (c : Chan R) : Chan R := MkChan (ch_cap c) (ch_buf c ++ [x]) (ch_closed c).

Definition has_room (c : Chan R) : Prop := ch_closed c = false /\ (length (ch_buf c) < ch_cap c)%nat.

Lemma dispatch_loop (cancelled : gset nat) (x : R) (rcs : list (RouteChannel T W)) cs :
  NoDup (rc_addr <$> rcs) ->
  (forall rc, rc ∈ rcs -> CtxDone rc ∉ cancelled -> exists c, cs !! rc_addr rc = Some c /\ has_room c) ->
  exists cs', mfor rcs (fun rc => dispatch1 cancelled rc x) cs = Ret tt cs' /\
    (forall rc, rc ∈ rcs -> CtxDone rc ∉ cancelled -> cs' !! rc_addr rc = push x <$> cs !! rc_addr rc) /\
    (forall a, (forall rc, rc ∈ rcs -> rc_addr rc = a -> CtxDone rc ∈ cancelled) -> cs' !! a = cs !! a).
Proof.
  revert cs. induction rcs as [|rc rcs IH]; intros cs Hnd Hroom.
  - exists cs. split_and!; [done|by intros ? ?%not_elem_of_nil|done].
  - apply NoDup_cons in Hnd as [Hn Hnd]. simpl.
    assert (forall r, r ∈ rcs -> rc_addr r <> rc_addr rc) as Hne.
    { intros r Hr E. apply Hn. rewrite <- E. by apply list_elem_of_fmap_2. }
    assert (forall d, exists cs', mfor rcs (fun rc => dispatch1 cancelled rc x) (<[rc_addr rc := d]> cs) = Ret tt cs' /\
      (forall r, r ∈ rcs -> CtxDone r ∉ cancelled -> cs' !! rc_addr r = push x <$> cs !! rc_addr r) /\
      cs' !! rc_addr rc = Some d /\
      (forall a, a <> rc_addr rc -> (forall r, r ∈ rcs -> rc_addr r = a -> CtxDone r ∈ cancelled) -> cs' !! a = cs !! a))
      as Hins.
    { intros d. destruct (IH (<[rc_addr rc := d]> cs) Hnd) as (cs' & Hrun & H1 & H2).
      - intros r Hr Hc. rewrite lookup_insert_ne by (symmetry; auto). apply Hroom; [by right|done].
      - exists cs'. split_and!; [done| | |].
        + intros r Hr Hc. rewrite H1 by done. by rewrite lookup_insert_ne by (symmetry; auto).
        + rewrite H2; [by rewrite lookup_insert_eq|]. intros r Hr E. by destruct (Hne r Hr).
        + intros a Ha Hall. rewrite H2 by done. by rewrite lookup_insert_ne. }
    unfold mbind, dispatch1 at 1. destruct (decide (CtxDone rc ∈ cancelled)) as [Hc|Hc].
    + destruct (IH cs Hnd) as (cs' & Hrun & H1 & H2).
      { intros r Hr. apply Hroom. by right. }
      exists cs'. split_and!; [done| |].
      * intros r [->|Hr]%elem_of_cons Hcr; [done|by apply H1].
      * intros a Hall. apply H2. intros r Hr. apply Hall. by right.
    + destruct (Hroom rc ltac:(left) Hc) as (c & Hlk & Hopen & Hlt). rewrite Hlk.
      rewrite chan_send_fits by done. destruct (Hins (MkChan (ch_cap c) (ch_buf c ++ [x]) false))
        as (cs' & Hrun & H1 & H2 & H3).
      exists cs'. split_and!; [done| |].
      * intros r [->|Hr]%elem_of_cons Hcr; [|by apply H1].
        rewrite H2, Hlk. unfold push. simpl. by rewrite Hopen.
      * intros a Hall. apply H3.
        { intros ->. apply Hc, (Hall rc); [left|done]. }
        intros r Hr. apply Hall. by right.
Qed.

Lemma dispatch_ok (cancelled : gset nat) (f : RouteFilter T) (x : R) (s : RouterState R T W) :
  router_ok s ->
  let receivers := filter (fun rc => CtxDone rc ∉ cancelled /\
      correlationId rc = CorrelationId f) (default [] (routes s !! Topic f)) in
  (forall rc, rc ∈ receivers -> exists c, chans s !! rc_addr rc = Some c /\ has_room c) ->
  exists cs, dispatch zerocid cancelled f x s = Ret tt cs /\
    forall a, cs !! a =
      if decide (a ∈ rc_addr <$> receivers) then push x <$> chans s !! a else chans s !! a.
Proof.
  intros Hok receivers Hroom. unfold dispatch.
  assert (forall rc, rc ∈ dispatch_targets zerocid f s /\ CtxDone rc ∉ cancelled <-> rc ∈ receivers) as Hiff.
  { intros rc. rewrite dispatch_targets_awaiting. unfold receivers, awaiting. rewrite !list_elem_of_filter. tauto. }
  pose proof (NoDup_dispatch_targets zerocid f s Hok) as Hnd.
  destruct (dispatch_loop cancelled x (dispatch_targets zerocid f s) (chans s) Hnd) as (cs & -> & H1 & H2).
  { intros rc Hr Hc. apply Hroom, Hiff. done. }
  exists cs. split; [done|]. intros a. case_decide as Ha.
  - apply list_elem_of_fmap in Ha as (rc & -> & Hin). apply Hiff in Hin as [Hin Hc]. by apply H1.
  - apply H2. intros rc Hin <-. destruct (decide (CtxDone rc ∈ cancelled)) as [|Hc]; [done|].
    destruct Ha. apply list_elem_of_fmap_2, Hiff. done.
Qed.

(** C27: dispatching a message on a well-formed router delivers it once, at
    the end of their channels, to exactly the route channels of its topic
    that await it (all without a correlation id for a request, the ones with
    the same correlation id for a response) and whose context is not done;
    only these need room, so a cancelled consumer never blocks a dispatch,
    and every other channel stays as it was. *)
Theorem dispatch_delivers (cancelled : gset nat) (f : RouteFilter T) (x : R) (s : RouterState R T W) :
  router_ok s ->
  let receivers := filter (fun rc => CtxDone rc ∉ cancelled /\
      correlationId rc = CorrelationId f) (default [] (routes s !! Topic f)) in
  (forall rc, rc ∈ receivers -> exists c, chans s !! rc_addr rc = Some c /\ has_room c) ->
  exists cs, dispatch zerocid cancelled f x s = Ret tt cs /\
    forall a, cs !! a =
      if decide (a ∈ rc_addr <$> receivers) then push x <$> chans s !! a else chans s !! a.
Proof. apply dispatch_ok. Qed.
End Dispatch.

(** *** Dispatching never panics *)

Section NoPanic.
Context {R : Type} {T : Type} `{Countable T} {W : Type}.
Variable zerocid : T.

Lemma dispatch1_open (cancelled : gset nat) (rc : RouteChannel T W) (x : R) cs :
  open_chan cs (rc_addr rc) ->
  match dispatch1 cancelled rc x cs with
  | Ret _ cs' | Blocked cs' => forall a, open_chan cs a -> open_chan cs' a
  | Panic _ => False
  end.
Proof.
  intros (c & Hc & Ho). unfold dispatch1. case_decide; [done|]. rewrite Hc.
  destruct (chan_send c x) as [c'| |] eqn:Es; [|done|by apply (chan_send_open c x)].
  intros a. apply open_chan_insert_open. by rewrite (chan_send_closed _ _ _ Es).
Qed.

Lemma dispatch_no_panic (cancelled : gset nat) (f : RouteFilter T) (x : R) (s : RouterState R T W) msg :
  router_ok s -> dispatch zerocid cancelled f x s <> Panic msg.
Proof.
  intros Hok. unfold dispatch.
  assert (forall rc, rc ∈ dispatch_targets zerocid f s -> open_chan (chans s) (rc_addr rc)) as Hopen.
  { intros rc (t & rcs & Ht & Hin)%elem_of_dispatch_targets. by eapply ok_open. }
  revert Hopen. generalize (chans s) as cs. induction (dispatch_targets zerocid f s) as [|rc rcs IH]; [done|].
  intros cs Hopen. simpl. unfold mbind. pose proof (dispatch1_open cancelled rc x cs (Hopen rc ltac:(left))) as H1.
  destruct (dispatch1 _ _ _ _) as [[] cs'|cs'|]; [|done|done]. apply IH. intros rc' Hin. apply H1, Hopen. by right.
Qed.
End NoPanic.

(** *** A route channel just added *)

Section Added.
Context {R : Type} {T : Type} `{Countable T} {W : Type}.

(** A successful [Add] appends a new route channel, whose receive channel is
    new and empty, and leaves the others alone. *)
Lemma Add_inl ctx f sub pub uns (s s' : RouterState R T W) rc :
  router_ok s -> Add ctx f sub pub uns [] s = (inl rc, s') ->
  router_ok s' /\ correlationId rc = CorrelationId f /\ CtxDone rc = ctx /\ unsub rc = uns /\
  routes s' = <[Topic f := default [] (routes s !! Topic f) ++ [rc]]> (routes s) /\
  chans s' = <[rc_addr rc := make_chan receiveBufferSize]> (chans s) /\
  (forall t rcs rc', routes s !! t = Some rcs -> rc' ∈ rcs -> rc_addr rc' <> rc_addr rc).
Proof.
  intros Hok Hadd. pose proof (router_ok_Add ctx f sub pub uns [] s Hok) as Hok'. rewrite Hadd in Hok'.
  split; [done|].
  assert (forall t rcs rc', routes s !! t = Some rcs -> rc' ∈ rcs -> rc_addr rc' <> next_addr s) as Hne.
  { intros t rcs rc' Ht Hin E. destruct (ok_addr s t rcs (rc_addr rc') Hok Ht) as [_ Hlt]; [by apply list_elem_of_fmap_2|]. lia. }
  unfold Add in Hadd. destruct (routes (alloc _ s) !! Topic f) as [rcs|] eqn:E; simpl in E.
  - destruct (pub _) as [[e|] w]; simplify_eq/=. rewrite E. by split_and!.
  - destruct (sub _) as [[e|] w]; [by simplify_eq|]. destruct (pub w) as [[e|] w']; simplify_eq/=.
    rewrite E. by split_and!.
Qed.
End Added.

(** ** A concrete run *)

Module Run.

(** The binding's state is the set of its subscriptions. *)
Abbreviation World := (gset nat).
Definition sub_to (t : nat) : ComBindingFunc World := fun w => (None, {[t]} ∪ w).
Definition noop : ComBindingFunc World := fun w => (None, w).
Definition unsub_from (t : nat) : ComBindingFunc World := fun w => (None, w ∖ {[t]}).

Definition good (t : nat) (sub pub uns : ComBindingFunc World) : Prop :=
  sub = sub_to t /\ pub = noop /\ uns = unsub_from t.

Definition alone : World -> World -> Prop := fun _ _ => False.

Definition filter1 : RouteFilter nat := {| Topic := 1%nat; CorrelationId := 0%nat |}.

Definition rc0 : RouteChannel nat World :=
  {| rc_addr := 0; CtxDone := 7; correlationId := 0%nat; unsub := unsub_from 1 |}.
Definition rc1 : RouteChannel nat World :=
  {| rc_addr := 1; CtxDone := 8; correlationId := 0%nat; unsub := unsub_from 1 |}.

Definition start : RouterState nat nat World := NewRouter ∅.
Definition with_one : RouterState nat nat World :=
  (Add 7 filter1 (sub_to 1) noop (unsub_from 1) [] start).2.
Definition with_two : RouterState nat nat World :=
  (Add 8 filter1 (sub_to 1) noop (unsub_from 1) [2%nat] with_one).2.

Definition sys (r : RouterState nat nat World) (c : gset nat) : Sys :=
  {| router := r; cancelled := c; dispatchers := [] |}.

Lemma with_two_ok : router_ok with_two.
Proof.
  apply router_ok_Add, router_ok_Add, router_ok_new.
Qed.

Definition after_removal : RouterState nat nat World :=
  match remove 1%nat rc0 (drop_after 0 with_two) with
  | Ret _ r => r
  | _ => start
  end.

Lemma chans_with_two a c : chans with_two !! a = Some c -> a = 0%nat /\ c = make_chan 1 \/ a = 1%nat /\ c = make_chan 2.
Proof.
  assert (chans with_two = <[1%nat := make_chan 2]> (<[0%nat := make_chan 1]> ∅)) as -> by reflexivity.
  intros [[<- <-]|[_ Hc]]%lookup_insert_Some; [by right|]. apply lookup_insert_Some in Hc as [[<- <-]|[_ Hc]]; [by left|done].
Qed.

(** Both consumers are added. *)
Lemma two_reached : reachable (R := nat) 0%nat good alone ∅ (Some (sys with_two ∅)).
Proof.
  eapply (reachable_step _ _ _ _ (sys with_one ∅)).
  - eapply (reachable_step _ _ _ _ (sys start ∅)); [apply reachable_init|].
    by apply (step_add _ _ _ (sys start ∅) 7 filter1 (sub_to 1) noop (unsub_from 1) []).
  - by apply (step_add _ _ _ (sys with_one ∅) 8 filter1 (sub_to 1) noop (unsub_from 1) [2%nat]).
Qed.

(** A message is being dispatched to them. *)
Definition under_dispatch : Sys :=
  {| router := with_two; cancelled := ∅;
     dispatchers := [{| d_message := 42%nat; d_phase := Checking; d_rest := [rc0; rc1] |}] |}.

Lemma dispatch_reached : reachable (R := nat) 0%nat good alone ∅ (Some under_dispatch).
Proof. eapply reachable_step; [apply two_reached|]. exact (step_dispatch _ _ _ (sys with_two ∅) filter1 42%nat). Qed.

(** The goroutine serves both, and they receive. *)
Definition served : list (mover (R := nat)) :=
  [Dispatcher 0; Dispatcher 0; Consumer 0 42%nat; Dispatcher 0; Dispatcher 0; Dispatcher 0; Consumer 1 42%nat].

Lemma all_served : exists s', moves (fun _ => True) under_dispatch served s' /\ forall m s2, ~ move (fun _ => True) s' m s2.
Proof.
  eexists. split.
  - eapply moves_more; [eapply (move_check _ _ 0 _ rc0 [rc1]); [reflexivity..|apply not_elem_of_empty]|].
    eapply moves_more; [eapply (move_send _ _ 0 _ rc0 [rc1]); reflexivity|].
    eapply moves_more; [eapply (move_receive _ _ 0); [exact I|reflexivity..]|].
    eapply moves_more; [eapply (move_check _ _ 0 _ rc1 []); [reflexivity..|apply not_elem_of_empty]|].
    eapply moves_more; [eapply (move_send _ _ 0 _ rc1 []); reflexivity|].
    eapply moves_more; [eapply (move_done _ _ 0 _); reflexivity|].
    eapply moves_more; [eapply (move_receive _ _ 1); [exact I|reflexivity..]|]. apply moves_none.
  - intros m s2 Hm. inversion Hm as [? ? ? ? Hi|? ? ? ? Hi|? ? ? ? ? ? Hi|? ? Hi|a c x c' _ Hc Hr]; try by vm_compute in Hi.
    assert (a = 0%nat \/ a = 1%nat \/ (1 < a)%nat) as [->|[->|Ha]] by lia; [by vm_compute in Hc; simplify_eq..|].
    simpl in Hc. rewrite !lookup_insert_ne in Hc by lia.
    destruct (chans_with_two a c Hc) as [[? _]|[? _]]; lia.
Qed.

(** The first consumer is cancelled and removed. *)
Lemma run_reaches : reachable (R := nat) 0%nat good alone ∅ (Some (sys after_removal {[7%nat]})).
Proof.
  eapply (reachable_step _ _ _ _ (sys with_two {[7%nat]})).
  - eapply (reachable_step _ _ _ _ (sys with_two ∅)); [apply two_reached|].
    pose proof (step_cancel 0%nat good alone (sys with_two ∅) 7) as Hc. simpl in Hc.
    by rewrite (right_id_L ∅ (∪)) in Hc.
  - assert (remove 1%nat rc0 (drop_after 0 with_two) = Ret tt after_removal) as Hr by by_vm.
    refine (step_after 0%nat good alone (sys with_two {[7%nat]}) 0 7 1%nat rc0 after_removal eq_refl _ eq_refl Hr).
    simpl. set_solver.
Qed.

End Run.

Lemma remove_spec_witness :
  exists s', remove 1%nat Run.rc0 Run.with_two = Ret tt s' /\
    ~ open_chan (chans s') 0 /\ (default [] (routes s' !! 1%nat)) = [Run.rc1].
Proof.
  destruct (remove_spec 1%nat Run.rc0 Run.with_two Run.with_two_ok)
    as (s' & Hs & _ & _ & Hin).
  exists s'. split; [exact Hs|].
  destruct (Hin [Run.rc0; Run.rc1]) as (Hcl & Hm & _); [reflexivity|simpl; left|].
  split; [exact Hcl|]. destruct (Hm ltac:(discriminate)) as [_ ->]. reflexivity.
Defined.

Lemma router_never_panics_witness :
  open_chan (chans Run.after_removal) 1.
Proof.
  destruct (router_never_panics 0%nat Run.good Run.alone ∅ _ Run.run_reaches) as (s & E & H).
  injection E as <-.
  apply (H 1%nat [Run.rc1] Run.rc1); [vm_compute; reflexivity|left].
Defined.

Lemma dispatches_complete_witness :
  received 0 Run.served = [42%nat] /\ received 1 Run.served = [42%nat] /\ (length Run.served <= work Run.under_dispatch)%nat.
Proof.
  destruct Run.all_served as (s' & Hms & Hno).
  destruct (dispatches_complete 0%nat Run.good Run.alone (fun _ => True) ∅ Run.under_dispatch Run.dispatch_reached) with (3 := Hms)
    as (Hn & Hend & _ & _).
  - intros a c Hc. destruct (Run.chans_with_two a c Hc) as [[_ ->]|[_ ->]]; simpl; lia.
  - done.
  - destruct (Hend Hno) as [_ Hrec].
    assert (Hone : forall a, pending a Run.under_dispatch = [42%nat] -> buffered a Run.under_dispatch = [] ->
      received a Run.served = [42%nat]).
    { intros a Hp Hb. destruct (Hrec a I) as (p & Hperm & E); [intros d rc _ _ _; apply not_elem_of_empty|].
      rewrite Hp in Hperm. apply Permutation_singleton_r in Hperm as ->. by rewrite Hb in E. }
    split_and!; [apply Hone; by_vm|apply Hone; by_vm|exact Hn].
Defined.

Lemma dispatch_delivers_witness :
  exists cs, dispatch 0%nat {[7%nat]} Run.filter1 42%nat Run.with_two = Ret tt cs /\
    cs !! 1%nat = Some (MkChan 2 [42%nat] false) /\ cs !! 0%nat = Some (MkChan 1 [] false).
Proof.
  destruct (dispatch_delivers 0%nat {[7%nat]} Run.filter1 42%nat Run.with_two
              Run.with_two_ok) as (cs & Hrun & Hcs).
  - intros rc [[Hc _] Hin]%list_elem_of_filter. simpl in Hin.
    apply elem_of_cons in Hin as [->|Hin%list_elem_of_singleton]; [simpl in Hc; set_solver|subst rc].
    exists (MkChan 2 [] false). split; [vm_compute; reflexivity|split; simpl; [done|lia]].
  - exists cs. rewrite !Hcs. split; [exact Hrun|]. split; vm_compute; reflexivity.
Defined.
