(* ===== verification/StateApi.v ===== *)
(** * The state synchronization API and its codec
      ([services/state/api/api.go], [services/state/raft/codec.go])

    The data of the replicated state, and the MessagePack codec the Raft
    binding serializes with. *)

From S2P Require Import Prelude GoRuntime.

(** ** Data *)

(** [type InputOp int] *)
Definition InputOpUndefined : Z := 0.
Definition InputOpSet : Z := 1.
Definition InputOpDelete : Z := 2.

(** [V] represents the value, a byte slice: its content where only that
    matters, a pointer where sharing matters. [None] is a nil slice. *)
Record Input (V : Type) := MkInput {
  Op : Z;
  Key : string;
  Value : option V;
}.
Arguments MkInput {_} _ _ _.
Arguments Op {_} _.
Arguments Key {_} _.
Arguments Value {_} _.

(** [type State map[string][]byte], a map of slices given by [V]. *)
Abbreviation State V := (gmap string (option V)).

Record MembershipChange := {
  Id : string;
  Joined : bool;
}.

(** ** The codec

    The MessagePack library encodes a value of type [A] and decodes into a
    variable of type [A], whose content [mp_zero] is that of a fresh one. *)
Class MsgPack (A : Type) := {
  mp_encode : A -> slice * goerr;
  mp_decode : bytes -> A -> A * goerr;
  mp_zero : A;
}.

(** What the library promises for [A]: values are encoded, and decoding the
    result into a fresh variable gives the value back, up to [rel] (nil and
    empty slices may be confused). *)
Class MsgPackLaws (A : Type) `{MsgPack A} (good : A -> Prop) (rel : A -> A -> Prop) := {
  mp_roundtrip : forall a, good a -> exists b a',
    mp_encode a = (Some b, None) /\ mp_decode b mp_zero = (a', None) /\ rel a a';
}.

Definition EncodeMsgPack {A} `{MsgPack A} (x : A) : slice * goerr := mp_encode x.

Definition DecodeMsgPack {A} `{MsgPack A} (b : slice) (out : A) : A * goerr := mp_decode (sl b) out.

(** A reader delivers its bytes or, at some point, an error. *)
Definition DecodeMsgPackFromReader {A} `{MsgPack A} (r : bytes + error) (out : A) : A * goerr :=
  match r with
  | inl b => mp_decode b out
  | inr err => (out, Some err)
  end.

(** What survives encoding: nil and empty values are the same. *)
Definition input_rel (a b : Input bytes) : Prop :=
  Op a = Op b /\ Key a = Key b /\ sl (Value a) = sl (Value b).

Definition state_view (m : option (State bytes)) : gmap string bytes := sl <$> default ∅ m.

(** A snapshot's state is never nil, and is not decoded to nil. *)
Definition snapshot_rel (a b : option (State bytes)) : Prop :=
  state_view a = state_view b /\ b <> None.

(** ** A concrete codec

    For concrete runs: a countable type's number, bit by bit. *)

Module BitCodec.

Fixpoint bits (p : positive) : bytes :=
  match p with
  | xH => []
  | xO p => zero :: bits p
  | xI p => one :: bits p
  end.

Fixpoint of_bits (b : bytes) : positive :=
  match b with
  | [] => xH
  | c :: b => if Ascii.eqb c one then xI (of_bits b) else xO (of_bits b)
  end.

Lemma of_bits_bits p : of_bits (bits p) = p.
Proof. induction p as [p IH|p IH|]; simpl; [by rewrite IH..|done]. Qed.

Definition codec {A} `{Countable A} (z : A) : MsgPack A :=
  {| mp_encode := fun a => (Some (bits (encode a)), None);
     mp_decode := fun b out =>
       match decode (of_bits b) with
       | Some a => (a, None)
       | None => (out, Some (ErrText "msgpack: malformed"))
       end;
     mp_zero := z |}.

Lemma codec_laws {A} `{Countable A} (z : A) (good : A -> Prop) (rel : A -> A -> Prop) :
  (forall a, good a -> rel a a) -> @MsgPackLaws A (codec z) good rel.
Proof.
  intros Hrel. split. intros a Ha. exists (bits (encode a)), a. split_and!; [done| |auto].
  simpl. by rewrite of_bits_bits, decode_encode.
Qed.

(** A codec for a type that is no countable type itself, through one that
    keeps what the wire keeps of it. *)
Definition codec_via {A B} `{Countable B} (to : A -> B) (from : B -> A) (z : A) : MsgPack A :=
  {| mp_encode := fun a => (Some (bits (encode (to a))), None);
     mp_decode := fun b out =>
       match decode (of_bits b) with
       | Some a => (from a, None)
       | None => (out, Some (ErrText "msgpack: malformed"))
       end;
     mp_zero := z |}.

Lemma codec_via_laws {A B} `{Countable B} (to : A -> B) (from : B -> A) (z : A) (good : A -> Prop) (rel : A -> A -> Prop) :
  (forall a, good a -> rel a (from (to a))) -> @MsgPackLaws A (codec_via to from z) good rel.
Proof.
  intros Hrel. split. intros a Ha. exists (bits (encode (to a))), (from (to a)). split_and!; [done| |auto].
  simpl. by rewrite of_bits_bits, decode_encode.
Qed.

#[global] Instance input_eq_dec {V} `{EqDecision V} : EqDecision (Input V).
Proof. solve_decision. Defined.

#[global] Instance input_countable {V} `{Countable V} : Countable (Input V).
Proof.
  apply (inj_countable' (fun i => (Op i, Key i, Value i)) (fun t => MkInput t.1.1 t.1.2 t.2)).
  by intros [].
Defined.

#[export] Instance input_codec : MsgPack (Input bytes) := codec (MkInput 0 "" None).
#[export] Instance snapshot_codec : MsgPack (option (State bytes)) := codec None.
End BitCodec.
