(* ===== verification/Fsm.v ===== *)
(** * The Raft finite state machine ([services/state/raft/fsm.go])

    Replicated state is a map of byte slices, so values are shared by
    pointer: the model has a heap of slices, and the theorems show that what
    the machine hands out never aliases its state.  Its channels record what
    was sent on them: an operation that sends under the machine's lock is one
    step in which every send completes; [Observation] shows that this is what
    its sends through bounded channels amount to.  The first part is the operations, then the system they
    form with the synchronizing goroutines, then the theorems. *)

From stdpp Require Import pretty.
From S2P Require Import Prelude GoRuntime StateApi.

(** ** State *)

(** A state change channel: the inputs sent, each with the content its value
    had when it was sent, and whether the channel is closed. *)
Record ObserverChan := {
  sent : list (Input nat * bytes);
  closed : bool;
}.

Record RaftFsm := {
  mem : gmap nat bytes;              (* the heap of byte slices *)
  brk : nat;                         (* the next free heap location *)
  state : option (State nat);        (* key-value pairs, [None] for a nil map *)
  observers : gmap Z nat;            (* observing state change channels *)
  nextObserverId : Z;                (* uint64 *)
  chans : gmap nat ObserverChan;
}.

Definition NewRaftFsm (mem : gmap nat bytes) (brk : nat) (chans : gmap nat ObserverChan) : RaftFsm :=
  {| mem := mem; brk := brk; state := Some ∅; observers := ∅; nextObserverId := 0; chans := chans |}.

Definition set_state (m : option (State nat)) (f : RaftFsm) : RaftFsm :=
  {| mem := mem f; brk := brk f; state := m; observers := observers f;
     nextObserverId := nextObserverId f; chans := chans f |}.

Definition set_observers (m : gmap Z nat) (n : Z) (f : RaftFsm) : RaftFsm :=
  {| mem := mem f; brk := brk f; state := state f; observers := m;
     nextObserverId := n; chans := chans f |}.

Definition set_chan (c : nat) (oc : ObserverChan) (f : RaftFsm) : RaftFsm :=
  {| mem := mem f; brk := brk f; state := state f; observers := observers f;
     nextObserverId := nextObserverId f; chans := <[c := oc]> (chans f) |}.

Definition set_mem (l : nat) (b : bytes) (f : RaftFsm) : RaftFsm :=
  {| mem := <[l := b]> (mem f); brk := brk f; state := state f; observers := observers f;
     nextObserverId := nextObserverId f; chans := chans f |}.

(** ** The heap *)

Definition read (m : gmap nat bytes) (v : option nat) : bytes :=
  default [] (v ≫= fun l => m !! l).

(** A new slice with the given content: [make] and [copy], or the decoder's. *)
Definition new_slice (b : bytes) : M RaftFsm nat := fun f =>
  Ret (brk f) {| mem := <[brk f := b]> (mem f); brk := S (brk f); state := state f;
                 observers := observers f; nextObserverId := nextObserverId f; chans := chans f |}.

(** [make([]byte, len(v))] and [copy(cv, v)] *)
Definition clone_slice (v : option nat) : M RaftFsm (option nat) :=
  let! f := mget in let! l := new_slice (read (mem f) v) in mret (Some l).

Definition new_opt (v : slice) : M RaftFsm (option nat) :=
  match v with
  | None => mret None
  | Some b => let! l := new_slice b in mret (Some l)
  end.

(** The slices of a map, in some order. *)
Fixpoint alloc_state (kvs : list (string * slice)) : M RaftFsm (State nat) :=
  match kvs with
  | [] => mret ∅
  | (k, v) :: kvs => let! p := new_opt v in let! m := alloc_state kvs in mret (<[k := p]> m)
  end.

(** [ch <- in] *)
Definition send (c : nat) (i : Input nat) : M RaftFsm unit := fun f =>
  match chans f !! c with
  | None => Blocked f
  | Some oc =>
      if closed oc then Panic "send on closed channel"
      else Ret tt (set_chan c {| sent := sent oc ++ [(i, read (mem f) (Value i))]; closed := false |} f)
  end.

(** ** Operations *)

Definition cloneInput (i : Input nat) : M RaftFsm (Input nat) :=
  if decide (Op i = InputOpSet) then
    let! cv := clone_slice (Value i) in mret (MkInput (Op i) (Key i) cv)
  else mret (MkInput (Op i) (Key i) None).

Section Fsm.
Context `{MapRange}.

(** The loop over a map's pairs that copies each into [s]. *)
Fixpoint clone_pairs (kvs : list (string * option nat)) (s : State nat) : M RaftFsm (State nat) :=
  match kvs with
  | [] => mret s
  | (k, v) :: kvs => let! cv := clone_slice v in clone_pairs kvs (<[k := cv]> s)
  end.

Definition cloneState : M RaftFsm (State nat) :=
  let! f := mget in clone_pairs (range (default ∅ (state f))) ∅.

(** [RaftFsm.State] *)
Definition State_ : M RaftFsm (State nat) := cloneState.

Definition sendStateChange (i : Input nat) : M RaftFsm unit :=
  let! f := mget in
  mfor (range (observers f)) (fun o => let! c := cloneInput i in send o.2 c).

(** Registers the channel; the synchronization it starts is [sync_observer],
    run by a goroutine that takes the lock later.  The source reads the id
    again to return it, after unlocking; the only caller, the binding's
    [ObserveStateChange], excludes other registrations meanwhile by its own
    lock, so that it is still the id registered. *)
Definition AddStateChangeObserver (c : nat) : M RaftFsm Z :=
  let! f := mget in
  let n := uint64 (nextObserverId f + 1) in
  run! mput (set_observers (<[n := c]> (observers f)) n f); mret n.

Definition sync_observer (c : nat) : M RaftFsm unit :=
  let! f := mget in
  mfor (range (default ∅ (state f))) (fun kv =>
    let! i := cloneInput (MkInput InputOpSet kv.1 kv.2) in send c i).

Definition RemoveStateChangeObserver (chanId : Z) : M RaftFsm unit :=
  let! f := mget in mput (set_observers (delete chanId (observers f)) (nextObserverId f) f).

(** [f.state[key] = value] *)
Definition put (key : string) (v : option nat) : M RaftFsm unit :=
  let! f := mget in
  match state f with
  | None => mpanic "assignment to entry in nil map"
  | Some m => mput (set_state (Some (<[key := v]> m)) f)
  end.

Definition del (key : string) : M RaftFsm unit :=
  let! f := mget in mput (set_state (delete key <$> state f) f).

Context `{MsgPack (Input bytes)} `{MsgPack (option (State bytes))}.

(** The data of a log entry; the decoded value is a slice of its own. *)
Definition Apply (data : slice) : M RaftFsm goerr :=
  match DecodeMsgPack data mp_zero with
  | (_, Some err) => mret (Some err)
  | (w, None) =>
      let! v := new_opt (Value w) in
      let input := MkInput (Op w) (Key w) v in
      if decide (Op input = InputOpUndefined) then mret None
      else if decide (Op input = InputOpSet) then
        run! put (Key input) (Value input); run! sendStateChange input; mret None
      else if decide (Op input = InputOpDelete) then
        run! del (Key input); run! sendStateChange input; mret None
      else mret (Some (ErrText ("unknown input operation in Raft log entry: " +:+ pretty (Op input))))
  end.

(** [&fsmSnapshot{State: f.cloneState()}, nil] *)
Definition Snapshot : M RaftFsm (State nat) := cloneState.

Definition Restore (snapshot : bytes + error) : M RaftFsm goerr :=
  match DecodeMsgPackFromReader snapshot mp_zero with
  | (_, Some err) => mret (Some err)
  | (None, None) => let! f := mget in run! mput (set_state None f); mret None
  | (Some w, None) =>
      let! m := alloc_state (range w) in
      let! f := mget in
      run! mput (set_state (Some m) f); mret None
  end.

(** [hraft.SnapshotSink], a parameter: its operations on its own state. *)
Record SnapshotSink (W : Type) := {
  sink_Write : bytes -> W -> goerr * W;
  sink_Close : W -> goerr * W;
  sink_Cancel : W -> goerr * W;
}.
#[global] Arguments sink_Write {_} _ _ _.
#[global] Arguments sink_Close {_} _ _.
#[global] Arguments sink_Cancel {_} _ _.

(** The contents of a snapshot's map, as the encoder finds them. *)
Definition snapshot_contents (m : gmap nat bytes) (snap : State nat) : State bytes :=
  (fun v : option nat => (fun l => read m (Some l)) <$> v) <$> snap.

(** [fsmSnapshot.Persist], run on the heap [m]. *)
Definition Persist {W} (sink : SnapshotSink W) (m : gmap nat bytes) (snap : State nat) (w : W) : goerr * W :=
  let '(err, w) :=
    match EncodeMsgPack (Some (snapshot_contents m snap)) with
    | (_, Some err) => (Some err, w)
    | (b, None) =>
        match sink_Write sink (sl b) w with
        | (Some err, w) => (Some err, w)
        | (None, w) =>
            match sink_Close sink w with
            | (Some err, w) => (Some err, w)
            | (None, w) => (None, w)
            end
        end
    end in
  match err with
  | Some _ => (err, (sink_Cancel sink w).2)
  | None => (None, w)
  end.

(** [fsmSnapshot.Release] *)
Definition Release (snap : State nat) : M RaftFsm unit := mret tt.
End Fsm.

(** ** What the machine's clients see *)

(** The key-value pairs with their contents. *)
Definition view (f : RaftFsm) : gmap string bytes := read (mem f) <$> default ∅ (state f).

(** An input as it was sent. *)
Definition sent_input (e : Input nat * bytes) : Input bytes :=
  MkInput (Op e.1) (Key e.1) ((fun _ => e.2) <$> Value e.1).

(** The copy [cloneInput] makes, as it is sent. *)
Definition emitted (m : gmap nat bytes) (i : Input nat) : Input bytes :=
  if decide (Op i = InputOpSet) then MkInput (Op i) (Key i) (Some (read m (Value i)))
  else MkInput (Op i) (Key i) None.

Definition history (f : RaftFsm) (c : nat) : list (Input bytes) :=
  match chans f !! c with
  | Some oc => sent_input <$> sent oc
  | None => []
  end.

(** What an observer computes from the inputs it receives. *)
Definition replay1 (m : gmap string bytes) (i : Input bytes) : gmap string bytes :=
  if decide (Op i = InputOpSet) then <[Key i := sl (Value i)]> m
  else if decide (Op i = InputOpDelete) then delete (Key i) m
  else m.

Definition replay (h : list (Input bytes)) : gmap string bytes := foldl replay1 ∅ h.

(** ** The heap grows *)

Definition heap_ok (f : RaftFsm) : Prop := forall l, is_Some (mem f !! l) -> (l < brk f)%nat.

(** From [f] to [f'] only new slices were allocated. *)
Record grows (f f' : RaftFsm) : Prop := {
  grows_mem : mem f ⊆ mem f';
  grows_brk : (brk f <= brk f')%nat;
  grows_ok : heap_ok f';
}.

Lemma grows_refl f : heap_ok f -> grows f f.
Proof. by split. Qed.

Lemma grows_trans f g h : grows f g -> grows g h -> grows f h.
Proof. intros [? ? ?] [? ? ?]. split; [by etrans|lia|done]. Qed.

Definition live (m : gmap nat bytes) (v : option nat) : Prop :=
  forall l, v = Some l -> is_Some (m !! l).

Lemma read_grows m m' v : live m v -> m ⊆ m' -> read m' v = read m v.
Proof.
  intros Hl Hsub. destruct v as [l|]; [|done]. destruct (Hl l eq_refl) as [b Hb].
  unfold read. simpl. rewrite Hb. by rewrite (lookup_weaken _ _ _ _ Hb Hsub).
Qed.

Lemma live_grows m m' v : live m v -> m ⊆ m' -> live m' v.
Proof. intros Hl Hsub l Hv. destruct (Hl l Hv) as [b Hb]. exists b. by eapply lookup_weaken. Qed.

Definition with_slice (b : bytes) (f : RaftFsm) : RaftFsm :=
  {| mem := <[brk f := b]> (mem f); brk := S (brk f); state := state f;
     observers := observers f; nextObserverId := nextObserverId f; chans := chans f |}.

Lemma new_slice_eq b f : new_slice b f = Ret (brk f) (with_slice b f).
Proof. done. Qed.

Lemma fresh_loc f : heap_ok f -> mem f !! brk f = None.
Proof.
  intros Hok. destruct (mem f !! brk f) eqn:E; [|done].
  assert (brk f < brk f)%nat; [|lia]. apply Hok. eauto.
Qed.

Lemma with_slice_grows b f : heap_ok f -> grows f (with_slice b f).
Proof.
  intros Hok. split; simpl; [|lia|].
  - apply insert_subseteq. by apply fresh_loc.
  - intros l Hl. simpl in *. destruct (decide (l = brk f)) as [->|Hne]; [lia|].
    rewrite lookup_insert_ne in Hl by done. apply Hok in Hl. lia.
Qed.

Lemma read_with_slice b f : read (mem (with_slice b f)) (Some (brk f)) = b.
Proof. unfold read. simpl. by rewrite lookup_insert_eq. Qed.

Lemma live_with_slice b f : live (mem (with_slice b f)) (Some (brk f)).
Proof. intros l [= <-]. simpl. rewrite lookup_insert_eq. eauto. Qed.

(** ** Sending copies *)

(** Both loops that send inputs: each channel in turn gets a copy. *)
Definition emit (l : list (nat * Input nat)) : M RaftFsm unit :=
  mfor l (fun ci => let! i := cloneInput ci.2 in send ci.1 i).

Lemma mfor_fmap {S A B} (g : A -> B) (xs : list A) (body : B -> M S unit) s :
  mfor (g <$> xs) body s = mfor xs (fun x => body (g x)) s.
Proof.
  revert s. induction xs as [|x xs IH]; intros s; [done|]. simpl. unfold mbind.
  destruct (body (g x) s); [apply IH|done..].
Qed.

Definition open_chan (f : RaftFsm) (c : nat) : Prop :=
  exists oc, chans f !! c = Some oc /\ closed oc = false.

(** The channels of [f'] are those of [f] with more inputs, whose values are
    slices allocated since. *)
Definition extends (f f' : RaftFsm) (c : nat) (new : list (Input bytes)) : Prop :=
  match chans f !! c with
  | None => chans f' !! c = None /\ new = []
  | Some oc => exists es, chans f' !! c = Some {| sent := sent oc ++ es; closed := closed oc |} /\
      sent_input <$> es = new /\
      forall e l, e ∈ es -> Value e.1 = Some l -> (brk f <= l < brk f')%nat
  end.

Lemma extends_refl f f' c : chans f' !! c = chans f !! c -> extends f f' c [].
Proof.
  intros E. unfold extends. rewrite E. destruct (chans f !! c) as [[es cl]|]; [|done].
  exists []. rewrite app_nil_r. split_and!; [done|done|]. by intros e l ?%not_elem_of_nil.
Qed.

Lemma extends_trans f g h c new1 new2 :
  (brk f <= brk g)%nat -> (brk g <= brk h)%nat ->
  extends f g c new1 -> extends g h c new2 -> extends f h c (new1 ++ new2).
Proof.
  unfold extends. intros Hfg Hgh H1 H2. destruct (chans f !! c) as [oc|].
  - destruct H1 as (es1 & E1 & <- & Hl1). rewrite E1 in H2. simpl in H2.
    destruct H2 as (es2 & E2 & <- & Hl2). exists (es1 ++ es2).
    rewrite fmap_app, app_assoc. split_and!; [done|done|].
    intros e l [Hin|Hin]%elem_of_app Hv.
    + specialize (Hl1 e l Hin Hv). lia.
    + specialize (Hl2 e l Hin Hv). lia.
  - destruct H1 as [E1 ->]. rewrite E1 in H2. destruct H2 as [E2 ->]. done.
Qed.

Lemma history_extends f f' c new : extends f f' c new -> history f' c = history f c ++ new.
Proof.
  unfold extends, history. destruct (chans f !! c) as [oc|].
  - intros (es & -> & <- & _). simpl. by rewrite fmap_app.
  - by intros [-> ->].
Qed.

Lemma open_extends f f' c d new : open_chan f c -> extends f f' d new -> c = d -> open_chan f' c.
Proof.
  intros (oc & Hoc & Ho) Hx <-. unfold extends in Hx. rewrite Hoc in Hx.
  destruct Hx as (es & E & _ & _). eexists. split; [exact E|done].
Qed.

Implicit Types f g h : RaftFsm.
Implicit Types i j : Input nat.

Definition same_fields (f f' : RaftFsm) : Prop :=
  state f' = state f /\ observers f' = observers f /\ nextObserverId f' = nextObserverId f.

(** [f'] is [f] after sending [new c] on each channel [c]. *)
Record sends (f f' : RaftFsm) (new : nat -> list (Input bytes)) : Prop := {
  sends_grows : grows f f';
  sends_same : same_fields f f';
  sends_chans : forall c, extends f f' c (new c);
}.

Lemma send_copy_with c i b f :
  heap_ok f -> open_chan f c ->
  exists f', send c (MkInput (Op i) (Key i) (Some (brk f))) (with_slice b f) = Ret tt f' /\
    sends f f' (fun d => if decide (d = c) then [MkInput (Op i) (Key i) (Some b)] else []).
Proof.
  intros Hok (oc & Hoc & Ho). unfold send. simpl chans. rewrite Hoc, Ho.
  pose proof (with_slice_grows b f Hok) as [Hm Hb Hok'].
  eexists. split; [done|]. split; [by split|done|].
  intros d. destruct (decide (d = c)) as [->|Hne].
  - unfold extends. rewrite Hoc. eexists. simpl. rewrite lookup_insert_eq, Ho.
    split_and!; [done|unfold sent_input, read; simpl; by rewrite lookup_insert_eq|].
    intros e l ->%list_elem_of_singleton [= <-]. lia.
  - apply extends_refl. simpl. by rewrite lookup_insert_ne.
Qed.

Lemma send_plain c i f :
  heap_ok f -> open_chan f c ->
  exists f', send c (MkInput (Op i) (Key i) None) f = Ret tt f' /\
    sends f f' (fun d => if decide (d = c) then [MkInput (Op i) (Key i) None] else []).
Proof.
  intros Hok (oc & Hoc & Ho). unfold send. rewrite Hoc, Ho. eexists. split; [done|].
  split; [by split|done|]. intros d. destruct (decide (d = c)) as [->|Hne].
  - unfold extends. rewrite Hoc. eexists. simpl. rewrite lookup_insert_eq, Ho.
    split_and!; [done|done|]. by intros e l ->%list_elem_of_singleton.
  - apply extends_refl. simpl. by rewrite lookup_insert_ne.
Qed.

Lemma emit_one c i f :
  heap_ok f -> open_chan f c ->
  exists f', (let! j := cloneInput i in send c j) f = Ret tt f' /\
    sends f f' (fun d => if decide (d = c) then [emitted (mem f) i] else []).
Proof.
  intros Hok Hc. unfold cloneInput, emitted. destruct (decide (Op i = InputOpSet)).
  - by apply send_copy_with.
  - by apply send_plain.
Qed.

Lemma sends_refl f : heap_ok f -> sends f f (fun _ => []).
Proof. split; [by apply grows_refl|done|]. intros c. by apply extends_refl. Qed.

Lemma sends_trans f g h new1 new2 :
  sends f g new1 -> sends g h new2 -> sends f h (fun c => new1 c ++ new2 c).
Proof.
  intros [G1 (? & ? & ?) X1] [G2 (? & ? & ?) X2]. split; [by apply (grows_trans f g h)|unfold same_fields; split_and!; congruence|].
  intros c. apply (extends_trans f g h); [apply G1|apply G2|apply X1|apply X2].
Qed.

Lemma open_sends f f' new c : sends f f' new -> open_chan f c -> open_chan f' c.
Proof. intros Hs Hc. by apply (open_extends f f' c c (new c)); [|apply sends_chans|]. Qed.

Lemma emitted_grows m m' i : live m (Value i) -> m ⊆ m' -> emitted m' i = emitted m i.
Proof. intros Hl Hs. unfold emitted. by rewrite (read_grows m m'). Qed.

(** The inputs that go to channel [c]. *)
Definition sent_to (m : gmap nat bytes) (l : list (nat * Input nat)) (c : nat) : list (Input bytes) :=
  (fun ci => emitted m ci.2) <$> filter (fun ci => ci.1 = c) l.

Lemma emit_spec l f :
  heap_ok f -> Forall (fun ci => open_chan f ci.1 /\ live (mem f) (Value ci.2)) l ->
  exists f', emit l f = Ret tt f' /\ sends f f' (sent_to (mem f) l).
Proof.
  revert f. induction l as [|[c i] l IH]; intros f Hok Hl.
  - exists f. split; [done|]. by apply sends_refl.
  - apply Forall_cons in Hl as [[Hc Hi] Hl]. simpl in Hc, Hi.
    destruct (emit_one c i f Hok Hc) as (g & Hg & Hs).
    destruct (IH g) as (h & Hh & Hs').
    + apply Hs.
    + eapply Forall_impl; [exact Hl|]. intros [d j] [Hd Hj]. simpl in *.
      split; [by eapply open_sends|]. eapply live_grows; [exact Hj|apply Hs].
    + exists h. split; [unfold emit in *; simpl; unfold mbind in *; by rewrite Hg|].
      pose proof (sends_trans _ _ _ _ _ Hs Hs') as [HG HS HX]. split; [done|done|].
      intros d. specialize (HX d). unfold sent_to in *. simpl in *. revert HX.
      assert ((fun ci : nat * Input nat => emitted (mem g) ci.2) <$> filter (fun ci => ci.1 = d) l =
              (fun ci : nat * Input nat => emitted (mem f) ci.2) <$> filter (fun ci => ci.1 = d) l) as ->.
      { apply list_fmap_ext. intros k x Hx. apply emitted_grows; [|apply Hs].
        apply list_elem_of_lookup_2, list_elem_of_filter in Hx as [_ Hx].
        rewrite Forall_forall in Hl. by apply (Hl x Hx). }
      rewrite filter_cons. simpl. destruct (decide (d = c)), (decide (c = d)); by simplify_eq/=.
Qed.

(** ** Applying log entries *)

Definition observed (f : RaftFsm) (c : nat) : Prop := exists id, observers f !! id = Some c.

#[global] Instance observed_dec f c : Decision (observed f c).
Proof.
  destruct (decide (c ∈ (map_to_list (observers f)).*2)) as [Hin|Hnin]; [left|right].
  - apply list_elem_of_fmap in Hin as ([id d] & -> & Hin). exists id. by apply elem_of_map_to_list.
  - intros [id Hid]. apply Hnin, list_elem_of_fmap. exists (id, c). by rewrite elem_of_map_to_list.
Defined.

(** Every observing channel is open and observes once. *)
Record observers_ok (f : RaftFsm) : Prop := {
  obs_open : forall c, observed f c -> open_chan f c;
  obs_once : forall id id' c, observers f !! id = Some c -> observers f !! id' = Some c -> id = id';
}.

Definition state_live (f : RaftFsm) : Prop :=
  forall k v, default ∅ (state f) !! k = Some v -> live (mem f) v.

Record fsm_ok (f : RaftFsm) : Prop := {
  ok_heap : heap_ok f;
  ok_live : state_live f;
  ok_observers : observers_ok f;
}.

Lemma observers_ok_sends f f' new : sends f f' new -> observers_ok f -> observers_ok f'.
Proof.
  intros Hs [Ho H1]. destruct (sends_same _ _ _ Hs) as (_ & E & _). unfold observed in *.
  split; unfold observed; rewrite E; [|done]. intros c Hc. eapply open_sends; eauto.
Qed.

Lemma fsm_ok_sends f f' new : sends f f' new -> fsm_ok f -> fsm_ok f' /\ view f' = view f.
Proof.
  intros Hs [Hh Hl Ho]. pose proof (sends_same _ _ _ Hs) as (Es & _ & _).
  assert (forall k v, default ∅ (state f) !! k = Some v -> live (mem f') v /\ read (mem f') v = read (mem f) v) as Hv.
  { intros k v Hkv. split; [eapply live_grows|apply read_grows]; try by apply (Hl k). all: apply Hs. }
  split; [split|].
  - apply Hs.
  - intros k v. rewrite Es. intros Hkv. by apply (Hv k).
  - by eapply observers_ok_sends.
  - unfold view. rewrite Es. apply map_fmap_ext. intros k v Hkv. by apply (Hv k).
Qed.

Lemma filter_once {A} (l : list (nat * A)) c x :
  NoDup l.*1 -> (c, x) ∈ l -> filter (fun ci => ci.1 = c) l = [(c, x)].
Proof.
  induction l as [|[d y] l IH]; [by intros _ ?%not_elem_of_nil|].
  intros [Hn Hnd]%NoDup_cons Hin. rewrite filter_cons. simpl in *.
  apply elem_of_cons in Hin as [[= <- <-]|Hin].
  - rewrite decide_True by done. f_equal.
    assert (Forall (fun ci => ci.1 <> c) l) as Hl.
    { apply Forall_forall. intros [e z] Hin <-. apply Hn, list_elem_of_fmap. by exists (e, z). }
    clear -Hl. induction l as [|ci l IH]; [done|]. apply Forall_cons in Hl as [? ?].
    rewrite filter_cons_False by done. auto.
  - rewrite decide_False; [by apply IH|]. intros ->. apply Hn, list_elem_of_fmap. by exists (c, x).
Qed.

Lemma filter_none {A} (l : list (nat * A)) c :
  (forall x, (c, x) ∉ l) -> filter (fun ci => ci.1 = c) l = [].
Proof.
  intros Hn. induction l as [|[d y] l IH]; [done|].
  rewrite filter_cons_False; [apply IH; intros x Hx; apply (Hn x); by right|].
  simpl. intros ->. apply (Hn y). left.
Qed.

Lemma filter_all {A} (l : list A) (c : nat) : filter (fun ci => ci.1 = c) ((fun x => (c, x)) <$> l) = (fun x => (c, x)) <$> l.
Proof. induction l as [|x l IH]; [done|]. rewrite fmap_cons, filter_cons_True by done. by rewrite IH. Qed.

Section Apply.
Context `{MapRange}.

(** The copies one input is sent as. *)
Definition copies (f : RaftFsm) (i : Input nat) : list (nat * Input nat) :=
  (fun o => (o.2, i)) <$> range (observers f).

Lemma sendStateChange_emit i f : sendStateChange i f = emit (copies f i) f.
Proof. unfold sendStateChange, emit, copies. unfold mbind at 1, mget. by rewrite mfor_fmap. Qed.

Lemma sent_to_copies m f i c :
  observers_ok f -> sent_to m (copies f i) c = if decide (observed f c) then [emitted m i] else [].
Proof.
  intros Hok. unfold sent_to. destruct (decide (observed f c)) as [[id Hid]|Hn].
  - rewrite (filter_once _ c i); [done| |].
    + unfold copies. rewrite <- list_fmap_compose.
      apply NoDup_fmap_2_strong; [|apply (NoDup_fmap_1 fst), NoDup_range_keys].
      intros [a x] [b y] Hx Hy E. simpl in E. subst y. apply elem_of_range in Hx, Hy.
      by rewrite (obs_once f Hok a b x).
    + unfold copies. apply list_elem_of_fmap. exists (id, c). split; [done|]. by apply elem_of_range.
  - rewrite filter_none; [done|]. intros x Hx. apply Hn. unfold copies in Hx.
    apply list_elem_of_fmap in Hx as ([id d] & E & Hx). injection E as -> ->.
    exists id. by apply elem_of_range.
Qed.

(** Telling the observers about an input keeps the state. *)
Lemma sendStateChange_spec i f :
  fsm_ok f -> live (mem f) (Value i) ->
  exists f', sendStateChange i f = Ret tt f' /\
    sends f f' (fun c => if decide (observed f c) then [emitted (mem f) i] else []).
Proof.
  intros [Hh _ Ho] Hi. rewrite sendStateChange_emit.
  destruct (emit_spec (copies f i) f Hh) as (f' & Hr & [G S X]).
  - apply Forall_forall. intros ci Hci. apply list_elem_of_fmap in Hci as ([id c] & -> & Hin).
    simpl. split; [|done]. apply (obs_open f Ho). exists id. by apply elem_of_range.
  - exists f'. split; [done|]. split; [done|done|]. intros c. by rewrite <- sent_to_copies.
Qed.

Context `{MsgPack (Input bytes)}.

(** The input an observer gets for a decoded one. *)
Definition notification (w : Input bytes) : Input bytes :=
  if decide (Op w = InputOpSet) then MkInput (Op w) (Key w) (Some (sl (Value w)))
  else MkInput (Op w) (Key w) None.

Definition changes_state (w : Input bytes) : Prop := Op w = InputOpSet \/ Op w = InputOpDelete.
#[global] Instance changes_state_dec w : Decision (changes_state w).
Proof. unfold changes_state. apply _. Defined.

(** The state's slices in [f'] are those in [f], or allocated since, below
    [b]; the inputs sent since have slices from [b] on. *)
Definition new_private (f f' : RaftFsm) (b : nat) : Prop :=
  forall k l, default ∅ (state f') !! k = Some (Some l) ->
    default ∅ (state f) !! k = Some (Some l) \/ (brk f <= l < b)%nat.

Definition new_sent (f f' : RaftFsm) (b : nat) : Prop :=
  forall c oc' e l, chans f' !! c = Some oc' -> e ∈ sent oc' -> Value e.1 = Some l ->
    (exists oc, chans f !! c = Some oc /\ e ∈ sent oc) \/ (b <= l < brk f')%nat.

Lemma new_sent_extends f f' : (forall c, exists new, extends f f' c new) -> new_sent f f' (brk f).
Proof.
  intros Hx c oc' e l Hc He Hv. destruct (Hx c) as [new Hn]. unfold extends in Hn.
  destruct (chans f !! c) as [oc|].
  - destruct Hn as (es & E & _ & Hes). rewrite E in Hc. injection Hc as <-. simpl in He.
    apply elem_of_app in He as [He|He]; [left; eauto|right; eauto].
  - destruct Hn as [E _]. congruence.
Qed.

(** From [f] to [f'] an input has been applied. *)
Record applied (f f' : RaftFsm) (w : Input bytes) : Prop := {
  applied_grows : grows f f';
  applied_ok : fsm_ok f';
  applied_view : view f' = replay1 (view f) w;
  applied_observers : observers f' = observers f;
  applied_next : nextObserverId f' = nextObserverId f;
  applied_state : state f <> None -> state f' <> None;
  applied_split : exists b, (brk f <= b <= brk f')%nat /\ new_private f f' b /\ new_sent f f' b;
  applied_chans : forall c, extends f f' c
    (if decide (changes_state w /\ observed f c) then [notification w] else []);
}.

Lemma new_opt_spec v f :
  fsm_ok f ->
  exists p f', new_opt v f = Ret p f' /\ sends f f' (fun _ => []) /\
    live (mem f') p /\ read (mem f') p = sl v /\ forall l, p = Some l -> (brk f <= l < brk f')%nat.
Proof.
  intros Hok. destruct v as [b|].
  - exists (Some (brk f)), (with_slice b f).
    split_and!; [done| |apply live_with_slice|apply read_with_slice|intros l [= <-]; simpl; lia].
    split; [by apply with_slice_grows, Hok|done|]. intros c. by apply extends_refl.
  - exists None, f. split_and!; [done|by apply sends_refl, Hok|done|done|done].
Qed.

Lemma fsm_ok_set_state m f :
  fsm_ok f -> (forall k v, m !! k = Some v -> live (mem f) v) -> fsm_ok (set_state (Some m) f).
Proof. intros [Hh Hl [Ho H1]] Hm. by split; [|intros k v; apply Hm|split]. Qed.

Lemma put_spec key p m f :
  fsm_ok f -> live (mem f) p -> state f = Some m ->
  put key p f = Ret tt (set_state (Some (<[key := p]> m)) f) /\
  fsm_ok (set_state (Some (<[key := p]> m)) f) /\
  view (set_state (Some (<[key := p]> m)) f) = <[key := read (mem f) p]> (view f).
Proof.
  intros Hok Hp Hm. split_and!.
  - unfold put, mbind, mget. by rewrite Hm.
  - apply fsm_ok_set_state; [done|]. intros k v [[<- <-]|[_ Hkv]]%lookup_insert_Some; [done|].
    apply (ok_live f Hok k). by rewrite Hm.
  - unfold view. simpl. rewrite Hm. simpl. by rewrite fmap_insert.
Qed.

Lemma del_spec key f :
  fsm_ok f ->
  del key f = Ret tt (set_state (delete key <$> state f) f) /\
  fsm_ok (set_state (delete key <$> state f) f) /\
  view (set_state (delete key <$> state f) f) = delete key (view f).
Proof.
  intros Hok. split_and!; [done| |].
  - destruct (state f) as [m|] eqn:Hm; simpl.
    + apply fsm_ok_set_state; [done|]. intros k v [_ Hkv]%lookup_delete_Some.
      apply (ok_live f Hok k). by rewrite Hm.
    + destruct Hok as [Hh Hl [Ho H1]]. split; [done| |by split]. intros k v. simpl. by rewrite lookup_empty.
  - unfold view. simpl. destruct (state f) as [m|]; simpl; [by rewrite fmap_delete|].
    by rewrite fmap_empty, delete_empty.
Qed.

Definition apply_result (w : Input bytes) : goerr :=
  if decide (Op w = InputOpUndefined \/ changes_state w) then None
  else Some (ErrText ("unknown input operation in Raft log entry: " +:+ pretty (Op w))).

(** The step from the decoded value in memory to the end of [Apply]. *)
Lemma applied_of_steps f g h f' w m p :
  fsm_ok f -> (state f <> None -> m <> None) -> changes_state w ->
  sends f g (fun _ => []) -> live (mem g) p -> read (mem g) p = sl (Value w) ->
  (forall k l, default ∅ m !! k = Some (Some l) ->
    default ∅ (state f) !! k = Some (Some l) \/ (brk f <= l < brk g)%nat) ->
  h = set_state m g -> fsm_ok h -> view h = replay1 (view g) w ->
  sendStateChange (MkInput (Op w) (Key w) p) h = Ret tt f' ->
  sends h f' (fun c => if decide (observed h c) then [emitted (mem h) (MkInput (Op w) (Key w) p)] else []) ->
  applied f f' w.
Proof.
  intros Hok Hst Hch Hs Hl Hrd Hnew -> Hokh Hv _ Hs'.
  destruct (fsm_ok_sends _ _ _ Hs Hok) as [_ Hvg], (fsm_ok_sends _ _ _ Hs' Hokh) as [Hok' Hvf].
  pose proof (sends_same _ _ _ Hs) as (_ & Eo & En). pose proof (sends_same _ _ _ Hs') as (Es' & Eo' & En').
  simpl in *. destruct (sends_grows _ _ _ Hs) as [Gm Gb _], (sends_grows _ _ _ Hs') as [Gm' Gb' Gok'].
  simpl in *. split; [|done|congruence|congruence|congruence|by rewrite Es'| |].
  - split; [by etrans|lia|done].
  - exists (brk g). split_and!; [lia|lia| |].
    + intros k l. rewrite Es'. apply Hnew.
    + pose proof (new_sent_extends _ _ (fun c => ex_intro _ _ (sends_chans _ _ _ Hs' c))) as Hsent.
      intros c oc' e l Hc He Hvl. destruct (Hsent c oc' e l Hc He Hvl) as [(oc & Hoc & Hin)|?]; [|by right].
      left. pose proof (sends_chans _ _ _ Hs c) as Hx. unfold extends in Hx. simpl in Hoc.
      destruct (chans f !! c) as [oc0|]; [|destruct Hx; congruence].
      destruct Hx as (es & E & Hnil & _). destruct es; [|done]. rewrite app_nil_r in E.
      rewrite E in Hoc. injection Hoc as <-. eauto.
  - intros c. pose proof (sends_chans _ _ _ Hs c) as X1. pose proof (sends_chans _ _ _ Hs' c) as X2.
    assert (emitted (mem g) (MkInput (Op w) (Key w) p) = notification w) as Hem.
    { unfold emitted, notification. simpl. by rewrite Hrd. }
    assert (observed (set_state m g) c <-> observed f c) as Hobs.
    { unfold observed. simpl. by rewrite Eo. }
    rewrite <- (app_nil_l (if decide _ then _ else _)).
    apply (extends_trans f g f'); [done|done|done|].
    assert ((if decide (changes_state w /\ observed f c) then [notification w] else []) =
            (if decide (observed (set_state m g) c) then [notification w] else [])) as ->.
    { destruct (decide (observed (set_state m g) c)), (decide (changes_state w /\ observed f c)); naive_solver. }
    rewrite Hem in X2. exact X2.
Qed.

Lemma Apply_applied data f w :
  fsm_ok f -> state f <> None \/ Op w <> InputOpSet -> DecodeMsgPack data mp_zero = (w, None) ->
  exists f', Apply data f = Ret (apply_result w) f' /\ applied f f' w.
Proof.
  intros Hok Hst Hdec. unfold Apply. rewrite Hdec.
  destruct (new_opt_spec (Value w) f Hok) as (p & g & Hg & Hs & Hl & Hrd & Hnew).
  unfold mbind at 1. rewrite Hg. simpl.
  destruct (fsm_ok_sends _ _ _ Hs Hok) as [Hokg Hvg].
  pose proof (sends_same _ _ _ Hs) as (Es & Eo & En).
  unfold apply_result, changes_state.
  destruct (decide (Op w = InputOpSet)) as [E1|N1]; [|destruct (decide (Op w = InputOpDelete)) as [E2|N2]].
  - rewrite decide_False by (rewrite E1; done). rewrite (decide_True (P := _ \/ _)) by auto.
    destruct (state g) as [m|] eqn:Em; [|by destruct Hst; congruence].
    destruct (put_spec (Key w) p m g Hokg Hl Em) as (Hp & Hokh & Hvh).
    destruct (sendStateChange_spec (MkInput (Op w) (Key w) p) _ Hokh Hl) as (f' & Hf' & Hs').
    exists f'. split; [unfold mbind; rewrite Hp; by rewrite Hf'|].
    eapply (applied_of_steps f g _ f' w (Some (<[Key w := p]> m)) p); try done; [by left| |].
    { intros k l Hk. simpl in Hk. apply lookup_insert_Some in Hk as [[_ E]|[_ E]]; [right; auto|left; by rewrite <- Es]. }
    unfold replay1. rewrite decide_True by done. by rewrite Hvh, Hrd.
  - rewrite decide_False by (rewrite E2; done). rewrite (decide_True (P := _ \/ _)) by auto.
    destruct (del_spec (Key w) g Hokg) as (Hp & Hokh & Hvh).
    destruct (sendStateChange_spec (MkInput (Op w) (Key w) p) _ Hokh Hl) as (f' & Hf' & Hs').
    exists f'. split; [unfold mbind; rewrite Hp; by rewrite Hf'|].
    eapply (applied_of_steps f g _ f' w (delete (Key w) <$> state g) p); try done; [|by right| |].
    { by rewrite <- Es; destruct (state g). }
    { intros k l E. left. rewrite <- Es. destruct (state g); simpl in *; [|done].
      by apply lookup_delete_Some in E as [_ E]. }
    unfold replay1. rewrite decide_False, decide_True by done. done.
  - exists g. split.
    + destruct (decide (Op w = InputOpUndefined)).
      * by rewrite (decide_True (P := _ \/ _)) by auto.
      * rewrite (decide_False (P := _ \/ _)) by tauto. done.
    + split; try done; [apply Hs| |congruence| |].
      * rewrite Hvg. unfold replay1. by rewrite !decide_False.
      * destruct (sends_grows _ _ _ Hs) as [_ Gb _]. exists (brk f). split_and!; [lia|lia| |].
        -- intros k l. rewrite <- Es. by left.
        -- apply new_sent_extends. intros c. exists []. apply Hs.
      * intros c. rewrite decide_False by (intros [[?|?] _]; done). apply Hs.
Qed.
End Apply.

(** ** Copying and loading states *)

(** A map copied or loaded since [f]: its slices are new and live. *)
Definition new_state (f f' : RaftFsm) (s : State nat) : Prop :=
  forall k l, s !! k = Some (Some l) -> (brk f <= l < brk f')%nat /\ is_Some (mem f' !! l).

Definition contents (m : gmap nat bytes) (s : State nat) : gmap string bytes := read m <$> s.

Lemma contents_grows m m' s :
  (forall k v, s !! k = Some v -> live m v) -> m ⊆ m' -> contents m' s = contents m s.
Proof. intros Hl Hsub. apply map_fmap_ext. intros k v Hkv. apply read_grows; [by eapply Hl|done]. Qed.

Lemma new_state_live f f' s k v : new_state f f' s -> s !! k = Some v -> live (mem f') v.
Proof. intros Hn Hk l ->. by apply (Hn k l). Qed.

Lemma new_state_grows f f' g s :
  new_state f f' s -> grows f' g -> new_state f g s.
Proof.
  intros Hn [Hm Hb _] k l Hk. destruct (Hn k l Hk) as [? [b Hl]].
  split; [lia|]. exists b. by eapply lookup_weaken.
Qed.

Lemma clone_slice_spec v f :
  fsm_ok f ->
  exists l f', clone_slice v f = Ret (Some l) f' /\ sends f f' (fun _ => []) /\
    (brk f <= l < brk f')%nat /\ mem f' !! l = Some (read (mem f) v).
Proof.
  intros Hok. exists (brk f), (with_slice (read (mem f) v) f). split_and!; simpl; [done| |lia|lia|].
  - split; [by apply with_slice_grows, Hok|done|]. intros c. by apply extends_refl.
  - by rewrite lookup_insert_eq.
Qed.

Lemma sends_nil_trans f g h : sends f g (fun _ => []) -> sends g h (fun _ => []) -> sends f h (fun _ => []).
Proof. apply sends_trans. Qed.

Lemma clone_pairs_spec kvs s f :
  fsm_ok f -> NoDup kvs.*1 -> (forall k v, (k, v) ∈ kvs -> live (mem f) v) ->
  exists s' f', clone_pairs kvs s f = Ret s' f' /\ sends f f' (fun _ => []) /\
    (forall k, k ∉ kvs.*1 -> s' !! k = s !! k) /\
    (forall k v, (k, v) ∈ kvs -> exists l, s' !! k = Some (Some l) /\
       (brk f <= l < brk f')%nat /\ mem f' !! l = Some (read (mem f) v)).
Proof.
  revert s f. induction kvs as [|[k v] kvs IH]; intros s f Hok Hnd Hl.
  - exists s, f. split_and!; [done|by apply sends_refl, Hok|done|]. by intros ? ? ?%not_elem_of_nil.
  - apply NoDup_cons in Hnd as [Hn Hnd].
    destruct (clone_slice_spec v f Hok) as (l & g & Hg & Hs & Hlr & Hlm).
    destruct (fsm_ok_sends _ _ _ Hs Hok) as [Hokg _]. destruct (sends_grows _ _ _ Hs) as [Gm Gb _].
    destruct (IH (<[k := Some l]> s) g Hokg Hnd) as (s' & f' & Hr & Hs' & Hother & Hin).
    { intros k' v' Hin. eapply live_grows; [apply (Hl k'); by right|done]. }
    destruct (sends_grows _ _ _ Hs') as [Gm' Gb' _].
    exists s', f'. split_and!.
    + simpl. unfold mbind at 1. by rewrite Hg.
    + by eapply sends_nil_trans.
    + intros k' Hk'. simpl in Hk'. rewrite Hother by set_solver. by rewrite lookup_insert_ne by set_solver.
    + intros k' v' [[= -> ->]|Hin']%elem_of_cons.
      * exists l. rewrite Hother by done. rewrite lookup_insert_eq. split_and!; [done|lia|lia|].
        by eapply lookup_weaken.
      * destruct (Hin k' v' Hin') as (l' & Hk' & Hr' & Hm'). exists l'. split_and!; [done|lia|lia|].
        rewrite Hm'. f_equal. apply read_grows; [apply (Hl k'); by right|done].
Qed.

Section Copy.
Context `{MapRange}.

Lemma cloneState_spec f :
  fsm_ok f ->
  exists s f', cloneState f = Ret s f' /\ sends f f' (fun _ => []) /\
    new_state f f' s /\ contents (mem f') s = view f /\ (forall k v, s !! k = Some v -> v <> None).
Proof.
  intros Hok. destruct (clone_pairs_spec (range (default ∅ (state f))) ∅ f Hok) as (s & f' & Hr & Hs & Ho & Hin).
  { apply NoDup_range_keys. }
  { intros k v Hkv%elem_of_range. by apply (ok_live f Hok k). }
  assert (forall k, match default ∅ (state f) !! k with
    | Some v => exists l, s !! k = Some (Some l) /\ (brk f <= l < brk f')%nat /\ mem f' !! l = Some (read (mem f) v)
    | None => s !! k = None end) as Hk.
  { intros k. destruct (default ∅ (state f) !! k) as [v|] eqn:E.
    - apply Hin. by apply elem_of_range.
    - rewrite Ho, lookup_empty; [done|]. rewrite elem_of_range_keys, E. by intros []. }
  exists s, f'. split_and!; [done|done| | |].
  - intros k l Hl. specialize (Hk k). destruct (default ∅ (state f) !! k) as [v|]; [|congruence].
    destruct Hk as (l' & E & ? & Hm). simplify_eq. eauto.
  - apply map_eq. intros k. unfold contents, view. rewrite !lookup_fmap. specialize (Hk k).
    destruct (default ∅ (state f) !! k) as [v|]; simpl; [|by rewrite Hk].
    destruct Hk as (l & -> & _ & Hm). simpl. unfold read at 1. simpl. by rewrite Hm.
  - intros k v Hv ->. specialize (Hk k). destruct (default ∅ (state f) !! k) as [v|]; [|congruence].
    destruct Hk as (l & E & _). congruence.
Qed.

Lemma alloc_state_spec kvs f :
  fsm_ok f -> NoDup kvs.*1 ->
  exists s f', alloc_state kvs f = Ret s f' /\ sends f f' (fun _ => []) /\
    new_state f f' s /\ contents (mem f') s = sl <$> list_to_map kvs.
Proof.
  revert f. induction kvs as [|[k v] kvs IH]; intros f Hok Hnd.
  - exists ∅, f. split_and!; [done|by apply sends_refl, Hok|by intros k l|].
    unfold contents. simpl. by rewrite !fmap_empty.
  - apply NoDup_cons in Hnd as [Hn Hnd].
    destruct (new_opt_spec v f Hok) as (p & g & Hg & Hs & Hl & Hrd & Hp).
    destruct (fsm_ok_sends _ _ _ Hs Hok) as [Hokg _]. destruct (sends_grows _ _ _ Hs) as [Gm Gb _].
    destruct (IH g Hokg Hnd) as (s & f' & Hr & Hs' & Hnew & Hc).
    destruct (sends_grows _ _ _ Hs') as [Gm' Gb' _].
    exists (<[k := p]> s), f'. split_and!.
    + simpl. unfold mbind at 1. rewrite Hg. unfold mbind at 1. by rewrite Hr.
    + by eapply sends_nil_trans.
    + intros k' l [[<- E]|[_ Hk]]%lookup_insert_Some.
      * destruct (Hp l E). split; [lia|]. by apply (live_grows _ _ _ Hl Gm').
      * destruct (Hnew k' l Hk). split; [lia|done].
    + unfold contents in *. rewrite fmap_insert, Hc. simpl. rewrite fmap_insert. f_equal.
      rewrite <- Hrd. by apply read_grows.
Qed.
End Copy.

(** ** The system *)

Section System.
Context `{MapRange} `{MsgPack (Input bytes)} `{MsgPack (option (State bytes))}.

Record Sys := {
  fsm : RaftFsm;
  syncing : list nat;                                (* observers still to be synchronized *)
  exported : gset nat;                               (* slices returned by [State] *)
  snapshots : list (State nat * gmap string bytes);  (* with the pairs they were taken of *)
}.

(** A client holds the slices it was sent and those [State] returned. *)
Definition client_loc (s : Sys) (l : nat) : Prop :=
  l ∈ exported s \/
  exists c oc e, chans (fsm s) !! c = Some oc /\ e ∈ sent oc /\ Value e.1 = Some l.

Definition state_locs (m : State nat) : gset nat := list_to_set (omap snd (map_to_list m)).

Definition with_fsm (f : RaftFsm) (s : Sys) : Sys :=
  {| fsm := f; syncing := syncing s; exported := exported s; snapshots := snapshots s |}.

(** A step of a goroutine or of a client.  A client makes a new channel for
    each observation ([ObserveStateChange]), closes it only after removing the
    observer, and may write to any slice it holds. *)
Inductive local_step (s : Sys) : Sys -> Prop :=
  | step_observe c id f' :
      chans (fsm s) !! c = None ->
      AddStateChangeObserver c (set_chan c {| sent := []; closed := false |} (fsm s)) = Ret id f' ->
      local_step s {| fsm := f'; syncing := syncing s ++ [c]; exported := exported s; snapshots := snapshots s |}
  | step_sync n c f' :
      syncing s !! n = Some c -> sync_observer c (fsm s) = Ret tt f' ->
      local_step s {| fsm := f'; syncing := delete n (syncing s); exported := exported s; snapshots := snapshots s |}
  | step_remove id f' :
      RemoveStateChangeObserver id (fsm s) = Ret tt f' -> local_step s (with_fsm f' s)
  | step_close c oc :
      chans (fsm s) !! c = Some oc -> ~ observed (fsm s) c ->
      local_step s (with_fsm (set_chan c {| sent := sent oc; closed := true |} (fsm s)) s)
  | step_state m f' :
      State_ (fsm s) = Ret m f' ->
      local_step s {| fsm := f'; syncing := syncing s; exported := state_locs m ∪ exported s; snapshots := snapshots s |}
  | step_write l b :
      client_loc s l -> local_step s (with_fsm (set_mem l b (fsm s)) s).

(** Or of Raft; [r] tells whether it restores snapshots. *)
Inductive step (r : bool) (s : Sys) : Sys -> Prop :=
  | step_apply data res f' :
      Apply data (fsm s) = Ret res f' -> step r s (with_fsm f' s)
  | step_snapshot m f' :
      Snapshot (fsm s) = Ret m f' ->
      step r s {| fsm := f'; syncing := syncing s; exported := exported s;
                  snapshots := (m, view (fsm s)) :: snapshots s |}
  | step_restore b res f' :
      r = true -> Restore b (fsm s) = Ret res f' -> step r s (with_fsm f' s)
  | step_local s' :
      local_step s s' -> step r s s'.

Inductive reachable (r : bool) : Sys -> Prop :=
  | reachable_init :
      reachable r {| fsm := NewRaftFsm ∅ 0 ∅; syncing := []; exported := ∅; snapshots := [] |}
  | reachable_step s s' : reachable r s -> step r s s' -> reachable r s'.

(** What is private to the machine: its state's slices, the snapshots'. *)
Definition private_loc (s : Sys) (l : nat) : Prop :=
  (exists k, default ∅ (state (fsm s)) !! k = Some (Some l)) \/
  (exists m v k, (m, v) ∈ snapshots s /\ m !! k = Some (Some l)).

Record sys_ok (s : Sys) : Prop := {
  sys_fsm : fsm_ok (fsm s);
  sys_private : forall l, private_loc s l -> ~ client_loc s l;
  sys_clients : forall l, client_loc s l -> (l < brk (fsm s))%nat;
  sys_snaps : forall m v, (m, v) ∈ snapshots s ->
    (forall k p, m !! k = Some p -> p <> None /\ live (mem (fsm s)) p) /\ contents (mem (fsm s)) m = v;
}.


(** Steps that only allocate and send: the slices below [b] may become
    private, those from [b] on may be handed out. *)
Lemma sys_ok_frame s f' b es ex sns :
  sys_ok s -> grows (fsm s) f' -> fsm_ok f' -> (brk (fsm s) <= b <= brk f')%nat ->
  new_private (fsm s) f' b -> new_sent (fsm s) f' b ->
  (forall l, l ∈ ex -> (b <= l < brk f')%nat) ->
  (forall m v, (m, v) ∈ sns -> contents (mem f') m = v /\
     forall k p, m !! k = Some p -> exists l, p = Some l /\ (brk (fsm s) <= l < b)%nat /\ is_Some (mem f' !! l)) ->
  sys_ok {| fsm := f'; syncing := es; exported := ex ∪ exported s; snapshots := sns ++ snapshots s |}.
Proof.
  intros Hok Hg Hf Hb Hpr Hse Hex Hsn.
  set (s' := {| fsm := f'; syncing := es; exported := ex ∪ exported s; snapshots := sns ++ snapshots s |}).
  destruct Hg as [Gm Gb Gok].
  assert (forall l, private_loc s' l -> private_loc s l /\ (l < brk (fsm s))%nat \/ (brk (fsm s) <= l < b)%nat) as Hp'.
  { intros l [[k Hk]|(m & v & k & Hin & Hk)]; simpl in *.
    - destruct (Hpr k l Hk) as [Hold|?]; [left|by right]. split; [left; eauto|].
      by apply (ok_heap _ (sys_fsm s Hok)), (ok_live _ (sys_fsm s Hok) k _ Hold).
    - apply elem_of_app in Hin as [Hin|Hin].
      + right. destruct (Hsn m v Hin) as [_ Hl]. destruct (Hl k _ Hk) as (l' & [= <-] & ? & _). done.
      + left. split; [right; eauto 10|]. apply (ok_heap _ (sys_fsm s Hok)).
        destruct (sys_snaps s Hok m v Hin) as [Hl _]. by apply (Hl k _ Hk). }
  assert (forall l, client_loc s' l -> client_loc s l \/ (b <= l < brk f')%nat) as Hc'.
  { intros l [Hin|(c & oc & e & Hoc & He & Hv)]; simpl in *.
    - apply elem_of_union in Hin as [Hin|Hin]; [right; auto|left; by left].
    - destruct (Hse c oc e l Hoc He Hv) as [(oc' & Hoc' & He')|?]; [left; right; eauto 10|by right]. }
  split.
  - done.
  - intros l Hp Hc. destruct (Hp' l Hp) as [[Hpo Hlt]|Hlt], (Hc' l Hc) as [Hco|Hge]; [|lia| |lia].
    + by eapply (sys_private s Hok).
    + pose proof (sys_clients s Hok l Hco). lia.
  - intros l Hc. simpl. destruct (Hc' l Hc) as [Hco|?]; [|lia]. pose proof (sys_clients s Hok l Hco). lia.
  - simpl. intros m v [Hin|Hin]%elem_of_app.
    + destruct (Hsn m v Hin) as [Hcont Hl]. split; [|done]. intros k p Hk.
      destruct (Hl k p Hk) as (l & -> & _ & Hm). split; [done|]. by intros ? [= <-].
    + destruct (sys_snaps s Hok m v Hin) as [Hl Hv]. split.
      * intros k p Hk. destruct (Hl k p Hk). split; [done|]. by eapply live_grows.
      * rewrite <- Hv. apply contents_grows; [|done]. intros k p Hk. by apply (Hl k p Hk).
Qed.

(** *** Every step keeps the system well-formed *)

Lemma Apply_inv data f res f' :
  fsm_ok f -> Apply data f = Ret res f' ->
  f' = f \/ exists w, DecodeMsgPack data mp_zero = (w, None) /\ applied f f' w.
Proof.
  intros Hok HA. destruct (DecodeMsgPack data mp_zero) as [w [err|]] eqn:Hd.
  - left. unfold Apply in HA. rewrite Hd in HA. unfold mret in HA. congruence.
  - right. exists w. split; [done|]. destruct (decide (state f <> None \/ Op w <> InputOpSet)) as [Hs|Hs].
    + destruct (Apply_applied data f w Hok Hs Hd) as (f2 & Hf2 & Ha). congruence.
    + exfalso. unfold Apply in HA. rewrite Hd in HA.
      destruct (new_opt_spec (Value w) f Hok) as (p & g & Hg & Hsnd & _).
      unfold mbind at 1 in HA. rewrite Hg in HA. simpl in HA.
      assert (Op w = InputOpSet) as E by (apply dec_stable; tauto).
      assert (state g = None) as Es.
      { destruct (sends_same _ _ _ Hsnd) as (-> & _). destruct (state f); [|done]. destruct Hs. by left. }
      rewrite decide_False, decide_True in HA by (rewrite E; done).
      unfold put, mbind, mget in HA. by rewrite Es in HA.
Qed.

Lemma sync_emit c f :
  sync_observer c f =
  emit ((fun kv => (c, MkInput InputOpSet kv.1 kv.2)) <$> range (default ∅ (state f))) f.
Proof. unfold sync_observer, emit. unfold mbind at 1, mget. by rewrite mfor_fmap. Qed.

(** The inputs reproducing the state. *)
Definition sync_inputs f : list (Input bytes) :=
  (fun kv => MkInput InputOpSet kv.1 (Some (read (mem f) kv.2))) <$> range (default ∅ (state f)).

Lemma sync_open c f :
  fsm_ok f -> open_chan f c ->
  exists f', sync_observer c f = Ret tt f' /\ sends f f' (fun d => if decide (d = c) then sync_inputs f else []).
Proof.
  intros [Hh Hl _] Hc. rewrite sync_emit.
  destruct (emit_spec ((fun kv => (c, MkInput InputOpSet kv.1 kv.2)) <$> range (default ∅ (state f))) f Hh)
    as (f' & Hr & [G S X]).
  { apply Forall_forall. intros ci Hci. apply list_elem_of_fmap in Hci as ([k v] & -> & Hin).
    apply elem_of_range in Hin. split; [done|]. simpl. by apply (Hl k). }
  exists f'. split; [done|]. split; [done|done|]. intros d. specialize (X d). unfold sent_to in X.
  destruct (decide (d = c)) as [->|Hne].
  - replace (sync_inputs f) with
      ((fun ci : nat * Input nat => emitted (mem f) ci.2) <$>
       filter (fun ci => ci.1 = c) ((fun kv => (c, MkInput InputOpSet kv.1 kv.2)) <$> range (default ∅ (state f))));
      [done|].
    rewrite (list_fmap_compose (fun kv : string * option nat => MkInput InputOpSet kv.1 kv.2) (fun x => (c, x))).
    rewrite filter_all, <- !list_fmap_compose. done.
  - rewrite filter_none in X; [done|]. intros x Hx. apply list_elem_of_fmap in Hx as (kv & E & _). congruence.
Qed.

Lemma sync_not_open c f :
  ~ open_chan f c -> range (default ∅ (state f)) <> [] -> forall f', sync_observer c f <> Ret tt f'.
Proof.
  intros Hc Hne f'. rewrite sync_emit. destruct (range _) as [|kv kvs]; [done|]. intros Hr.
  apply Hc. unfold emit in Hr. simpl in Hr.
  unfold mbind at 1, cloneInput, clone_slice, mbind, mget, new_slice, mret, send in Hr. simpl in Hr.
  destruct (chans f !! c) as [oc|] eqn:E; [|done]. destruct (closed oc) eqn:Ec; [done|]. by exists oc.
Qed.

Lemma sync_inv c f f' :
  fsm_ok f -> sync_observer c f = Ret tt f' ->
  sends f f' (fun d => if decide (d = c) then sync_inputs f else []).
Proof.
  intros Hok Hr. destruct (range (default ∅ (state f))) as [|kv kvs] eqn:E.
  - rewrite sync_emit, E in Hr. injection Hr as <-.
    unfold sync_inputs. rewrite E. split; [by apply grows_refl, Hok|done|].
    intros d. destruct (decide (d = c)); by apply extends_refl.
  - destruct (chans f !! c) as [oc|] eqn:Ec; [destruct (closed oc) eqn:Eo|].
    + exfalso. apply (sync_not_open c f) with (f' := f'); [|by rewrite E|done].
      intros (oc' & ? & ?). congruence.
    + destruct (sync_open c f Hok) as (g & Hg & Hs); [by exists oc|]. congruence.
    + exfalso. apply (sync_not_open c f) with (f' := f'); [|by rewrite E|done].
      intros (oc' & ? & ?). congruence.
Qed.

Lemma new_sent_sends f f' new : sends f f' new -> new_sent f f' (brk f).
Proof. intros Hs. apply new_sent_extends. intros c. exists (new c). apply Hs. Qed.

Lemma new_private_same f f' b : state f' = state f -> new_private f f' b.
Proof. intros E k l. rewrite E. by left. Qed.

Lemma Restore_inv b f res f' :
  fsm_ok f -> Restore b f = Ret res f' ->
  grows f f' /\ fsm_ok f' /\ new_private f f' (brk f') /\ (forall c, extends f f' c []) /\
  observers f' = observers f /\
  match DecodeMsgPackFromReader b mp_zero with
  | (_, Some err) => res = Some err /\ f' = f
  | (m, None) => res = None /\ view f' = state_view m /\ (m <> None -> state f' <> None)
  end.
Proof.
  intros Hok. unfold Restore. destruct (DecodeMsgPackFromReader b mp_zero) as [[w|] [err|]].
  - intros [= <- <-]. split_and!; [by apply grows_refl, Hok|done|by apply new_private_same| |done|done|done].
    intros c. by apply extends_refl.
  - destruct (alloc_state_spec (range w) f Hok) as (m & g & Hg & Hs & Hn & Hc); [apply NoDup_range_keys|].
    unfold mbind at 1. rewrite Hg. intros [= <- <-]. destruct (sends_grows _ _ _ Hs) as [Gm Gb Gok].
    destruct (fsm_ok_sends _ _ _ Hs Hok) as [Hokg _].
    split_and!; [by split| | |apply Hs|apply (sends_same _ _ _ Hs)|done| |done].
    + apply fsm_ok_set_state; [done|]. intros k v. by apply (new_state_live f).
    + intros k l Hk. right. by apply (Hn k).
    + unfold view, state_view. simpl. etrans; [exact Hc|]. f_equal. apply map_eq. intros k.
      apply option_eq. intros v. rewrite <- elem_of_list_to_map by apply NoDup_range_keys.
      apply elem_of_range.
  - intros [= <- <-]. split_and!; [by apply grows_refl, Hok|done|by apply new_private_same| |done|done|done].
    intros c. by apply extends_refl.
  - intros [= <- <-]. destruct Hok as [Hh Hl [Ho H1']]. split_and!; try done.
    + intros c. by apply extends_refl.
Qed.

Lemma sys_ok_alloc s f' b es ex sns :
  sys_ok s -> grows (fsm s) f' -> fsm_ok f' -> (brk (fsm s) <= b <= brk f')%nat ->
  new_private (fsm s) f' b -> new_sent (fsm s) f' b ->
  (forall l, l ∈ ex -> (b <= l < brk f')%nat) ->
  (forall m v, (m, v) ∈ sns -> contents (mem f') m = v /\
     forall k p, m !! k = Some p -> exists l, p = Some l /\ (brk (fsm s) <= l < b)%nat /\ is_Some (mem f' !! l)) ->
  forall exs snss, exs = ex ∪ exported s -> snss = sns ++ snapshots s ->
  sys_ok {| fsm := f'; syncing := es; exported := exs; snapshots := snss |}.
Proof. intros. subst. by apply (sys_ok_frame s f' b). Qed.

(** Steps without new snapshots or exports. *)
Lemma sys_ok_plain s f' b es :
  sys_ok s -> grows (fsm s) f' -> fsm_ok f' -> (brk (fsm s) <= b <= brk f')%nat ->
  new_private (fsm s) f' b -> new_sent (fsm s) f' b ->
  sys_ok {| fsm := f'; syncing := es; exported := exported s; snapshots := snapshots s |}.
Proof.
  intros. eapply (sys_ok_alloc s f' b es ∅ []); try done.
  - by intros ? ? ?%not_elem_of_nil.
  - by rewrite (left_id_L ∅ (∪)).
Qed.

Lemma fsm_ok_observe c f :
  fsm_ok f -> chans f !! c = None -> forall n,
  fsm_ok (set_observers (<[n := c]> (observers f)) n (set_chan c {| sent := []; closed := false |} f)).
Proof.
  intros [Hh Hl [Ho H1']] Hc n. split; [done|done|].
  assert (forall id, observers f !! id <> Some c) as Hnew.
  { intros id Hid. destruct (Ho c) as (oc & Hoc & _); [by exists id|]. congruence. }
  split; simpl.
  - intros d [id Hid]. simpl in Hid. unfold open_chan. simpl.
    destruct (decide (d = c)) as [->|Hne]; [rewrite lookup_insert_eq; by eexists|].
    rewrite lookup_insert_ne by done. apply lookup_insert_Some in Hid as [[_ ?]|[_ Hid]]; [done|].
    destruct (Ho d) as (oc & Hoc & Hcl); [by exists id|]. by exists oc.
  - intros id id' d Hid Hid'.
    apply lookup_insert_Some in Hid'. apply lookup_insert_Some in Hid as [[<- <-]|[Hn Hid]].
    + destruct Hid' as [[<- _]|[_ Hid']]; [done|by apply Hnew in Hid'].
    + destruct Hid' as [[<- <-]|[_ Hid']]; [by apply Hnew in Hid|eauto].
Qed.

Lemma state_locs_elem m l : l ∈ state_locs m <-> exists k, m !! k = Some (Some l).
Proof.
  unfold state_locs. rewrite elem_of_list_to_set, list_elem_of_omap. split.
  - intros ([k v] & Hin & Hv). simpl in Hv. subst v. exists k. by apply elem_of_map_to_list.
  - intros [k Hk]. exists (k, Some l). split; [by apply elem_of_map_to_list|done].
Qed.

Lemma sys_ok_write s l b : sys_ok s -> client_loc s l -> sys_ok (with_fsm (set_mem l b (fsm s)) s).
Proof.
  intros [[Hh Hl [Ho H1']] Hp Hc Hs] Hcl.
  assert (forall k, private_loc s k -> <[l := b]> (mem (fsm s)) !! k = mem (fsm s) !! k) as Hpriv.
  { intros k Hk. apply lookup_insert_ne. intros <-. by apply (Hp l). }
  assert (forall v, live (mem (fsm s)) v -> live (<[l := b]> (mem (fsm s))) v) as Hlive.
  { intros v Hv k Hk. destruct (decide (k = l)) as [->|Hne]; [rewrite lookup_insert_eq; eauto|].
    rewrite lookup_insert_ne by done. by apply Hv. }
  split; [split; [|intros k v Hk; simpl; apply Hlive; by apply (Hl k)|by split]| | |].
  - intros k [b' Hk]. simpl in *. apply lookup_insert_Some in Hk as [[<- _]|[_ Hk]]; [by apply Hc|apply Hh; eauto].
  - intros k Hk Hck. by apply (Hp k).
  - intros k Hk. by apply (Hc k).
  - intros m v Hin. destruct (Hs m v Hin) as [Hm <-]. split.
    + intros k p Hk. destruct (Hm k p Hk). auto.
    + apply map_fmap_ext. intros k p Hk. destruct p as [l'|]; [|done]. unfold read. simpl.
      rewrite Hpriv; [done|]. right. eauto.
Qed.

Lemma sys_ok_close s c oc :
  sys_ok s -> chans (fsm s) !! c = Some oc -> ~ observed (fsm s) c ->
  sys_ok (with_fsm (set_chan c {| sent := sent oc; closed := true |} (fsm s)) s).
Proof.
  intros Hok Hc Hn. pose proof (sys_fsm s Hok) as [Hh Hl [Ho H1']].
  apply (sys_ok_plain s _ (brk (fsm s))); [done|by split| |simpl; lia|by apply new_private_same|].
  - split; [done|done|]. split; [|done]. intros d [id Hid]. simpl in Hid.
    destruct (Ho d) as (od & Hod & Hcl); [by exists id|]. exists od. simpl.
    rewrite lookup_insert_ne; [done|]. intros <-. apply Hn. by exists id.
  - intros d od e k Hd He Hv. simpl in Hd. left.
    apply lookup_insert_Some in Hd as [[<- <-]|[_ Hd]]; eauto.
Qed.

Lemma sys_ok_local s s' : sys_ok s -> local_step s s' -> sys_ok s'.
Proof.
  intros Hok Hstep. pose proof (sys_fsm s Hok) as Hf.
  destruct Hstep as [c id f' Hc HA|n c f' Hn HA|id f' HA|c oc Hc Hno|m f' HA|l b Hl].
  - injection HA as _ <-. apply (sys_ok_plain s _ (brk (fsm s))); [done|by destruct Hf|by apply fsm_ok_observe|simpl; lia|by apply new_private_same|].
    intros d od e k Hd He Hv. simpl in Hd. left.
    apply lookup_insert_Some in Hd as [[<- <-]|[_ Hd]]; [by apply not_elem_of_nil in He|eauto].
  - pose proof (sync_inv _ _ _ Hf HA) as Hs. destruct (fsm_ok_sends _ _ _ Hs Hf) as [Hf' _].
    apply (sys_ok_plain s f' (brk (fsm s))); [done|apply Hs|done|destruct (sends_grows _ _ _ Hs); lia| |by eapply new_sent_sends].
    apply new_private_same. by destruct (sends_same _ _ _ Hs).
  - injection HA as <-. apply (sys_ok_plain s _ (brk (fsm s))); [done|by destruct Hf| |simpl; lia|by apply new_private_same|].
    + destruct Hf as [Hh Hl [Ho H1']]. split; [done|done|]. split; simpl.
      * intros c [id' Hid]. simpl in Hid. apply lookup_delete_Some in Hid as [_ Hid]. apply Ho. by exists id'.
      * intros i1 i2 c [_ Hi1]%lookup_delete_Some [_ Hi2]%lookup_delete_Some. eauto.
    + intros d od e k Hd He Hv. left. eauto.
  - by apply sys_ok_close.
  - destruct (cloneState_spec _ Hf) as (m2 & f2 & HE & Hs & Hn & Hcont & _).
    assert (m2 = m /\ f2 = f') as [-> ->] by (unfold State_ in HA; split; congruence).
    destruct (fsm_ok_sends _ _ _ Hs Hf) as [Hf' _].
    apply (sys_ok_alloc s f' (brk (fsm s)) _ (state_locs m) []);
      [done|apply Hs|done|destruct (sends_grows _ _ _ Hs); lia| |by eapply new_sent_sends| | |done|done].
    + apply new_private_same. by destruct (sends_same _ _ _ Hs).
    + intros l [k Hk]%state_locs_elem. by apply (Hn k).
    + by intros ? ? ?%not_elem_of_nil.
  - by apply sys_ok_write.
Qed.

Lemma sys_ok_step r s s' : sys_ok s -> step r s s' -> sys_ok s'.
Proof.
  intros Hok Hstep. pose proof (sys_fsm s Hok) as Hf.
  destruct Hstep as [data res f' HA|m f' HA|b res f' _ HA|s' Hl]; [..|by eapply sys_ok_local].
  - destruct (Apply_inv _ _ _ _ Hf HA) as [->|(w & _ & Ha)]; [by destruct s|].
    destruct (applied_split _ _ _ Ha) as (b & ? & ? & ?).
    apply (sys_ok_plain s f' b); try done; apply Ha.
  - destruct (cloneState_spec _ Hf) as (m2 & f2 & HE & Hs & Hn & Hcont & Hnn).
    assert (m2 = m /\ f2 = f') as [-> ->] by (unfold Snapshot in HA; split; congruence).
    destruct (fsm_ok_sends _ _ _ Hs Hf) as [Hf' _].
    apply (sys_ok_alloc s f' (brk f') _ ∅ [(m, view (fsm s))]);
      [done|apply Hs|done|destruct (sends_grows _ _ _ Hs); lia| | |done| |by rewrite (left_id_L ∅ (∪))|done].
    + apply new_private_same. by destruct (sends_same _ _ _ Hs).
    + intros d od e k Hd He Hv. pose proof (sends_chans _ _ _ Hs d) as Hx. left. unfold extends in Hx.
      destruct (chans (fsm s) !! d) as [oc|]; [|destruct Hx; congruence].
      destruct Hx as (es & E & Hes & _). destruct es; [|done]. rewrite app_nil_r in E.
      rewrite E in Hd. injection Hd as <-. eauto.
    + intros m' v Hin%list_elem_of_singleton. injection Hin as -> ->.
      split; [done|]. intros k p Hk. destruct p as [l|]; [|by destruct (Hnn k None Hk)].
      exists l. split; [done|]. by apply (Hn k).
  - destruct (Restore_inv _ _ _ _ Hf HA) as (Hg & Hf' & Hp & Hx & _).
    apply (sys_ok_plain s f' (brk f')); [done|done|done|destruct Hg; lia|done|].
    intros d od e k Hd He Hv. left. specialize (Hx d). unfold extends in Hx.
    destruct (chans (fsm s) !! d) as [oc|]; [|destruct Hx; congruence].
    destruct Hx as (es & E & Hes & _). destruct es; [|done]. rewrite app_nil_r in E.
    rewrite E in Hd. injection Hd as <-. eauto.
Qed.

Lemma reachable_sys_ok r s : reachable r s -> sys_ok s.
Proof.
  induction 1 as [|s s' _ IH Hs]; [|by eapply sys_ok_step].
  split; simpl.
  - split; [by intros l []|by intros k v|]. split; [by intros c []|by intros].
  - intros l [[k Hk]|(m & v & k & Hin & _)]; simpl in *; [done|by apply not_elem_of_nil in Hin].
  - intros l [Hin|(c & oc & e & Hc & _)]; simpl in *; [by apply not_elem_of_empty in Hin|done].
  - by intros m v ?%not_elem_of_nil.
Qed.

(** C35: the memory of the machine is well formed in every reachable state:
    each slice of the replicated state or of a snapshot is allocated, and no
    client holds it; what clients hold, and everything allocated, lies below
    the next free location, so a new slice is nobody's; and an observer's
    channel exists, is open, and is registered under one id only, so that
    sending a state change neither blocks on nil nor panics. *)
Theorem machine_well_formed (r : bool) (s : Sys) :
  reachable r s ->
  (forall l, private_loc s l -> is_Some (mem (fsm s) !! l) /\ ~ client_loc s l) /\
  (forall l, client_loc s l \/ is_Some (mem (fsm s) !! l) -> (l < brk (fsm s))%nat) /\
  (forall c, observed (fsm s) c -> open_chan (fsm s) c) /\
  (forall id id' c, observers (fsm s) !! id = Some c -> observers (fsm s) !! id' = Some c -> id = id').
Proof.
  intros [[Hheap Hlive [Hopen Honce]] Hpriv Hcl Hsn]%reachable_sys_ok. split_and!; [|..|exact Hopen|exact Honce].
  - intros l Hl. split; [|by apply Hpriv]. destruct Hl as [[k Hk]|(m & v & k & Hin & Hk)]; [by apply (Hlive k (Some l))|].
    destruct (Hsn m v Hin) as [Hm _]. by apply (Hm k (Some l)).
  - intros l [Hl|Hl]; [by apply Hcl|by apply Hheap].
Qed.

(** *** Clients cannot change the state *)

Lemma write_keeps_view s l b : sys_ok s -> client_loc s l -> view (set_mem l b (fsm s)) = view (fsm s).
Proof.
  intros Hok Hc. apply map_fmap_ext. intros k [l'|] Hk; [|done]. unfold read. simpl.
  rewrite lookup_insert_ne; [done|]. intros <-. apply (sys_private s Hok l); [left; eauto|done].
Qed.

(** C20: whatever a client does with a slice it was sent, or got from [State],
    neither the replicated state nor any snapshot taken changes, and no later
    operation changes a snapshot either: what is handed out is a deep copy. *)
Theorem clients_cannot_change_state (r : bool) (s : Sys) (l : nat) (b : bytes) :
  reachable r s -> client_loc s l ->
  view (set_mem l b (fsm s)) = view (fsm s) /\
  forall m v, (m, v) ∈ snapshots s ->
    contents (mem (fsm s)) m = v /\ contents (mem (set_mem l b (fsm s))) m = v.
Proof.
  intros Hr%reachable_sys_ok Hc. split; [by apply write_keeps_view|]. intros m v Hin. split.
  - by apply (sys_snaps s Hr).
  - pose proof (sys_ok_write s l b Hr Hc) as Hok. by apply (sys_snaps _ Hok m v).
Qed.

(** *** Observers reproduce the state *)

Record observing (s : Sys) : Prop := {
  ob_once : NoDup (syncing s);
  ob_chans : forall c, c ∈ syncing s -> is_Some (chans (fsm s) !! c);
  ob_replay : forall c, observed (fsm s) c ->
    if decide (c ∈ syncing s) then replay (history (fsm s) c) ⊆ view (fsm s)
    else replay (history (fsm s) c) = view (fsm s);
  ob_changes : forall c, Forall changes_state (history (fsm s) c);
}.

Lemma replay1_notification m w : replay1 m (notification w) = replay1 m w.
Proof.
  unfold replay1, notification. destruct (decide (Op w = InputOpSet)) as [E|E]; simpl.
  - by rewrite decide_True.
  - rewrite decide_False by done. done.
Qed.

Lemma replay1_same m w : ~ changes_state w -> replay1 m w = m.
Proof. unfold changes_state, replay1. intros Hn. rewrite !decide_False by tauto. done. Qed.

Lemma replay1_mono m m' w : m ⊆ m' -> replay1 m w ⊆ replay1 m' w.
Proof.
  intros Hs. unfold replay1. destruct (decide (Op w = InputOpSet)); [by apply insert_mono|].
  destruct (decide (Op w = InputOpDelete)); [by apply delete_mono|done].
Qed.

Lemma replay_snoc (h : list (Input bytes)) (i : Input bytes) : replay (h ++ [i]) = replay1 (replay h) i.
Proof. unfold replay. by rewrite foldl_app. Qed.

Lemma replay_sync_pairs (m : gmap nat bytes) kvs (v : gmap string bytes) :
  NoDup kvs.*1 -> 
  foldl replay1 v ((fun kv : string * option nat => MkInput InputOpSet kv.1 (Some (read m kv.2))) <$> kvs) =
  (read m <$> list_to_map kvs) ∪ v.
Proof.
  revert v. induction kvs as [|[k p] kvs IH]; intros v Hnd.
  - simpl. by rewrite fmap_empty, (left_id_L ∅ (∪)).
  - apply NoDup_cons in Hnd as [Hn Hnd]. rewrite fmap_cons. cbn [foldl]. rewrite IH by done.
    unfold replay1. rewrite decide_True by done. simpl. rewrite fmap_insert.
    rewrite <- insert_union_l, <- insert_union_r; [done|].
    rewrite lookup_fmap, not_elem_of_list_to_map_1; done.
Qed.

Lemma replay_sync f v : v ⊆ view f -> foldl replay1 v (sync_inputs f) = view f.
Proof.
  intros Hs. unfold sync_inputs. rewrite replay_sync_pairs by apply NoDup_range_keys.
  assert (list_to_map (range (default ∅ (state f))) = default ∅ (state f)) as ->.
  { apply map_eq. intros k. apply option_eq. intros p.
    rewrite <- elem_of_list_to_map by apply NoDup_range_keys. apply elem_of_range. }
  change (read (mem f) <$> default ∅ (state f)) with (view f).
  apply map_eq. intros k. rewrite lookup_union. destruct (view f !! k) eqn:E; [by rewrite union_Some_l|].
  destruct (v !! k) as [x|] eqn:Ev; [|done]. by rewrite (lookup_weaken _ _ _ _ Ev Hs) in E.
Qed.

(** Nothing sent, and every observer observed before. *)
Lemma observing_same s f' :
  observing s -> (forall c, observed f' c -> observed (fsm s) c) ->
  (forall c, is_Some (chans (fsm s) !! c) -> is_Some (chans f' !! c)) ->
  (forall c, history f' c = history (fsm s) c) -> view f' = view (fsm s) ->
  forall ex sns, observing {| fsm := f'; syncing := syncing s; exported := ex; snapshots := sns |}.
Proof.
  intros [Hn Hc Hr Hx] Ho Hch Hh Hv ex sns. split; simpl; [done|auto| |intros c; by rewrite Hh].
  intros c Hc'. rewrite Hh, Hv. by apply Hr, Ho.
Qed.

Lemma observing_sends s f' ex sns :
  fsm_ok (fsm s) -> sends (fsm s) f' (fun _ => []) -> observing s ->
  observing {| fsm := f'; syncing := syncing s; exported := ex; snapshots := sns |}.
Proof.
  intros Hf Hs Hob. destruct (fsm_ok_sends _ _ _ Hs Hf) as [_ Hv].
  apply observing_same; [done| | | |done].
  - intros c. unfold observed. by destruct (sends_same _ _ _ Hs) as (_ & -> & _).
  - intros c [oc Hoc]. pose proof (sends_chans _ _ _ Hs c) as Hx. unfold extends in Hx.
    rewrite Hoc in Hx. destruct Hx as (es & -> & _). eauto.
  - intros c. rewrite (history_extends _ _ _ _ (sends_chans _ _ _ Hs c)). by rewrite app_nil_r.
Qed.

Lemma observing_apply s f' w :
  applied (fsm s) f' w -> observing s -> observing (with_fsm f' s).
Proof.
  intros Ha [Hn Hc Hr Hch]. split; simpl; [done| | |].
  - intros c Hin. destruct (Hc c Hin) as [oc Hoc]. pose proof (applied_chans _ _ _ Ha c) as Hx.
    unfold extends in Hx. rewrite Hoc in Hx. destruct Hx as (es & -> & _). eauto.
  - intros c [id Hid]. rewrite (applied_observers _ _ _ Ha) in Hid.
    assert (observed (fsm s) c) as Hobs by (by exists id). specialize (Hr c Hobs).
    rewrite (history_extends _ _ _ _ (applied_chans _ _ _ Ha c)), (applied_view _ _ _ Ha).
    destruct (decide (changes_state w /\ observed (fsm s) c)) as [_|Hno].
    + rewrite replay_snoc, replay1_notification.
      destruct (decide (c ∈ syncing s)); [by apply replay1_mono|by rewrite Hr].
    + rewrite app_nil_r, replay1_same by tauto. done.
  - intros c. rewrite (history_extends _ _ _ _ (applied_chans _ _ _ Ha c)). apply Forall_app. split; [done|].
    case_decide as Hw; [|constructor]. constructor; [|constructor].
    destruct Hw as [Hw _]. unfold changes_state, notification in *. case_decide; simpl; tauto.
Qed.

Lemma NoDup_delete_elem {A} (l : list A) n x y :
  NoDup l -> l !! n = Some x -> y ∈ delete n l <-> y ∈ l /\ y <> x.
Proof.
  intros Hnd Hn. rewrite delete_take_drop.
  assert (y ∈ l <-> y ∈ take n l ++ x :: drop (S n) l) as -> by (by rewrite take_drop_middle).
  rewrite <- (take_drop_middle l n x Hn) in Hnd. rewrite !elem_of_app, elem_of_cons.
  apply NoDup_app in Hnd as (_ & H1' & [H2 _]%NoDup_cons). split.
  - intros [Hin|Hin]; (split; [auto|]); intros ->; [|done]. destruct (H1' x Hin). left.
  - intros [[?|[?|?]] ?]; auto; done.
Qed.

Lemma observing_sync s n c f' ex sns :
  fsm_ok (fsm s) -> syncing s !! n = Some c ->
  sends (fsm s) f' (fun d => if decide (d = c) then sync_inputs (fsm s) else []) -> observing s ->
  observing {| fsm := f'; syncing := delete n (syncing s); exported := ex; snapshots := sns |}.
Proof.
  intros Hf Hn Hs [Hnd Hc Hr Hch]. destruct (fsm_ok_sends _ _ _ Hs Hf) as [_ Hv].
  split; simpl.
  - eapply sublist_NoDup; [exact Hnd|]. apply sublist_delete.
  - intros d [Hin _]%(NoDup_delete_elem _ _ _ _ Hnd Hn). destruct (Hc d Hin) as [oc Hoc].
    pose proof (sends_chans _ _ _ Hs d) as Hx. unfold extends in Hx. rewrite Hoc in Hx.
    destruct Hx as (es & -> & _). eauto.
  - intros d [id Hid]. destruct (sends_same _ _ _ Hs) as (_ & Eo & _). rewrite Eo in Hid.
    assert (observed (fsm s) d) as Hobs by (by exists id). specialize (Hr d Hobs).
    rewrite (history_extends _ _ _ _ (sends_chans _ _ _ Hs d)), Hv.
    destruct (decide (d = c)) as [->|Hne].
    + rewrite (decide_False (P := c ∈ delete n _)) by (rewrite (NoDup_delete_elem _ _ _ _ Hnd Hn); tauto).
      rewrite decide_True in Hr by (by eapply list_elem_of_lookup_2).
      unfold replay. rewrite foldl_app. by apply replay_sync.
    + rewrite app_nil_r.
      destruct (decide (d ∈ delete n (syncing s))) as [Hd|Hd], (decide (d ∈ syncing s)) as [Hd'|Hd']; [done| | |done].
      * apply (NoDup_delete_elem _ _ _ _ Hnd Hn) in Hd. tauto.
      * destruct Hd. apply (NoDup_delete_elem _ _ _ _ Hnd Hn). done.
  - intros d. rewrite (history_extends _ _ _ _ (sends_chans _ _ _ Hs d)). apply Forall_app. split; [done|].
    case_decide; [|constructor]. unfold sync_inputs. apply Forall_fmap, Forall_forall. intros kv _. by left.
Qed.

Lemma history_set_chan f c oc d :
  history (set_chan c oc f) d = if decide (d = c) then sent_input <$> sent oc else history f d.
Proof.
  unfold history. simpl. destruct (decide (d = c)) as [->|Hne]; [by rewrite lookup_insert_eq|].
  by rewrite lookup_insert_ne.
Qed.

Lemma observing_observe s c n :
  chans (fsm s) !! c = None -> (forall d, observed (fsm s) d -> is_Some (chans (fsm s) !! d)) ->
  observing s ->
  observing {| fsm := set_observers (<[n := c]> (observers (fsm s))) n (set_chan c {| sent := []; closed := false |} (fsm s));
               syncing := syncing s ++ [c]; exported := exported s; snapshots := snapshots s |}.
Proof.
  intros Hc Hopen [Hnd Hch Hr Hx].
  assert (c ∉ syncing s) as Hns.
  { intros Hin. destruct (Hch c Hin) as [oc Hoc]. congruence. }
  split; simpl.
  - apply NoDup_app. split_and!; [done| |apply NoDup_singleton]. intros d Hd ->%list_elem_of_singleton. done.
  - intros d [Hd|Hd]%elem_of_app; (destruct (decide (d = c)) as [->|Hne]; [rewrite lookup_insert_eq; by eexists|]).
    + rewrite lookup_insert_ne by done. auto.
    + by apply list_elem_of_singleton in Hd.
  - intros d [id Hid]. simpl in Hid.
    change (history (set_observers _ _ _) d) with (history (set_chan c {| sent := []; closed := false |} (fsm s)) d).
    rewrite history_set_chan. change (view (set_observers _ _ _)) with (view (fsm s)).
    destruct (decide (d = c)) as [->|Hne].
    + rewrite decide_True by (apply elem_of_app; right; left). simpl. apply map_empty_subseteq.
    + apply lookup_insert_Some in Hid as [[_ ?]|[_ Hid]]; [done|].
      specialize (Hr d ltac:(by exists id)).
      destruct (decide (d ∈ syncing s ++ [c])) as [Hd|Hd], (decide (d ∈ syncing s)) as [Hd'|Hd']; [done| | |done].
      * apply elem_of_app in Hd as [?|?%list_elem_of_singleton]; done.
      * destruct Hd. apply elem_of_app. by left.
  - intros d. change (history (set_observers _ _ _) d) with (history (set_chan c {| sent := []; closed := false |} (fsm s)) d).
    rewrite history_set_chan. case_decide; [constructor|apply Hx].
Qed.

Lemma observing_local s s' : sys_ok s -> local_step s s' -> observing s -> observing s'.
Proof.
  intros Hok Hstep Hob. pose proof (sys_fsm s Hok) as Hf.
  destruct Hstep as [c id f' Hc HA|n c f' Hn HA|id f' HA|c oc Hc Hno|m f' HA|l b Hl].
  - injection HA as _ <-. apply observing_observe; [done| |done].
    intros d Hd. destruct (obs_open _ (ok_observers _ Hf) d Hd) as (oc & Hoc & _). eauto.
  - eapply observing_sync; eauto. by apply sync_inv.
  - injection HA as <-. apply observing_same; try done. intros c [id' Hid]. simpl in Hid.
    apply lookup_delete_Some in Hid as [_ Hid]. by exists id'.
  - apply observing_same; [done|done| | |done].
    + intros d Hd. simpl. destruct (decide (d = c)) as [->|Hne]; [rewrite lookup_insert_eq; eauto|].
      by rewrite lookup_insert_ne.
    + intros d. rewrite history_set_chan. unfold history. destruct (decide (d = c)) as [->|]; [by rewrite Hc|done].
  - destruct (cloneState_spec _ Hf) as (m2 & f2 & HE & Hs & _).
    assert (f2 = f') as -> by (unfold State_ in HA; congruence). by apply observing_sends.
  - apply observing_same; try done. by apply write_keeps_view.
Qed.

Lemma observing_step s s' : sys_ok s -> step false s s' -> observing s -> observing s'.
Proof.
  intros Hok Hstep Hob. pose proof (sys_fsm s Hok) as Hf.
  destruct Hstep as [data res f' HA|m f' HA|b res f' ? HA|s' Hl]; [..|by eapply observing_local].
  - destruct (Apply_inv _ _ _ _ Hf HA) as [->|(w & _ & Ha)]; [by destruct s|]. by eapply observing_apply.
  - destruct (cloneState_spec _ Hf) as (m2 & f2 & HE & Hs & _).
    assert (f2 = f') as -> by (unfold Snapshot in HA; congruence). by apply observing_sends.
  - done.
Qed.

Lemma reachable_observing s : reachable false s -> observing s.
Proof.
  intros Hr. induction Hr as [|s s' Hr IH Hs].
  - split; simpl; [constructor|by intros ? ?%not_elem_of_nil|by intros d []|by intros].
  - eapply observing_step; [by eapply reachable_sys_ok|done..].
Qed.

Lemma observer_replays s c : reachable false s -> observed (fsm s) c ->
  (c ∉ syncing s -> replay (history (fsm s) c) = view (fsm s)) /\
  replay (history (fsm s) c) ⊆ view (fsm s).
Proof.
  intros [_ _ Hob _]%reachable_observing Hc. specialize (Hob c Hc).
  destruct (decide (c ∈ syncing s)); [done|]. by rewrite Hob.
Qed.

(** C13: while Raft applies entries and restores no snapshot, whatever the
    interleaving of entries, registrations, the goroutines that send the
    current pairs, removals and writes of clients: the inputs an observer
    was sent so far rebuild exactly the replicated state, once its goroutine
    has run; before, they rebuild a part of it. *)
Theorem observers_replay_state (s : Sys) (c : nat) :
  reachable false s -> observed (fsm s) c ->
  (c ∉ syncing s -> replay (history (fsm s) c) = view (fsm s)) /\
  replay (history (fsm s) c) ⊆ view (fsm s).
Proof. apply observer_replays. Qed.

(** *** Snapshots *)

Lemma snapshot_contents_view m s : state_view (Some (snapshot_contents m s)) = contents m s.
Proof.
  unfold state_view, snapshot_contents, contents. simpl. rewrite <- map_fmap_compose.
  apply map_fmap_ext. by intros k [l|] _.
Qed.

(** C32: a snapshot persists the pairs of the moment it was taken, however
    many entries were applied since: if [Persist] succeeds, some bytes were
    written to the sink and the sink was closed, and restoring these bytes on
    any state machine gives it exactly those pairs; if it fails the sink is
    cancelled. *)
Theorem snapshot_roundtrip `{!MsgPackLaws (option (State bytes)) (fun m => m <> None) snapshot_rel}
    {W} (sink : SnapshotSink W) (r : bool) (s : Sys) (m : State nat) (v : gmap string bytes) (w w' : W) (err : goerr) :
  reachable r s -> (m, v) ∈ snapshots s -> Persist sink (mem (fsm s)) m w = (err, w') ->
  match err with
  | Some _ => exists w1, w' = (sink_Cancel sink w1).2
  | None => exists b w1, sink_Write sink b w = (None, w1) /\ sink_Close sink w1 = (None, w') /\
      forall f, fsm_ok f -> exists f', Restore (inl b) f = Ret None f' /\ fsm_ok f' /\ view f' = v
  end.
Proof.
  intros Hr%reachable_sys_ok Hin HP. destruct (sys_snaps s Hr m v Hin) as [_ Hv].
  destruct (mp_roundtrip (Some (snapshot_contents (mem (fsm s)) m))) as (b & a' & He & Hd & Hrel & Hnn); [done|].
  unfold Persist, EncodeMsgPack in HP. rewrite He in HP. simpl in HP.
  destruct (sink_Write sink b w) as [[e|] w1] eqn:Ew; [injection HP as <- <-; eauto|].
  destruct (sink_Close sink w1) as [[e|] w2] eqn:Ec; [injection HP as <- <-; eauto|].
  injection HP as <- <-. exists b, w1. split_and!; [done|done|]. intros f Hf.
  destruct (Restore (inl b) f) as [res f'|f'|msg] eqn:ER.
  - destruct (Restore_inv _ _ _ _ Hf ER) as (_ & Hf' & _ & _ & _ & Hres).
    simpl in Hres. rewrite Hd in Hres. destruct Hres as (-> & Hview & _).
    exists f'. split_and!; [done|done|]. by rewrite Hview, <- Hrel, snapshot_contents_view.
  - exfalso. clear -ER Hf. unfold Restore in ER.
    destruct (DecodeMsgPackFromReader _ _) as [[x|] [e|]]; try done.
    destruct (alloc_state_spec (range x) f Hf) as (? & ? & Hg & _); [apply NoDup_range_keys|].
    unfold mbind at 1 in ER. by rewrite Hg in ER.
  - exfalso. clear -ER Hf. unfold Restore in ER.
    destruct (DecodeMsgPackFromReader _ _) as [[x|] [e|]]; try done.
    destruct (alloc_state_spec (range x) f Hf) as (? & ? & Hg & _); [apply NoDup_range_keys|].
    unfold mbind at 1 in ER. by rewrite Hg in ER.
Qed.

(** C33: [Apply] on every branch.  Data that does not decode is answered with
    the error; an undefined operation is ignored and an unknown one answered
    with an error, neither changing anything; a set or delete operation is
    applied to the key-value pairs, and each observing channel, and no other,
    is sent the input once. *)
Theorem Apply_spec (data : slice) (f : RaftFsm) :
  fsm_ok f -> state f <> None ->
  match DecodeMsgPack data mp_zero with
  | (_, Some err) => Apply data f = Ret (Some err) f
  | (w, None) => exists f',
      Apply data f = Ret (if decide (Op w = InputOpUndefined \/ changes_state w) then None
                          else Some (ErrText ("unknown input operation in Raft log entry: " +:+ pretty (Op w)))) f' /\
      fsm_ok f' /\ state f' <> None /\ view f' = replay1 (view f) w /\ observers f' = observers f /\
      forall c, history f' c = history f c ++
        (if decide (changes_state w /\ observed f c) then [notification w] else [])
  end.
Proof.
  intros Hok Hst. destruct (DecodeMsgPack data mp_zero) as [w [err|]] eqn:Hd.
  - unfold Apply. by rewrite Hd.
  - destruct (Apply_applied data f w Hok (or_introl Hst) Hd) as (f' & HA & Ha). exists f'.
    split_and!; [exact HA|apply Ha|by apply (applied_state _ _ _ Ha)|apply Ha|apply Ha|].
    intros c. by apply history_extends, Ha.
Qed.
End System.

(** ** Concrete runs *)

Module Run.
Import BitCodec.
#[export] Instance run_order : MapRange := range_in_map_order.

Definition set_ab : slice := (EncodeMsgPack (MkInput InputOpSet "a" (Some (bytes_of_string "b")))).1.
Definition init : Sys := {| fsm := NewRaftFsm ∅ 0 ∅; syncing := []; exported := ∅; snapshots := [] |}.

Definition exec {A} (m : M RaftFsm A) (f : RaftFsm) : RaftFsm :=
  match m f with
  | Ret _ f' => f'
  | _ => f
  end.

Definition f1 : RaftFsm := exec (AddStateChangeObserver 5%nat) (set_chan 5 {| sent := []; closed := false |} (fsm init)).
Definition f2 : RaftFsm := exec (Apply set_ab) f1.
Definition f3 : RaftFsm := exec (sync_observer 5%nat) f2.
Definition f4 : RaftFsm := exec Snapshot f3.

Definition s1 : Sys := {| fsm := f1; syncing := [5%nat]; exported := ∅; snapshots := [] |}.
Definition s2 : Sys := {| fsm := f2; syncing := [5%nat]; exported := ∅; snapshots := [] |}.
Definition s3 : Sys := {| fsm := f3; syncing := []; exported := ∅; snapshots := [] |}.
Definition snap : State nat := <["a" := Some 3%nat]> ∅.
Definition ab : gmap string bytes := <["a" := bytes_of_string "b"]> ∅.
Definition s4 : Sys := {| fsm := f4; syncing := []; exported := ∅; snapshots := [(snap, ab)] |}.

Lemma reach1 r : reachable r s1.
Proof. eapply reachable_step; [apply reachable_init|]. apply step_local. by apply (step_observe init 5 1 f1). Qed.

Lemma reach2 r : reachable r s2.
Proof.
  eapply reachable_step; [apply reach1|]. apply (step_apply r s1 set_ab None f2). by_vm.
Qed.

Lemma reach3 r : reachable r s3.
Proof.
  eapply reachable_step; [apply reach2|]. apply step_local, (step_sync s2 0 5 f3); [done|by_vm].
Qed.

Lemma reach4 r : reachable r s4.
Proof.
  eapply reachable_step; [apply reach3|].
  assert (view f3 = ab) as E by by_vm.
  pose proof (step_snapshot r s3 snap f4) as H. simpl in H. rewrite E in H. apply H. by_vm.
Qed.

(** A snapshot with other pairs, restored while an observer listens. *)
Definition other : slice := (EncodeMsgPack (Some (<["x" := Some (bytes_of_string "y")]> ∅ : State bytes))).1.
Definition f5 : RaftFsm := exec (Restore (inl (sl other))) f3.
Definition s5 : Sys := {| fsm := f5; syncing := []; exported := ∅; snapshots := [] |}.

Lemma reach5 : reachable true s5.
Proof. eapply reachable_step; [apply reach3|]. apply (step_restore true s3 (inl (sl other)) None f5); [done|by_vm]. Qed.

(** An observation cancelled before its goroutine got the lock. *)
Definition f6 : RaftFsm := exec (Apply set_ab) (exec (RemoveStateChangeObserver 1) f1).
Definition oc6 : ObserverChan := {| sent := []; closed := false |}.
Definition s6 : Sys :=
  {| fsm := set_chan 5 {| sent := sent oc6; closed := true |} f6; syncing := [5%nat]; exported := ∅; snapshots := [] |}.

Lemma reach6 : reachable false s6.
Proof.
  eapply (reachable_step _ {| fsm := f6; syncing := [5%nat]; exported := ∅; snapshots := [] |}).
  - eapply (reachable_step _ {| fsm := exec (RemoveStateChangeObserver 1) f1; syncing := [5%nat];
                                exported := ∅; snapshots := [] |}).
    + eapply reachable_step; [apply reach1|]. apply step_local. by apply (step_remove s1 1).
    + apply (step_apply false {| fsm := exec (RemoveStateChangeObserver 1) f1; syncing := [5%nat];
                                 exported := ∅; snapshots := [] |} set_ab None). by_vm.
  - apply step_local, (step_close {| fsm := f6; syncing := [5%nat]; exported := ∅; snapshots := [] |} 5 oc6); [by_vm|].
    intros [id Hid].
    assert (observers f6 = ∅) as E by by_vm. simpl in Hid. by rewrite E, lookup_empty in Hid.
Qed.
End Run.

(** Restoring a snapshot (a follower that is brought up to date by its
    leader) changes the state without telling the observers: what they were
    sent no longer rebuilds it. *)
Theorem restore_is_not_observed :
  exists s c, @reachable Run.run_order BitCodec.input_codec BitCodec.snapshot_codec true s /\
    observed (fsm s) c /\ c ∉ syncing s /\ replay (history (fsm s) c) <> view (fsm s).
Proof.
  exists Run.s5, 5%nat. split_and!; [apply Run.reach5|by exists 1|apply not_elem_of_nil|].
  intros E. assert (replay (history Run.f5 5) !! "x" = None) as E1 by by_vm.
  assert (view Run.f5 !! "x" = Some (bytes_of_string "y")) as E2 by by_vm.
  change (replay (history Run.f5 5) = view Run.f5) in E. rewrite E, E2 in E1. discriminate.
Qed.

(** The goroutine of an observation that is cancelled at once sends on the
    channel its canceller has closed, and panics. *)
Theorem cancelled_observation_panics :
  exists s n c, @reachable Run.run_order BitCodec.input_codec BitCodec.snapshot_codec false s /\
    syncing s !! n = Some c /\ @sync_observer Run.run_order c (fsm s) = Panic "send on closed channel".
Proof. exists Run.s6, 0%nat, 5%nat. split_and!; [apply Run.reach6|done|by_vm]. Qed.

Lemma clients_cannot_change_state_witness :
  view (set_mem 2 [] Run.f4) = Run.ab /\ contents (mem (set_mem 2 [] Run.f4)) Run.snap = Run.ab.
Proof.
  destruct (@clients_cannot_change_state Run.run_order BitCodec.input_codec BitCodec.snapshot_codec
              false Run.s4 2 [] (Run.reach4 false)) as [Hv Hs].
  - right. exists 5%nat, (default {| sent := []; closed := false |} (chans Run.f4 !! 5%nat)),
      (MkInput InputOpSet "a" (Some 2%nat), bytes_of_string "b").
    split; [by_vm|]. split; [|reflexivity]. right. left.
  - split.
    + etransitivity; [exact Hv|]. by_vm.
    + apply (Hs Run.snap Run.ab). left.
Defined.

Lemma observers_replay_state_witness : replay (history Run.f3 5) = view Run.f3.
Proof.
  refine (proj1 (@observers_replay_state Run.run_order BitCodec.input_codec BitCodec.snapshot_codec Run.s3 5
                   (Run.reach3 false) _) (not_elem_of_nil _)).
  by exists 1.
Defined.

(** A sink that keeps what was written in memory. *)
Definition memory_sink : SnapshotSink bytes :=
  {| sink_Write := fun b w => (None, w ++ b);
     sink_Close := fun w => (None, w);
     sink_Cancel := fun w => (None, []) |}.

Lemma snapshot_roundtrip_witness :
  exists b, forall f, fsm_ok f -> exists f',
    @Restore Run.run_order BitCodec.snapshot_codec (inl b) f = Ret None f' /\ view f' = Run.ab.
Proof.
  destruct (@snapshot_roundtrip Run.run_order BitCodec.input_codec BitCodec.snapshot_codec
    (BitCodec.codec_laws _ _ snapshot_rel (fun a Ha => conj eq_refl Ha))
    bytes memory_sink false Run.s4 Run.snap Run.ab []
    (@Persist BitCodec.snapshot_codec _ memory_sink (mem Run.f4) Run.snap []).2 None (Run.reach4 false))
    as (b & w1 & _ & _ & Hb).
  - left.
  - by_vm.
  - exists b. intros f Hf. destruct (Hb f Hf) as (f' & ? & _ & ?). eauto.
Defined.

Lemma Apply_spec_witness :
  exists f', @Apply Run.run_order BitCodec.input_codec Run.set_ab Run.f3 = Ret None f' /\
    view f' = <["a" := bytes_of_string "b"]> (view Run.f3).
Proof.
  pose proof (@Apply_spec Run.run_order BitCodec.input_codec Run.set_ab Run.f3) as H.
  assert (@DecodeMsgPack _ BitCodec.input_codec Run.set_ab (@mp_zero _ BitCodec.input_codec) =
          (MkInput InputOpSet "a" (Some (bytes_of_string "b")), None)) as E by by_vm.
  rewrite E in H. destruct H as (f' & HA & _ & _ & Hv & _).
  - apply (sys_fsm Run.s3), (@reachable_sys_ok Run.run_order BitCodec.input_codec BitCodec.snapshot_codec false), Run.reach3.
  - intros Hn. assert (is_Some (state Run.f3)) as [m Hm] by (by eexists). by rewrite Hm in Hn.
  - exists f'. split; [exact HA|exact Hv].
Defined.

Lemma machine_well_formed_witness : is_Some (mem (fsm Run.s4) !! 3%nat) /\ ~ client_loc Run.s4 3.
Proof.
  apply (proj1 (@machine_well_formed Run.run_order BitCodec.input_codec BitCodec.snapshot_codec
                  false Run.s4 (Run.reach4 false))).
  right. exists Run.snap, Run.ab, "a". split; [left|reflexivity].
Defined.
