(* ===== verification/Observation.v ===== *)
(** * Observing state changes through bounded channels
      ([services/state/raft/fsm.go] and [raft.go])

    [Fsm] takes each critical section under the machine's lock as one step,
    in which every send completes.  In the source a send waits while the
    buffer of the observer's channel is full, and the lock is held meanwhile.
    Here a section is what it is: it begins, sends one input after the other
    as buffers have room, and ends, while consumers receive, clients write to
    their slices and channels of ended observations are closed.  The theorems
    show that the sections are atomic nevertheless, that consumers who keep
    receiving get the state, that entries are then applied one after the
    other ([turn]), and what happens if consumers stop.

    An entry is decoded when its section begins.  Restoring a snapshot, which
    takes no lock, is left to [Fsm]. *)

From stdpp Require Import pretty.
From S2P Require Import Prelude GoRuntime StateApi Fsm.

(** ** State *)

(** [make(chan api.Input, 256)] *)
Definition stateChangeBuffer : nat := 256.

(** The machine with its clients; the sends the holder of the lock has still
    to make, if it is held; how many inputs were received from each channel;
    the channels whose consumer has stopped receiving. *)
Record BSys := {
  b_sys : Sys;
  b_pending : option (list (nat * Input nat));
  b_received : gmap nat nat;
  b_stopped : gset nat;
}.

Definition b_fsm (s : BSys) : RaftFsm := fsm (b_sys s).

Definition set_sys (t : Sys) (p : option (list (nat * Input nat))) (s : BSys) : BSys :=
  {| b_sys := t; b_pending := p; b_received := b_received s; b_stopped := b_stopped s |}.

Definition b_taken (s : BSys) (c : nat) : nat := default 0%nat (b_received s !! c).

Definition receive (c : nat) (s : BSys) : BSys :=
  {| b_sys := b_sys s; b_pending := b_pending s; b_received := <[c := S (b_taken s c)]> (b_received s);
     b_stopped := b_stopped s |}.

Definition stop (c : nat) (s : BSys) : BSys :=
  {| b_sys := b_sys s; b_pending := b_pending s; b_received := b_received s; b_stopped := {[c]} ∪ b_stopped s |}.

(** How many inputs were sent on a channel that exists. *)
Definition b_sent (f : RaftFsm) (c : nat) : option nat := (fun oc => length (sent oc)) <$> chans f !! c.

(** The inputs a consumer has received. *)
Definition received_inputs (s : BSys) (c : nat) : list (Input bytes) := take (b_taken s c) (history (b_fsm s) c).

Section Observation.
Context `{MapRange} `{MsgPack (Input bytes)} `{MsgPack (option (State bytes))}.

(** ** Sections *)

(** [ch <- f.cloneInput(in)] *)
Definition send_clone (c : nat) (i : Input nat) : M RaftFsm unit := let! j := cloneInput i in send c j.

(** [Apply] up to the loop of [sendStateChange]: the result it will have, and
    the sends to be made. *)
Definition begin_Apply (data : slice) : M RaftFsm (goerr * list (nat * Input nat)) :=
  match DecodeMsgPack data mp_zero with
  | (_, Some err) => mret (Some err, [])
  | (w, None) =>
      let! v := new_opt (Value w) in
      let input := MkInput (Op w) (Key w) v in
      if decide (Op input = InputOpUndefined) then mret (None, [])
      else if decide (Op input = InputOpSet) then
        run! put (Key input) (Value input); let! f := mget in mret (None, copies f input)
      else if decide (Op input = InputOpDelete) then
        run! del (Key input); let! f := mget in mret (None, copies f input)
      else mret (Some (ErrText ("unknown input operation in Raft log entry: " +:+ pretty (Op input))), [])
  end.

(** The sends of the goroutine that synchronizes an observer. *)
Definition sync_copies (c : nat) (f : RaftFsm) : list (nat * Input nat) :=
  (fun kv => (c, MkInput InputOpSet kv.1 kv.2)) <$> range (default ∅ (state f)).

(** What brings a section to its end: a send that has room, the release of
    the lock, and a consumer that receives. *)
Inductive progress (s : BSys) : BSys -> Prop :=
  | p_send c i l n f' :
      b_pending s = Some ((c, i) :: l) -> b_sent (b_fsm s) c = Some n -> (n < b_taken s c + stateChangeBuffer)%nat ->
      send_clone c i (b_fsm s) = Ret tt f' ->
      progress s (set_sys (with_fsm f' (b_sys s)) (Some l) s)
  | p_release :
      b_pending s = Some [] -> progress s (set_sys (b_sys s) None s)
  | p_receive c n :
      b_sent (b_fsm s) c = Some n -> (b_taken s c < n)%nat -> c ∉ b_stopped s -> progress s (receive c s).

(** All steps: sections begin, and short ones run, when the lock is free;
    closing a channel, writing to a slice and no longer receiving do not take
    the lock. *)
Inductive bstep (s : BSys) : BSys -> Prop :=
  | b_progress s' : progress s s' -> bstep s s'
  | b_apply data res l f' :
      b_pending s = None -> begin_Apply data (b_fsm s) = Ret (res, l) f' ->
      bstep s (set_sys (with_fsm f' (b_sys s)) (Some l) s)
  | b_sync n c :
      b_pending s = None -> syncing (b_sys s) !! n = Some c ->
      bstep s (set_sys {| fsm := b_fsm s; syncing := delete n (syncing (b_sys s)); exported := exported (b_sys s);
                          snapshots := snapshots (b_sys s) |} (Some (sync_copies c (b_fsm s))) s)
  | b_observe c id f' :
      b_pending s = None -> chans (b_fsm s) !! c = None ->
      AddStateChangeObserver c (set_chan c {| sent := []; closed := false |} (b_fsm s)) = Ret id f' ->
      bstep s (set_sys {| fsm := f'; syncing := syncing (b_sys s) ++ [c]; exported := exported (b_sys s);
                          snapshots := snapshots (b_sys s) |} None s)
  | b_remove id f' :
      b_pending s = None -> RemoveStateChangeObserver id (b_fsm s) = Ret tt f' ->
      bstep s (set_sys (with_fsm f' (b_sys s)) None s)
  | b_state m f' :
      b_pending s = None -> State_ (b_fsm s) = Ret m f' ->
      bstep s (set_sys {| fsm := f'; syncing := syncing (b_sys s); exported := state_locs m ∪ exported (b_sys s);
                          snapshots := snapshots (b_sys s) |} None s)
  | b_snapshot m f' :
      b_pending s = None -> Snapshot (b_fsm s) = Ret m f' ->
      bstep s (set_sys {| fsm := f'; syncing := syncing (b_sys s); exported := exported (b_sys s);
                          snapshots := (m, view (b_fsm s)) :: snapshots (b_sys s) |} None s)
  | b_close c oc :
      chans (b_fsm s) !! c = Some oc -> ~ observed (b_fsm s) c ->
      bstep s (set_sys (with_fsm (set_chan c {| sent := sent oc; closed := true |} (b_fsm s)) (b_sys s)) (b_pending s) s)
  | b_write p b :
      client_loc (b_sys s) p -> bstep s (set_sys (with_fsm (set_mem p b (b_fsm s)) (b_sys s)) (b_pending s) s)
  | b_stop c :
      is_Some (chans (b_fsm s) !! c) -> bstep s (stop c s).

Definition b_init : BSys :=
  {| b_sys := {| fsm := NewRaftFsm ∅ 0 ∅; syncing := []; exported := ∅; snapshots := [] |};
     b_pending := None; b_received := ∅; b_stopped := ∅ |}.

Definition breachable : BSys -> Prop := rtc bstep b_init.

(** ** Sections against the operations *)

Lemma begin_Apply_emit data f : Apply data f = (let! r := begin_Apply data in run! emit r.2; mret r.1) f.
Proof.
  unfold Apply, begin_Apply. destruct (DecodeMsgPack data mp_zero) as [w [err|]]; [done|].
  unfold mbind, mget, mret. destruct (new_opt (Value w) f) as [v g|g|msg]; [|done..]. simpl.
  repeat case_decide; [done|..|done].
  - destruct (put _ _ g) as [[] h|h|msg]; [|done..]. by rewrite sendStateChange_emit.
  - unfold del, mbind, mget, mput. by rewrite sendStateChange_emit.
Qed.

Lemma sync_copies_emit c f : sync_observer c f = emit (sync_copies c f) f.
Proof. apply sync_emit. Qed.

Lemma emit_cons c i l f f' : send_clone c i f = Ret tt f' -> emit ((c, i) :: l) f = emit l f'.
Proof. intros E. unfold emit. simpl. unfold mbind at 1. unfold send_clone in E. simpl. by rewrite E. Qed.

Lemma emit_cons_inv c i l f f' :
  emit ((c, i) :: l) f = Ret tt f' -> exists g, send_clone c i f = Ret tt g /\ emit l g = Ret tt f'.
Proof.
  unfold emit. simpl. unfold mbind at 1. fold (send_clone c i). simpl.
  destruct (send_clone c i f) as [[] g|g|msg] eqn:E; [|done..]. eauto.
Qed.

(** A send that returned went to an open channel. *)
Lemma send_clone_open c i f f' : send_clone c i f = Ret tt f' -> open_chan f c.
Proof.
  unfold send_clone, cloneInput, open_chan. destruct (decide _).
  - unfold mbind, clone_slice, mbind, mget, new_slice, mret, send. simpl.
    destruct (chans f !! c) as [oc|]; [|done]. destruct (closed oc) eqn:E; [done|]. eauto.
  - unfold mbind, mret, send. destruct (chans f !! c) as [oc|]; [|done]. destruct (closed oc) eqn:E; [done|]. eauto.
Qed.

Lemma send_clone_sends c i f f' :
  heap_ok f -> send_clone c i f = Ret tt f' ->
  sends f f' (fun d => if decide (d = c) then [emitted (mem f) i] else []).
Proof.
  intros Hok E. destruct (emit_one c i f Hok (send_clone_open _ _ _ _ E)) as (g & Hg & Hs).
  unfold send_clone in E. congruence.
Qed.

Lemma emit_sends l f f' : heap_ok f -> emit l f = Ret tt f' -> exists new, sends f f' new.
Proof.
  revert f. induction l as [|[c i] l IH]; intros f Hok E.
  - injection E as <-. exists (fun _ => []). by apply sends_refl.
  - apply emit_cons_inv in E as (g & Eg & E). pose proof (send_clone_sends _ _ _ _ Hok Eg) as Hs.
    destruct (IH g (grows_ok _ _ (sends_grows _ _ _ Hs)) E) as [new Hs']. eexists. by eapply sends_trans.
Qed.

(** A send of a section can be made: its value is allocated and, if it is
    copied, a slice of the state. *)
Definition sendable (f : RaftFsm) (ci : nat * Input nat) : Prop :=
  live (mem f) (Value ci.2) /\
  (Op ci.2 = InputOpSet -> forall p, Value ci.2 = Some p -> exists k, default ∅ (state f) !! k = Some (Some p)).

Lemma copies_observed f i c j : (c, j) ∈ copies f i -> observed f c /\ j = i.
Proof.
  intros ([id d] & [= -> ->] & Hin)%list_elem_of_fmap. split; [|done]. exists id. by apply elem_of_range.
Qed.

Lemma begin_Apply_spec data f res l f' :
  fsm_ok f -> begin_Apply data f = Ret (res, l) f' ->
  fsm_ok f' /\ chans f' = chans f /\ grows f f' /\ new_private f f' (brk f') /\ observers f' = observers f /\
  Forall (fun ci => sendable f' ci /\ observed f' ci.1) l.
Proof.
  intros Hok. unfold begin_Apply. destruct (DecodeMsgPack data mp_zero) as [w [err|]].
  { intros [= <- <- <-]. split_and!; [done|done|by apply grows_refl, Hok|by apply new_private_same|done|done]. }
  destruct (new_opt_spec (Value w) f Hok) as (v & g & Hg & Hs & Hl & _ & Hv).
  destruct (fsm_ok_sends _ _ _ Hs Hok) as [Hokg _]. pose proof (sends_same _ _ _ Hs) as (Es & Eo & _).
  assert (chans g = chans f) as Ec.
  { unfold new_opt, mbind, new_slice, mret in Hg. by destruct (Value w); injection Hg as <- <-. }
  assert (forall m, grows f (set_state m g)) as Hgr by (intros m; destruct (sends_grows _ _ _ Hs); by split).
  unfold mbind at 1. rewrite Hg. simpl.
  assert (forall m, default ∅ m ⊆ <[Key w := v]> (default ∅ (state g)) \/ default ∅ m ⊆ default ∅ (state g) ->
    new_private f (set_state m g) (brk g)) as Hnew.
  { intros m Hm k l' Hk. simpl in Hk. rewrite <- Es.
    destruct Hm as [Hm|Hm]; eapply lookup_weaken in Hk; [|exact Hm|left; exact Hk|exact Hm].
    apply lookup_insert_Some in Hk as [[_ E]|[_ E]]; [right; auto|by left]. }
  repeat case_decide.
  - intros [= <- <- <-]. split_and!; [done|done|apply Hs|by apply new_private_same|done|done].
  - unfold mbind, mget, mret. destruct (state g) as [m|] eqn:Em; [|unfold put, mbind, mget; by rewrite Em].
    destruct (put_spec (Key w) v m g Hokg Hl Em) as (Hp & Hokh & _). rewrite Hp. intros [= <- <- <-].
    split_and!; [done|done|done|apply (Hnew (Some _)); by left|done|].
    apply Forall_forall. intros [c j] [Hc ->]%copies_observed. split; [|done]. split; [done|]. simpl.
    intros _ p ->. exists (Key w). by rewrite lookup_insert_eq.
  - unfold mbind, mget, mret. destruct (del_spec (Key w) g Hokg) as (Hp & Hokh & _). rewrite Hp.
    intros [= <- <- <-]. split_and!; [done|done|done| |done|].
    + apply Hnew. right. destruct (state g); simpl; [apply delete_subseteq|done].
    + apply Forall_forall. intros [c j] [Hc ->]%copies_observed. split; [|done]. split; [done|]. by simpl.
  - intros [= <- <- <-]. split_and!; [done|done|apply Hs|by apply new_private_same|done|done].
Qed.

Lemma sync_copies_sendable c f : fsm_ok f -> Forall (sendable f) (sync_copies c f).
Proof.
  intros Hok. apply Forall_forall. intros ci ([k v] & -> & Hin%elem_of_range)%list_elem_of_fmap.
  split; [by apply (ok_live f Hok k)|]. simpl. intros _ p ->. by exists k.
Qed.

(** *** A client's write and a close pass the sends of a section *)

Definition close_chan (c : nat) (oc : ObserverChan) (f : RaftFsm) : RaftFsm :=
  set_chan c {| sent := sent oc; closed := true |} f.

Lemma send_clone_write c i p b f g :
  (p < brk f)%nat -> (Op i = InputOpSet -> Value i <> Some p) -> send_clone c i (set_mem p b f) = Ret tt g ->
  exists f', send_clone c i f = Ret tt f' /\ g = set_mem p b f' /\ (brk f <= brk f')%nat.
Proof.
  intros Hp Hi. unfold send_clone, cloneInput. case_decide as Hop.
  - unfold mbind, clone_slice, mbind, mget, new_slice, mret, send. simpl.
    assert (read (<[p:=b]> (mem f)) (Value i) = read (mem f) (Value i)) as ->.
    { destruct (Value i) as [q|]; [|done]. unfold read. simpl. rewrite lookup_insert_ne; [done|].
      intros ->. by apply Hi. }
    destruct (chans f !! c) as [oc|]; [|done]. destruct (closed oc); [done|].
    intros [= <-]. eexists. split; [done|]. split; [|simpl; lia].
    unfold set_chan, set_mem, read. simpl. rewrite !lookup_insert_eq. f_equal. rewrite insert_insert_ne by lia. done.
  - unfold mbind, mret, send. simpl. destruct (chans f !! c) as [oc|]; [|done]. destruct (closed oc); [done|].
    intros [= <-]. eexists. split; [done|]. split; [done|simpl; lia].
Qed.

Lemma emit_write l p b f g :
  (p < brk f)%nat -> Forall (fun ci => Op ci.2 = InputOpSet -> Value ci.2 <> Some p) l ->
  emit l (set_mem p b f) = Ret tt g -> exists f', emit l f = Ret tt f' /\ g = set_mem p b f'.
Proof.
  revert f. induction l as [|[c i] l IH]; intros f Hp Hl E.
  - injection E as <-. by exists f.
  - apply Forall_cons in Hl as [Hi Hl]. apply emit_cons_inv in E as (h & Eh & E).
    apply send_clone_write in Eh as (f1 & Ef1 & -> & Hle); [|done|done].
    destruct (IH f1 ltac:(lia) Hl E) as (f' & Ef' & ->). exists f'. by rewrite (emit_cons _ _ _ _ f1).
Qed.

Lemma send_clone_close c oc d i f g :
  chans f !! c = Some oc -> send_clone d i (close_chan c oc f) = Ret tt g ->
  exists f', send_clone d i f = Ret tt f' /\ g = close_chan c oc f' /\ chans f' !! c = Some oc.
Proof.
  intros Hc E. assert (d <> c) as Hne.
  { intros ->. destruct (send_clone_open _ _ _ _ E) as (oc' & Ho & Hcl). simpl in Ho.
    rewrite lookup_insert_eq in Ho. by injection Ho as <-. }
  revert E. unfold send_clone, cloneInput, close_chan. case_decide.
  - unfold mbind, clone_slice, mbind, mget, new_slice, mret, send. simpl. rewrite lookup_insert_ne by done.
    destruct (chans f !! d) as [od|]; [|done]. destruct (closed od); [done|]. intros [= <-].
    eexists. split; [done|]. simpl. rewrite lookup_insert_ne by done. split; [|done].
    unfold set_chan. simpl. f_equal. by rewrite insert_insert_ne.
  - unfold mbind, mret, send. simpl. rewrite lookup_insert_ne by done.
    destruct (chans f !! d) as [od|]; [|done]. destruct (closed od); [done|]. intros [= <-].
    eexists. split; [done|]. simpl. rewrite lookup_insert_ne by done. split; [|done].
    unfold set_chan. simpl. f_equal. by rewrite insert_insert_ne.
Qed.

Lemma emit_close l c oc f g :
  chans f !! c = Some oc -> emit l (close_chan c oc f) = Ret tt g ->
  exists f', emit l f = Ret tt f' /\ g = close_chan c oc f' /\ chans f' !! c = Some oc.
Proof.
  revert f. induction l as [|[d i] l IH]; intros f Hc E.
  - injection E as <-. by exists f.
  - apply emit_cons_inv in E as (h & Eh & E).
    apply send_clone_close in Eh as (f1 & Ef1 & -> & Hc1); [|done].
    destruct (IH f1 Hc1 E) as (f' & Ef' & -> & Hc'). exists f'. by rewrite (emit_cons _ _ _ _ f1).
Qed.

(** ** Every section is atomic *)

Lemma client_loc_sends t f' new p :
  sends (fsm t) f' new -> client_loc (with_fsm f' t) p -> client_loc t p \/ (brk (fsm t) <= p < brk f')%nat.
Proof.
  intros Hs [Hp|(c & oc & e & Hc & He & Hv)]; [left; by left|].
  destruct (new_sent_sends _ _ _ Hs c oc e p Hc He Hv) as [(oc' & Hc' & He')|?]; [|by right].
  left. right. eauto 10.
Qed.

Lemma client_loc_kept t f' new p : sends (fsm t) f' new -> client_loc t p -> client_loc (with_fsm f' t) p.
Proof.
  intros Hs [Hp|(c & oc & e & Hc & He & Hv)]; [by left|right].
  pose proof (sends_chans _ _ _ Hs c) as Hx. unfold extends in Hx. rewrite Hc in Hx.
  destruct Hx as (es & Hc' & _). eexists c, _, e. split; [exact Hc'|]. split; [|done].
  simpl. apply elem_of_app. by left.
Qed.

Lemma b_sent_sends f f' c : sends f f' (fun _ => []) -> b_sent f' c = b_sent f c.
Proof.
  intros Hs. pose proof (sends_chans _ _ _ Hs c) as Hx. unfold extends in Hx. unfold b_sent.
  destruct (chans f !! c) as [oc|]; [|by destruct Hx as [-> _]].
  destruct Hx as (es & -> & Hnil & _). destruct es; [|done]. simpl. by rewrite app_nil_r.
Qed.

(** The machine between sections, or once the section that runs is done: a
    state of [Fsm], with or without restores. *)
Definition atomic (r : bool) (s : BSys) : Prop :=
  match b_pending s with
  | None => reachable r (b_sys s)
  | Some l => forall f', emit l (b_fsm s) = Ret tt f' -> reachable r (with_fsm f' (b_sys s))
  end.

Definition buffers_ok (f : RaftFsm) (s : BSys) : Prop := forall c,
  match b_sent f c with
  | None => b_received s !! c = None /\ c ∉ b_stopped s
  | Some n => (b_taken s c <= n <= b_taken s c + stateChangeBuffer)%nat
  end.

Record binv (r : bool) (s : BSys) : Prop := {
  bi_fsm : fsm_ok (b_fsm s);
  bi_clients : forall p, client_loc (b_sys s) p -> (p < brk (b_fsm s))%nat;
  bi_private : forall k p, default ∅ (state (b_fsm s)) !! k = Some (Some p) -> ~ client_loc (b_sys s) p;
  bi_pending : forall l, b_pending s = Some l -> Forall (sendable (b_fsm s)) l;
  bi_atomic : atomic r s;
  bi_buffers : buffers_ok (b_fsm s) s;
}.

Arguments bi_fsm {r} _ _.
Arguments bi_clients {r} _ _.
Arguments bi_private {r} _ _.
Arguments bi_pending {r} _ _.
Arguments bi_atomic {r} _ _.
Arguments bi_buffers {r} _ _.

Lemma binv_free {r} t s : reachable r t -> buffers_ok (fsm t) s -> binv r (set_sys t None s).
Proof.
  intros Hr Hb. destruct (reachable_sys_ok _ _ Hr) as [Hf Hp Hc _]. split; [done|done| |done|done|done].
  intros k p Hk. apply Hp. left. by exists k.
Qed.

(** A section begins in [f'], which differs in private slices only. *)
Lemma binv_begin {r} t f' l s :
  binv r s -> fsm_ok f' -> chans f' = chans (b_fsm s) -> (brk (b_fsm s) <= brk f')%nat ->
  new_private (b_fsm s) f' (brk f') -> Forall (sendable f') l ->
  fsm t = f' -> exported t = exported (b_sys s) ->
  (forall f2, emit l f' = Ret tt f2 -> reachable r (with_fsm f2 t)) -> binv r (set_sys t (Some l) s).
Proof.
  intros [Hf Hc Hp Hl Ha Hb] Hf' Ech Hbrk Hnew Hsend Et Eex Hat.
  assert (forall p, client_loc t p -> client_loc (b_sys s) p) as Hcl.
  { intros p. unfold client_loc. rewrite Et, Ech, Eex. done. }
  split; unfold b_fsm in *; simpl; rewrite ?Et.
  - done.
  - intros p Hcp. pose proof (Hc p (Hcl p Hcp)). lia.
  - intros k p Hk Hcp. apply Hcl in Hcp. destruct (Hnew k p Hk) as [Hold|Hge]; [by eapply Hp|].
    pose proof (Hc p Hcp). lia.
  - by intros l' [= <-].
  - unfold atomic. simpl. unfold b_fsm. simpl. rewrite Et. exact Hat.
  - intros c. specialize (Hb c). unfold b_sent in *. by rewrite Ech.
Qed.

Lemma binv_send {r} c i l n f' s :
  binv r s -> b_pending s = Some ((c, i) :: l) -> b_sent (b_fsm s) c = Some n ->
  (n < b_taken s c + stateChangeBuffer)%nat -> send_clone c i (b_fsm s) = Ret tt f' ->
  binv r (set_sys (with_fsm f' (b_sys s)) (Some l) s).
Proof.
  intros [Hf Hc Hp Hl Ha Hb] El Hn Hroom E. pose proof (send_clone_sends _ _ _ _ (ok_heap _ Hf) E) as Hs.
  destruct (fsm_ok_sends _ _ _ Hs Hf) as [Hf' _]. destruct (sends_same _ _ _ Hs) as (Es & _ & _).
  destruct (sends_grows _ _ _ Hs) as [Gm Gb _]. specialize (Hl _ El). apply Forall_cons in Hl as [_ Hl].
  split; unfold b_fsm in *; simpl.
  - done.
  - intros p Hcp. destruct (client_loc_sends _ _ _ _ Hs Hcp) as [Hold|?]; [|lia]. pose proof (Hc p Hold). lia.
  - intros k p Hk Hcp. rewrite Es in Hk. destruct (client_loc_sends _ _ _ _ Hs Hcp) as [Hold|Hge]; [by eapply Hp|].
    assert (p < brk (fsm (b_sys s)))%nat; [|lia]. apply (ok_heap _ Hf), (ok_live _ Hf k _ Hk). done.
  - intros l' [= <-]. eapply Forall_impl; [exact Hl|]. intros [d j] [Hlive Hst]. split; simpl in *.
    + by eapply live_grows.
    + intros Hop p Hv. rewrite Es. by apply Hst.
  - unfold atomic in *. rewrite El in Ha. simpl. intros f2 E2. apply Ha. by rewrite (emit_cons _ _ _ _ f').
  - intros d. specialize (Hb d). pose proof (sends_chans _ _ _ Hs d) as Hx. unfold extends in Hx.
    change (b_taken (set_sys (with_fsm f' (b_sys s)) (Some l) s) d) with (b_taken s d).
    unfold b_sent in *. destruct (chans (fsm (b_sys s)) !! d) as [od|] eqn:Ed; [|by destruct Hx as [-> _]].
    destruct Hx as (es & -> & Hes & _). simpl in *. rewrite length_app.
    apply (f_equal length) in Hes. rewrite length_fmap in Hes.
    destruct (decide (d = c)) as [->|]; simpl in Hes; [|lia]. rewrite Ed in Hn. injection Hn as <-. lia.
Qed.

Lemma binv_write {r} p b s :
  binv r s -> client_loc (b_sys s) p ->
  binv r (set_sys (with_fsm (set_mem p b (b_fsm s)) (b_sys s)) (b_pending s) s).
Proof.
  intros [[Hh Hlv Ho] Hc Hp Hl Ha Hb] Hcl.
  assert (forall v, live (mem (b_fsm s)) v -> live (<[p := b]> (mem (b_fsm s))) v) as Hlive.
  { intros v Hv q Hq. destruct (decide (q = p)) as [->|]; [rewrite lookup_insert_eq; eauto|].
    rewrite lookup_insert_ne by done. by apply Hv. }
  split; unfold b_fsm in *; simpl.
  - split; [|intros k v Hk; apply Hlive; by apply (Hlv k)|by destruct Ho; split].
    intros q [x Hq]. simpl in *. apply lookup_insert_Some in Hq as [[<- _]|[_ Hq]]; [by apply Hc|apply Hh; eauto].
  - exact Hc.
  - exact Hp.
  - intros l El. eapply Forall_impl; [by apply Hl|]. intros ci [H1' H2']. split; [by apply Hlive|exact H2'].
  - unfold atomic in *. simpl. unfold b_fsm in *. simpl. destruct (b_pending s) as [l|].
    + intros g E. apply emit_write in E as (f' & Ef' & ->); [|by apply Hc|].
      * specialize (Ha f' Ef'). destruct (emit_sends _ _ _ Hh Ef') as [new Hs].
        eapply reachable_step; [exact Ha|]. apply step_local.
        apply (step_write (with_fsm f' (b_sys s)) p b). by eapply client_loc_kept.
      * eapply Forall_impl; [by apply Hl|]. intros ci [_ Hst] Hop Hv. destruct (Hst Hop p Hv) as [k Hk]. by eapply Hp.
    + eapply reachable_step; [exact Ha|]. by apply step_local, step_write.
  - exact Hb.
Qed.

Lemma binv_close {r} c oc s :
  binv r s -> chans (b_fsm s) !! c = Some oc -> ~ observed (b_fsm s) c ->
  binv r (set_sys (with_fsm (close_chan c oc (b_fsm s)) (b_sys s)) (b_pending s) s).
Proof.
  intros [[Hh Hlv [Ho H1']] Hc Hp Hl Ha Hb] Hoc Hno.
  assert (forall p, client_loc (with_fsm (close_chan c oc (b_fsm s)) (b_sys s)) p -> client_loc (b_sys s) p) as Hcl.
  { intros p [?|(d & od & e & Hd & He & Hv)]; [by left|right]. simpl in Hd.
    apply lookup_insert_Some in Hd as [[<- <-]|[_ Hd]]; eauto 10. }
  split; unfold b_fsm in *; simpl.
  - split; [done|done|]. split; [|done]. intros d Hd. destruct (Ho d Hd) as (od & Hod & Hop). exists od. simpl.
    rewrite lookup_insert_ne; [done|]. by intros <-.
  - intros p Hcp. by apply Hc, Hcl.
  - intros k p Hk Hcp. by eapply Hp, Hcl.
  - exact Hl.
  - unfold atomic in *. simpl. unfold b_fsm in *. simpl. destruct (b_pending s) as [l|].
    + intros g E. apply emit_close in E as (f' & Ef' & -> & Hc'); [|done].
      specialize (Ha f' Ef'). destruct (emit_sends _ _ _ Hh Ef') as [new Hs].
      eapply reachable_step; [exact Ha|]. apply step_local.
      apply (step_close (with_fsm f' (b_sys s)) c oc); [done|].
      unfold observed in *. simpl. by destruct (sends_same _ _ _ Hs) as (_ & -> & _).
    + eapply reachable_step; [exact Ha|]. by apply step_local, (step_close (b_sys s) c oc).
  - intros d. specialize (Hb d). unfold b_sent, b_taken in *. simpl.
    destruct (decide (d = c)) as [->|]; [rewrite lookup_insert_eq; by rewrite Hoc in Hb|by rewrite lookup_insert_ne].
Qed.

Lemma buffers_same f f' s : buffers_ok f s -> (forall c, b_sent f' c = b_sent f c) -> buffers_ok f' s.
Proof. intros Hb E c. rewrite E. apply Hb. Qed.

Lemma buffers_observe f c n s :
  buffers_ok f s -> chans f !! c = None ->
  buffers_ok (set_observers (<[n := c]> (observers f)) n (set_chan c {| sent := []; closed := false |} f)) s.
Proof.
  intros Hb Hc d. specialize (Hb d). unfold b_sent in *. simpl. destruct (decide (d = c)) as [->|].
  - rewrite Hc in Hb. destruct Hb as [Hr _]. rewrite lookup_insert_eq. simpl. unfold b_taken. rewrite Hr. simpl. lia.
  - by rewrite lookup_insert_ne.
Qed.

Lemma cloneState_same f m f' : fsm_ok f -> cloneState f = Ret m f' -> forall c, b_sent f' c = b_sent f c.
Proof.
  intros Hf E c. destruct (cloneState_spec f Hf) as (m2 & f2 & E2 & Hs & _).
  assert (f2 = f') as <- by congruence. by apply b_sent_sends.
Qed.

Lemma binv_progress {r} s s' : binv r s -> progress s s' -> binv r s'.
Proof.
  intros Hi Hp. destruct Hp as [c i l n f' El Hn Hroom E|El|c n Hn Hlt Hst].
  - by eapply binv_send.
  - destruct Hi as [Hf Hc Hp Hl Ha Hb]. apply binv_free; [|exact Hb]. unfold atomic in Ha. rewrite El in Ha.
    specialize (Ha _ eq_refl). unfold b_fsm in Ha. by destruct (b_sys s).
  - destruct Hi as [Hf Hc Hp Hl Ha Hb]. split; try done. intros d. specialize (Hb d). change (b_fsm (receive c s)) with (b_fsm s).
    destruct (decide (d = c)) as [->|Hne].
    + rewrite Hn in *. unfold b_taken at 1 2. simpl. rewrite lookup_insert_eq. simpl. lia.
    + unfold b_taken in *. simpl. by rewrite lookup_insert_ne.
Qed.

Lemma binv_step {r} s s' : binv r s -> bstep s s' -> binv r s'.
Proof.
  intros Hi Hstep. destruct Hstep as [s' Hp|data res l f' El E|n c El Hn|c id f' El Hc E|id f' El E|m f' El E|m f' El E|c oc Hc Hno|p b Hp|c Hc].
  1: by eapply binv_progress.
  all: try (pose proof (bi_atomic _ Hi) as Ha; unfold atomic in Ha; rewrite El in Ha).
  - destruct (begin_Apply_spec _ _ _ _ _ (bi_fsm _ Hi) E) as (Hf' & Ec & [_ Hb _] & Hn & _ & Hl).
    eapply binv_begin; try done; [eapply Forall_impl; [exact Hl|]; by intros ? []|].
    intros f2 E2. eapply reachable_step; [exact Ha|]. apply (step_apply r (b_sys s) data res).
    rewrite begin_Apply_emit. fold (b_fsm s). unfold mbind, mret. rewrite E. simpl. by rewrite E2.
  - eapply (binv_begin _ (b_fsm s)); try done; [apply Hi|by apply new_private_same|apply sync_copies_sendable, Hi|].
    intros f2 E2. eapply reachable_step; [exact Ha|]. apply step_local. apply (step_sync (b_sys s) n c f2 Hn).
    fold (b_fsm s). by rewrite sync_copies_emit.
  - apply binv_free; [eapply reachable_step; [exact Ha|]; by eapply step_local, step_observe|].
    injection E as _ <-. apply buffers_observe; [apply Hi|done].
  - apply binv_free; [eapply reachable_step; [exact Ha|]; by eapply step_local, step_remove|].
    injection E as <-. apply Hi.
  - apply binv_free; [eapply reachable_step; [exact Ha|]; by eapply step_local, step_state|].
    eapply buffers_same; [apply Hi|]. eapply cloneState_same; [apply Hi|exact E].
  - apply binv_free; [eapply reachable_step; [exact Ha|]; by eapply step_snapshot|].
    eapply buffers_same; [apply Hi|]. eapply cloneState_same; [apply Hi|exact E].
  - by apply binv_close.
  - by apply binv_write.
  - destruct Hi as [Hf Hcl Hp Hl Ha Hb]. split; try done. intros d. specialize (Hb d).
    change (b_fsm (stop c s)) with (b_fsm s). destruct (b_sent (b_fsm s) d) as [n|] eqn:Ed; [done|].
    destruct Hb as [Hr Hs]. split; [done|]. simpl. apply not_elem_of_union. split; [|done].
    intros ->%elem_of_singleton. unfold b_sent in Ed. destruct Hc as [oc Hc]. by rewrite Hc in Ed.
Qed.

Lemma breachable_inv s : breachable s -> binv false s.
Proof.
  revert s. apply (rtc_ind_r (fun s => binv false s) b_init).
  - apply (binv_free (b_sys b_init) b_init); [apply reachable_init|]. intros c. split; [done|apply not_elem_of_empty].
  - intros s s' _ Hs Hi. by eapply binv_step.
Qed.

(** C14: although a state change is sent under the machine's lock, which is
    held while a full buffer is waited for, and in the meantime consumers
    receive, clients write to the slices they hold and channels of ended
    observations are closed, the machine behaves as if each entry were
    applied, and each observer synchronized, in one step: whenever the lock
    is free the machine is in a state it reaches by such steps, and while it
    is held, in the one the section will leave if it goes on alone.  No
    buffer ever holds more than 256 inputs. *)
Theorem sections_are_atomic (s : BSys) :
  breachable s ->
  match b_pending s with
  | None => reachable false (b_sys s)
  | Some l => forall f', emit l (b_fsm s) = Ret tt f' -> reachable false (with_fsm f' (b_sys s))
  end /\
  forall c oc, chans (b_fsm s) !! c = Some oc ->
    (b_taken s c <= length (sent oc) <= b_taken s c + stateChangeBuffer)%nat.
Proof.
  intros [_ _ _ _ Ha Hb]%breachable_inv. split; [exact Ha|].
  intros c oc Hc. specialize (Hb c). unfold b_sent in Hb. by rewrite Hc in Hb.
Qed.

(** ** Consumers that keep receiving *)

(** What progress keeps. *)
Record undisturbed (s s' : BSys) : Prop := {
  un_fields : same_fields (b_fsm s) (b_fsm s');
  un_view : view (b_fsm s') = view (b_fsm s);
  un_syncing : syncing (b_sys s') = syncing (b_sys s);
  un_stopped : b_stopped s' = b_stopped s;
}.

Lemma undisturbed_trans s1 s2 s3 : undisturbed s1 s2 -> undisturbed s2 s3 -> undisturbed s1 s3.
Proof.
  intros [(?&?&?) ? ? ?] [(?&?&?) ? ? ?]. split; [unfold same_fields; split_and!|..]; congruence.
Qed.

Lemma progress_undisturbed {r} s s' : binv r s -> progress s s' -> undisturbed s s'.
Proof.
  intros Hi Hp. destruct Hp as [c i l n f' El Hn Hroom E|El|c n Hn Hlt Hst]; [|by split..].
  pose proof (send_clone_sends _ _ _ _ (ok_heap _ (bi_fsm _ Hi)) E) as Hs.
  split; [apply Hs| |done|done]. by apply (fsm_ok_sends _ _ _ Hs (bi_fsm _ Hi)).
Qed.

Lemma rtc_progress {r} s s' : binv r s -> rtc progress s s' -> binv r s' /\ undisturbed s s'.
Proof.
  intros Hi Hr. induction Hr as [s|s s1 s' Hp _ IH]; [by split; [|split]|].
  destruct (IH (binv_progress _ _ Hi Hp)) as [Hi' Hu]. split; [done|].
  eapply undisturbed_trans; [by eapply progress_undisturbed|done].
Qed.

(** A consumer receives all that was sent to it. *)
Lemma drain_channel s c n :
  b_sent (b_fsm s) c = Some n -> (b_taken s c <= n)%nat -> c ∉ b_stopped s ->
  exists s', rtc progress s s' /\ b_sys s' = b_sys s /\ b_pending s' = b_pending s /\ b_taken s' c = n.
Proof.
  intros Hn Hle Hst. remember (n - b_taken s c)%nat as k eqn:Ek. revert s Hn Hle Hst Ek.
  induction k as [|k IH]; intros s Hn Hle Hst Ek; [exists s; split_and!; [done..|lia]|].
  assert (b_taken (receive c s) c = S (b_taken s c)) as Et by (unfold b_taken; simpl; by rewrite lookup_insert_eq).
  destruct (IH (receive c s)) as (s' & Hr & Hs & Hp & Ht); [done|lia|done|lia|].
  exists s'. split_and!; [|done..]. eapply rtc_l; [|exact Hr]. eapply p_receive; [exact Hn|lia|done].
Qed.

(** A section ends if the consumers it sends to receive. *)
Lemma section_ends {r} l s :
  binv r s -> b_pending s = Some l ->
  (forall c i, (c, i) ∈ l -> observed (b_fsm s) c /\ c ∉ b_stopped s) ->
  exists s', rtc progress s s' /\ b_pending s' = None.
Proof.
  revert s. induction l as [|[c i] l IH]; intros s Hi El Hl.
  { exists (set_sys (b_sys s) None s). split; [|done]. by eapply rtc_once, p_release. }
  destruct (Hl c i) as [Hobs Hst]; [left|].
  pose proof (obs_open _ (ok_observers _ (bi_fsm _ Hi)) c Hobs) as Hopen.
  destruct (b_sent (b_fsm s) c) as [n|] eqn:En; [|destruct Hopen as (oc & Hoc & _); unfold b_sent in En; by rewrite Hoc in En].
  pose proof (bi_buffers _ Hi c) as Hb. rewrite En in Hb.
  destruct (drain_channel s c n En) as (s1 & Hr1 & Hsys & Hpend & Ht); [lia|done|].
  destruct (rtc_progress _ _ Hi Hr1) as [Hi1 Hu1].
  assert (b_fsm s1 = b_fsm s) as Ef by (unfold b_fsm; by rewrite Hsys).
  destruct (emit_one c i (b_fsm s)) as (f' & E & _); [apply Hi|done|].
  assert (progress s1 (set_sys (with_fsm f' (b_sys s1)) (Some l) s1)) as Hsend.
  { eapply (p_send s1 c i l n); [congruence|by rewrite Ef|unfold stateChangeBuffer; lia|by rewrite Ef]. }
  destruct (rtc_progress s1 _ Hi1 (rtc_once _ _ Hsend)) as [Hi2 Hu2].
  destruct (IH _ Hi2 eq_refl) as (s' & Hr' & Hp').
  - intros d j Hin. destruct (Hl d j) as [Hd Hds]; [by right|].
    destruct (undisturbed_trans _ _ _ Hu1 Hu2) as [(_ & Eo & _) _ _ Es]. rewrite Es. split; [|done].
    unfold observed in *. by rewrite Eo.
  - exists s'. split; [|done]. etrans; [exact Hr1|]. eapply rtc_l; [exact Hsend|exact Hr'].
Qed.

(** C15: as long as the consumers a section still sends to receive from their
    channels, the section comes to its end, however full the buffers are; and
    then each synchronized observer that receives gets to have received
    inputs that rebuild the replicated state as it is. *)
Theorem consumers_keep_up (s : BSys) (c : nat) :
  breachable s ->
  (forall l d i, b_pending s = Some l -> (d, i) ∈ l -> observed (b_fsm s) d /\ d ∉ b_stopped s) ->
  observed (b_fsm s) c -> c ∉ syncing (b_sys s) -> c ∉ b_stopped s ->
  exists s', rtc progress s s' /\ b_pending s' = None /\
    view (b_fsm s') = view (b_fsm s) /\ replay (received_inputs s' c) = view (b_fsm s).
Proof.
  intros Hi%breachable_inv Hl Hobs Hsy Hst.
  assert (exists s1, rtc progress s s1 /\ b_pending s1 = None) as (s1 & Hr1 & Hp1).
  { destruct (b_pending s) as [l|] eqn:El; [|by exists s]. apply (section_ends (r := false) l); [done|done|]. intros d i. by apply Hl. }
  destruct (rtc_progress _ _ Hi Hr1) as [Hi1 [(_ & Eo & _) Ev Esy Es]].
  assert (observed (b_fsm s1) c) as Hobs1 by (unfold observed in *; by rewrite Eo).
  destruct (obs_open _ (ok_observers _ (bi_fsm _ Hi1)) c Hobs1) as (oc & Hoc & _).
  pose proof (bi_buffers _ Hi1 c) as Hb. pose proof (bi_atomic _ Hi1) as Ha. unfold atomic in Ha. rewrite Hp1 in Ha.
  assert (b_sent (b_fsm s1) c = Some (length (sent oc))) as En by (unfold b_sent; by rewrite Hoc).
  rewrite En in Hb. destruct (drain_channel s1 c _ En) as (s2 & Hr2 & Hsys & Hp2 & Ht); [lia|by rewrite Es|].
  exists s2. assert (b_fsm s2 = b_fsm s1) as Ef by (unfold b_fsm; by rewrite Hsys).
  split_and!; [by etrans|congruence|by rewrite Ef|].
  unfold received_inputs. rewrite Ef, Ht, <- Ev. destruct (observer_replays (b_sys s1) c Ha Hobs1) as [Hre _].
  change (view (b_fsm s1)) with (view (fsm (b_sys s1))). rewrite <- Hre by (by rewrite Esy).
  unfold history, b_fsm in *. by rewrite Hoc, <- (length_fmap sent_input), firstn_all.
Qed.

(** ** Entries applied one after the other

    The Raft library hands over the next entry when the last one is applied;
    meanwhile the section that runs goes on, and consumers receive. *)
Inductive turn : list slice * BSys -> list slice * BSys -> Prop :=
  | turn_apply e es s res l f' :
      b_pending s = None -> begin_Apply e (b_fsm s) = Ret (res, l) f' ->
      turn (e :: es, s) (es, set_sys (with_fsm f' (b_sys s)) (Some l) s)
  | turn_progress es s s' : progress s s' -> turn (es, s) (es, s').

(** A machine whose observers' consumers all go on receiving. *)
Record served (r : bool) (s : BSys) : Prop := {
  sv_inv : binv r s;
  sv_state : state (b_fsm s) <> None;
  sv_pending : forall l, b_pending s = Some l -> Forall (fun ci => observed (b_fsm s) ci.1) l;
  sv_receive : forall c, observed (b_fsm s) c -> c ∉ b_stopped s;
}.

(** What an entry makes of the pairs; one that does not decode nothing. *)
Definition entry_effect (v : gmap string bytes) (e : slice) : gmap string bytes :=
  match DecodeMsgPack e mp_zero with
  | (w, None) => replay1 v w
  | (_, Some _) => v
  end.

(** An entry is applied, whatever it holds. *)
Lemma Apply_entry e f :
  fsm_ok f -> state f <> None ->
  exists res f', Apply e f = Ret res f' /\ state f' <> None /\ view f' = entry_effect (view f) e.
Proof.
  intros Hf Hst. unfold entry_effect. destruct (DecodeMsgPack e mp_zero) as [w [err|]] eqn:Hd.
  - exists (Some err), f. unfold Apply. by rewrite Hd.
  - destruct (Apply_applied e f w Hf (or_introl Hst) Hd) as (f' & HA & Ha).
    exists (apply_result w), f'. split_and!; [done|by apply Ha|apply Ha].
Qed.

(** Its section begins, with the effect on the pairs. *)
Lemma begin_entry e f :
  fsm_ok f -> state f <> None ->
  exists res l f', begin_Apply e f = Ret (res, l) f' /\ state f' <> None /\ view f' = entry_effect (view f) e.
Proof.
  intros Hf Hst. destruct (Apply_entry e f Hf Hst) as (res & f2 & HA & Hst2 & Hv2).
  rewrite begin_Apply_emit in HA. unfold mbind, mret in HA.
  destruct (begin_Apply e f) as [[res' l] f'|f'|msg] eqn:E; [|done..]. exists res', l, f'. split; [done|].
  destruct (begin_Apply_spec _ _ _ _ _ Hf E) as (Hf' & _).
  simpl in HA. destruct (emit l f') as [[] g|g|msg] eqn:Em; [|done..]. injection HA as _ <-.
  destruct (emit_sends _ _ _ (ok_heap _ Hf') Em) as [new Hs]. destruct (sends_same _ _ _ Hs) as (Es & _).
  split; [by rewrite <- Es|]. by rewrite <- (proj2 (fsm_ok_sends _ _ _ Hs Hf')).
Qed.

Lemma turn_served {r} es s es' s' : served r s -> turn (es, s) (es', s') -> served r s'.
Proof.
  intros [Hi Hst Hp Hr] Ht. inversion Ht as [e ? ? res l f' El E|? ? ? Hpr]; subst.
  - pose proof (begin_Apply_spec _ _ _ _ _ (bi_fsm _ Hi) E) as (_ & _ & _ & _ & Eo & Hl).
    split; [by eapply binv_step, b_apply| | |].
    + destruct (begin_entry e _ (bi_fsm _ Hi) Hst) as (res' & l' & f2 & E' & Hst' & _).
      assert (f2 = f') as -> by congruence. exact Hst'.
    + intros l' [= <-]. eapply Forall_impl; [exact Hl|]. by intros ? [_ ?].
    + intros c [id Hc]. apply Hr. exists id. rewrite <- Eo. exact Hc.
  - destruct (progress_undisturbed _ _ Hi Hpr) as [(Es & Eo & _) _ _ Est].
    split; [by eapply binv_progress|by rewrite Es| |].
    + intros l El. assert (exists l0, b_pending s = Some l0 /\ forall ci, ci ∈ l -> ci ∈ l0) as (l0 & El0 & Hsub).
      { destruct Hpr as [c i l1 n f' El1 _ _ _|El1|c n _ _ _]; simpl in El; [|done|by exists l].
        injection El as <-. eexists. split; [exact El1|]. intros. by right. }
      apply Forall_forall. intros ci Hci. unfold observed. rewrite Eo.
      exact (proj1 (Forall_forall _ _) (Hp _ El0) _ (Hsub _ Hci)).
    + intros c Hc. rewrite Est. apply Hr. unfold observed in *. by rewrite Eo in Hc.
Qed.

(** *** The turns end *)

(** What a section has left to do: its sends with a receive each, its
    release, and a receive for every input in a buffer. *)
Definition waiting_in (s : BSys) (c : nat) : nat := (default 0 (b_sent (b_fsm s) c) - b_taken s c)%nat.
Definition section_work (s : BSys) : nat :=
  (match b_pending s with None => 0 | Some l => S (2 * length l) end +
   sum_list_with (waiting_in s) (elements (dom (chans (b_fsm s)))))%nat.

Lemma sum_one_changed {A} `{EqDecision A} (l : list A) (f g : A -> nat) x :
  NoDup l -> x ∈ l -> (forall y, y <> x -> f y = g y) ->
  (sum_list_with f l + g x = sum_list_with g l + f x)%nat.
Proof.
  intros Hnd Hx Hfg. revert Hnd Hx. induction l as [|y l IH]; [by intros _ ?%not_elem_of_nil|].
  intros [Hy Hnd]%NoDup_cons Hx. simpl. destruct (decide (y = x)) as [->|Hne].
  - assert (sum_list_with f l = sum_list_with g l) as ->; [|lia].
    clear -Hy Hfg. induction l as [|z l IH]; [done|]. apply not_elem_of_cons in Hy as [Hz Hy]. simpl.
    rewrite IH by done. rewrite (Hfg z) by congruence. done.
  - apply elem_of_cons in Hx as [?|Hx]; [done|]. specialize (IH Hnd Hx). rewrite (Hfg y) by done. lia.
Qed.

Lemma sent_dom f c n : b_sent f c = Some n -> c ∈ elements (dom (chans f)).
Proof.
  unfold b_sent. intros E. apply elem_of_elements, elem_of_dom. destruct (chans f !! c); [by eexists|done].
Qed.

Lemma progress_works {r} s s' : binv r s -> progress s s' -> (section_work s' < section_work s)%nat.
Proof.
  intros Hi Hp. destruct Hp as [c i l n f' El Hn Hroom E|El|c n Hn Hlt Hst]; unfold section_work.
  - pose proof (send_clone_sends _ _ _ _ (ok_heap _ (bi_fsm _ Hi)) E) as Hs.
    pose proof (bi_buffers _ Hi c) as Hb. rewrite Hn in Hb.
    assert (forall d, chans f' !! d = None <-> chans (b_fsm s) !! d = None) as Hnone.
    { intros d. pose proof (sends_chans _ _ _ Hs d) as Hx. unfold extends in Hx.
      destruct (chans (b_fsm s) !! d); [destruct Hx as (es & -> & _)|destruct Hx as [-> _]]; done. }
    assert (dom (chans f') = dom (chans (b_fsm s))) as Ed.
    { apply set_eq. intros d. rewrite !elem_of_dom, <- !not_eq_None_Some. by rewrite Hnone. }
    assert (forall d, default 0%nat (b_sent f' d) = (default 0%nat (b_sent (b_fsm s) d) + if decide (d = c) then 1 else 0)%nat) as Hsent.
    { intros d. pose proof (sends_chans _ _ _ Hs d) as Hx. unfold extends, b_sent in *.
      destruct (chans (b_fsm s) !! d) as [oc|] eqn:Eoc.
      - destruct Hx as (es & -> & Hes & _). simpl. rewrite length_app. apply (f_equal length) in Hes.
        rewrite length_fmap in Hes. rewrite Hes. by destruct (decide (d = c)).
      - destruct Hx as [-> _]. simpl. destruct (decide (d = c)) as [->|]; [by rewrite Eoc in Hn|done]. }
    set (s' := set_sys (with_fsm f' (b_sys s)) (Some l) s).
    pose proof (sum_one_changed (elements (dom (chans (b_fsm s)))) (waiting_in s') (waiting_in s) c (NoDup_elements _)
      (sent_dom _ _ _ Hn)) as Hsum.
    assert (forall d, waiting_in s' d = (default 0 (b_sent (b_fsm s) d) + (if decide (d = c) then 1 else 0) - b_taken s d)%nat) as Hw.
    { intros d. unfold waiting_in, b_fsm. simpl. by rewrite Hsent. }
    rewrite El. change (b_fsm s') with f'. rewrite Ed. change (b_pending s') with (Some l). simpl.
    assert (waiting_in s c = n - b_taken s c)%nat as Hc by (unfold waiting_in; by rewrite Hn).
    rewrite Hw, decide_True, Hc, Hn in Hsum by done. simpl in Hsum.
    enough (forall y, y <> c -> waiting_in s' y = waiting_in s y) as Hy by (specialize (Hsum Hy); lia).
    intros y Hy. rewrite Hw, decide_False by done. unfold waiting_in. lia.
  - rewrite El. exact (Nat.lt_succ_diag_r _).
  - pose proof (sum_one_changed (elements (dom (chans (b_fsm s)))) (waiting_in (receive c s)) (waiting_in s) c (NoDup_elements _)
      (sent_dom _ _ _ Hn)) as Hsum.
    change (b_fsm (receive c s)) with (b_fsm s). change (b_pending (receive c s)) with (b_pending s).
    enough (forall y, y <> c -> waiting_in (receive c s) y = waiting_in s y) as Hy.
    { specialize (Hsum Hy).
      assert (waiting_in s c = n - b_taken s c)%nat as Hc by (unfold waiting_in; by rewrite Hn).
      assert (waiting_in (receive c s) c = n - S (b_taken s c))%nat as Hc'.
      { unfold waiting_in. change (b_fsm (receive c s)) with (b_fsm s). rewrite Hn.
        assert (b_taken (receive c s) c = S (b_taken s c)) as -> by (unfold b_taken; simpl; by rewrite lookup_insert_eq). done. }
      rewrite Hc, Hc' in Hsum. lia. }
    intros y Hy. unfold waiting_in, b_taken. simpl. by rewrite lookup_insert_ne.
Qed.

Lemma turns_end {r} es s : served r s -> sn turn (es, s).
Proof.
  revert s. induction es as [|e es IH]; intros s; remember (section_work s) as m eqn:Em; revert s Em;
    induction m as [m IHm] using lt_wf_ind; intros s -> Hs; constructor; intros [es' s'] Ht;
    pose proof (turn_served _ _ _ _ Hs Ht) as Hs'; inversion Ht; subst;
    try (eapply IHm; [by eapply progress_works; [apply Hs|]|done|done]).
  by apply IH.
Qed.

(** No turn is left only when all entries are applied. *)
Lemma no_turn_left {r} es s : served r s -> (forall x, ~ turn (es, s) x) -> es = [] /\ b_pending s = None.
Proof.
  intros [Hi Hst Hp Hr] Hno. destruct (b_pending s) as [[|[c i] l]|] eqn:El.
  - exfalso. eapply Hno, turn_progress. by apply p_release.
  - exfalso. assert (observed (b_fsm s) c) as Hobs.
    { specialize (Hp _ eq_refl). by apply Forall_cons in Hp as [? _]. }
    pose proof (obs_open _ (ok_observers _ (bi_fsm _ Hi)) c Hobs) as Hopen.
    destruct (b_sent (b_fsm s) c) as [n|] eqn:En; [|destruct Hopen as (oc & Hoc & _); unfold b_sent in En; by rewrite Hoc in En].
    destruct (decide (n < b_taken s c + stateChangeBuffer)%nat) as [Hroom|Hfull].
    + destruct (emit_one c i (b_fsm s)) as (f' & E & _); [apply Hi|done|].
      eapply Hno, turn_progress. by eapply p_send.
    + eapply Hno, turn_progress, (p_receive s c n); [done|unfold stateChangeBuffer in Hfull; lia|by apply Hr].
  - split; [|done]. destruct es as [|e es]; [done|]. exfalso.
    destruct (begin_entry e _ (bi_fsm _ Hi) Hst) as (res & l & f' & E & _).
    by eapply Hno, turn_apply.
Qed.

(** The entries that are left determine the pairs there will be. *)
Lemma turn_effect {r} es s es' s' : served r s -> turn (es, s) (es', s') ->
  foldl entry_effect (view (b_fsm s')) es' = foldl entry_effect (view (b_fsm s)) es.
Proof.
  intros [Hi Hst _ _] Ht. inversion Ht as [e ? ? res l f' El E|? ? ? Hpr]; subst.
  - destruct (begin_entry e _ (bi_fsm _ Hi) Hst) as (res' & l' & f2 & E' & _ & Hv).
    assert (f2 = f') as -> by congruence. unfold b_fsm in *. simpl. by rewrite Hv.
  - by rewrite (un_view _ _ (progress_undisturbed _ _ Hi Hpr)).
Qed.

Lemma turns_effect {r} es s es' s' : served r s -> rtc turn (es, s) (es', s') ->
  served r s' /\ foldl entry_effect (view (b_fsm s')) es' = foldl entry_effect (view (b_fsm s)) es.
Proof.
  intros Hs Hr. remember (es, s) as x eqn:Ex. remember (es', s') as y eqn:Ey. revert es s Ex Hs.
  induction Hr as [x|x [es1 s1] y Ht _ IH]; intros es s -> Hs; [by simplify_eq|].
  destruct (IH Ey es1 s1 eq_refl) as [Hs' Hf]; [by eapply turn_served|]. split; [done|]. rewrite Hf. by eapply turn_effect.
Qed.

(** ** Consumers that stop *)

(** The section waits for room in a buffer nobody reads from any more. *)
Definition frozen (c : nat) (s : BSys) : Prop :=
  exists i l n, b_pending s = Some ((c, i) :: l) /\ c ∈ b_stopped s /\
    b_sent (b_fsm s) c = Some n /\ (b_taken s c + stateChangeBuffer <= n)%nat.

Definition frozenb (c : nat) (s : BSys) : bool :=
  match b_pending s, b_sent (b_fsm s) c with
  | Some ((d, _) :: _), Some n =>
      Nat.eqb d c && bool_decide (c ∈ b_stopped s) && Nat.leb (b_taken s c + stateChangeBuffer) n
  | _, _ => false
  end.

Lemma frozenb_frozen c s : frozenb c s = true -> frozen c s.
Proof.
  unfold frozenb, frozen. destruct (b_pending s) as [[|[d i] l]|]; [done| |done].
  destruct (b_sent (b_fsm s) c) as [n|]; [|done].
  intros [[->%Nat.eqb_eq Hc%bool_decide_eq_true]%andb_prop Hn%Nat.leb_le]%andb_prop. eauto 10.
Qed.

Lemma frozen_step c s s' : frozen c s -> bstep s s' -> frozen c s' /\ b_pending s' = b_pending s.
Proof.
  intros (i & l & n & El & Hst & Hn & Hfull) Hstep.
  destruct Hstep as [s' [d j l' m f' El' Hm Hroom E|El'|d m Hm Hlt Hd]|data res l' f' El'|k d El'|d id f' El'|id f' El'|m f' El'|m f' El'
                    |d oc Hd|p b Hp|d Hd]; try congruence.
  - rewrite El in El'. injection El' as <- <- <-. rewrite Hn in Hm. injection Hm as <-. lia.
  - assert (d <> c) as Hne by (by intros ->). split; [|done]. exists i, l, n. split_and!; [done..|].
    unfold b_taken in *. simpl. by rewrite lookup_insert_ne.
  - split; [|done]. exists i, l, n. split_and!; [done|done| |done]. unfold b_sent, b_fsm in *. simpl.
    destruct (decide (d = c)) as [->|]; [by rewrite lookup_insert_eq; rewrite Hd in Hn|by rewrite lookup_insert_ne].
  - split; [|done]. by exists i, l, n.
  - split; [|done]. exists i, l, n. split_and!; [done|by apply union_subseteq_r|done..].
Qed.

Lemma frozen_forever c s s' : frozen c s -> rtc bstep s s' -> frozen c s' /\ b_pending s' = b_pending s.
Proof.
  intros Hf Hr. induction Hr as [s|s s1 s' Hs _ IH]; [done|].
  destruct (frozen_step _ _ _ Hf Hs) as [Hf1 <-]. by apply IH.
Qed.

(** *** Running entries to their end *)

Definition begin1 (data : slice) (s : BSys) : option BSys :=
  match b_pending s, begin_Apply data (b_fsm s) with
  | None, Ret (_, l) f' => Some (set_sys (with_fsm f' (b_sys s)) (Some l) s)
  | _, _ => None
  end.

Definition send1 (s : BSys) : option BSys :=
  match b_pending s with
  | Some ((c, i) :: l) =>
      match b_sent (b_fsm s) c, send_clone c i (b_fsm s) with
      | Some n, Ret _ f' =>
          if Nat.ltb n (b_taken s c + stateChangeBuffer) then Some (set_sys (with_fsm f' (b_sys s)) (Some l) s) else None
      | _, _ => None
      end
  | _ => None
  end.

Definition release1 (s : BSys) : option BSys :=
  match b_pending s with
  | Some [] => Some (set_sys (b_sys s) None s)
  | _ => None
  end.

Definition entry1 (data : slice) (s : BSys) : option BSys :=
  option_bind _ _ release1 (option_bind _ _ send1 (begin1 data s)).

Fixpoint entries (n : nat) (data : slice) (s : BSys) : option BSys :=
  match n with
  | O => Some s
  | S n => option_bind _ _ (entries n data) (entry1 data s)
  end.

Lemma begin1_step data s s' : begin1 data s = Some s' -> bstep s s'.
Proof.
  unfold begin1. destruct (b_pending s) eqn:El; [done|].
  destruct (begin_Apply data (b_fsm s)) as [[res l] f'|f'|msg] eqn:E; [|done..]. intros [= <-]. by eapply b_apply.
Qed.

Lemma send1_step s s' : send1 s = Some s' -> bstep s s'.
Proof.
  unfold send1. destruct (b_pending s) as [[|[c i] l]|] eqn:El; [done| |done].
  destruct (b_sent (b_fsm s) c) as [n|] eqn:En; [|done].
  destruct (send_clone c i (b_fsm s)) as [[] f'|f'|msg] eqn:E; [|done..].
  destruct (Nat.ltb_spec n (b_taken s c + stateChangeBuffer)); [|done]. intros [= <-]. by eapply b_progress, p_send.
Qed.

Lemma release1_step s s' : release1 s = Some s' -> bstep s s'.
Proof.
  unfold release1. destruct (b_pending s) as [[|]|] eqn:El; [|done..]. intros [= <-]. by apply b_progress, p_release.
Qed.

Lemma entries_steps n data s s' : entries n data s = Some s' -> rtc bstep s s'.
Proof.
  revert s. induction n as [|n IH]; intros s; [by intros [= <-]|]. simpl. unfold entry1.
  intros (s3 & (s2 & (s1 & E1 & E2)%bind_Some & E3)%bind_Some & E4)%bind_Some.
  eapply rtc_l; [by eapply begin1_step|]. eapply rtc_l; [by eapply send1_step|].
  eapply rtc_l; [by eapply release1_step|]. by apply IH.
Qed.
End Observation.

(** ** Concrete runs: one observer, and entries nobody receives *)

Module Run.
Export Fsm.Run.
#[export] Existing Instance BitCodec.input_codec.
#[export] Existing Instance BitCodec.snapshot_codec.

Definition observing : BSys := set_sys Fsm.Run.s1 None b_init.
Definition synchronized : BSys :=
  set_sys {| fsm := Fsm.Run.f1; syncing := []; exported := ∅; snapshots := [] |} None b_init.

Definition get (o : option BSys) : BSys := default b_init o.
(** The buffer of channel 5 is full. *)
Definition full : BSys := get (entries stateChangeBuffer set_ab synchronized).
(** The next entry is applied. *)
Definition waiting : BSys := get (begin1 set_ab full).
Definition abandoned : BSys := get (begin1 set_ab (stop 5 full)).

Lemma reaches_synchronized : breachable synchronized.
Proof.
  eapply rtc_l; [by apply (b_observe b_init 5 1 Fsm.Run.f1)|].
  eapply rtc_l; [by apply (b_sync observing 0 5)|]. apply rtc_once, b_progress, p_release. by_vm.
Qed.

Lemma get_some o s : (if o is Some _ then true else false) = true -> s = get o -> o = Some s.
Proof. destruct o; [by intros _ ->|done]. Qed.

Lemma reaches_full : breachable full.
Proof.
  unfold breachable. etrans; [apply reaches_synchronized|]. eapply (entries_steps stateChangeBuffer set_ab).
  apply get_some; [by_vm|done].
Qed.

Lemma reaches_waiting : breachable waiting.
Proof.
  eapply rtc_r; [apply reaches_full|]. apply (begin1_step set_ab), get_some; [by_vm|done].
Qed.

Lemma reaches_abandoned : breachable abandoned.
Proof.
  eapply rtc_r; [eapply rtc_r; [apply reaches_full|apply (b_stop full 5)]|].
  - assert ((if chans (b_fsm full) !! 5%nat is Some _ then true else false) = true) as E by by_vm.
    destruct (chans (b_fsm full) !! 5%nat); [by eexists|done].
  - apply (begin1_step set_ab), get_some; [by_vm|done].
Qed.
End Run.
Import Run.

(** An observer whose consumer stops receiving while its buffer is full, as
    the handler [ObserveStateChange] of the gRPC server does when the client
    of a slow stream is gone, freezes the node: the next entry's section
    never ends, whatever happens, so that no entry is applied any more, no
    observer removed (not even this one) and no state read. *)
Theorem abandoned_observation_freezes :
  exists s c, breachable s /\ c ∈ b_stopped s /\ b_pending s <> None /\
    forall s', rtc bstep s s' -> b_pending s' = b_pending s.
Proof.
  assert (frozen 5 abandoned) as Hf by (apply frozenb_frozen; by_vm).
  exists abandoned, 5%nat. split_and!; [apply reaches_abandoned|..].
  - by destruct Hf as (i & l & n & _ & Hst & _).
  - destruct Hf as (i & l & n & -> & _). done.
  - intros s' Hr. by apply (frozen_forever 5).
Qed.

Lemma sections_are_atomic_witness : reachable false (b_sys full).
Proof.
  exact (proj1 (sections_are_atomic full reaches_full)).
Defined.

Lemma consumers_keep_up_witness :
  exists s', rtc progress waiting s' /\ b_pending s' = None /\ replay (received_inputs s' 5) = ab.
Proof.
  assert (b_pending waiting = Some [(5%nat, MkInput InputOpSet "a" (Some 512%nat))]) as El by by_vm.
  assert (b_stopped waiting = ∅) as Es by by_vm.
  assert (observed (b_fsm waiting) 5) as Ho by (exists 1; by_vm).
  assert (view (b_fsm waiting) = ab) as Ev by by_vm.
  destruct (consumers_keep_up waiting 5 reaches_waiting) as (s' & Hr & Hp & _ & Hre).
  - intros l d i E Hin. rewrite El in E. injection E as <-. apply list_elem_of_singleton in Hin. injection Hin as -> ->.
    split; [exact Ho|rewrite Es; apply not_elem_of_empty].
  - exact Ho.
  - assert (syncing (b_sys waiting) = []) as -> by by_vm. apply not_elem_of_nil.
  - rewrite Es. apply not_elem_of_empty.
  - exists s'. split_and!; [exact Hr|exact Hp|]. by rewrite Hre.
Defined.
