(* ===== verification/Replication.v ===== *)
(** * Replication: the state machines of a Raft cluster
      ([services/state/raft/fsm.go] on every node)

    The state machine of one node is modelled in Fsm.  Here a cluster of them
    runs under what the Raft library promises: it hands every node the
    committed entries in one order, has a node take a snapshot between two
    entries, and installs persisted snapshots, on a node that restarts or
    lags behind, together with the position in the log they were taken at.
    The reference definition is the fold of the committed log; the theorems
    show that every node computes it, whatever its history, and that it gets
    to the end of the log, through the bounded channels of Observation, while
    the consumers of its observations receive. *)

From S2P Require Import Prelude GoRuntime StateApi Fsm Observation.

(** ** The cluster *)

(** A node: its state machine with its goroutines and clients, how many
    entries it has applied or got in a snapshot, and the snapshots it took
    with their positions. *)
Record Node := {
  sys : Sys;
  index : nat;
  taken : list (State nat * nat);
}.

Record Cluster := {
  log : list slice;            (* the data of the committed entries *)
  nodes : gmap string Node;
  stored : list (bytes * nat); (* the persisted snapshots *)
}.

(** A node that starts, or starts again: [NewRaftFsm], nothing applied. *)
Definition new_node : Node :=
  {| sys := {| fsm := NewRaftFsm ∅ 0 ∅; syncing := []; exported := ∅; snapshots := [] |};
     index := 0; taken := [] |}.

Definition set_node (id : string) (n : Node) (c : Cluster) : Cluster :=
  {| log := log c; nodes := <[id := n]> (nodes c); stored := stored c |}.

(** A sink that keeps what was written. *)
Definition file_sink : SnapshotSink bytes :=
  {| sink_Write := fun b w => (None, w ++ b);
     sink_Close := fun w => (None, w);
     sink_Cancel := fun w => (None, []) |}.

Section Replication.
Context `{MapRange} `{MsgPack (Input bytes)} `{MsgPack (option (State bytes))}.

(** A node may start anew at any time: it may have been stopped, or a
    goroutine of it may have panicked. *)
Inductive cluster_step (c : Cluster) : Cluster -> Prop :=
  | cs_commit e :
      cluster_step c {| log := log c ++ [e]; nodes := nodes c; stored := stored c |}
  | cs_start id :
      cluster_step c (set_node id new_node c)
  | cs_apply id n e res f' :
      nodes c !! id = Some n -> log c !! index n = Some e ->
      Apply e (fsm (sys n)) = Ret res f' ->
      cluster_step c (set_node id {| sys := with_fsm f' (sys n); index := S (index n); taken := taken n |} c)
  | cs_local id n s' :
      nodes c !! id = Some n -> local_step (sys n) s' ->
      cluster_step c (set_node id {| sys := s'; index := index n; taken := taken n |} c)
  | cs_snapshot id n m f' :
      nodes c !! id = Some n -> Snapshot (fsm (sys n)) = Ret m f' ->
      cluster_step c (set_node id
        {| sys := {| fsm := f'; syncing := syncing (sys n); exported := exported (sys n);
                     snapshots := (m, view (fsm (sys n))) :: snapshots (sys n) |};
           index := index n; taken := (m, index n) :: taken n |} c)
  | cs_persist id n m i b :
      nodes c !! id = Some n -> (m, i) ∈ taken n ->
      Persist file_sink (mem (fsm (sys n))) m [] = (None, b) ->
      cluster_step c {| log := log c; nodes := nodes c; stored := (b, i) :: stored c |}
  | cs_install id n b i f' :
      nodes c !! id = Some n -> (b, i) ∈ stored c ->
      Restore (inl b) (fsm (sys n)) = Ret None f' ->
      cluster_step c (set_node id {| sys := with_fsm f' (sys n); index := i; taken := taken n |} c).

Inductive runs (c : Cluster) : Cluster -> Prop :=
  | runs_refl : runs c c
  | runs_step c1 c2 : runs c c1 -> cluster_step c1 c2 -> runs c c2.

Definition cluster_init : Cluster := {| log := []; nodes := ∅; stored := [] |}.

(** ** The reference: folding the log *)

Definition state_at (l : list slice) (i : nat) : gmap string bytes := foldl entry_effect ∅ (take i l).

Lemma state_at_app l e i : (i <= length l)%nat -> state_at (l ++ [e]) i = state_at l i.
Proof. intros Hi. unfold state_at. by rewrite take_app_le. Qed.

Lemma state_at_S l i e : l !! i = Some e -> state_at l (S i) = entry_effect (state_at l i) e.
Proof. intros Hl. unfold state_at. by rewrite (take_S_r _ _ _ Hl), foldl_app. Qed.

(** ** The invariant *)

Record node_ok (l : list slice) (n : Node) : Prop := {
  node_reach : reachable true (sys n);
  node_state : state (fsm (sys n)) <> None;
  node_index : (index n <= length l)%nat;
  node_view : view (fsm (sys n)) = state_at l (index n);
  node_taken : forall m i, (m, i) ∈ taken n ->
    (i <= length l)%nat /\ (m, state_at l i) ∈ snapshots (sys n);
}.

Lemma node_sys l n : node_ok l n -> sys_ok (sys n).
Proof. intros Hn. exact (reachable_sys_ok _ _ (node_reach _ _ Hn)). Qed.

Definition snapshot_ok (l : list slice) (b : bytes) (i : nat) : Prop :=
  (i <= length l)%nat /\
  exists m, mp_decode b mp_zero = (Some m, None) /\ state_view (Some m) = state_at l i.

Record cluster_ok (c : Cluster) : Prop := {
  cl_nodes : forall id n, nodes c !! id = Some n -> node_ok (log c) n;
  cl_stored : forall b i, (b, i) ∈ stored c -> snapshot_ok (log c) b i;
}.

Lemma new_node_ok l : node_ok l new_node.
Proof.
  split; simpl; [by apply reachable_init|done|lia| |by intros ? ? ?%not_elem_of_nil].
  unfold view, state_at. simpl. by rewrite fmap_empty.
Qed.

Lemma node_ok_commit l e n : node_ok l n -> node_ok (l ++ [e]) n.
Proof.
  intros [? ? Hi Hv Ht]. split; [done|done|rewrite length_app; lia|by rewrite state_at_app|].
  intros m i [Hl Hin]%Ht. rewrite length_app, state_at_app by lia. split; [lia|done].
Qed.

Lemma snapshot_ok_commit l e b i : snapshot_ok l b i -> snapshot_ok (l ++ [e]) b i.
Proof. intros (Hi & m & ? & ?). split; [rewrite length_app; lia|]. exists m. by rewrite state_at_app. Qed.

Lemma node_ok_apply l n e res f' :
  node_ok l n -> l !! index n = Some e -> Apply e (fsm (sys n)) = Ret res f' ->
  node_ok l {| sys := with_fsm f' (sys n); index := S (index n); taken := taken n |}.
Proof.
  intros Hnode Hl HA. pose proof (node_sys _ _ Hnode) as Hok. destruct Hnode as [Hre Hst Hi Hv Ht].
  destruct (Apply_entry e _ (sys_fsm _ Hok) Hst) as (res' & f2 & HA' & Hst' & Hv').
  assert (f2 = f') as -> by congruence. split; simpl; [|done| | |done].
  - by eapply reachable_step, step_apply.
  - by apply lookup_lt_Some in Hl.
  - by rewrite (state_at_S _ _ _ Hl), <- Hv.
Qed.

(** What goroutines and clients do leaves the pairs as they are. *)
Lemma local_step_keeps s s' :
  sys_ok s -> local_step s s' ->
  view (fsm s') = view (fsm s) /\ (state (fsm s) <> None -> state (fsm s') <> None) /\ snapshots s' = snapshots s.
Proof.
  intros Hok Hstep. pose proof (sys_fsm s Hok) as Hf.
  assert (forall new f', sends (fsm s) f' new ->
    view f' = view (fsm s) /\ (state (fsm s) <> None -> state f' <> None)) as Hsends.
  { intros new f' Hs. split; [by apply (fsm_ok_sends _ _ _ Hs)|].
    by destruct (sends_same _ _ _ Hs) as (-> & _). }
  destruct Hstep as [c id f' _ HA|n c f' _ HA|id f' HA|c oc _ _|m f' HA|l b Hl]; simpl.
  - by injection HA as _ <-.
  - destruct (Hsends _ _ (sync_inv _ _ _ Hf HA)). done.
  - by injection HA as <-.
  - done.
  - destruct (cloneState_spec _ Hf) as (m2 & f2 & HE & Hs & _).
    assert (f2 = f') as -> by (unfold State_ in HA; congruence). by destruct (Hsends _ _ Hs).
  - split; [by apply write_keeps_view|done].
Qed.

Lemma node_ok_local l n s' :
  node_ok l n -> local_step (sys n) s' -> node_ok l {| sys := s'; index := index n; taken := taken n |}.
Proof.
  intros Hnode Hs. pose proof (node_sys _ _ Hnode) as Hok. destruct Hnode as [Hre Hst Hi Hv Ht]. destruct (local_step_keeps _ _ Hok Hs) as (Hv' & Hst' & Hsn).
  split; simpl; [by eapply reachable_step, step_local|auto|done|congruence|]. rewrite Hsn. done.
Qed.

Lemma node_ok_snapshot l n m f' :
  node_ok l n -> Snapshot (fsm (sys n)) = Ret m f' ->
  node_ok l {| sys := {| fsm := f'; syncing := syncing (sys n); exported := exported (sys n);
                         snapshots := (m, view (fsm (sys n))) :: snapshots (sys n) |};
               index := index n; taken := (m, index n) :: taken n |}.
Proof.
  intros Hnode HA. pose proof (sys_fsm _ (node_sys _ _ Hnode)) as Hf. destruct Hnode as [Hre Hst Hi Hv Ht].
  destruct (cloneState_spec _ Hf) as (m2 & f2 & HE & Hs & _).
  assert (f2 = f') as -> by (unfold Snapshot in HA; congruence).
  destruct (fsm_ok_sends _ _ _ Hs Hf) as [_ Hvf]. split; simpl.
  - by eapply reachable_step, step_snapshot.
  - by destruct (sends_same _ _ _ Hs) as (-> & _).
  - done.
  - by rewrite Hvf.
  - intros m' i [[= -> ->]|Hin]%elem_of_cons; [split; [done|]; rewrite <- Hv; left|].
    destruct (Ht m' i Hin). split; [done|by right].
Qed.

Context `{!MsgPackLaws (option (State bytes)) (fun m => m <> None) snapshot_rel}.

Lemma persisted_ok l n m i b :
  node_ok l n -> (m, i) ∈ taken n -> Persist file_sink (mem (fsm (sys n))) m [] = (None, b) -> snapshot_ok l b i.
Proof.
  intros Hnode Hin HP. pose proof (node_sys _ _ Hnode) as Hok. destruct Hnode as [_ _ _ _ Ht]. destruct (Ht m i Hin) as [Hi Hsn]. split; [done|].
  destruct (sys_snaps _ Hok _ _ Hsn) as [_ Hc].
  destruct (mp_roundtrip (Some (snapshot_contents (mem (fsm (sys n))) m))) as (b' & a' & He & Hd & [Hrel Hnn]); [done|].
  unfold Persist, EncodeMsgPack in HP. rewrite He in HP. simpl in HP. injection HP as <-.
  destruct a' as [m'|]; [|done]. exists m'. split; [done|].
  by rewrite <- Hrel, snapshot_contents_view, Hc.
Qed.

Lemma node_ok_install l n b i f' :
  node_ok l n -> snapshot_ok l b i -> Restore (inl b) (fsm (sys n)) = Ret None f' ->
  node_ok l {| sys := with_fsm f' (sys n); index := i; taken := taken n |}.
Proof.
  intros Hnode (Hl & m & Hd & Hm) HR. pose proof (node_sys _ _ Hnode) as Hok. destruct Hnode as [Hre Hst Hi Hv Ht].
  destruct (Restore_inv _ _ _ _ (sys_fsm _ Hok) HR) as (_ & _ & _ & _ & _ & Hres).
  simpl in Hres. rewrite Hd in Hres. destruct Hres as (_ & Hvf & Hst').
  split; simpl; [by eapply reachable_step, step_restore|by apply Hst'|done|congruence|done].
Qed.

Lemma cluster_ok_set_node c id n : cluster_ok c -> node_ok (log c) n -> cluster_ok (set_node id n c).
Proof.
  intros [Hn Hs] Hok. split; simpl; [|done].
  intros id' n' [[<- <-]|[_ Hid]]%lookup_insert_Some; eauto.
Qed.

Lemma cluster_ok_step c c' : cluster_ok c -> cluster_step c c' -> cluster_ok c'.
Proof.
  intros Hok Hstep.
  destruct Hstep as [e|id|id n e res f' Hn Hl HA|id n s' Hn Hs|id n m f' Hn HA|id n m i b Hn Hin HP|id n b i f' Hn Hin HR];
    [| |apply cluster_ok_set_node; [done|]..| |apply cluster_ok_set_node; [done|]];
    try pose proof (cl_nodes _ Hok _ _ Hn) as Hnode.
  - destruct Hok as [Hn Hs]. split; simpl; [intros; eapply node_ok_commit; eauto|intros; eapply snapshot_ok_commit; eauto].
  - apply cluster_ok_set_node; [done|apply new_node_ok].
  - by eapply node_ok_apply.
  - by apply node_ok_local.
  - by apply node_ok_snapshot.
  - split; simpl; [apply Hok|]. intros b' i' [[= -> ->]|Hb]%elem_of_cons; [by eapply persisted_ok|].
    by apply (cl_stored _ Hok).
  - eapply node_ok_install; [done|by apply (cl_stored _ Hok)|done].
Qed.

Lemma runs_ok c c' : cluster_ok c -> runs c c' -> cluster_ok c'.
Proof. intros Hok Hr. induction Hr; [done|by eapply cluster_ok_step]. Qed.

Lemma cluster_init_ok : cluster_ok cluster_init.
Proof. split; [done|]. by intros ? ? ?%not_elem_of_nil. Qed.

(** ** Theorems *)

Lemma runs_trans c1 c2 c3 : runs c1 c2 -> runs c2 c3 -> runs c1 c3.
Proof. intros H12 H23. induction H23; [done|by eapply runs_step]. Qed.

(** What is committed stays. *)
Lemma runs_log c c' : runs c c' -> log c `prefix_of` log c'.
Proof.
  induction 1 as [|c1 c2 _ IH Hs]; [done|]. etransitivity; [exact IH|].
  by destruct Hs; [apply prefix_app_r|..].
Qed.

Lemma state_at_prefix l l' i : l `prefix_of` l' -> (i <= length l)%nat -> state_at l' i = state_at l i.
Proof. intros [k ->] Hi. unfold state_at. by rewrite take_app_le. Qed.

(** C1: replicated state.  Whatever the interleaving of committed entries,
    nodes that start, restart, apply entries, take, persist and install
    snapshots, and of their goroutines and clients: the key-value pairs of a
    node are the fold of the log up to the position it has reached, so it has
    the same pairs as any node that is or will be at that position, whether
    it got there entry by entry or by a snapshot. *)
Theorem replicas_agree (c c' : Cluster) (id id' : string) (n n' : Node) :
  runs cluster_init c -> nodes c !! id = Some n ->
  runs c c' -> nodes c' !! id' = Some n' ->
  view (fsm (sys n)) = state_at (log c) (index n) /\
  (index n' = index n -> view (fsm (sys n')) = view (fsm (sys n))).
Proof.
  intros Hr Hn Hr' Hn'. pose proof (runs_ok _ _ cluster_init_ok Hr) as Hok.
  pose proof (cl_nodes _ Hok _ _ Hn) as Hnode.
  pose proof (cl_nodes _ (runs_ok _ _ Hok Hr') _ _ Hn') as Hnode'.
  split; [exact (node_view _ _ Hnode)|]. intros E.
  rewrite (node_view _ _ Hnode), (node_view _ _ Hnode'), E.
  apply state_at_prefix; [by apply runs_log|exact (node_index _ _ Hnode)].
Qed.

(** What is left of the log takes a node to the whole of it. *)
Lemma state_of_rest l i : foldl entry_effect (state_at l i) (drop i l) = foldl entry_effect ∅ l.
Proof. unfold state_at. by rewrite <- foldl_app, take_drop. Qed.

(** C36: catching up.  No committed entry stops a node, whatever its bytes,
    as long as the consumers of its observations go on receiving.  Take a node
    of any reachable cluster, with its lock free and whatever its observers'
    buffers of 256 inputs hold, none of them being one that nobody receives
    from any more ([abandoned_observation_freezes] shows what such a one
    does).  However the sections that apply the entries left for it, each
    waiting for room in these buffers, and the consumers take turns: they do
    not go on for ever, and when none can go on, all entries are applied, the
    lock is free, and the node has the fold of the whole log. *)
Theorem replicas_catch_up (c : Cluster) (id : string) (n : Node) (s : BSys) :
  runs cluster_init c -> nodes c !! id = Some n ->
  b_sys s = sys n -> b_pending s = None -> buffers_ok (b_fsm s) s ->
  (forall d, observed (b_fsm s) d -> d ∉ b_stopped s) ->
  sn turn (drop (index n) (log c), s) /\
  forall es s', rtc turn (drop (index n) (log c), s) (es, s') -> (forall x, ~ turn (es, s') x) ->
    es = [] /\ b_pending s' = None /\ view (b_fsm s') = foldl entry_effect ∅ (log c).
Proof.
  intros Hr Hn Hs Hp Hb Hrec. pose proof (cl_nodes _ (runs_ok _ _ cluster_init_ok Hr) _ _ Hn) as Hnode.
  assert (served true s) as Hsv.
  { split; [|unfold b_fsm; rewrite Hs; apply Hnode|by rewrite Hp|done].
    assert (set_sys (b_sys s) None s = s) as <- by (destruct s as [? p ? ?]; simpl in Hp; by rewrite Hp).
    apply binv_free; [rewrite Hs; apply Hnode|done]. }
  split; [by eapply turns_end|]. intros es s' Ht Hno. destruct (turns_effect _ _ _ _ Hsv Ht) as [Hsv' Hf].
  destruct (no_turn_left es s' Hsv' Hno) as [-> Hp']. split_and!; [done|done|]. simpl in Hf. rewrite Hf.
  unfold b_fsm at 1. rewrite Hs, (node_view _ _ Hnode). apply state_of_rest.
Qed.

(** The entry sets or deletes the key. *)
Definition touches (e : slice) (k : string) : Prop :=
  match DecodeMsgPack e mp_zero with
  | (w, None) => changes_state w /\ Key w = k
  | (_, Some _) => False
  end.

Lemma entry_untouched v e k : ~ touches e k -> entry_effect v e !! k = v !! k.
Proof.
  unfold touches, entry_effect. destruct (DecodeMsgPack e mp_zero) as [w [err|]]; [done|].
  intros Hno. unfold replay1, changes_state in *. repeat case_decide; [| |done].
  - rewrite lookup_insert_ne; [done|intros <-; tauto].
  - rewrite lookup_delete_ne; [done|intros <-; tauto].
Qed.

Lemma state_untouched l i k : forall d,
  (i + d <= length l)%nat ->
  (forall j e, (i <= j < i + d)%nat -> l !! j = Some e -> ~ touches e k) ->
  state_at l (i + d) !! k = state_at l i !! k.
Proof.
  induction d as [|d IH]; intros Hl Hno; [by rewrite Nat.add_0_r|].
  destruct (lookup_lt_is_Some_2 l (i + d)) as [e He]; [lia|].
  rewrite Nat.add_succ_r, (state_at_S _ _ _ He), entry_untouched.
  - apply IH; [lia|]. intros j e' Hj. apply Hno. lia.
  - apply (Hno (i + d)%nat); [lia|done].
Qed.

Context `{!MsgPackLaws (Input bytes) (fun _ => True) input_rel}.

Lemma entry_of_input v i e cmd :
  EncodeMsgPack i = (cmd, None) -> sl e = sl cmd -> changes_state i ->
  entry_effect v e !! Key i = if decide (Op i = InputOpSet) then Some (sl (Value i)) else None.
Proof.
  intros He Hsl Hc. destruct (mp_roundtrip i) as (b & a & Hb & Hd & Ho & Hk & Hv); [done|].
  unfold EncodeMsgPack in He. assert (cmd = Some b) as -> by congruence.
  unfold entry_effect, DecodeMsgPack. rewrite Hsl. simpl. rewrite Hd. unfold replay1. rewrite <- Ho, <- Hk, <- Hv.
  case_decide as E; [by rewrite lookup_insert_eq|]. rewrite decide_True, lookup_delete_eq; [done|].
  by destruct Hc.
Qed.

(** A committed input is what a node past its position shows under its key,
    the value that was set or nothing after a delete, until a later entry
    sets or deletes that key. *)
Lemma committed_visible (c : Cluster) (id : string) (n : Node) (i : nat) (input : Input bytes) (e cmd : slice) :
  runs cluster_init c -> nodes c !! id = Some n ->
  EncodeMsgPack input = (cmd, None) -> changes_state input ->
  log c !! i = Some e -> sl e = sl cmd -> (i < index n)%nat ->
  (forall j e', (i < j < index n)%nat -> log c !! j = Some e' -> ~ touches e' (Key input)) ->
  view (fsm (sys n)) !! Key input = if decide (Op input = InputOpSet) then Some (sl (Value input)) else None.
Proof.
  intros Hr Hn He Hch Hl Hsl Hi Hno.
  pose proof (cl_nodes _ (runs_ok _ _ cluster_init_ok Hr) _ _ Hn) as Hnode.
  pose proof (node_index _ _ Hnode). rewrite (node_view _ _ Hnode).
  replace (index n) with (S i + (index n - S i))%nat by lia.
  rewrite state_untouched.
  - rewrite (state_at_S _ _ _ Hl). by eapply entry_of_input.
  - lia.
  - intros j e' Hj. apply Hno. lia.
Qed.

(** What a node's [State] returns. *)
Lemma node_State (c : Cluster) (id : string) (n : Node) :
  runs cluster_init c -> nodes c !! id = Some n ->
  exists m f', State_ (fsm (sys n)) = Ret m f' /\ contents (mem f') m = view (fsm (sys n)).
Proof.
  intros Hr Hn. pose proof (cl_nodes _ (runs_ok _ _ cluster_init_ok Hr) _ _ Hn) as Hnode.
  destruct (cloneState_spec _ (sys_fsm _ (node_sys _ _ Hnode))) as (m & f' & HE & _ & _ & Hc & _). by exists m, f'.
Qed.
End Replication.

(** ** A concrete run

    Node [a] applies an entry, takes a snapshot and persists it; node [b] is
    brought up to date with it. *)

Module Run.
Import BitCodec.
#[local] Existing Instance range_in_map_order.
Notation ab := Fsm.Run.ab.

Definition entry : slice := Fsm.Run.set_ab.
Definition on_fsm {A} (m : M RaftFsm A) (n : Node) (i : nat) : Node :=
  {| sys := with_fsm (Fsm.Run.exec m (fsm (sys n))) (sys n); index := i; taken := taken n |}.

Definition c1 : Cluster := set_node "b" new_node (set_node "a" new_node cluster_init).
Definition c2 : Cluster := {| log := [entry]; nodes := nodes c1; stored := [] |}.
Definition a3 : Node := on_fsm (Apply entry) new_node 1.
Definition c3 : Cluster := set_node "a" a3 c2.
Definition snap : State nat := <["a" := Some 1%nat]> ∅.
Definition a4 : Node :=
  {| sys := {| fsm := Fsm.Run.exec Snapshot (fsm (sys a3)); syncing := []; exported := ∅;
               snapshots := [(snap, view (fsm (sys a3)))] |};
     index := 1; taken := [(snap, 1%nat)] |}.
Definition c4 : Cluster := set_node "a" a4 c3.
Definition image : bytes := (Persist file_sink (mem (fsm (sys a4))) snap []).2.
Definition c5 : Cluster := {| log := log c4; nodes := nodes c4; stored := [(image, 1%nat)] |}.
Definition b6 : Node := on_fsm (Restore (inl image)) new_node 1.
Definition c6 : Cluster := set_node "b" b6 c5.

Lemma lookup_set_node id n c : nodes (set_node id n c) !! id = Some n.
Proof. apply lookup_insert_eq. Qed.

Lemma lookup_b3 : nodes c1 !! "b" = Some new_node.
Proof. apply lookup_set_node. Qed.

Lemma run2 : runs cluster_init c2.
Proof.
  eapply runs_step; [|by apply (cs_commit c1 entry)].
  eapply runs_step; [|by apply cs_start]. eapply runs_step; [constructor|by apply cs_start].
Qed.

(** Node [b] with a synchronized observer. *)
Definition with_sys (t : Sys) : Node := {| sys := t; index := 0; taken := [] |}.
Definition b3 : Node := with_sys (b_sys Observation.Run.synchronized).
Definition observed2 : Cluster := set_node "b" b3 (set_node "b" (with_sys Fsm.Run.s1) c2).

Lemma run_observed : runs cluster_init observed2.
Proof.
  eapply runs_step; [eapply runs_step; [exact run2|]|].
  - apply (cs_local c2 "b" new_node Fsm.Run.s1); [exact lookup_b3|]. by apply (step_observe (sys new_node) 5 1 Fsm.Run.f1).
  - apply (cs_local _ "b" (with_sys Fsm.Run.s1) (b_sys Observation.Run.synchronized)); [apply lookup_set_node|].
    by apply (step_sync Fsm.Run.s1 0 5 Fsm.Run.f1).
Qed.

Lemma run4 : runs cluster_init c4.
Proof.
  eapply runs_step; [eapply runs_step; [exact run2|]|].
  - eapply (cs_apply c2 "a" new_node entry None); [by vm_compute|done|by_vm].
  - eapply (cs_snapshot c3 "a" a3 snap); [apply lookup_set_node|by_vm].
Qed.

Lemma run46 : runs c4 c6.
Proof.
  eapply runs_step; [eapply runs_step; [constructor|]|].
  - eapply (cs_persist c4 "a" a4 snap 1 image); [apply lookup_set_node|left|by_vm].
  - eapply (cs_install c5 "b" new_node image 1); [|left|by_vm].
    exact lookup_b3.
Qed.
End Run.

Lemma replicas_agree_witness :
  view (fsm (sys Run.b6)) = view (fsm (sys Run.a4)) /\ view (fsm (sys Run.a4)) = Run.ab.
Proof.
  destruct (@replicas_agree Fsm.Run.run_order BitCodec.input_codec BitCodec.snapshot_codec
    (BitCodec.codec_laws _ _ snapshot_rel (fun a Ha => conj eq_refl Ha))
    Run.c4 Run.c6 "a" "b" Run.a4 Run.b6 Run.run4 (Run.lookup_set_node _ _ _) Run.run46 (Run.lookup_set_node _ _ _))
    as [Hv Hag].
  split; [exact (Hag eq_refl)|]. etransitivity; [exact Hv|]. by_vm.
Defined.

#[local] Existing Instance Fsm.Run.run_order.
#[local] Existing Instance BitCodec.input_codec.

(** Node [b] has an entry to apply, and an observer. *)
Lemma replicas_catch_up_witness :
  sn turn ([Run.entry], Observation.Run.synchronized) /\
  forall es s', rtc turn ([Run.entry], Observation.Run.synchronized) (es, s') -> (forall x, ~ turn (es, s') x) ->
    es = [] /\ b_pending s' = None /\ view (b_fsm s') = Run.ab.
Proof.
  destruct (@replicas_catch_up Fsm.Run.run_order BitCodec.input_codec BitCodec.snapshot_codec
    (BitCodec.codec_laws _ _ snapshot_rel (fun a Ha => conj eq_refl Ha))
    Run.observed2 "b" Run.b3 Observation.Run.synchronized Run.run_observed (Run.lookup_set_node _ _ _) eq_refl eq_refl)
    as [Hsn Hend].
  - intros c. unfold b_sent. simpl. destruct (decide (c = 5%nat)) as [->|Hne].
    + rewrite lookup_insert_eq. simpl. unfold b_taken. simpl. rewrite lookup_empty. simpl. lia.
    + rewrite lookup_insert_ne by done. by split.
  - intros d _. apply not_elem_of_empty.
  - split; [exact Hsn|]. intros es s' Hr Hno. destruct (Hend es s' Hr Hno) as (H1 & H2 & Hv).
    split_and!; [exact H1|exact H2|]. etransitivity; [exact Hv|]. by_vm.
Defined.
