(* ===== verification/RaftStore.v ===== *)
(** * The Raft store ([services/state/raft/store.go])

    Log entries and the stable store, kept in two storage bindings and proved
    against the storage interface, and the observers of the membership of the
    state group.  As in [Fsm], channels record what was sent on them. *)

From Stdlib Require Import Sorting.Sorted.
From S2P Require Import Prelude GoRuntime GoStrings Config StoreApi Pebble StateApi.

(** ** Keys *)

(** [binary.BigEndian.PutUint64] on a new slice, for [n] bytes. *)
Fixpoint be_bytes (n : nat) (u : Z) : bytes :=
  match n with
  | O => []
  | S n => byte_of (Z.shiftr u (8 * Z.of_nat n)) :: be_bytes n u
  end.

Definition uint64ToBytes (u : Z) : slice := Some (be_bytes 8 u).

Fixpoint be_val (b : bytes) : Z :=
  match b with
  | [] => 0
  | c :: b => Z.shiftl (byte_val c) (8 * Z.of_nat (length b)) + be_val b
  end.

(** [binary.BigEndian.Uint64]: reads eight bytes, and panics, here [None], if
    there are fewer. *)
Definition bytesToUint64 (b : slice) : option Z :=
  if Nat.ltb (length (sl b)) 8 then None else Some (be_val (take 8 (sl b))).

Lemma be_bytes_length n u : length (be_bytes n u) = n.
Proof. induction n as [|n IH]; simpl; [done|]. by rewrite IH. Qed.

Lemma be_val_bytes n u : be_val (be_bytes n u) = u mod 256 ^ Z.of_nat n.
Proof.
  induction n as [|n IH]; simpl; [by rewrite Z.mod_1_r|].
  rewrite IH, be_bytes_length, byte_val_of, Z.shiftl_mul_pow2, Z.shiftr_div_pow2 by lia.
  rewrite Z.pow_mul_r by lia. change (2 ^ 8) with 256.
  rewrite Nat2Z.inj_succ, Z.pow_succ_r by lia.
  rewrite (Z.mul_comm 256), Z.rem_mul_r by (pose proof (Z.pow_pos_nonneg 256 (Z.of_nat n)); lia). lia.
Qed.

(** The key order is the order of the indices. *)
Lemma be_bytes_compare n a b :
  bytes_compare (be_bytes n a) (be_bytes n b) = (a mod 256 ^ Z.of_nat n ?= b mod 256 ^ Z.of_nat n).
Proof.
  induction n as [|n IH]; simpl; [by rewrite !Z.mod_1_r|].
  rewrite IH, !byte_val_of, !Z.shiftr_div_pow2 by lia.
  rewrite !Z.pow_mul_r by lia. change (2 ^ 8) with 256.
  rewrite Nat2Z.inj_succ, Z.pow_succ_r by lia.
  assert (0 < 256 ^ Z.of_nat n) as Hp by (apply Z.pow_pos_nonneg; lia).
  rewrite (Z.mul_comm 256), !Z.rem_mul_r by lia.
  pose proof (Z.mod_pos_bound a (256 ^ Z.of_nat n) Hp). pose proof (Z.mod_pos_bound b (256 ^ Z.of_nat n) Hp).
  set (P := 256 ^ Z.of_nat n) in *. set (x := (a / P) mod 256). set (y := (b / P) mod 256).
  destruct (Z.compare_spec x y) as [E|E|E].
  - rewrite E. destruct (Z.compare_spec (a mod P) (b mod P)); symmetry;
      [apply Z.compare_eq_iff|apply Z.compare_lt_iff|apply Z.compare_gt_iff]; lia.
  - symmetry. apply Z.compare_lt_iff. nia.
  - symmetry. apply Z.compare_gt_iff. nia.
Qed.

Lemma uint64_mod u : in_uint 64 u -> u mod 256 ^ Z.of_nat 8 = u.
Proof. intros. by apply Z.mod_small. Qed.

(** The key of an index. *)
Definition key_of (u : Z) : bytes := be_bytes 8 u.

Lemma key_of_compare a b :
  in_uint 64 a -> in_uint 64 b -> bytes_compare (key_of a) (key_of b) = (a ?= b).
Proof. intros. unfold key_of. by rewrite be_bytes_compare, !uint64_mod. Qed.

Lemma key_of_lt a b : in_uint 64 a -> in_uint 64 b -> bytes_lt (key_of a) (key_of b) <-> a < b.
Proof. intros. unfold bytes_lt. rewrite key_of_compare by done. apply Z.compare_lt_iff. Qed.

Lemma key_of_le a b : in_uint 64 a -> in_uint 64 b -> bytes_le (key_of a) (key_of b) <-> a <= b.
Proof. intros. unfold bytes_le. by rewrite key_of_compare. Qed.

Lemma bytesToUint64_key u : in_uint 64 u -> bytesToUint64 (Some (key_of u)) = Some u.
Proof.
  intros Hu. unfold bytesToUint64, key_of. change (sl (Some (be_bytes 8 u))) with (be_bytes 8 u).
  rewrite be_bytes_length. change (Nat.ltb 8 8) with false. cbn [negb].
  rewrite take_ge by (by rewrite be_bytes_length). by rewrite be_val_bytes, uint64_mod.
Qed.

Lemma key_of_inj a b : in_uint 64 a -> in_uint 64 b -> key_of a = key_of b -> a = b.
Proof.
  intros Ha Hb E. pose proof (key_of_compare a b Ha Hb) as Hc.
  rewrite E, bytes_compare_refl in Hc. by apply Z.compare_eq_iff.
Qed.

(** ** State *)

(** The entries of HashiCorp Raft's log, as far as the store looks at them:
    the index, whether it is a configuration entry, and the ids of the
    servers of the configuration [DecodeConfiguration] finds in its data. *)
Class HraftLog := {
  Log : Type;
  log_Index : Log -> Z;
  log_IsConfiguration : Log -> bool;
  log_Servers : Log -> list string;
}.

Definition ErrKeyNotFound : error := ErrVar "raft.ErrKeyNotFound" "not found" None.
Definition hraft_ErrLogNotFound : error := ErrVar "hraft.ErrLogNotFound" "log not found" None.

(** A membership change channel: what was sent, and whether it is closed. *)
Record MemberChan := {
  msent : list MembershipChange;
  mclosed : bool;
}.

(** The members and their observers, protected by [mu]. *)
Record Membership := {
  observers : gmap Z nat;           (* membership change observers *)
  nextObserverId : Z;               (* uint64 *)
  memberIds : gmap string unit;     (* current deduped members *)
  mchans : gmap nat MemberChan;
}.

Record RaftStore (B : Type) := {
  logDir : string;
  logStore : B;
  stableDir : string;
  stableStore : B;
  snapDir : string;
  membership : Membership;
}.
Arguments logDir {_} _.
Arguments logStore {_} _.
Arguments stableDir {_} _.
Arguments stableStore {_} _.
Arguments snapDir {_} _.
Arguments membership {_} _.

(** ** Membership changes *)

Definition set_observers (m : gmap Z nat) (s : Membership) : Membership :=
  {| observers := m; nextObserverId := nextObserverId s; memberIds := memberIds s; mchans := mchans s |}.
Definition set_next (n : Z) (s : Membership) : Membership :=
  {| observers := observers s; nextObserverId := n; memberIds := memberIds s; mchans := mchans s |}.
Definition set_members (m : gmap string unit) (s : Membership) : Membership :=
  {| observers := observers s; nextObserverId := nextObserverId s; memberIds := m; mchans := mchans s |}.
Definition set_mchan (c : nat) (mc : MemberChan) (s : Membership) : Membership :=
  {| observers := observers s; nextObserverId := nextObserverId s; memberIds := memberIds s;
     mchans := <[c := mc]> (mchans s) |}.

Definition send_change (c : nat) (ch : MembershipChange) : M Membership unit := fun s =>
  match mchans s !! c with
  | None => Blocked s
  | Some mc =>
      if mclosed mc then Panic "send on closed channel"
      else Ret tt (set_mchan c {| msent := msent mc ++ [ch]; mclosed := false |} s)
  end.

Section Members.
Context `{MapRange}.

Definition modify (f : Membership -> Membership) : M Membership unit :=
  let! s := mget in mput (f s).

(** The goroutine that is started runs [sendMembershipChangesForObserver]
    with this id later. *)
Definition AddMembershipChangeObserver : M Membership Z :=
  let! s := mget in
  let n := uint64 (nextObserverId s + 1) in
  run! mput (set_next n s); mret n.

Definition RemoveMembershipChangeObserver (chanId : Z) : M Membership unit :=
  run! modify (fun s => set_observers (delete chanId (observers s)) s);
  let! s := mget in
  if decide (size (observers s) = 0%nat) then mput (set_members ∅ s) else mret tt.

(** A member seen first is added, and announced by [announce]. *)
Definition add_member (announce : MembershipChange -> M Membership unit) (id : string) : M Membership unit :=
  let! s := mget in
  match memberIds s !! id with
  | Some _ => mret tt
  | None =>
      run! mput (set_members (<[id := tt]> (memberIds s)) s);
      announce {| Id := id; Joined := true |}
  end.

(** [config] is what [raft.GetConfiguration()] yields: the ids of the servers
    or an error. *)
Definition sendMembershipChangesForObserver (config : list string + error) (o : nat) (observerId : Z)
    : M Membership unit :=
  let register := modify (fun s => set_observers (<[nextObserverId s := o]> (observers s)) s) in
  let! s := mget in
  if decide (size (observers s) = 0%nat) then
    match config with
    | inr err => mret tt
    | inl servers => run! mfor servers (add_member (send_change o)); register
    end
  else
    run! mfor (range (memberIds s)) (fun kv => send_change o {| Id := kv.1; Joined := true |});
    register.

(** [for _, o := range s.observers { o <- ch }] *)
Definition announce_all (ch : MembershipChange) : M Membership unit :=
  let! s := mget in mfor (range (observers s)) (fun o => send_change o.2 ch).

Definition sendMembershipChangesForServers (servers : list string) : M Membership unit :=
  let! s := mget in
  if decide (size (observers s) = 0%nat) then mret tt
  else
    run! mfor (range (memberIds s)) (fun kv =>
      if decide (kv.1 ∈ servers) then mret tt
      else run! modify (fun s => set_members (delete kv.1 (memberIds s)) s);
           announce_all {| Id := kv.1; Joined := false |});
    mfor servers (add_member announce_all).
End Members.

(** ** The log store and the stable store *)

Section Stores.
Context `{MapRange} {B : Type} `{StoreApi B} `{HraftLog} `{MsgPack Log}.

Definition with_log (b : B) (s : RaftStore B) : RaftStore B :=
  {| logDir := logDir s; logStore := b; stableDir := stableDir s; stableStore := stableStore s;
     snapDir := snapDir s; membership := membership s |}.
Definition with_stable (b : B) (s : RaftStore B) : RaftStore B :=
  {| logDir := logDir s; logStore := logStore s; stableDir := stableDir s; stableStore := b;
     snapDir := snapDir s; membership := membership s |}.
Definition with_membership (m : Membership) (s : RaftStore B) : RaftStore B :=
  {| logDir := logDir s; logStore := logStore s; stableDir := stableDir s; stableStore := stableStore s;
     snapDir := snapDir s; membership := m |}.

(** A scan whose callback stops at the first key; its variable is [None] once
    [bytesToUint64] has panicked. *)
Definition first_key : ScanKeyValueB (option Z) := fun k v _ => (false, bytesToUint64 (Some k)).

(** The outer option is the fuel of the scan, the inner one a panic. *)
Definition index_of_scan (r : option (goerr * option Z)) : option (option Z * goerr) :=
  match r with
  | None => None
  | Some (Some err, _) => Some (Some 0, Some err)
  | Some (None, first) => Some (first, None)
  end.

Definition FirstIndex (fuel : nat) (s : RaftStore B) : option (option Z * goerr) :=
  index_of_scan (api_ScanRangeB fuel (logStore s) None None first_key (Some 0)).

Definition LastIndex (fuel : nat) (s : RaftStore B) : option (option Z * goerr) :=
  index_of_scan (api_ScanRangeReverseB fuel (logStore s) None None first_key (Some 0)).

(** [log] is decoded into. *)
Definition GetLog (s : RaftStore B) (index : Z) (log : Log) : Log * goerr :=
  match api_GetB (logStore s) (uint64ToBytes index) with
  | (_, Some err) => (log, Some err)
  | (None, None) => (log, Some hraft_ErrLogNotFound)
  | (val, None) => DecodeMsgPack val log
  end.

(** A membership operation of the store. *)
Definition on_membership (m : M Membership unit) : M (RaftStore B) unit := fun s =>
  match m (membership s) with
  | Ret a m' => Ret a (with_membership m' s)
  | Blocked m' => Blocked (with_membership m' s)
  | Panic msg => Panic msg
  end.

Fixpoint StoreLogs (logs : list Log) : M (RaftStore B) goerr :=
  match logs with
  | [] => mret None
  | log :: logs =>
      run! (if log_IsConfiguration log
            then on_membership (sendMembershipChangesForServers (log_Servers log)) else mret tt);
      let key := uint64ToBytes (log_Index log) in
      match EncodeMsgPack log with
      | (_, Some err) => mret (Some err)
      | (b, None) =>
          let! s := mget in
          match api_SetB (logStore s) key b with
          | (Some err, st) => run! mput (with_log st s); mret (Some err)
          | (None, st) => run! mput (with_log st s); StoreLogs logs
          end
      end
  end.

Definition StoreLog (log : Log) : M (RaftStore B) goerr := StoreLogs [log].

Definition DeleteRange (min max : Z) (s : RaftStore B) : goerr * RaftStore B :=
  let maxb :=
    if max =? MaxUint64 then api_KeyUpperBound (uint64ToBytes max)
    else uint64ToBytes (uint64 (max + 1)) in
  let '(err, st) := api_DeleteRangeB (logStore s) (uint64ToBytes min) maxb in
  (err, with_log st s).

Definition Set_ (key val : slice) (s : RaftStore B) : goerr * RaftStore B :=
  let '(err, st) := api_SetB (stableStore s) key val in (err, with_stable st s).

Definition Get (key : slice) (s : RaftStore B) : slice * goerr :=
  match api_GetB (stableStore s) key with
  | (_, Some err) => (None, Some err)
  | (None, None) => (Some [], Some ErrKeyNotFound)
  | (v, None) => (v, None)
  end.

Definition SetUint64 (key : slice) (val : Z) (s : RaftStore B) : goerr * RaftStore B :=
  let '(err, st) := api_SetB (stableStore s) key (uint64ToBytes val) in (err, with_stable st s).

(** The value is [None] if decoding it panics. *)
Definition GetUint64 (key : slice) (s : RaftStore B) : option Z * goerr :=
  match api_GetB (stableStore s) key with
  | (_, Some err) => (Some 0, Some err)
  | (None, None) => (Some 0, Some ErrKeyNotFound)
  | (v, None) => (bytesToUint64 v, None)
  end.
End Stores.

(** ** Creating and closing a store over Pebble *)

Section Pebble_.
Context `{PebbleEngine}.
(** [hraft.NewFileSnapshotStore], and [os.RemoveAll] on the file system. *)
Context {SnapshotStore : Type}.
Variable NewFileSnapshotStore : string -> Z -> SnapshotStore + error.
Variable NewInmemSnapshotStore : SnapshotStore.
Variable RemoveAll : string -> Disk -> Disk.

Definition retainSnapshotCount : Z := 2.

Definition pebble_config (uuid location : string) : Config.Config :=
  let cfg := Config.New uuid in
  {| Config.Version := Config.Version cfg;
     Config.Identity_ := Config.Identity_ cfg;
     Config.Cluster := Config.Cluster cfg;
     Config.Apis := Config.Apis cfg;
     Config.Services :=
       {| Config.Com := Config.Com (Config.Services cfg);
          Config.StoreSvc :=
            {| Config.Engine := "pebble"; Config.Location := location; Config.store_Disabled := false |};
          Config.State := Config.State (Config.Services cfg) |} |}.

Definition new_membership (chans : gmap nat MemberChan) : Membership :=
  {| observers := ∅; nextObserverId := 0; memberIds := ∅; mchans := chans |}.

Definition NewRaftStore (uuid location : string) (disk : Disk) (chans : gmap nat MemberChan)
    : (RaftStore PebbleBinding * SnapshotStore) + error :=
  let logDir := if String.eqb location "" then location else filepath_Join [location; "log"] in
  let stableDir := if String.eqb location "" then location else filepath_Join [location; "stable"] in
  let snapDir := location in
  match (if String.eqb snapDir "" then inl NewInmemSnapshotStore
         else NewFileSnapshotStore location retainSnapshotCount) with
  | inr err => inr err
  | inl snapStore =>
      match Pebble.Open (pebble_config uuid logDir) disk {| db := None |} with
      | (Some err, _) => inr err
      | (None, logStore) =>
          match Pebble.Open (pebble_config uuid stableDir) disk {| db := None |} with
          | (Some err, _) => inr err
          | (None, stableStore) =>
              inl ({| logDir := logDir; logStore := logStore; stableDir := stableDir;
                      stableStore := stableStore; snapDir := snapDir;
                      membership := new_membership chans |}, snapStore)
          end
      end
  end.

Definition remove_dir (removeStorage : bool) (dir : string) (disk : Disk) : Disk :=
  if removeStorage && negb (String.eqb dir "") then RemoveAll dir disk else disk.

Definition Close (removeStorage : bool) (disk : Disk) (s : RaftStore PebbleBinding)
    : goerr * Disk * RaftStore PebbleBinding :=
  let '(disk, lg) := Pebble.Close disk (logStore s) in
  let '(disk, st) := Pebble.Close disk (stableStore s) in
  let disk := remove_dir removeStorage (logDir s) disk in
  let disk := remove_dir removeStorage (stableDir s) disk in
  let disk := remove_dir removeStorage (snapDir s) disk in
  (None, disk, with_stable st (with_log lg s)).
End Pebble_.

(** ** The log store is a map from indices to entries *)

Section LogLaws.
Context `{MapRange} {B : Type} `{StoreApiLaws B} `{HraftLog} `{MsgPack Log}.

(** [abs] is the log in the pairs [m]: the keys are those of its indices, the
    values its encoded entries. *)
Definition log_pairs (m : gmap bytes bytes) (abs : gmap Z Log) : Prop :=
  (forall i log, abs !! i = Some log -> in_uint 64 i /\ exists v, EncodeMsgPack log = (Some v, None)) /\
  forall k v, m !! k = Some v <->
    exists i log, in_uint 64 i /\ k = key_of i /\ abs !! i = Some log /\ EncodeMsgPack log = (Some v, None).

(** The log a store holds. *)
Definition log_rel (s : RaftStore B) (abs : gmap Z Log) : Prop :=
  exists m, store_view (logStore s) = Some m /\ log_pairs m abs.

Lemma log_pairs_insert abs m v log :
  log_pairs m abs -> in_uint 64 (log_Index log) -> EncodeMsgPack log = (Some v, None) ->
  log_pairs (<[key_of (log_Index log) := v]> m) (<[log_Index log := log]> abs).
Proof.
  intros [Hin Hm] Hi Hv. split.
  - intros i l [[<- <-]|[_ Hl]]%lookup_insert_Some; [eauto|by apply Hin].
  - intros k w. rewrite lookup_insert_Some, Hm. split.
    + intros [[<- <-]|[Hne (i & l & Hu & -> & Hl & He)]].
      * exists (log_Index log), log. by rewrite lookup_insert_eq.
      * exists i, l. rewrite lookup_insert_ne; [done|]. congruence.
    + intros (i & l & Hu & -> & Hl & He). destruct (decide (i = log_Index log)) as [->|Hne].
      * left. rewrite lookup_insert_eq in Hl. injection Hl as <-. split; [done|congruence].
      * right. rewrite lookup_insert_ne in Hl by done. split; [|by exists i, l].
        intros E. apply Hne. symmetry. by apply key_of_inj.
Qed.

(** The indices a range deletion deletes: those from [min] to [max], except
    that up to the largest 64-bit number, after which there is no key to pass
    as the end, it depends on what a missing end key means. *)
Definition deletes (unbounded : bool) (min max i : Z) : Prop :=
  min <= i <= max /\ (max = MaxUint64 -> unbounded = true).
#[global] Instance deletes_dec u min max i : Decision (deletes u min max i).
Proof. unfold deletes. apply _. Defined.

(** The end key [DeleteRange] passes. *)
Definition end_key (max : Z) : slice :=
  if max =? MaxUint64 then api_KeyUpperBound (uint64ToBytes max) else uint64ToBytes (uint64 (max + 1)).

Lemma end_key_largest : end_key MaxUint64 = None.
Proof. apply KeyUpperBound_nil. vm_compute. repeat constructor. Qed.

Lemma key_in_range u min max i :
  in_uint 64 min -> in_uint 64 max -> in_uint 64 i ->
  in_range (uint64ToBytes min) (deletion_end u (end_key max)) (key_of i) <-> deletes u min max i.
Proof.
  intros Hmin Hmax Hi. unfold in_range, above, deletes.
  change (sl (uint64ToBytes min)) with (key_of min). rewrite key_of_le by done.
  destruct (decide (max = MaxUint64)) as [->|Hne].
  - rewrite end_key_largest. unfold deletion_end, in_uint in *. destruct u; [simpl; naive_solver lia|].
    split; [intros [_ Hk]; by apply below_empty in Hk|]. intros [_ Hu]. by discriminate Hu.
  - unfold end_key. rewrite (proj2 (Z.eqb_neq _ _) Hne).
    assert (in_uint 64 (max + 1)) as Hm1 by (unfold in_uint in *; lia). rewrite uwrap_id by done.
    change (deletion_end u (uint64ToBytes (max + 1))) with (Some (key_of (max + 1))). unfold below.
    rewrite key_of_lt by done. naive_solver lia.
Qed.

Lemma log_pairs_delete u abs m min max :
  log_pairs m abs -> in_uint 64 min -> in_uint 64 max ->
  log_pairs (filter (fun kv => ~ in_range (uint64ToBytes min) (deletion_end u (end_key max)) kv.1) m)
    (filter (fun il => ~ deletes u min max il.1) abs).
Proof.
  intros [Hin Hm] Hmin Hmax. split.
  - intros i l [Hl _]%map_lookup_filter_Some. by apply Hin.
  - intros k w. rewrite map_lookup_filter_Some, Hm. split.
    + intros [(i & l & Hu & -> & Hl & He) Hr]. exists i, l. split_and!; [done|done| |done].
      apply map_lookup_filter_Some. split; [done|]. simpl in *. by rewrite <- key_in_range.
    + intros (i & l & Hu & -> & [Hl Hr]%map_lookup_filter_Some & He). split; [by exists i, l|].
      simpl in *. by rewrite key_in_range.
Qed.

(** The indices in [abs] and the scanned pairs, in the same order. *)
Lemma scan_all_pairs s abs m l :
  log_rel s abs -> store_view (logStore s) = Some m -> sorted_items m None None l ->
  (forall k v, (k, v) ∈ l <-> m !! k = Some v) /\
  (forall i a, abs !! i = Some a -> key_of i ∈ l.*1) /\
  (forall k, k ∈ l.*1 -> exists i, is_Some (abs !! i) /\ in_uint 64 i /\ k = key_of i).
Proof.
  intros (m0 & Hm0 & Hin & Hm) Hs [Hsort Hel]. assert (m0 = m) as -> by congruence.
  assert (forall k v, (k, v) ∈ l <-> m !! k = Some v) as Hel'.
  { intros k v. rewrite Hel. split; [by intros []|]. intros. split; [done|]. split; [apply bytes_nil_le|done]. }
  split_and!; [done| |].
  - intros i a Ha. destruct (Hin i a Ha) as (Hu & v & Hv). apply list_elem_of_fmap.
    exists (key_of i, v). split; [done|]. apply Hel', Hm. by exists i, a.
  - intros k ([k' v] & -> & Hkv)%list_elem_of_fmap.
    apply Hel', Hm in Hkv as (i & a & Hu & -> & Ha & _). eauto.
Qed.

Lemma sorted_head_least k (l : list bytes) k' : StronglySorted bytes_lt (k :: l) -> k' ∈ k :: l -> bytes_le k k'.
Proof.
  intros [_ Hf]%StronglySorted_inv [-> | Hin]%elem_of_cons; [apply bytes_le_refl|].
  apply bytes_le_lteq. left. rewrite Forall_forall in Hf. auto.
Qed.

Lemma sorted_last_greatest k (l : list bytes) k' : StronglySorted bytes_lt (l ++ [k]) -> k' ∈ l ++ [k] -> bytes_le k' k.
Proof.
  intros Hs [Hin|Hin%list_elem_of_singleton]%elem_of_app; [|subst k'; apply bytes_le_refl].
  apply bytes_le_lteq. left. induction l as [|x l IH]; [by apply not_elem_of_nil in Hin|].
  apply StronglySorted_inv in Hs as [Hs Hf]. apply elem_of_cons in Hin as [->|Hin]; [|auto].
  rewrite Forall_forall in Hf. apply Hf. apply elem_of_app. right. left.
Qed.

(** The least and the greatest index, 0 for an empty log. *)
Definition least_index (abs : gmap Z Log) (i : Z) : Prop :=
  (abs = ∅ /\ i = 0) \/ (is_Some (abs !! i) /\ forall j, is_Some (abs !! j) -> i <= j).
Definition greatest_index (abs : gmap Z Log) (i : Z) : Prop :=
  (abs = ∅ /\ i = 0) \/ (is_Some (abs !! i) /\ forall j, is_Some (abs !! j) -> j <= i).

Lemma no_pairs_empty s abs m : log_rel s abs -> store_view (logStore s) = Some m -> sorted_items m None None [] -> abs = ∅.
Proof.
  intros Hrel Hs Hl. destruct (scan_all_pairs s abs m [] Hrel Hs Hl) as (_ & Hk & _).
  apply map_eq. intros i. rewrite lookup_empty. destruct (abs !! i) as [a|] eqn:E; [|done].
  by apply Hk, not_elem_of_nil in E.
Qed.

Lemma log_rel_index s abs i : log_rel s abs -> is_Some (abs !! i) -> in_uint 64 i.
Proof. intros (m & _ & Hin & _) [a Ha]. by apply (Hin i a). Qed.

Lemma index_of_first s abs m l :
  log_rel s abs -> store_view (logStore s) = Some m -> sorted_items m None None l ->
  exists i, scan_items first_key l (Some 0) = Some i /\ least_index abs i.
Proof.
  intros Hrel Hs Hl. destruct (scan_all_pairs s abs m l Hrel Hs Hl) as (_ & Hk & Hk').
  destruct l as [|[k v] l].
  - exists 0. split; [done|]. left. split; [by eapply no_pairs_empty|done].
  - destruct (Hk' k) as (i & Hi & Hu & ->); [left|]. exists i. split; [by apply bytesToUint64_key|].
    right. split; [done|]. intros j [b Hb]. apply key_of_le; [done|apply (log_rel_index s abs); eauto|].
    eapply sorted_head_least; [apply (items_sorted _ _ _ _ Hl)|]. by apply (Hk j b).
Qed.

Lemma index_of_last s abs m l :
  log_rel s abs -> store_view (logStore s) = Some m -> sorted_items m None None l ->
  exists i, scan_items first_key (reverse l) (Some 0) = Some i /\ greatest_index abs i.
Proof.
  intros Hrel Hs Hl. destruct (scan_all_pairs s abs m l Hrel Hs Hl) as (_ & Hk & Hk').
  destruct l as [|[k v] l _] using rev_ind.
  - exists 0. split; [done|]. left. split; [by eapply no_pairs_empty|done].
  - rewrite fmap_app in Hk, Hk'. simpl in Hk, Hk'. pose proof (items_sorted _ _ _ _ Hl) as Hsort.
    rewrite fmap_app in Hsort. simpl in Hsort.
    destruct (Hk' k) as (i & Hi & Hu & ->); [apply elem_of_app; right; left|]. exists i.
    rewrite reverse_snoc. split; [by apply bytesToUint64_key|].
    right. split; [done|]. intros j [b Hb]. apply key_of_le; [apply (log_rel_index s abs); eauto|done|].
    eapply sorted_last_greatest; [exact Hsort|]. by apply (Hk j b).
Qed.

(** A client of the log store: what it does, and what that means. *)
Inductive LogOp :=
  | OpStore (logs : list Log)
  | OpDelete (min max : Z).

Definition log_op (op : LogOp) : M (RaftStore B) goerr :=
  match op with
  | OpStore logs => StoreLogs logs
  | OpDelete min max => fun s => let '(err, s') := DeleteRange min max s in Ret err s'
  end.

(** The operations in turn, up to the first error. *)
Fixpoint log_ops (ops : list LogOp) : M (RaftStore B) goerr :=
  match ops with
  | [] => mret None
  | op :: ops =>
      let! err := log_op op in
      match err with
      | Some e => mret (Some e)
      | None => log_ops ops
      end
  end.

Definition abs_op (unbounded : bool) (abs : gmap Z Log) (op : LogOp) : gmap Z Log :=
  match op with
  | OpStore logs => foldl (fun a log => <[log_Index log := log]> a) abs logs
  | OpDelete min max => filter (fun il => ~ deletes unbounded min max il.1) abs
  end.

(** Indices are 64-bit numbers. *)
Definition op_ok (op : LogOp) : Prop :=
  match op with
  | OpStore logs => Forall (fun log => in_uint 64 (log_Index log)) logs
  | OpDelete min max => in_uint 64 min /\ in_uint 64 max
  end.

Lemma on_membership_log (m : M Membership unit) (s : RaftStore B) a s' :
  on_membership m s = Ret a s' -> logStore s' = logStore s.
Proof. unfold on_membership. destruct (m (membership s)); try done. by intros [= _ <-]. Qed.

Lemma StoreLogs_rel logs s s' abs :
  log_rel s abs -> Forall (fun log => in_uint 64 (log_Index log)) logs ->
  StoreLogs logs s = Ret None s' ->
  log_rel s' (foldl (fun a log => <[log_Index log := log]> a) abs logs).
Proof.
  revert s abs. induction logs as [|log logs IH]; intros s abs Hrel Hidx Hrun.
  - injection Hrun as <-. done.
  - apply Forall_cons in Hidx as [Hi Hidx]. simpl in Hrun.
    set (pre := if log_IsConfiguration log then _ else _) in Hrun.
    unfold mbind at 1 in Hrun. destruct (pre s) as [[] s1|s1|msg] eqn:Epre; [|done|done].
    assert (logStore s1 = logStore s) as E1.
    { unfold pre in Epre. destruct (log_IsConfiguration log); [by eapply on_membership_log|].
      by injection Epre as <-. }
    destruct (EncodeMsgPack log) as [b [e|]] eqn:Eenc; [done|].
    unfold mbind at 1, mget in Hrun.
    destruct (api_SetB (logStore s1) (uint64ToBytes (log_Index log)) b) as [[e|] st] eqn:Eset; [done|].
    unfold mbind, mput in Hrun.
    destruct (SetB_open _ _ _ _ Eset) as (m & v & Hm & -> & Hv). rewrite E1 in Hm.
    destruct Hrel as (m' & Hm' & Hp). assert (m' = m) as -> by congruence.
    apply (IH (with_log st s1)); [|done|exact Hrun]. eexists. split; [exact Hv|]. by apply log_pairs_insert.
Qed.

Lemma DeleteRange_rel min max s s' abs :
  log_rel s abs -> op_ok (OpDelete min max) -> DeleteRange min max s = (None, s') ->
  log_rel s' (abs_op nil_end_unbounded abs (OpDelete min max)).
Proof.
  intros (m' & Hm' & Hp) (Hmin & Hmax). unfold DeleteRange. fold (end_key max).
  destruct (api_DeleteRangeB _ _ _) as [err st] eqn:E. intros [= -> <-].
  destruct (DeleteRangeB_open _ _ _ _ E) as (m & Hm & Hv). assert (m' = m) as -> by congruence.
  eexists. split; [exact Hv|]. by apply log_pairs_delete.
Qed.

Lemma log_ops_rel (ops : list LogOp) (s s' : RaftStore B) (abs : gmap Z Log) :
  log_rel s abs -> Forall op_ok ops -> log_ops ops s = Ret None s' ->
  log_rel s' (foldl (abs_op nil_end_unbounded) abs ops).
Proof.
  revert s abs. induction ops as [|op ops IH]; intros s abs Hrel Hok Hrun.
  - by injection Hrun as <-.
  - apply Forall_cons in Hok as [Hop Hok]. simpl in Hrun. unfold mbind at 1 in Hrun.
    destruct (log_op op s) as [[e|] s1|s1|msg] eqn:Eop; [done| |done|done].
    apply (IH s1); [|done|done]. destruct op as [logs|min max]; simpl in *.
    + by apply (StoreLogs_rel logs s).
    + destruct (DeleteRange min max s) as [err s2] eqn:ED. injection Eop as -> ->.
      by apply (DeleteRange_rel min max s).
Qed.

(** C10: the log store refines a map from indices to entries: storing entries
    and deleting ranges of indices, in any number and order, leaves it
    holding exactly the entries these operations leave in the map, whether
    or not configuration entries announce members on the way.  A deletion
    includes both ends; one up to the largest 64-bit number, for which the
    source passes no end key, deletes all entries from its start on if the
    engine takes this as no bound, and none if as the empty key. *)
Theorem RaftStore_refines_log (ops : list LogOp) (s s' : RaftStore B) (abs : gmap Z Log) :
  log_rel s abs -> Forall op_ok ops -> log_ops ops s = Ret None s' ->
  log_rel s' (foldl (abs_op nil_end_unbounded) abs ops).
Proof. apply log_ops_rel. Qed.

(** C31: what Raft reads from the log store.  A successful [FirstIndex]
    ([LastIndex]) yields the least (greatest) index held, or 0 for an empty
    log, never panics, and terminates with fuel for one step more than the
    store has pairs.  [GetLog] of an index fails with the storage's error,
    reports that it holds no such entry, or decodes the entry stored. *)
Theorem RaftStore_reads_log (good : Log -> Prop) (rel : Log -> Log -> Prop) `{!MsgPackLaws Log good rel}
    (fuel : nat) (s : RaftStore B) (abs : gmap Z Log) :
  log_rel s abs ->
  (forall r, FirstIndex fuel s = Some (r, None) -> exists i, r = Some i /\ least_index abs i) /\
  (forall r, LastIndex fuel s = Some (r, None) -> exists i, r = Some i /\ greatest_index abs i) /\
  ((forall m, store_view (logStore s) = Some m -> (size m < fuel)%nat) ->
     is_Some (FirstIndex fuel s) /\ is_Some (LastIndex fuel s)) /\
  (forall i, in_uint 64 i ->
     let '(log, err) := GetLog s i mp_zero in
     (exists e, (api_GetB (logStore s) (uint64ToBytes i)).2 = Some e /\ err = Some e) \/
     match abs !! i with
     | None => err = Some hraft_ErrLogNotFound
     | Some stored => good stored -> err = None /\ rel stored log
     end).
Proof.
  intros Hrel. split_and!.
  - intros r. unfold FirstIndex, index_of_scan.
    destruct (api_ScanRangeB _ _ _ _ _ _) as [[[e|] f]|] eqn:E; intros [= <-].
    destruct (ScanRangeB_open _ _ _ _ _ _ _ _ E) as (m & l & Hm & Hl & ->). by eapply index_of_first.
  - intros r. unfold LastIndex, index_of_scan.
    destruct (api_ScanRangeReverseB _ _ _ _ _ _) as [[[e|] f]|] eqn:E; intros [= <-].
    destruct (ScanRangeReverseB_open _ _ _ _ _ _ _ _ E) as (m & l & Hm & Hl & ->). by eapply index_of_last.
  - intros Hf. destruct (Scan_fuel (option Z) fuel (logStore s) None None first_key (Some 0) Hf) as [[[[e|] a] Ha] [[[e'|] b] Hb]];
      unfold FirstIndex, LastIndex, index_of_scan; rewrite Ha, Hb; split; by eexists.
  - intros i Hi. unfold GetLog. destruct (api_GetB _ _) as [v [e|]] eqn:E; [destruct v; left; eauto|].
    destruct (GetB_open _ _ _ E) as (m & Hm & Hv).
    destruct Hrel as (m0 & Hm0 & Hin & Hmap). assert (m0 = m) as -> by congruence.
    change (sl (uint64ToBytes i)) with (key_of i) in Hv.
    destruct (match v with Some _ => _ | None => _ end) as [log err] eqn:EG. right.
    destruct (abs !! i) as [a|] eqn:Ea.
    + destruct (Hin i a Ea) as (_ & w & Hw). assert (m !! key_of i = Some w) as Hk by (apply Hmap; by exists i, a).
      rewrite Hk in Hv. subst v. intros Hg. destruct (mp_roundtrip a Hg) as (b & a' & Hb & Hd & Hr).
      unfold EncodeMsgPack in Hw. assert (b = w) as -> by congruence.
      unfold DecodeMsgPack in EG. simpl in EG. split; congruence.
    + destruct v as [v|]; [|by injection EG as _ <-].
      symmetry in Hv. apply Hmap in Hv as (j & a & Hj & Hk & Ha & _). apply key_of_inj in Hk as <-; [congruence|done|done].
Qed.
End LogLaws.

(** ** Observers of the membership *)

Section MembersSystem.
Context `{MapRange}.
Implicit Types s : Membership.

Definition mhistory s (c : nat) : list MembershipChange :=
  match mchans s !! c with
  | Some mc => msent mc
  | None => []
  end.

(** The members an observer knows: a member joins only if it was not one, and
    leaves only if it was. *)
Definition member_step (m : option (gmap string unit)) (ch : MembershipChange) : option (gmap string unit) :=
  match m with
  | None => None
  | Some m =>
      match Joined ch, m !! Id ch with
      | true, None => Some (<[Id ch := tt]> m)
      | false, Some _ => Some (delete (Id ch) m)
      | _, _ => None
      end
  end.

Definition members_known (h : list MembershipChange) : option (gmap string unit) :=
  foldl member_step (Some ∅) h.

Lemma members_known_snoc h ch : members_known (h ++ [ch]) = member_step (members_known h) ch.
Proof. unfold members_known. by rewrite foldl_app. Qed.

Definition mobserved s (c : nat) : Prop := exists id, observers s !! id = Some c.

(** From [s] to [s'] the changes [new c] were sent on each channel [c]. *)
Record msends s s' (new : nat -> list MembershipChange) : Prop := {
  msends_observers : observers s' = observers s;
  msends_next : nextObserverId s' = nextObserverId s;
  msends_members : memberIds s' = memberIds s;
  msends_chans : forall c, is_Some (mchans s' !! c) <-> is_Some (mchans s !! c);
  msends_history : forall c, mhistory s' c = mhistory s c ++ new c;
}.

Lemma send_change_inv c ch s s' :
  send_change c ch s = Ret tt s' -> msends s s' (fun d => if decide (d = c) then [ch] else []).
Proof.
  unfold send_change. destruct (mchans s !! c) as [mc|] eqn:Ec; [|done].
  destruct (mclosed mc); [done|]. intros [= <-]. split; simpl; try done.
  - intros d. rewrite lookup_insert_is_Some'. split; [|by right]. intros [<-|?]; [by eexists|done].
  - intros d. unfold mhistory. simpl. destruct (decide (d = c)) as [->|Hne].
    + by rewrite lookup_insert_eq, Ec.
    + rewrite lookup_insert_ne by done. by rewrite app_nil_r.
Qed.

Lemma msends_refl s : msends s s (fun _ => []).
Proof. split; try done. intros c. by rewrite app_nil_r. Qed.

Lemma msends_trans s1 s2 s3 new1 new2 :
  msends s1 s2 new1 -> msends s2 s3 new2 -> msends s1 s3 (fun c => new1 c ++ new2 c).
Proof.
  intros [A1 B1 C1 D1 E1] [A2 B2 C2 D2 E2]. split; try congruence.
  - intros c. by rewrite D2.
  - intros c. by rewrite E2, E1, app_assoc.
Qed.

(** Sending a change to channels in turn. *)
Lemma send_all_inv (os : list (Z * nat)) ch s s' :
  NoDup os.*2 -> mfor os (fun o => send_change o.2 ch) s = Ret tt s' ->
  msends s s' (fun d => if decide (d ∈ os.*2) then [ch] else []).
Proof.
  revert s. induction os as [|[id c] os IH]; intros s Hnd Hrun.
  - injection Hrun as <-. split; try done. intros c. rewrite decide_False by apply not_elem_of_nil.
    by rewrite app_nil_r.
  - apply NoDup_cons in Hnd as [Hn Hnd]. simpl in Hrun. unfold mbind in Hrun.
    destruct (send_change c ch s) as [[] s1|s1|msg] eqn:E; [|done|done].
    pose proof (msends_trans _ _ _ _ _ (send_change_inv _ _ _ _ E) (IH s1 Hnd Hrun)) as [? ? ? ? Hh].
    split; try done. intros d. rewrite Hh. f_equal. simpl.
    destruct (decide (d = c)) as [->|Hne].
    + rewrite (decide_False (P := c ∈ os.*2)) by done. by rewrite decide_True by left.
    + destruct (decide (d ∈ os.*2)) as [Hd|Hd].
      * by rewrite decide_True by (by right).
      * rewrite decide_False; [done|]. by intros [?|?]%elem_of_cons.
Qed.

Definition observe_once s : Prop :=
  forall id id' c, observers s !! id = Some c -> observers s !! id' = Some c -> id = id'.

Lemma announce_all_inv ch s s' :
  observe_once s -> announce_all ch s = Ret tt s' ->
  exists new, msends s s' new /\ (forall c, mobserved s c -> new c = [ch]) /\ (forall c, ~ mobserved s c -> new c = []).
Proof.
  intros H1 Hrun. unfold announce_all, mbind, mget in Hrun.
  assert (forall c, c ∈ (range (observers s)).*2 <-> mobserved s c) as Hel.
  { intros c. rewrite list_elem_of_fmap. split.
    - intros ([id d] & -> & Hin). exists id. by apply elem_of_range.
    - intros [id Hid]. exists (id, c). split; [done|]. by apply elem_of_range. }
  eexists. split; [eapply send_all_inv; [|exact Hrun]|].
  - apply NoDup_fmap_2_strong; [|apply (NoDup_fmap_1 fst), NoDup_range_keys].
    intros [a x] [b y] Hx Hy E. simpl in E. subst y. apply elem_of_range in Hx, Hy.
    by rewrite (H1 a b x).
  - simpl. split; intros c Hc.
    + by rewrite decide_True by (by apply Hel).
    + by rewrite decide_False by (by rewrite Hel).
Qed.

(** Every observer knows the members. *)
Definition informed s : Prop := forall c, mobserved s c -> members_known (mhistory s c) = Some (memberIds s).

Lemma announce_keeps s0 s s' ch m :
  announce_all ch s = Ret tt s' -> observe_once s ->
  s = set_members m s0 -> informed s0 -> member_step (Some (memberIds s0)) ch = Some m ->
  informed s' /\ observers s' = observers s0 /\ memberIds s' = m.
Proof.
  intros Hrun H1 -> Hi Hstep. destruct (announce_all_inv _ _ _ H1 Hrun) as (new & [A B C D E] & Hnew & _).
  simpl in *. split_and!; [|done|done]. intros c [id Hc]. rewrite A in Hc.
  rewrite E, Hnew, members_known_snoc by (by exists id). rewrite C.
  change (mhistory (set_members m s0) c) with (mhistory s0 c). rewrite Hi by (by exists id). done.
Qed.

(** Only what observers were sent may differ, and the members. *)
Record quiet s0 s : Prop := {
  quiet_observers : observers s = observers s0;
  quiet_next : nextObserverId s = nextObserverId s0;
  quiet_chans : forall c, is_Some (mchans s !! c) <-> is_Some (mchans s0 !! c);
  quiet_history : forall c, ~ mobserved s0 c -> mhistory s c = mhistory s0 c;
}.

Lemma quiet_refl s : quiet s s.
Proof. done. Qed.

Lemma quiet_trans s1 s2 s3 : quiet s1 s2 -> quiet s2 s3 -> quiet s1 s3.
Proof.
  intros [A1 B1 C1 D1] [A2 B2 C2 D2]. split; try congruence.
  - intros c. by rewrite C2.
  - intros c Hc. rewrite D2, D1; [done|done|]. unfold mobserved. by rewrite A1.
Qed.

Lemma announce_member ch m s s' :
  announce_all ch (set_members m s) = Ret tt s' -> observe_once s -> informed s ->
  member_step (Some (memberIds s)) ch = Some m ->
  informed s' /\ quiet s s' /\ memberIds s' = m.
Proof.
  intros Hrun H1 Hi Hstep.
  destruct (announce_keeps s _ _ _ m Hrun H1 eq_refl Hi Hstep) as (Hi' & Ho & Hm).
  split_and!; [done| |done]. destruct (announce_all_inv _ (set_members m s) _ H1 Hrun) as (new & [A B C D E] & _ & Hnew).
  split; [done|done|done|]. intros c Hc. rewrite E, Hnew by done. by rewrite app_nil_r.
Qed.

Definition informed_since s0 s : Prop := informed s /\ quiet s0 s.

Lemma once_quiet s0 s : quiet s0 s -> observe_once s0 -> observe_once s.
Proof. intros [A _ _ _]. unfold observe_once. by rewrite A. Qed.

Lemma leave_loop (servers : list string) xs s0 s s' :
  observe_once s0 ->
  informed_since s0 s -> NoDup xs.*1 -> (forall kv, kv ∈ xs -> is_Some (memberIds s !! kv.1)) ->
  mfor xs (fun kv : string * unit =>
      if decide (kv.1 ∈ servers) then mret tt
      else run! modify (fun s => set_members (delete kv.1 (memberIds s)) s);
           announce_all {| Id := kv.1; Joined := false |}) s = Ret tt s' ->
  informed_since s0 s'.
Proof.
  intros H1 Hi Hnd Hin Hrun.
  apply (mfor_invariant (fun xs s => informed_since s0 s /\ NoDup xs.*1 /\
    forall kv, kv ∈ xs -> is_Some (memberIds s !! kv.1))) in Hrun; [by destruct Hrun| |done].
  clear -H1. intros kv xs s s' ([Hi Hq] & Hnd & Hin) Hrun. apply NoDup_cons in Hnd as [Hn Hnd].
  assert (forall kv', kv' ∈ xs -> kv'.1 <> kv.1) as Hne.
  { intros kv' Hkv' E. apply Hn. rewrite <- E. by apply list_elem_of_fmap_2. }
  destruct (decide (kv.1 ∈ servers)).
  - injection Hrun as <-. split_and!; [done|done|]. intros kv' Hkv'. apply Hin. by right.
  - unfold mbind, modify, mget, mput in Hrun. simpl in Hrun.
    destruct (Hin kv ltac:(left)) as [[] Hkv].
    destruct (announce_member {| Id := kv.1; Joined := false |} _ s s' Hrun) as (Hi' & Hq' & Hm).
    { by eapply once_quiet. }
    { done. }
    { simpl. by rewrite Hkv. }
    split_and!; [split; [done|by eapply quiet_trans]|done|]. intros kv' Hkv'.
    rewrite Hm, lookup_delete_ne by (symmetry; auto). apply Hin. by right.
Qed.

Lemma join_loop servers s0 s s' :
  observe_once s0 -> informed_since s0 s -> mfor servers (add_member announce_all) s = Ret tt s' ->
  informed_since s0 s'.
Proof.
  intros H1 Hi Hrun. apply (mfor_invariant (fun _ s => informed_since s0 s)) in Hrun; [done| |done].
  clear -H1. intros id _ s s' [Hi Hq] Hrun. unfold add_member, mbind, mget, mput in Hrun.
  destruct (memberIds s !! id) as [[]|] eqn:E; [by injection Hrun as <-|].
  destruct (announce_member {| Id := id; Joined := true |} _ s s' Hrun) as (Hi' & Hq' & _).
  { by eapply once_quiet. }
  { done. }
  { simpl. by rewrite E. }
  split; [done|by eapply quiet_trans].
Qed.

Lemma servers_keeps servers s s' :
  observe_once s -> informed s -> sendMembershipChangesForServers servers s = Ret tt s' ->
  informed s' /\ quiet s s' /\ (observers s = ∅ -> s' = s).
Proof.
  intros H1 Hi Hrun. unfold sendMembershipChangesForServers in Hrun. unfold mbind at 1, mget in Hrun.
  destruct (decide (size (observers s) = 0%nat)) as [Hz|Hz].
  - injection Hrun as <-. by split_and!.
  - unfold mbind at 1 in Hrun.
    match type of Hrun with match ?x with _ => _ end = _ => destruct x as [[] s1|s1|msg] eqn:E; [|done|done] end.
    assert (informed_since s s1) as Hs1.
    { eapply (leave_loop servers (range (memberIds s)) s s); try done.
      - apply NoDup_range_keys.
      - intros [k v] Hin%elem_of_range. by eexists. }
    destruct (join_loop servers s s1 s' H1 Hs1 Hrun) as [Hi' Hq']. split_and!; [done|done|].
    intros Hempty. by rewrite Hempty, map_size_empty in Hz.
Qed.

(** The goroutine of a new observer, up to its registration. *)
Record introduced s0 s (o : nat) : Prop := {
  intro_observers : observers s = observers s0;
  intro_next : nextObserverId s = nextObserverId s0;
  intro_chans : forall c, is_Some (mchans s !! c) <-> is_Some (mchans s0 !! c);
  intro_history : forall c, c <> o -> mhistory s c = mhistory s0 c;
}.

Lemma introduced_send s0 s s1 s' o ch :
  introduced s0 s o -> mchans s1 = mchans s -> observers s1 = observers s -> nextObserverId s1 = nextObserverId s ->
  send_change o ch s1 = Ret tt s' ->
  introduced s0 s' o /\ mhistory s' o = mhistory s o ++ [ch] /\ memberIds s' = memberIds s1.
Proof.
  intros [A B C D] E1 E2 E3 Hs%send_change_inv. destruct Hs as [A' B' C' D' E'].
  assert (forall c, mhistory s1 c = mhistory s c) as Eh by (intros c; unfold mhistory; by rewrite E1).
  split_and!; [split| |done].
  - congruence.
  - congruence.
  - intros c. by rewrite D', E1.
  - intros c Hc. rewrite E', Eh, decide_False by done. rewrite app_nil_r. auto.
  - rewrite E', Eh, decide_True by done. done.
Qed.

Lemma first_observer servers o s s' :
  memberIds s = ∅ -> mhistory s o = [] ->
  mfor servers (add_member (send_change o)) s = Ret tt s' ->
  introduced s s' o /\ members_known (mhistory s' o) = Some (memberIds s').
Proof.
  intros Hm Hh Hrun.
  apply (mfor_invariant (fun _ s' => introduced s s' o /\ members_known (mhistory s' o) = Some (memberIds s'))) in Hrun; [done| |].
  - clear. intros id _ s1 s2 [Hi Hk] Hrun. unfold add_member, mbind, mget, mput in Hrun.
    destruct (memberIds s1 !! id) as [[]|] eqn:E; [by injection Hrun as <-|].
    destruct (introduced_send s s1 (set_members (<[id:=tt]> (memberIds s1)) s1) s2 o _ Hi eq_refl eq_refl eq_refl Hrun) as (Hi' & Hh & Hm).
    split; [done|]. rewrite Hh, members_known_snoc, Hk, Hm. simpl. by rewrite E.
  - split; [done|]. by rewrite Hh, Hm.
Qed.

Lemma late_observer o s s' :
  mhistory s o = [] ->
  mfor (range (memberIds s)) (fun kv => send_change o {| Id := kv.1; Joined := true |}) s = Ret tt s' ->
  introduced s s' o /\ memberIds s' = memberIds s /\ members_known (mhistory s' o) = Some (memberIds s').
Proof.
  intros Hh Hrun. set (P := fun (xs : list (string * unit)) s' => introduced s s' o /\ memberIds s' = memberIds s /\
    exists ys, range (memberIds s) = ys ++ xs /\ members_known (mhistory s' o) = Some (list_to_map ys)).
  apply (mfor_invariant P) in Hrun.
  - destruct Hrun as (Hi & Hm & ys & Hys & Hk). split_and!; [done|done|].
    rewrite Hk, Hm. f_equal. rewrite app_nil_r in Hys. rewrite <- Hys. apply map_eq. intros k. apply option_eq. intros v.
    rewrite <- elem_of_list_to_map by apply NoDup_range_keys. apply elem_of_range.
  - clear. intros [k []] xs s1 s2 (Hi & Hm & ys & Hys & Hk) Hrun.
    destruct (introduced_send s s1 s1 s2 o _ Hi eq_refl eq_refl eq_refl Hrun) as (Hi' & Hh & Hm').
    split_and!; [done|congruence|]. exists (ys ++ [(k, tt)]). split; [by rewrite <- app_assoc|].
    pose proof (NoDup_range_keys (memberIds s)) as Hnd. rewrite Hys, fmap_app in Hnd.
    apply NoDup_app in Hnd as (_ & Hdis & _).
    assert (k ∉ ys.*1) as Hn by (intros Hin; apply (Hdis k Hin); left).
    rewrite Hh, members_known_snoc, Hk. simpl. rewrite not_elem_of_list_to_map_1 by done.
    by rewrite list_to_map_snoc by done.
  - split_and!; [done|done|]. exists []. by rewrite Hh.
Qed.

End MembersSystem.

(** *** The system of observations and configuration changes *)

Section MSystem.
Context `{MapRange}.

Record MSys := {
  mem : Membership;
  starting : list (nat * Z);   (* observers whose goroutine has not run yet *)
}.

Inductive mstep (s : MSys) : MSys -> Prop :=
  | mstep_observe c n m' :
      mchans (mem s) !! c = None ->
      AddMembershipChangeObserver (set_mchan c {| msent := []; mclosed := false |} (mem s)) = Ret n m' ->
      mstep s {| mem := m'; starting := starting s ++ [(c, n)] |}
  | mstep_start k c n config m' :
      starting s !! k = Some (c, n) ->
      sendMembershipChangesForObserver config c n (mem s) = Ret tt m' ->
      mstep s {| mem := m'; starting := delete k (starting s) |}
  | mstep_change servers m' :
      sendMembershipChangesForServers servers (mem s) = Ret tt m' ->
      mstep s {| mem := m'; starting := starting s |}
  | mstep_remove id m' :
      RemoveMembershipChangeObserver id (mem s) = Ret tt m' ->
      mstep s {| mem := m'; starting := starting s |}
  | mstep_close c mc :
      mchans (mem s) !! c = Some mc ->
      mstep s {| mem := set_mchan c {| msent := msent mc; mclosed := true |} (mem s); starting := starting s |}.

Inductive mreachable : MSys -> Prop :=
  | mreachable_init : mreachable {| mem := new_membership ∅; starting := [] |}
  | mreachable_step s s' : mreachable s -> mstep s s' -> mreachable s'.

Record msys_ok (s : MSys) : Prop := {
  ms_once : observe_once (mem s);
  ms_informed : informed (mem s);
  ms_chans : forall c, mobserved (mem s) c -> is_Some (mchans (mem s) !! c);
  ms_none : observers (mem s) = ∅ -> memberIds (mem s) = ∅;
  ms_starting_once : NoDup (starting s).*1;
  ms_starting : forall c, c ∈ (starting s).*1 ->
    is_Some (mchans (mem s) !! c) /\ ~ mobserved (mem s) c /\ mhistory (mem s) c = [];
}.

Lemma msys_ok_quiet s m' :
  msys_ok s -> quiet (mem s) m' -> informed m' -> (observers (mem s) = ∅ -> m' = mem s) ->
  msys_ok {| mem := m'; starting := starting s |}.
Proof.
  intros [H1 Hi Hc Hn Hnd Hst] [A B C D] Hi' Hempty. split; simpl; try done.
  - by eapply once_quiet.
  - intros c [id Hid]. rewrite A in Hid. apply C, Hc. by exists id.
  - intros E. rewrite A in E. rewrite (Hempty E). auto.
  - intros c Hin. destruct (Hst c Hin) as (Hch & Hno & Hh). split_and!; [by apply C| |by rewrite D].
    unfold mobserved. by rewrite A.
Qed.

(** The observer [c] is registered, under whatever id. *)
Lemma msys_ok_register s k c n m m' id :
  msys_ok s -> starting s !! k = Some (c, n) -> introduced (mem s) m c ->
  members_known (mhistory m c) = Some (memberIds m) ->
  (forall d, mobserved (mem s) d -> memberIds m = memberIds (mem s)) ->
  m' = set_observers (<[id := c]> (observers m)) m ->
  msys_ok {| mem := m'; starting := delete k (starting s) |}.
Proof.
  intros [H1 Hi Hc Hn Hnd Hst] Hk [A B C D] Hknown Hsame ->.
  assert (c ∈ (starting s).*1) as Hcin.
  { apply list_elem_of_fmap. exists (c, n). split; [done|by eapply list_elem_of_lookup_2]. }
  destruct (Hst c Hcin) as (Hch & Hno & Hh).
  assert (forall d, mobserved (mem s) d -> d <> c) as Hneq by (intros d Hd ->; done).
  assert (forall i d, observers (mem s) !! i = Some d -> d <> c) as Hneq2.
  { intros i d Hd. apply Hneq. by exists i. }
  split; simpl.
  - intros i i' d. simpl. rewrite A, !lookup_insert_Some.
    intros [[<- <-]|[_ Hd]] [[<- E]|[_ Hd']]; try done.
    + by destruct (Hneq2 _ _ Hd').
    + by destruct (Hneq2 _ _ Hd).
    + eauto.
  - intros d [i Hid]. simpl in Hid. rewrite A in Hid.
    change (mhistory (set_observers _ m) d) with (mhistory m d). simpl.
    apply lookup_insert_Some in Hid as [[_ <-]|[_ Hid]]; [done|].
    assert (mobserved (mem s) d) as Hd by (by exists i).
    rewrite D by (by apply Hneq). rewrite Hsame with (d := d) by done. by apply Hi.
  - intros d [i Hid]. simpl in Hid. rewrite A in Hid. apply C.
    apply lookup_insert_Some in Hid as [[_ <-]|[_ Hid]]; [done|]. apply Hc. by exists i.
  - intros E. apply (f_equal (fun o : gmap Z nat => o !! id)) in E. by rewrite lookup_insert_eq, lookup_empty in E.
  - rewrite list_fmap_delete. eapply sublist_NoDup; [exact Hnd|]. apply sublist_delete.
  - intros d Hd. rewrite list_fmap_delete in Hd.
    assert (c = (starting s).*1 !!! k) as Hck by (symmetry; apply list_lookup_total_correct; by rewrite list_lookup_fmap, Hk).
    assert ((starting s).*1 !! k = Some c) as Hkc by (by rewrite list_lookup_fmap, Hk).
    assert (d <> c) as Hne.
    { intros ->. rewrite delete_take_drop in Hd. rewrite <- (take_drop_middle _ _ _ Hkc) in Hnd.
      apply NoDup_app in Hnd as (_ & Hx & [Hy _]%NoDup_cons). apply elem_of_app in Hd as [Hd|Hd]; [|done].
      apply (Hx c Hd). left. }
    destruct (Hst d) as (Hch' & Hno' & Hh'); [by eapply elem_of_list_delete|].
    split_and!; [by apply C| |rewrite <- Hh'; by apply D].
    intros [i Hid]. simpl in Hid. rewrite A in Hid. apply lookup_insert_Some in Hid as [[_ ?]|[_ Hid]]; [done|].
    apply Hno'. by exists i.
Qed.

(** A goroutine that only ends. *)
Lemma msys_ok_ended s k : msys_ok s -> msys_ok {| mem := mem s; starting := delete k (starting s) |}.
Proof.
  intros [H1 Hi Hc Hn Hnd Hst]. split; simpl; try done.
  - rewrite list_fmap_delete. eapply sublist_NoDup; [exact Hnd|]. apply sublist_delete.
  - intros c Hin. rewrite list_fmap_delete in Hin. apply Hst. by eapply elem_of_list_delete.
Qed.

Lemma msys_ok_start s k c n config m' :
  msys_ok s -> starting s !! k = Some (c, n) ->
  sendMembershipChangesForObserver config c n (mem s) = Ret tt m' ->
  msys_ok {| mem := m'; starting := delete k (starting s) |}.
Proof.
  intros Hok Hk Hrun. pose proof Hok as [H1 Hi Hc Hn Hnd Hst].
  destruct (Hst c) as (Hch & Hno & Hh).
  { apply list_elem_of_fmap. exists (c, n). split; [done|by eapply list_elem_of_lookup_2]. }
  unfold sendMembershipChangesForObserver in Hrun. unfold mbind at 1, mget in Hrun.
  destruct (decide (size (observers (mem s)) = 0%nat)) as [Hz|Hz].
  - apply map_size_empty_iff in Hz. destruct config as [servers|err].
    + unfold mbind at 1 in Hrun. destruct (mfor servers _ (mem s)) as [[] m|m|msg] eqn:E; [|done|done].
      destruct (first_observer _ _ _ _ (Hn Hz) Hh E) as [Hint Hknown].
      eapply (msys_ok_register s k c n m m'); try done; [|by injection Hrun as <-].
      intros d [i Hd]. by rewrite Hz, lookup_empty in Hd.
    + injection Hrun as <-. by apply msys_ok_ended.
  - unfold mbind at 1 in Hrun. destruct (mfor _ _ (mem s)) as [[] m|m|msg] eqn:E; [|done|done].
    destruct (late_observer _ _ _ Hh E) as (Hint & Hmem & Hknown).
    eapply (msys_ok_register s k c n m m'); try done; by injection Hrun as <-.
Qed.

Lemma msys_ok_observe s c n m' :
  msys_ok s -> mchans (mem s) !! c = None ->
  AddMembershipChangeObserver (set_mchan c {| msent := []; mclosed := false |} (mem s)) = Ret n m' ->
  msys_ok {| mem := m'; starting := starting s ++ [(c, n)] |}.
Proof.
  intros [H1 Hi Hc Hn Hnd Hst] Hnew Hrun.
  injection Hrun as <- <-.
  assert (forall d, mobserved (mem s) d -> d <> c) as Hneq.
  { intros d Hd ->. destruct (Hc c Hd) as [x Hx]. congruence. }
  assert (c ∉ (starting s).*1) as Hns.
  { intros Hin. destruct (Hst c Hin) as ([x Hx] & _). congruence. }
  assert (forall d, d <> c -> mhistory (set_mchan c {| msent := []; mclosed := false |} (mem s)) d = mhistory (mem s) d) as Hhist.
  { intros d Hd. unfold mhistory. simpl. by rewrite lookup_insert_ne. }
  split; simpl; try done.
  + intros d Hd. etrans; [|by apply Hi]. f_equal. by apply Hhist, Hneq.
  + intros d Hd. rewrite lookup_insert_ne by (symmetry; by apply Hneq). by apply Hc.
  + rewrite fmap_app. apply NoDup_app. split_and!; [done| |apply NoDup_singleton].
    intros d Hd ->%list_elem_of_singleton. done.
  + intros d Hd. rewrite fmap_app in Hd. destruct (decide (d = c)) as [->|Hne].
    * split_and!; [rewrite lookup_insert_eq; by eexists|by intros Hd'%Hneq|].
      unfold mhistory. simpl. by rewrite lookup_insert_eq.
    * apply elem_of_app in Hd as [Hd|Hd]; [|by apply list_elem_of_singleton in Hd].
      destruct (Hst d Hd) as (? & ? & ?). split_and!; [by rewrite lookup_insert_ne|done|].
      etrans; [by apply Hhist|done].
Qed.

Lemma msys_ok_remove s id m' :
  msys_ok s -> RemoveMembershipChangeObserver id (mem s) = Ret tt m' -> msys_ok {| mem := m'; starting := starting s |}.
Proof.
  intros [H1 Hi Hc Hn Hnd Hst] Hrun.
  unfold RemoveMembershipChangeObserver, modify, mbind, mget, mput in Hrun. simpl in Hrun.
  assert (forall m, observers m = delete id (observers (mem s)) -> mchans m = mchans (mem s) ->
    (observers m = ∅ /\ memberIds m = ∅ \/ observers m <> ∅ /\ memberIds m = memberIds (mem s)) ->
    msys_ok {| mem := m; starting := starting s |}) as Hgen.
  { intros m Ho Hm Hcase. assert (forall d, mobserved m d -> mobserved (mem s) d) as Hobs.
    { intros d [i Hd]. rewrite Ho in Hd. apply lookup_delete_Some in Hd as [_ Hd]. by exists i. }
    assert (forall d, mhistory m d = mhistory (mem s) d) as Hhist by (intros d; unfold mhistory; by rewrite Hm).
    split; simpl; try done.
    - intros i i' d. rewrite Ho. intros [_ Hd]%lookup_delete_Some [_ Hd']%lookup_delete_Some. eauto.
    - intros d Hd. rewrite Hhist, Hi by auto. destruct Hcase as [[He _]|[_ ->]]; [|done].
      destruct Hd as [i Hd]. by rewrite He, lookup_empty in Hd.
    - intros d Hd. rewrite Hm. auto.
    - intros He. by destruct Hcase as [[_ ?]|[? _]].
    - intros d Hd. rewrite Hm, Hhist. destruct (Hst d Hd) as (? & Hno & ?). split_and!; auto. }
  destruct (decide (size (delete id (observers (mem s))) = 0%nat)) as [Hz|Hz]; injection Hrun as <-; apply Hgen; try done; simpl.
  + left. by apply map_size_empty_iff in Hz.
  + right. split; [|done]. intros E. by rewrite E, map_size_empty in Hz.
Qed.

Lemma msys_ok_close s c mc :
  msys_ok s -> mchans (mem s) !! c = Some mc ->
  msys_ok {| mem := set_mchan c {| msent := msent mc; mclosed := true |} (mem s); starting := starting s |}.
Proof.
  intros [H1 Hi Hc Hn Hnd Hst] Hmc.
  assert (forall d, mhistory (set_mchan c {| msent := msent mc; mclosed := true |} (mem s)) d = mhistory (mem s) d) as Hhist.
  { intros d. unfold mhistory. simpl. destruct (decide (d = c)) as [->|Hne]; [by rewrite lookup_insert_eq, Hmc|].
    by rewrite lookup_insert_ne. }
  assert (forall d, is_Some (mchans (mem s) !! d) ->
    is_Some (<[c := {| msent := msent mc; mclosed := true |}]> (mchans (mem s)) !! d)) as Hchs.
  { intros d Hd. rewrite lookup_insert_is_Some'. by right. }
  split; simpl; try done.
  + intros d Hd. rewrite Hhist. by apply Hi.
  + intros d Hd. by apply Hchs, Hc.
  + intros d Hd. destruct (Hst d Hd) as (? & ? & ?). split_and!; [by apply Hchs|done|by rewrite Hhist].
Qed.

Lemma msys_ok_step s s' : msys_ok s -> mstep s s' -> msys_ok s'.
Proof.
  intros Hok Hstep.
  destruct Hstep as [c n m' Hnew Hrun|k c n config m' Hk Hrun|servers m' Hrun|id m' Hrun|c mc Hmc].
  - by apply msys_ok_observe.
  - by eapply msys_ok_start.
  - destruct (servers_keeps servers _ _ (ms_once _ Hok) (ms_informed _ Hok) Hrun) as (Hi' & Hq & He).
    by apply msys_ok_quiet.
  - by eapply msys_ok_remove.
  - by apply msys_ok_close.
Qed.

(** C26: whatever the interleaving of observations, their goroutines, their
    removals and configuration changes, each registered observer has been
    told exactly of the current members: starting from none, every join it
    was sent was of a member it did not know, every leave of one it knew, and
    together they yield the members. *)
Theorem members_mirrored (s : MSys) (c : nat) :
  mreachable s -> mobserved (mem s) c ->
  members_known (mhistory (mem s) c) = Some (memberIds (mem s)).
Proof.
  intros Hr. assert (msys_ok s) as Hok; [|by apply (ms_informed s Hok)].
  induction Hr as [|s s' _ IH Hs]; [|by eapply msys_ok_step].
  split; simpl; try done; [by intros c0 [id Hid]|constructor|by intros ? ?%not_elem_of_nil].
Qed.
End MSystem.

(** ** The stable store *)

(** what is set in the stable store is read again, as bytes or as a
    64-bit number, until the key is set anew; a key never set is reported as
    [ErrKeyNotFound], with an empty value; the log is left alone. *)
Theorem stable_store_roundtrip {B} `{StoreApiLaws B} (s s1 s2 : RaftStore B) (k k2 : slice) (v : slice) (n : Z)
    (m : gmap bytes bytes) :
  store_view (stableStore s) = Some m ->
  Set_ k v s = (None, s1) -> SetUint64 k2 n s1 = (None, s2) -> in_uint 64 n -> sl k <> sl k2 ->
  logStore s2 = logStore s /\
  (forall r e, Get k s2 = (r, e) -> (api_GetB (stableStore s2) k).2 = None -> r = v /\ e = None) /\
  (forall r e, GetUint64 k2 s2 = (r, e) -> (api_GetB (stableStore s2) k2).2 = None -> r = Some n /\ e = None) /\
  (forall k3 r e, sl k3 <> sl k -> sl k3 <> sl k2 -> m !! sl k3 = None ->
     Get k3 s2 = (r, e) -> (api_GetB (stableStore s2) k3).2 = None -> r = Some [] /\ e = Some ErrKeyNotFound).
Proof.
  intros Hm. unfold Set_, SetUint64.
  destruct (api_SetB (stableStore s) k v) as [e1 st1] eqn:E1. intros [= -> <-].
  destruct (SetB_open _ _ _ _ E1) as (m0 & v' & Hm0 & -> & Hv1). assert (m0 = m) as -> by congruence.
  simpl. destruct (api_SetB st1 k2 (uint64ToBytes n)) as [e2 st2] eqn:E2. intros [= -> <-] Hn Hne.
  destruct (SetB_open _ _ _ _ E2) as (m1 & v2 & Hm1 & [= <-] & Hv2). assert (m1 = <[sl k := v']> m) as -> by congruence.
  change (_ :: _) with (key_of n) in Hv2. split_and!; [done|..].
  - intros r e HG Hok. unfold Get in HG. simpl in HG, Hok.
    destruct (api_GetB st2 k) as [w [e'|]] eqn:E; [done|].
    destruct (GetB_open _ _ _ E) as (m2 & Hm2 & ->). rewrite Hv2 in Hm2. injection Hm2 as <-.
    rewrite lookup_insert_ne, lookup_insert_eq in HG by done. by injection HG as <- <-.
  - intros r e HG Hok. unfold GetUint64 in HG. simpl in HG, Hok.
    destruct (api_GetB st2 k2) as [w [e'|]] eqn:E; [done|].
    destruct (GetB_open _ _ _ E) as (m2 & Hm2 & ->). rewrite Hv2 in Hm2. injection Hm2 as <-.
    rewrite lookup_insert_eq, bytesToUint64_key in HG by done. by injection HG as <- <-.
  - intros k3 r e H3 H4 Hnone HG Hok. unfold Get in HG. simpl in HG, Hok.
    destruct (api_GetB st2 k3) as [w [e'|]] eqn:E; [done|].
    destruct (GetB_open _ _ _ E) as (m2 & Hm2 & ->). rewrite Hv2 in Hm2. injection Hm2 as <-.
    rewrite !lookup_insert_ne, Hnone in HG by done. by injection HG as <- <-.
Qed.

(** the keys of the log are the indices in order: encoding preserves the
    order of 64-bit numbers, decoding gives them back, and only a key shorter
    than eight bytes makes decoding panic. *)
Theorem uint64_keys_ordered (a b : Z) (k : slice) :
  in_uint 64 a -> in_uint 64 b ->
  bytes_compare (sl (uint64ToBytes a)) (sl (uint64ToBytes b)) = (a ?= b) /\
  bytesToUint64 (uint64ToBytes a) = Some a /\
  (bytesToUint64 k = None <-> (length (sl k) < 8)%nat).
Proof.
  intros Ha Hb. split_and!; [by apply key_of_compare|by apply bytesToUint64_key|].
  unfold bytesToUint64. destruct (Nat.ltb_spec (length (sl k)) 8); split; intros; done || lia.
Qed.

(** ** Concrete runs *)

Module Run.
#[export] Instance run_order : MapRange := range_in_map_order.
Import MemEngine.

(** Entries: index, configuration or not, members, data. *)
Record entry := { e_index : Z; e_config : bool; e_servers : list string; e_data : string }.

#[export] Instance entry_log : HraftLog :=
  {| Log := entry; log_Index := e_index; log_IsConfiguration := e_config; log_Servers := e_servers |}.

#[export] Instance entry_eq_dec : EqDecision entry.
Proof. solve_decision. Defined.

#[export] Instance entry_countable : Countable entry.
Proof.
  apply (inj_countable' (fun e => (e_index e, e_config e, e_servers e, e_data e))
    (fun t => {| e_index := t.1.1.1; e_config := t.1.1.2; e_servers := t.1.2; e_data := t.2 |})).
  by intros [].
Defined.

Definition zero_entry : entry := {| e_index := 0; e_config := false; e_servers := []; e_data := "" |}.
#[export] Instance entry_codec : MsgPack Log := BitCodec.codec zero_entry.

Definition store0 : RaftStore PebbleBinding :=
  {| logDir := ""; logStore := mem_binding ∅; stableDir := ""; stableStore := mem_binding ∅; snapDir := "";
     membership := new_membership ∅ |}.

Definition entry_at (i : Z) : Log := {| e_index := i; e_config := false; e_servers := []; e_data := "x" |}.
Definition ops : list LogOp :=
  [OpStore [entry_at 3; entry_at 4; entry_at 5]; OpDelete 3 3; OpDelete 5 MaxUint64].

Definition store1 : RaftStore PebbleBinding :=
  match log_ops ops store0 with
  | Ret _ s => s
  | _ => store0
  end.

Lemma run_ops : log_ops ops store0 = Ret None store1.
Proof. by_vm. Qed.

Lemma store0_empty : log_rel store0 ∅.
Proof.
  exists ∅. split; [done|]. split; [by intros i l|]. intros k v. rewrite lookup_empty. split; [done|].
  by intros (i & l & _ & _ & Hl & _).
Qed.

Lemma ops_fine : Forall op_ok ops.
Proof.
  repeat constructor; simpl; unfold in_uint; lia || (intros; discriminate).
Qed.

(** Two observations, the goroutine of the first running after the second
    registration. *)
Definition open_empty : MemberChan := {| msent := []; mclosed := false |}.
Definition add (c : nat) (m : Membership) : Membership :=
  match AddMembershipChangeObserver (set_mchan c open_empty m) with
  | Ret _ m' => m'
  | _ => m
  end.
Definition start (c : nat) (n : Z) (m : Membership) : Membership :=
  match sendMembershipChangesForObserver (inl ["node"]) c n m with
  | Ret _ m' => m'
  | _ => m
  end.
Definition m2 : Membership := add 8 (add 7 (new_membership ∅)).
Definition m4 : Membership := start 8 2 (start 7 1 m2).

Lemma mreach4 : mreachable {| mem := m4; starting := [] |}.
Proof.
  eapply (mreachable_step {| mem := start 7 1 m2; starting := [(8%nat, 2)] |}).
  - eapply (mreachable_step {| mem := m2; starting := [(7%nat, 1); (8%nat, 2)] |}).
    + eapply (mreachable_step {| mem := add 7 (new_membership ∅); starting := [(7%nat, 1)] |}).
      * eapply mreachable_step; [apply mreachable_init|].
        by apply (mstep_observe {| mem := new_membership ∅; starting := [] |} 7 1).
      * by apply (mstep_observe {| mem := add 7 (new_membership ∅); starting := [(7%nat, 1)] |} 8 2).
    + apply (mstep_start {| mem := m2; starting := [(7%nat, 1); (8%nat, 2)] |} 0 7 1 (inl ["node"])); [done|by_vm].
  - apply (mstep_start {| mem := start 7 1 m2; starting := [(8%nat, 2)] |} 0 8 2 (inl ["node"])); [done|by_vm].
Qed.
End Run.

(** Both observers of the run were introduced to the members, yet only one is
    registered, under the id of the other registration: the first will never
    hear of a change, since its goroutine registered it under the latest id
    and not under its own. *)
Theorem observer_lost :
  exists s, @mreachable Run.run_order s /\ starting s = [] /\ (nextObserverId (mem s) = 2)%Z /\
    ~ mobserved (mem s) 7 /\ mhistory (mem s) 7 = [{| Id := "node"; Joined := true |}] /\
    observers (mem s) = {[2 := 8%nat]}.
Proof.
  exists {| mem := Run.m4; starting := [] |}.
  assert (observers Run.m4 = {[2 := 8%nat]}) as E by by_vm.
  split_and!; [apply Run.mreach4|done|by_vm| |by_vm|done].
  intros [id Hid]. simpl in Hid. rewrite E in Hid. apply lookup_singleton_Some in Hid as [_ ?]. discriminate.
Qed.

Import MemEngine Run.

Lemma RaftStore_refines_log_witness :
  log_rel Run.store1 (foldl (abs_op false) ∅ Run.ops) /\ size (foldl (abs_op false) ∅ Run.ops) = 2%nat.
Proof.
  split; [|vm_compute; reflexivity].
  apply (RaftStore_refines_log Run.ops Run.store0 Run.store1 ∅ Run.store0_empty Run.ops_fine Run.run_ops).
Defined.

Lemma RaftStore_reads_log_witness :
  FirstIndex 5 Run.store0 = Some (Some 0, None).
Proof.
  destruct (RaftStore_reads_log (fun _ => True) eq (MsgPackLaws0 := BitCodec.codec_laws _ _ _ (fun _ _ => eq_refl))
    5 Run.store0 ∅ Run.store0_empty) as (Hf & _).
  assert (exists r, FirstIndex 5 Run.store0 = Some (r, None)) as [r Hr] by (exists (Some 0); by_vm).
  destruct (Hf r Hr) as (i & -> & [[_ ->]|[[x Hx] _]]); [exact Hr|discriminate].
Defined.

Lemma members_mirrored_witness :
  members_known (mhistory Run.m4 8) = Some (memberIds Run.m4) /\ is_Some (memberIds Run.m4 !! "node").
Proof.
  split.
  - refine (@members_mirrored Run.run_order {| mem := Run.m4; starting := [] |} 8 Run.mreach4 _). by exists 2.
  - exists tt. by_vm.
Defined.

Definition bkey (s : string) : slice := Some (bytes_of_string s).
Definition stable1 : RaftStore PebbleBinding := (Set_ (bkey "k") (bkey "v") Run.store0).2.
Definition stable2 : RaftStore PebbleBinding := (SetUint64 (bkey "n") 77 stable1).2.

Lemma stable_store_roundtrip_witness :
  Get (bkey "k") stable2 = (bkey "v", None) /\ GetUint64 (bkey "n") stable2 = (Some 77, None).
Proof.
  destruct (stable_store_roundtrip Run.store0 stable1 stable2 (bkey "k") (bkey "n") (bkey "v") 77 ∅)
    as (_ & Hk & Hn & _); [reflexivity|by_vm|by_vm|unfold in_uint; lia|discriminate|].
  split.
  - destruct (Get (bkey "k") stable2) as [r e] eqn:E. destruct (Hk r e eq_refl) as [-> ->]; [by_vm|reflexivity].
  - destruct (GetUint64 (bkey "n") stable2) as [r e] eqn:E. destruct (Hn r e eq_refl) as [-> ->]; [by_vm|reflexivity].
Defined.

Lemma uint64_keys_ordered_witness :
  bytes_compare (sl (uint64ToBytes 255)) (sl (uint64ToBytes 256)) = Lt /\ bytesToUint64 (uint64ToBytes 255) = Some 255.
Proof.
  destruct (uint64_keys_ordered 255 256 None) as (H1 & H2 & _); [unfold in_uint; lia..|].
  split; [exact H1|exact H2].
Defined.
