(* ===== verification/Durability.v ===== *)
(** * What a Raft node keeps when it stops ([services/state/raft/store.go]
      on [services/store/pebble/pebble.go])

    Raft's safety rests on what its log and stable store have acknowledged
    being there again when the node comes back.  The store is opened on a
    directory, called, and then closed or lost in a crash, any number of
    times; what the calls, successful or not, leave is followed through the
    disk. *)

From S2P Require Import Prelude GoRuntime GoStrings Services Config StoreApi Pebble StateApi RaftStore.

Section Durability.
Context `{MapRange} `{PebbleLaws} `{HraftLog} `{MsgPack Log}.
(** [hraft.NewFileSnapshotStore], and [os.RemoveAll]. *)
Context {SnapshotStore : Type}.
Variable NewFileSnapshotStore : string -> Z -> SnapshotStore + error.
Variable NewInmemSnapshotStore : SnapshotStore.
Variable RemoveAll : string -> Disk -> Disk.

Abbreviation Store := (RaftStore PebbleBinding).

(** ** The calls of the Raft library *)

Inductive StoreCall :=
  | CallLog (op : LogOp)
  | CallSet (k v : slice)
  | CallSetUint64 (k : slice) (n : Z).

Definition store_call (c : StoreCall) : M Store goerr :=
  match c with
  | CallLog op => log_op op
  | CallSet k v => fun s => let '(err, s') := Set_ k v s in Ret err s'
  | CallSetUint64 k n => fun s => let '(err, s') := SetUint64 k n s in Ret err s'
  end.

(** The calls in turn, each with what it returned. *)
Inductive called : Store -> list (StoreCall * goerr) -> Store -> Prop :=
  | called_none s : called s [] s
  | called_one s c err s1 cs s2 :
      store_call c s = Ret err s1 -> called s1 cs s2 -> called s ((c, err) :: cs) s2.

(** What a call that returned makes of the log and of the stable values.  A
    call that failed has stored the first few of its entries, possibly none
    or all, and has deleted its range, or set its value, or not. *)
Definition log_effect (m : gmap Z Log) (call : StoreCall * goerr) (m' : gmap Z Log) : Prop :=
  match call with
  | (CallLog op, None) => m' = abs_op eng_nil_unbounded m op
  | (CallLog (OpStore logs), Some _) => exists k, m' = abs_op eng_nil_unbounded m (OpStore (take k logs))
  | (CallLog op, Some _) => m' = m \/ m' = abs_op eng_nil_unbounded m op
  | _ => m' = m
  end.

Definition stable_effect (m : gmap bytes bytes) (call : StoreCall * goerr) (m' : gmap bytes bytes) : Prop :=
  match call with
  | (CallLog _, _) => m' = m
  | (CallSet k v, err) => m' = <[sl k := sl v]> m \/ err <> None /\ m' = m
  | (CallSetUint64 k n, err) => m' = <[sl k := key_of n]> m \/ err <> None /\ m' = m
  end.

(** One effect after the other. *)
Inductive effects {A} (effect : A -> StoreCall * goerr -> A -> Prop) : A -> list (StoreCall * goerr) -> A -> Prop :=
  | effects_none a : effects effect a [] a
  | effects_one a call a1 cs a2 :
      effect a call a1 -> effects effect a1 cs a2 -> effects effect a (call :: cs) a2.

Lemma effects_app {A} (effect : A -> StoreCall * goerr -> A -> Prop) a cs cs' a1 a2 :
  effects effect a cs a1 -> effects effect a1 cs' a2 -> effects effect a (cs ++ cs') a2.
Proof. induction 1; [done|]. intros. eapply effects_one; eauto. Qed.

(** The widths of what the library passes. *)
Definition call_ok (c : StoreCall) : Prop :=
  match c with
  | CallLog op => op_ok op
  | CallSet _ _ => True
  | CallSetUint64 _ n => in_uint 64 n
  end.

(** ** One life of a node *)

Section OneLife.
Variable location : string.
Hypothesis Hlocation : location <> "".

Definition log_dir : string := filepath_Join [location; "log"].
Definition stable_dir : string := filepath_Join [location; "stable"].

Lemma dirs_differ : log_dir <> stable_dir.
Proof. apply filepath_Join_ne; [done|by split_and!..|done]. Qed.

Lemma plain_dir e : plain_name e -> filepath_Join [location; e] <> "".
Proof.
  intros He. destruct (Join_plain location Hlocation) as [pre Hpre]. rewrite Hpre by done.
  destruct He as (_ & He & _). by destruct pre.
Qed.

(** Pairs that encode one of the possible logs. *)
Definition some_log (P : gmap Z Log -> Prop) (m : gmap bytes bytes) : Prop := exists abs, P abs /\ log_pairs m abs.

(** What the directories on the disk hold: one of the possible contents. *)
Definition disk_holds (disk : Disk) (P : gmap Z Log -> Prop) (Q : gmap bytes bytes -> Prop) : Prop :=
  some_log P (disk_view disk log_dir) /\ Q (disk_view disk stable_dir).

(** What an open store reads, and has made durable. *)
Definition store_holds (s : Store) (P : gmap Z Log -> Prop) (Q : gmap bytes bytes -> Prop) : Prop :=
  holds_at log_dir (some_log P) (logStore s) /\ holds_at stable_dir Q (stableStore s).

Lemma some_log_mono (P P' : gmap Z Log -> Prop) m : (forall abs, P abs -> P' abs) -> some_log P m -> some_log P' m.
Proof. intros HP (abs & ? & ?). exists abs. auto. Qed.

(** The end of a life: the store is closed, with whatever errors of the
    engine, and its directories are kept, or the node crashes between two
    calls. *)
Inductive ends (s : Store) (disk : Disk) : Disk -> Prop :=
  | ends_close err disk' s' :
      RaftStore.Close RemoveAll false disk s = (err, disk', s') -> ends s disk disk'
  | ends_crash disk' :
      crashed (logStore s) disk' -> crashed (stableStore s) disk' -> ends s disk disk'.

Lemma New_holds uuid disk chans s snap P Q :
  disk_holds disk P Q ->
  NewRaftStore NewFileSnapshotStore NewInmemSnapshotStore uuid location disk chans = inl (s, snap) ->
  store_holds s P Q.
Proof.
  intros [Hlog Hst]. unfold NewRaftStore. rewrite (proj2 (String.eqb_neq _ _) Hlocation).
  fold log_dir stable_dir. destruct (NewFileSnapshotStore _ _); [|done].
  destruct (Pebble.Open (pebble_config uuid log_dir) disk {| db := None |}) as [[e|] lg] eqn:El; [done|].
  destruct (Pebble.Open (pebble_config uuid stable_dir) disk {| db := None |}) as [[e|] st] eqn:Es; [done|].
  intros [= <- _].
  apply Open_durable in El; [|by apply plain_dir]. apply Open_durable in Es; [|by apply plain_dir].
  split; (eapply holds_at_mono; [|eassumption]); by intros m ->.
Qed.

(** The entries stored when [StoreLogs] returns: all, or the first [k] if it
    failed.  The membership operations leave both stores alone. *)
Definition stored_logs (P : gmap Z Log -> Prop) (logs : list Log) (err : goerr) (abs' : gmap Z Log) : Prop :=
  exists abs k, P abs /\ (err = None -> k = length logs) /\
    abs' = foldl (fun a log => <[log_Index log := log]> a) abs (take k logs).

Lemma stored_more P log logs err abs' :
  stored_logs (fun a => exists abs, P abs /\ a = <[log_Index log := log]> abs) logs err abs' ->
  stored_logs P (log :: logs) err abs'.
Proof.
  intros (a & k & (abs & HP & ->) & Hk & ->). exists abs, (S k). split_and!; [done| |done].
  intros He. simpl. by rewrite (Hk He).
Qed.

Lemma StoreLogs_holds logs s err s' P :
  Forall (fun log => in_uint 64 (log_Index log)) logs ->
  StoreLogs logs s = Ret err s' -> holds_at log_dir (some_log P) (logStore s) ->
  holds_at log_dir (some_log (stored_logs P logs err)) (logStore s') /\ stableStore s' = stableStore s.
Proof.
  revert s P. induction logs as [|log logs IH]; intros s P Hidx Hrun Hd.
  { injection Hrun as <- <-. split; [|done]. eapply holds_at_mono; [|exact Hd]. intros m. apply some_log_mono.
    intros abs HP. by exists abs, 0%nat. }
  apply Forall_cons in Hidx as [Hi Hidx]. simpl in Hrun. unfold mbind at 1 in Hrun.
  set (m := if log_IsConfiguration log then _ else _) in Hrun.
  destruct (m s) as [[] s1|s1|msg] eqn:Em; [|done|done].
  assert (logStore s1 = logStore s /\ stableStore s1 = stableStore s) as [El Es].
  { unfold m, on_membership in Em. destruct (log_IsConfiguration log); [|by injection Em as <-].
    destruct (sendMembershipChangesForServers _ _) as [[] m'| |]; [by injection Em as <-|done|done]. }
  assert (forall m0 e, some_log P m0 -> some_log (stored_logs P (log :: logs) (Some e)) m0) as Hnone.
  { intros m0 e. apply some_log_mono. intros abs HP. by exists abs, 0%nat. }
  destruct (EncodeMsgPack log) as [b [e|]] eqn:Een.
  { injection Hrun as <- <-. rewrite El, Es. split; [|done]. eapply holds_at_mono; [|exact Hd]. intros m0. apply Hnone. }
  unfold mbind, mget, mput in Hrun. simpl in Hrun.
  assert (forall m0 w, b = Some w -> some_log P m0 ->
    some_log (fun a => exists abs, P abs /\ a = <[log_Index log := log]> abs) (<[key_of (log_Index log) := w]> m0)) as Hins.
  { intros m0 w -> (abs & HP & Hp). eexists. split; [by exists abs|]. by apply log_pairs_insert. }
  destruct (SetB (logStore s1) (uint64ToBytes (log_Index log)) b) as [[e|] st] eqn:Eset; rewrite <- El in Hd.
  - injection Hrun as <- <-. split; [|done]. eapply (SetB_holds _ _ _ _ _ _ _ _ Eset Hd); [intros _ m0; apply Hnone|].
    intros m0 w Hw HP. eapply some_log_mono; [|by eapply Hins]. intros a Ha. apply stored_more.
    by exists a, 0%nat.
  - destruct (IH (with_log st s1) (fun a => exists abs, P abs /\ a = <[log_Index log := log]> abs) Hidx Hrun) as [Hd' Hs'].
    { by eapply (SetB_holds _ _ _ _ _ _ _ _ Eset Hd). }
    rewrite Hs'. split; [|done]. eapply holds_at_mono; [|exact Hd']. intros m0. apply some_log_mono, stored_more.
Qed.

(** The possible contents after one more call. *)
Definition after {A} (effect : A -> StoreCall * goerr -> A -> Prop) (P : A -> Prop) (call : StoreCall * goerr) (a' : A) : Prop :=
  exists a, P a /\ effect a call a'.

Lemma log_op_holds op s err s' P :
  op_ok op -> log_op op s = Ret err s' -> holds_at log_dir (some_log P) (logStore s) ->
  holds_at log_dir (some_log (after log_effect P (CallLog op, err))) (logStore s') /\ stableStore s' = stableStore s.
Proof.
  destruct op as [logs|min max]; simpl; intros Hok Hrun Hd.
  - destruct (StoreLogs_holds logs s err s' P Hok Hrun Hd) as [Hd' Hs]. split; [|done].
    eapply holds_at_mono; [|exact Hd']. intros m. apply some_log_mono. intros abs' (abs & k & HP & Hk & ->).
    exists abs. split; [done|]. destruct err; [by exists k|]. by rewrite (Hk eq_refl), take_ge.
  - unfold RaftStore.DeleteRange in Hrun. fold (end_key max) in Hrun. destruct Hok as [Hmin Hmax].
    destruct (api_DeleteRangeB (logStore s) _ _) as [err' st] eqn:E. injection Hrun as -> <-. split; [|done].
    apply (DeleteRangeB_holds log_dir _ _ _ _ _ _ _ E Hd).
    + intros He m. apply some_log_mono. intros abs HP. exists abs. split; [done|]. destruct err; [by left|done].
    + intros m (abs & HP & Hp). eexists. split; [exists abs; split; [done|]|by apply log_pairs_delete].
      destruct err; [by right|done].
Qed.

Lemma call_holds (s : Store) c err (s' : Store) P Q :
  call_ok c -> store_holds s P Q -> store_call c s = Ret err s' ->
  store_holds s' (after log_effect P (c, err)) (after stable_effect Q (c, err)).
Proof.
  intros Hc [Hl Hs]. destruct c as [op|k v|k n]; simpl.
  - intros Hrun. destruct (log_op_holds op s err s' P Hc Hrun Hl) as [Hl' Hst]. split; [done|]. rewrite Hst.
    eapply holds_at_mono; [|exact Hs]. intros m HQ. by exists m.
  - unfold Set_. destruct (api_SetB _ k v) as [err' st] eqn:E. intros [= -> <-]. split.
    + eapply holds_at_mono; [|exact Hl]. intros m. apply some_log_mono. intros abs HP. by exists abs.
    + eapply (SetB_holds _ _ _ _ _ _ _ _ E Hs); [intros He m HQ; exists m; split; [done|by right]|].
      intros m w -> HQ. exists m. split; [done|by left].
  - unfold SetUint64. destruct (api_SetB _ k _) as [err' st] eqn:E. intros [= -> <-]. split.
    + eapply holds_at_mono; [|exact Hl]. intros m. apply some_log_mono. intros abs HP. by exists abs.
    + eapply (SetB_holds _ _ _ _ _ _ _ _ E Hs); [intros He m HQ; exists m; split; [done|by right]|].
      intros m w [= <-] HQ. exists m. split; [done|by left].
Qed.

Lemma holds_mono (s : Store) (P P' : gmap Z Log -> Prop) (Q Q' : gmap bytes bytes -> Prop) :
  (forall a, P a -> P' a) -> (forall m, Q m -> Q' m) -> store_holds s P Q -> store_holds s P' Q'.
Proof.
  intros HP HQ [Hl Hs]. split; (eapply holds_at_mono; [|eassumption]); [|done].
  intros m. by apply some_log_mono.
Qed.

(** The possible contents after calls. *)
Definition afters {A} (effect : A -> StoreCall * goerr -> A -> Prop) (P : A -> Prop) (cs : list (StoreCall * goerr)) (a' : A) : Prop :=
  exists a, P a /\ effects effect a cs a'.

Lemma after_afters {A} (effect : A -> StoreCall * goerr -> A -> Prop) P call cs a' :
  afters effect (after effect P call) cs a' -> afters effect P (call :: cs) a'.
Proof. intros (a1 & (a & HP & He) & Hes). exists a. split; [done|]. by eapply effects_one. Qed.

Lemma afters_app {A} (effect : A -> StoreCall * goerr -> A -> Prop) P cs cs' a' :
  afters effect (afters effect P cs) cs' a' -> afters effect P (cs ++ cs') a'.
Proof. intros (a1 & (a & HP & He) & Hes). exists a. split; [done|]. by eapply effects_app. Qed.

Lemma calls_hold (s : Store) cs (s' : Store) P Q :
  Forall (fun call => call_ok call.1) cs -> store_holds s P Q -> called s cs s' ->
  store_holds s' (afters log_effect P cs) (afters stable_effect Q cs).
Proof.
  intros Hok Hh Hrun. revert P Q Hok Hh. induction Hrun as [s|s c err s1 cs s2 Hcall _ IH]; intros P Q Hok Hh.
  - eapply holds_mono; [..|exact Hh]; intros a Ha; (exists a; split; [done|constructor]).
  - apply Forall_cons in Hok as [Hc Hok].
    apply (holds_mono s2 (afters log_effect (after log_effect P (c, err)) cs) _
      (afters stable_effect (after stable_effect Q (c, err)) cs) _); [intros a Ha; exact (after_afters _ _ _ _ _ Ha)..|].
    apply IH; [done|]. by eapply call_holds.
Qed.

Lemma ends_hold (s : Store) disk disk' P Q : store_holds s P Q -> ends s disk disk' -> disk_holds disk' P Q.
Proof.
  intros [Hl Hs] [err disk1 s' Hc|disk1 C1 C2]; [|split; [exact (crashed_holds _ _ _ _ C1 Hl)|exact (crashed_holds _ _ _ _ C2 Hs)]].
  unfold RaftStore.Close, remove_dir in Hc. simpl in Hc.
  destruct (Pebble.Close disk (logStore s)) as [d1 lg] eqn:E1.
  destruct (Pebble.Close d1 (stableStore s)) as [d2 st] eqn:E2. injection Hc as _ <- _.
  destruct (Close_holds _ _ _ _ _ _ E1 Hl) as [H1' _]. destruct (Close_holds _ _ _ _ _ _ E2 Hs) as [H2' Hother].
  split; [|done]. rewrite Hother; [done|apply dirs_differ].
Qed.

(** ** Any number of lives *)

(** From one disk to another: the node is started on the directory, serves
    calls, and ends, again and again. *)
Inductive lives : Disk -> list (StoreCall * goerr) -> Disk -> Prop :=
  | lives_none disk : lives disk [] disk
  | lives_one disk uuid chans s0 snap cs s disk1 cs' disk2 :
      NewRaftStore NewFileSnapshotStore NewInmemSnapshotStore uuid location disk chans = inl (s0, snap) ->
      called s0 cs s -> ends s disk disk1 -> lives disk1 cs' disk2 ->
      lives disk (cs ++ cs') disk2.

Lemma lives_hold disk cs disk' P Q :
  Forall (fun call => call_ok call.1) cs -> disk_holds disk P Q -> lives disk cs disk' ->
  disk_holds disk' (afters log_effect P cs) (afters stable_effect Q cs).
Proof.
  intros Hok Hd Hl. revert P Q Hok Hd.
  induction Hl as [disk|disk uuid chans s0 snap cs s disk1 cs' disk2 Hnew Hcalled Hend _ IH]; intros P Q Hok [Hd Hd'].
  - split; [eapply some_log_mono; [|exact Hd]|]; intros; eexists; (split; [eassumption|constructor]).
  - apply Forall_app in Hok as [Hok1 Hok2].
    assert (disk_holds disk1 (afters log_effect P cs) (afters stable_effect Q cs)) as H1'.
    { eapply ends_hold; [|exact Hend]. eapply calls_hold; [done| |exact Hcalled]. by eapply New_holds. }
    destruct (IH _ _ Hok2 H1') as [H2' H3']. split; [|by apply afters_app].
    eapply some_log_mono; [|exact H2']. intros a. apply afters_app.
Qed.

(** C4: what the Raft store has acknowledged is never lost.  A node lives any
    number of times on its directory, each life ended by closing the store,
    with or without errors of the engine, or by a crash between two calls
    (so also right after one).  A store opened anew holds exactly what all
    the calls of these lives leave in turn: a call that returned nil its full
    effect, a [StoreLogs] that failed a first part of its entries, possibly
    none or all, and any other call that failed its full effect or none. *)
Theorem acknowledged_calls_survive (disk disk' : Disk) (log : gmap Z Log) (stable : gmap bytes bytes)
    (cs : list (StoreCall * goerr)) (uuid : string) (chans : gmap nat MemberChan) (s : Store) (snap : SnapshotStore) :
  log_pairs (disk_view disk log_dir) log -> disk_view disk stable_dir = stable ->
  Forall (fun call => call_ok call.1) cs -> lives disk cs disk' ->
  NewRaftStore NewFileSnapshotStore NewInmemSnapshotStore uuid location disk' chans = inl (s, snap) ->
  exists log' stable', effects log_effect log cs log' /\ effects stable_effect stable cs stable' /\
    log_rel s log' /\ view (stableStore s) = Some stable'.
Proof.
  intros Hlog Hst Hok Hl Hnew.
  destruct (lives_hold disk cs disk' (fun a => a = log) (fun m => m = stable) Hok) as [Hl' Hs'];
    [split; [by exists log|done]|done|].
  destruct (New_holds uuid disk' chans s snap (afters log_effect (fun a => a = log) cs)
    (afters stable_effect (fun m => m = stable) cs)) as [(dl & Hdl & _ & (log' & (? & -> & He) & Hp) & _)
    (ds & Hds & _ & (? & -> & Hes) & _)]; [done|exact Hnew|].
  exists log', (db_view ds). split_and!; [done|done| |by unfold view; rewrite Hds].
  exists (db_view dl). split; [|done]. simpl. unfold view. by rewrite Hdl.
Qed.
End OneLife.
End Durability.

(** ** A concrete run: a crash, then a close *)

Module Run.
Export Pebble.MemEngine RaftStore.Run.

Definition new (disk : Disk) : RaftStore PebbleBinding :=
  match NewRaftStore (fun _ _ => inl tt) tt "id" "d" disk ∅ with
  | inl (s, _) => s
  | inr _ => store0
  end.

Definition do_call (c : StoreCall) (s : RaftStore PebbleBinding) : RaftStore PebbleBinding :=
  match store_call c s with
  | Ret _ s => s
  | _ => s
  end.

Definition c1 : StoreCall := CallLog (OpStore [entry_at 1; entry_at 2]).
Definition c2 : StoreCall := CallSetUint64 (Some (bytes_of_string "term")) 5.
Definition c3 : StoreCall := CallLog (OpDelete 1 1).

Definition life1 : RaftStore PebbleBinding := do_call c2 (do_call c1 (new ∅)).

Definition db_of (b : PebbleBinding) : DB := default {| map := ∅; durable := ∅; loc := None |} (db b).
Definition contents (b : PebbleBinding) : gmap bytes bytes := default ∅ (view b).
Definition crash_disk : Disk :=
  {["d/log" := contents (logStore life1); "d/stable" := contents (stableStore life1)]}.

Definition life2 : RaftStore PebbleBinding := do_call c3 (new crash_disk).
Definition close_disk : Disk := (RaftStore.Close (fun _ d => d) false crash_disk life2).1.2.
Definition life3 : RaftStore PebbleBinding := new close_disk.

(** All calls succeeded. *)
Definition calls : list (StoreCall * goerr) := [(c1, None); (c2, None)] ++ [(c3, None)] ++ [].

Lemma disk_empty : log_pairs (disk_view (∅ : Disk) (log_dir "d")) ∅.
Proof.
  split; [by intros i l|]. intros k v. simpl. rewrite lookup_empty. split; [done|].
  by intros (i & l & _ & _ & Hl & _).
Qed.

Lemma two_lives : lives (fun _ _ => inl tt) tt (fun _ d => d) "d" ∅ calls close_disk.
Proof.
  eapply (lives_one _ _ _ _ _ "id" ∅ (new ∅) tt _ life1 crash_disk); [by_vm| | |].
  - apply (called_one _ _ _ (do_call c1 (new ∅))); [by_vm|]. apply (called_one _ _ _ life1); [by_vm|]. apply called_none.
  - apply ends_crash; intros d loc Hd Hl; vm_compute in Hd; injection Hd as <-; vm_compute in Hl;
      injection Hl as <-; by_vm.
  - eapply (lives_one _ _ _ _ _ "id" ∅ (new crash_disk) tt _ life2 close_disk); [by_vm| | |apply lives_none].
    + apply (called_one _ _ _ life2); [by_vm|]. apply called_none.
    + apply (ends_close _ life2 crash_disk None close_disk
        (RaftStore.Close (fun _ d => d) false crash_disk life2).2); by_vm.
Qed.
End Run.
Import Run.

(** The effects of calls that succeeded are determined. *)
Lemma acknowledged_calls_survive_witness :
  exists log', log_rel life3 log' /\ log' = abs_op false (abs_op false ∅ (OpStore [entry_at 1; entry_at 2])) (OpDelete 1 1) /\
    view (stableStore life3) = Some {[bytes_of_string "term" := key_of 5]} /\ size log' = 1%nat.
Proof.
  destruct (acknowledged_calls_survive (fun _ _ => inl tt) tt (fun _ d => d) "d" ltac:(discriminate) ∅ close_disk ∅ ∅
      calls "id" ∅ life3 tt disk_empty) as (log' & stable' & He & Hs & Hrel & Hv); try by_vm; try exact two_lives.
  { repeat constructor; simpl; unfold in_uint; lia || (intros; discriminate). }
  exists log'. assert (log' = abs_op false (abs_op false ∅ (OpStore [entry_at 1; entry_at 2])) (OpDelete 1 1)) as E.
  { inversion He as [|a1 call1 a2 cs1 a3 E1 He2]; subst. inversion He2 as [|b1 call2 b2 cs2 b3 E2 He3]; subst.
    inversion He3 as [|d1 call3 d2 cs3 d3 E3 He4]; subst. inversion He4; subst. simpl in E1, E2, E3. by rewrite E3, E2, E1. }
  split_and!; [exact Hrel|exact E| |rewrite E; by_vm]. by_vm.
Defined.
