(* ===== verification/Mqtt5.v ===== *)
(** * The MQTT 5 communication binding ([services/com/mqtt5/mqtt5.go])

    The binding turns the communication patterns into MQTT publications and
    subscriptions and dispatches what arrives through its five routers.  The
    paho client library, [uuid], [url.Parse] and the TLS loader are
    parameters; [PahoLaws] has the documented behaviour the theorems use. *)

From S2P Require Import Prelude GoRuntime GoStrings Services Config ComApi Router.

(** ** The client library *)

Record UserProperty := { up_Key : string; up_Value : string }.

Record PublishProperties := {
  ResponseTopic : string;
  CorrelationData : slice;
  User : option (list UserProperty);
}.

Record Publish := {
  p_QoS : Z;
  p_Topic : string;
  p_Payload : slice;
  p_Properties : option PublishProperties;
}.

Record SubscribeOptions := {
  so_Topic : string;
  so_QoS : Z;
  so_NoLocal : bool;
}.

(** The calls on the connection manager; each may change its state. *)
Class Paho := {
  Conn : Type;
  conn_Publish : Publish -> Conn -> goerr * Conn;
  conn_Subscribe : list SubscribeOptions -> Conn -> goerr * Conn;
  conn_Unsubscribe : list string -> Conn -> goerr * Conn;
  (* UserProperties.Get *)
  up_Get : option (list UserProperty) -> string -> string;
}.

(** [Get] yields the first value of the key; a subscription counts once it is
    acknowledged, until it is unsubscribed; publishing changes none. *)
Class PahoLaws `{Paho} := {
  conn_subs : Conn -> gset string;
  Get_first : forall k v rest, up_Get (Some ({| up_Key := k; up_Value := v |} :: rest)) k = v;
  Get_next : forall k k' v rest, k' <> k ->
    up_Get (Some ({| up_Key := k'; up_Value := v |} :: rest)) k = up_Get (Some rest) k;
  Get_none : forall k, up_Get (Some []) k = "";
  Publish_subs : forall p c, conn_subs (conn_Publish p c).2 = conn_subs c;
  Subscribe_subs : forall t q n c,
    let '(err, c') := conn_Subscribe [{| so_Topic := t; so_QoS := q; so_NoLocal := n |}] c in
    conn_subs c' = match err with None => {[t]} ∪ conn_subs c | Some _ => conn_subs c end;
  Subscribe_all : forall os c c', conn_Subscribe os c = (None, c') ->
    conn_subs c' = list_to_set (so_Topic <$> os) ∪ conn_subs c;
  Unsubscribe_subs : forall t c,
    let '(err, c') := conn_Unsubscribe [t] c in
    conn_subs c' = match err with None => conn_subs c ∖ {[t]} | Some _ => conn_subs c end;
}.

(** ** Constants *)

Definition disconnectTimeout : Z := 1 * Second.
Definition pubSubAckTimeout : Z := 1 * Second.

Definition levelShare : string := "$share".
Definition levelEvent : string := "evt".
Definition levelAction : string := "act".
Definition levelActionResult : string := "acr".
Definition levelQuery : string := "qry".
Definition levelQueryResult : string := "qrr".

Definition userPropId : string := "id".
Definition userPropSource : string := "sr".
Definition userPropTime : string := "tm".
Definition userPropContext : string := "ct".
Definition userPropSequenceNumber : string := "sq".
Definition userPropDataContentType : string := "dt".

(** ** The client id *)

Definition alnum (c : byte) : bool :=
  let n := byte_val c in
  ((48 <=? n) && (n <=? 57)) || ((97 <=? n) && (n <=? 122)) || ((65 <=? n) && (n <=? 90)).

(** The width of the first rune, as [utf8.DecodeRuneInString] determines it:
    1 for a byte that starts no well-formed sequence. *)
Definition between (lo hi : Z) (c : byte) : bool := (lo <=? byte_val c) && (byte_val c <=? hi).

Definition rune_width (s : bytes) : nat :=
  match s with
  | [] => 0
  | c :: s =>
      let n := byte_val c in
      let cont k := match s !! k with Some d => between 128 191 d | None => false end in
      let second lo hi := match s with d :: _ => between lo hi d | [] => false end in
      if (194 <=? n) && (n <=? 223) then if cont 0%nat then 2 else 1
      else if (224 <=? n) && (n <=? 239) then
        let lo := if n =? 224 then 160 else 128 in
        let hi := if n =? 237 then 159 else 191 in
        if second lo hi && cont 1%nat then 3 else 1
      else if (240 <=? n) && (n <=? 244) then
        let lo := if n =? 240 then 144 else 128 in
        let hi := if n =? 244 then 143 else 191 in
        if second lo hi && cont 1%nat && cont 2%nat then 4 else 1
      else 1
  end.

(** [strictClientIdRegex.ReplaceAllLiteralString(s, "0")]: every rune that is
    not alphanumeric becomes one "0"; [skip] bytes belong to the last one. *)
Fixpoint replace_non_alnum (skip : nat) (s : bytes) : bytes :=
  match s with
  | [] => []
  | c :: rest =>
      match skip with
      | S k => replace_non_alnum k rest
      | O => (if alnum c then c else "0"%char) :: replace_non_alnum (rune_width s - 1) rest
      end
  end.

Definition getClientId (cfg : Config) : string :=
  let clientId := Name (Identity_ cfg) +:+ Config.Id (Identity_ cfg) in
  if opt_is_true (com_Opts (Com (Services cfg))) "strictClientId" then
    let clientId := replace_non_alnum 0 (bytes_of_string clientId) in
    string_of_bytes (if Nat.ltb 23 (length clientId) then take 23 clientId else clientId)
  else clientId.

(** ** The binding *)

Section Binding.
Context `{Paho}.

(** The fields publications and subscriptions use. *)
Record Link := {
  conn : option Conn;
  qos : Z;
  noLocal : bool;
}.

Definition set_conn (c : Conn) (l : Link) : Link :=
  {| conn := Some c; qos := qos l; noLocal := noLocal l |}.

(** The callback of an action or query publishes results on the response
    topic with the correlation data: these are what it captures. *)
Record Callback := { cb_responseTopic : string; cb_correlationId : slice }.

Abbreviation Router_ R := (RouterState R string Link).

Record Mqtt5Binding := {
  eventRouter : Router_ Event;
  actionRouter : Router_ (ActionWithCallback Callback);
  actionResultRouter : Router_ ActionResult;
  queryRouter : Router_ (QueryWithCallback Callback);
  queryResultRouter : Router_ QueryResult;
  clientId : string;
  link : Link;
  cluster : string;
  responseId : string;
  sharedSubAvailable : bool;
}.

Definition ClientId (b : Mqtt5Binding) : string := clientId b.

(** *** Validation *)

Definition validatePatternTypeIdSource (pat typ id source : string) : goerr :=
  match ValidateName typ [pat; "Type"] with
  | Some err => Some err
  | None =>
      match ValidateNonEmpty id [pat; "Id"] with
      | Some err => Some err
      | None =>
          match ValidateNonEmpty source [pat; "Source"] with
          | Some err => Some err
          | None => None
          end
      end
  end.

Definition validatePatternFilter (b : Mqtt5Binding) (pat : string) (filter : SubscriptionFilter) : goerr :=
  match ValidateName (sf_Type filter) [pat; "Type"] with
  | Some err => Some err
  | None =>
      if negb (String.eqb (sf_Share filter) "") then
        if negb (sharedSubAvailable b)
        then Some (ErrText "shared subscriptions are not supported by the MQTT 5 broker")
        else
          match ValidateName (sf_Share filter) [pat; "Share"] with
          | Some err => Some err
          | None => None
          end
      else None
  end.

(** *** Topics *)

Definition topicWithLevels (cluster share scope : string) (levels : list string) : string * string :=
  let scope := if String.eqb scope ScopeDef then ScopeCom else scope in
  let pubTopic := cluster +:+ "/" +:+ scope +:+ "/" +:+ strings_Join levels "/" in
  let subTopic := pubTopic in
  let subTopic :=
    if negb (String.eqb share "")
    then levelShare +:+ "/" +:+ share +:+ "/" +:+ cluster +:+ "/" +:+ scope +:+ "/" +:+ strings_Join levels "/"
    else subTopic in
  (pubTopic, subTopic).

(** [uuid.NewString()] is the argument. *)
Definition responseInfo (b : Mqtt5Binding) (uuid topic : string) : string * string :=
  (topic +:+ "/" +:+ responseId b, uuid).

(** *** Publishing and subscribing

    The context with a timeout when [qos] is not 0 is the client's concern. *)

Definition packet (qos : Z) (topic : string) (payload : slice) (userProps : list UserProperty)
    (responseTopic : string) (correlationId : slice) : Publish :=
  {| p_QoS := qos; p_Topic := topic; p_Payload := payload;
     p_Properties := Some {| ResponseTopic := responseTopic; CorrelationData := correlationId;
                             User := Some userProps |} |}.

(** A nil connection is dereferenced if the binding is not open. *)
Definition publish (topic : string) (payload : slice) (userProps : list UserProperty)
    (responseTopic : string) (correlationId : slice) : M Link goerr := fun l =>
  match conn l with
  | None => Panic "nil pointer dereference"
  | Some c =>
      let '(err, c') := conn_Publish (packet (qos l) topic payload userProps responseTopic correlationId) c in
      Ret (NewRetryableError err) (set_conn c' l)
  end.

Definition fmt_strings (l : list string) : string := "[" +:+ strings_Join l " " +:+ "]".

Definition subscribe (topics : list string) : ComBindingFunc Link := fun l =>
  match topics with
  | [] => (None, l)
  | _ =>
      let subs := (fun topic => {| so_Topic := topic; so_QoS := qos l;
        so_NoLocal := noLocal l && negb (strings_HasPrefix topic levelShare) |}) <$> topics in
      match conn l with
      | None => (Some (ErrText "subscribe failed as binding is not yet open"), l)
      | Some c =>
          match conn_Subscribe subs c with
          | (Some err, c') =>
              (RetryableErrorf ("subscribe " +:+ fmt_strings topics +:+ " failed: " +:+ Error err), set_conn c' l)
          | (None, c') => (None, set_conn c' l)
          end
      end
  end.

Definition unsubscribe (topics : list string) : ComBindingFunc Link := fun l =>
  match topics with
  | [] => (None, l)
  | _ =>
      match conn l with
      | None => (Some (ErrText "unsubscribe failed as binding is not yet open"), l)
      | Some c =>
          match conn_Unsubscribe topics c with
          | (Some err, c') =>
              (RetryableErrorf ("unsubscribe " +:+ fmt_strings topics +:+ " failed: " +:+ Error err), set_conn c' l)
          | (None, c') => (None, set_conn c' l)
          end
      end
  end.

(** The publish function passed to a router, which runs with the binding
    open: it does not panic. *)
Definition publish_func (topic : string) (payload : slice) (userProps : list UserProperty)
    (responseTopic : string) (correlationId : slice) : ComBindingFunc Link := fun l =>
  match publish topic payload userProps responseTopic correlationId l with
  | Ret err l' => (err, l')
  | _ => (None, l)
  end.

Definition noop : ComBindingFunc Link := fun l => (None, l).

(** *** The API *)

Definition with_eventRouter (r : Router_ Event) (l : Link) (b : Mqtt5Binding) : Mqtt5Binding :=
  {| eventRouter := r; actionRouter := actionRouter b; actionResultRouter := actionResultRouter b; queryRouter := queryRouter b; queryResultRouter := queryResultRouter b;
     clientId := clientId b; link := l; cluster := cluster b; responseId := responseId b;
     sharedSubAvailable := sharedSubAvailable b |}.
Definition with_actionRouter (r : Router_ (ActionWithCallback Callback)) (l : Link) (b : Mqtt5Binding) : Mqtt5Binding :=
  {| eventRouter := eventRouter b; actionRouter := r; actionResultRouter := actionResultRouter b; queryRouter := queryRouter b; queryResultRouter := queryResultRouter b;
     clientId := clientId b; link := l; cluster := cluster b; responseId := responseId b;
     sharedSubAvailable := sharedSubAvailable b |}.
Definition with_actionResultRouter (r : Router_ ActionResult) (l : Link) (b : Mqtt5Binding) : Mqtt5Binding :=
  {| eventRouter := eventRouter b; actionRouter := actionRouter b; actionResultRouter := r; queryRouter := queryRouter b; queryResultRouter := queryResultRouter b;
     clientId := clientId b; link := l; cluster := cluster b; responseId := responseId b;
     sharedSubAvailable := sharedSubAvailable b |}.
Definition with_queryRouter (r : Router_ (QueryWithCallback Callback)) (l : Link) (b : Mqtt5Binding) : Mqtt5Binding :=
  {| eventRouter := eventRouter b; actionRouter := actionRouter b; actionResultRouter := actionResultRouter b; queryRouter := r; queryResultRouter := queryResultRouter b;
     clientId := clientId b; link := l; cluster := cluster b; responseId := responseId b;
     sharedSubAvailable := sharedSubAvailable b |}.
Definition with_queryResultRouter (r : Router_ QueryResult) (l : Link) (b : Mqtt5Binding) : Mqtt5Binding :=
  {| eventRouter := eventRouter b; actionRouter := actionRouter b; actionResultRouter := actionResultRouter b; queryRouter := queryRouter b; queryResultRouter := r;
     clientId := clientId b; link := l; cluster := cluster b; responseId := responseId b;
     sharedSubAvailable := sharedSubAvailable b |}.
Definition with_link (l : Link) (b : Mqtt5Binding) : Mqtt5Binding :=
  {| eventRouter := eventRouter b; actionRouter := actionRouter b; actionResultRouter := actionResultRouter b;
     queryRouter := queryRouter b; queryResultRouter := queryResultRouter b;
     clientId := clientId b; link := l; cluster := cluster b; responseId := responseId b;
     sharedSubAvailable := sharedSubAvailable b |}.

(** A call of [Router.Add], whose functions use the link. *)
Definition add_route {R} (ctx : nat) (f : RouteFilter string) (sub pub uns : ComBindingFunc Link)
    (r : Router_ R) (l : Link) : (RouteChannel string Link + error) * Router_ R * Link :=
  let '(res, r) := Router.Add ctx f sub pub uns [] (with_binding l r) in (res, r, binding r).

Definition event_props (e : Event) : list UserProperty :=
  [ {| up_Key := userPropId; up_Value := ev_Id e |};
    {| up_Key := userPropSource; up_Value := ev_Source e |};
    {| up_Key := userPropTime; up_Value := ev_Time e |};
    {| up_Key := userPropDataContentType; up_Value := ev_DataContentType e |} ].

Definition PublishEvent (event : Event) (scope : list string) (b : Mqtt5Binding) : run Mqtt5Binding goerr :=
  match validatePatternTypeIdSource "Event" (ev_Type event) (ev_Id event) (ev_Source event) with
  | Some err => Ret (Some err) b
  | None =>
      match conn (link b) with
      | None => Ret (Some (ErrText ("PublishEvent " +:+ fmt_Event event +:+ " failed as binding is not yet open"))) b
      | Some _ =>
          let '(topic, _) := topicWithLevels (cluster b) "" (opt_scope scope) [levelEvent; ev_Type event] in
          match publish topic (ev_Data event) (event_props event) "" None (link b) with
          | Ret err l => Ret err (with_link l b)
          | Blocked l => Blocked (with_link l b)
          | Panic msg => Panic msg
          end
      end
  end.

(** The three operations that subscribe requests: [pat] names the pattern,
    [level] its topic level. *)
Definition subscribe_pattern {R} (pat level : string) (ctx : nat) (filter : SubscriptionFilter)
    (router : Mqtt5Binding -> Router_ R) (with_router : Router_ R -> Link -> Mqtt5Binding -> Mqtt5Binding)
    (b : Mqtt5Binding) : (RouteChannel string Link + error) * Mqtt5Binding :=
  match validatePatternFilter b pat filter with
  | Some err => (inr err, b)
  | None =>
      match conn (link b) with
      | None => (inr (ErrText ("Subscribe" +:+ pat +:+ " failed as binding is not yet open")), b)
      | Some _ =>
          let '(pubTopic, subTopic) :=
            topicWithLevels (cluster b) (sf_Share filter) (sf_Scope filter) [level; sf_Type filter] in
          let routeFilter := {| Topic := pubTopic; CorrelationId := "" |} in
          let '(res, r, l) := add_route ctx routeFilter (subscribe [subTopic]) noop (unsubscribe [subTopic])
                                (router b) (link b) in
          (res, with_router r l b)
      end
  end.

Definition SubscribeEvent (ctx : nat) (filter : SubscriptionFilter) (b : Mqtt5Binding) :=
  subscribe_pattern "Event" levelEvent ctx filter eventRouter with_eventRouter b.
Definition SubscribeAction (ctx : nat) (filter : SubscriptionFilter) (b : Mqtt5Binding) :=
  subscribe_pattern "Action" levelAction ctx filter actionRouter with_actionRouter b.
Definition SubscribeQuery (ctx : nat) (filter : SubscriptionFilter) (b : Mqtt5Binding) :=
  subscribe_pattern "Query" levelQuery ctx filter queryRouter with_queryRouter b.

Definition request_props (id source contentType : string) : list UserProperty :=
  [ {| up_Key := userPropId; up_Value := id |};
    {| up_Key := userPropSource; up_Value := source |};
    {| up_Key := userPropDataContentType; up_Value := contentType |} ].

(** The two operations that publish requests. *)
Definition publish_request {R} (level resultLevel typ : string) (payload : slice) (props : list UserProperty)
    (uuid : string) (ctx : nat) (scope : list string)
    (router : Mqtt5Binding -> Router_ R) (with_router : Router_ R -> Link -> Mqtt5Binding -> Mqtt5Binding)
    (b : Mqtt5Binding) : (RouteChannel string Link + error) * Mqtt5Binding :=
  let '(pubTopic, _) := topicWithLevels (cluster b) "" (opt_scope scope) [level; typ] in
  let '(pubResTopic, _) := topicWithLevels (cluster b) "" (opt_scope scope) [resultLevel; typ] in
  let '(responseTopic, correlationId) := responseInfo b uuid pubResTopic in
  let routeFilter := {| Topic := responseTopic; CorrelationId := correlationId |} in
  let '(res, r, l) := add_route ctx routeFilter (subscribe [responseTopic])
    (publish_func pubTopic payload props responseTopic (Some (bytes_of_string correlationId)))
    (unsubscribe [responseTopic]) (router b) (link b) in
  (res, with_router r l b).

Definition PublishAction (uuid : string) (ctx : nat) (action : Action) (scope : list string) (b : Mqtt5Binding)
    : (RouteChannel string Link + error) * Mqtt5Binding :=
  match validatePatternTypeIdSource "Action" (ac_Type action) (ac_Id action) (ac_Source action) with
  | Some err => (inr err, b)
  | None =>
      match conn (link b) with
      | None => (inr (ErrText ("PublishAction " +:+ fmt_Action action +:+ " failed as binding is not yet open")), b)
      | Some _ =>
          publish_request levelAction levelActionResult (ac_Type action) (ac_Params action)
            (request_props (ac_Id action) (ac_Source action) (ac_DataContentType action))
            uuid ctx scope actionResultRouter with_actionResultRouter b
      end
  end.

Definition PublishQuery (uuid : string) (ctx : nat) (query : Query) (scope : list string) (b : Mqtt5Binding)
    : (RouteChannel string Link + error) * Mqtt5Binding :=
  match validatePatternTypeIdSource "Query" (qu_Type query) (qu_Id query) (qu_Source query) with
  | Some err => (inr err, b)
  | None =>
      match conn (link b) with
      | None => (inr (ErrText ("PublishQuery " +:+ fmt_Query query +:+ " failed as binding is not yet open")), b)
      | Some _ =>
          publish_request levelQuery levelQueryResult (qu_Type query) (qu_Data query)
            (request_props (qu_Id query) (qu_Source query) (qu_DataContentType query))
            uuid ctx scope queryResultRouter with_queryResultRouter b
      end
  end.

Definition result_props (context contentType : string) (sequenceNumber : Z) : list UserProperty :=
  [ {| up_Key := userPropContext; up_Value := context |};
    {| up_Key := userPropDataContentType; up_Value := contentType |};
    {| up_Key := userPropSequenceNumber; up_Value := strconv_FormatInt sequenceNumber |} ].

(** [[]byte(correlationId)] of a byte slice is that slice. *)
Definition publish_result (what : string) (payload : slice) (props : list UserProperty)
    (cb : Callback) (b : Mqtt5Binding) : run Mqtt5Binding goerr :=
  match conn (link b) with
  | None => Ret (Some (ErrText (what +:+ " failed as binding is not yet open"))) b
  | Some _ =>
      match publish (cb_responseTopic cb) payload props "" (cb_correlationId cb) (link b) with
      | Ret err l => Ret err (with_link l b)
      | Blocked l => Blocked (with_link l b)
      | Panic msg => Panic msg
      end
  end.

Definition publishActionResult (result : ActionResult) (cb : Callback) (b : Mqtt5Binding) : run Mqtt5Binding goerr :=
  publish_result ("publishActionResult " +:+ fmt_ActionResult result) (ar_Data result)
    (result_props (ar_Context result) (ar_DataContentType result) (ar_SequenceNumber result)) cb b.

Definition publishQueryResult (result : QueryResult) (cb : Callback) (b : Mqtt5Binding) : run Mqtt5Binding goerr :=
  publish_result ("publishQueryResult " +:+ fmt_QueryResult result) (qr_Data result)
    (result_props (qr_Context result) (qr_DataContentType result) (qr_SequenceNumber result)) cb b.

(** The callback functions made for incoming actions and queries; publishing
    a result returns, see [publish_result_returns]. *)
Definition run_callback (m : run Mqtt5Binding goerr) (b : Mqtt5Binding) : goerr * Mqtt5Binding :=
  match m with
  | Ret err b => (err, b)
  | _ => (None, b)
  end.
Definition action_callback (cb : Callback) (result : ActionResult) (b : Mqtt5Binding) : goerr * Mqtt5Binding :=
  run_callback (publishActionResult result cb b) b.
Definition query_callback (cb : Callback) (result : QueryResult) (b : Mqtt5Binding) : goerr * Mqtt5Binding :=
  run_callback (publishQueryResult result cb b) b.

Lemma publish_result_returns what payload props cb b : exists err b', publish_result what payload props cb b = Ret err b'.
Proof.
  unfold publish_result, publish. destruct (conn (link b)) as [c|] eqn:E; [|eauto].
  destruct (conn_Publish _ c). eauto.
Qed.

(** *** Incoming publications *)

(** What [handle] makes of a publication. *)
Inductive Incoming :=
  | Discarded
  | InEvent (f : RouteFilter string) (e : Event)
  | InAction (f : RouteFilter string) (a : ActionWithCallback Callback)
  | InActionResult (f : RouteFilter string) (r : ActionResult)
  | InQuery (f : RouteFilter string) (q : QueryWithCallback Callback)
  | InQueryResult (f : RouteFilter string) (r : QueryResult).

(** [None]: indexing the levels of a topic with too few of them panics. *)
Definition parse_publication (p : Publish) : option Incoming :=
  match p_Properties p with
  | None => Some Discarded
  | Some props =>
      match User props with
      | None => Some Discarded
      | Some _ =>
          match strings_Split (p_Topic p) "/" with
          | _ :: level1 :: levelPattern :: typeName :: _ =>
              let get := up_Get (User props) in
              let id := get userPropId in
              let source := get userPropSource in
              let routeFilter := {| Topic := p_Topic p; CorrelationId := "" |} in
              let correlated := {| Topic := p_Topic p; CorrelationId := string_of_bytes (sl (CorrelationData props)) |} in
              let cb := {| cb_responseTopic := ResponseTopic props; cb_correlationId := CorrelationData props |} in
              match ToScope level1 with
              | (_, Some err) => Some Discarded
              | (_, None) =>
                  if String.eqb levelPattern levelEvent then
                    Some (InEvent routeFilter
                      {| ev_Type := typeName; ev_Id := id; ev_Source := source; ev_Time := get userPropTime;
                         ev_Data := p_Payload p; ev_DataContentType := get userPropDataContentType |})
                  else if String.eqb levelPattern levelAction then
                    Some (InAction routeFilter
                      {| awc_Action := {| ac_Type := typeName; ac_Id := id; ac_Source := source;
                           ac_Params := p_Payload p; ac_DataContentType := get userPropDataContentType |};
                         awc_Callback := cb |})
                  else if String.eqb levelPattern levelActionResult then
                    match strconv_ParseInt (get userPropSequenceNumber) with
                    | (_, Some err) => Some Discarded
                    | (seqNo, None) =>
                        Some (InActionResult correlated
                          {| ar_Context := get userPropContext; ar_Data := p_Payload p;
                             ar_DataContentType := get userPropDataContentType; ar_SequenceNumber := seqNo |})
                    end
                  else if String.eqb levelPattern levelQuery then
                    Some (InQuery routeFilter
                      {| qwc_Query := {| qu_Type := typeName; qu_Id := id; qu_Source := source;
                           qu_Data := p_Payload p; qu_DataContentType := get userPropDataContentType |};
                         qwc_Callback := cb |})
                  else if String.eqb levelPattern levelQueryResult then
                    match strconv_ParseInt (get userPropSequenceNumber) with
                    | (_, Some err) => Some Discarded
                    | (seqNo, None) =>
                        Some (InQueryResult correlated
                          {| qr_Context := get userPropContext; qr_Data := p_Payload p;
                             qr_DataContentType := get userPropDataContentType; qr_SequenceNumber := seqNo |})
                    end
                  else Some Discarded
              end
          | _ => None
          end
      end
  end.

(** Dispatching through a router changes its receive channels. *)
Definition dispatch_in {R} (cancelled : gset nat) (f : RouteFilter string) (x : R) (r : Router_ R)
    (with_router : Router_ R -> Mqtt5Binding) : run Mqtt5Binding unit :=
  match Router.Dispatch "" cancelled f x r with
  | Ret tt cs => Ret tt (with_router (set_chans cs r))
  | Blocked cs => Blocked (with_router (set_chans cs r))
  | Panic msg => Panic msg
  end.

Definition handle (cancelled : gset nat) (p : Publish) (b : Mqtt5Binding) : run Mqtt5Binding unit :=
  match parse_publication p with
  | None => Panic "index out of range"
  | Some Discarded => Ret tt b
  | Some (InEvent f e) => dispatch_in cancelled f e (eventRouter b) (fun r => with_eventRouter r (link b) b)
  | Some (InAction f a) => dispatch_in cancelled f a (actionRouter b) (fun r => with_actionRouter r (link b) b)
  | Some (InActionResult f a) =>
      dispatch_in cancelled f a (actionResultRouter b) (fun r => with_actionResultRouter r (link b) b)
  | Some (InQuery f q) => dispatch_in cancelled f q (queryRouter b) (fun r => with_queryRouter r (link b) b)
  | Some (InQueryResult f q) =>
      dispatch_in cancelled f q (queryResultRouter b) (fun r => with_queryResultRouter r (link b) b)
  end.

(** *** Resubscribing after a reconnection *)

Context `{MapRange}.

Definition getTopics (b : Mqtt5Binding) : list string :=
  GetTopics (eventRouter b) ++ GetTopics (actionRouter b) ++ GetTopics (actionResultRouter b) ++
  GetTopics (queryRouter b) ++ GetTopics (queryResultRouter b).

Definition resubscribe (b : Mqtt5Binding) : Mqtt5Binding :=
  with_link (subscribe (getTopics b) (link b)).2 b.
End Binding.

(** ** Connecting *)

Section Connect.
Context `{Paho}.
(** [url.Parse], [tls.LoadX509KeyPair], [plog.Enabled()] *)
Context {URL Certificate : Type}.
Variable url_Parse : string -> URL + error.
Variable LoadX509KeyPair : string -> string -> Certificate + error.
Variable plog_Enabled : bool.

(** [autopaho.ClientConfig], as far as it is set from the configuration. *)
Record ClientConfig := {
  cc_ClientID : string;
  cc_Debug : bool;                                   (* paho's log output is injected *)
  cc_CleanStart : bool;
  cc_BrokerUrls : list URL;
  cc_UsernamePassword : option (string * bytes);
  cc_TlsCfg : option (Certificate * bool);           (* certificate, InsecureSkipVerify *)
  cc_KeepAlive : Z;                                  (* uint16 *)
  cc_ConnectRetryDelay : Z;
  cc_ConnectTimeout : Z;
}.

(** [if brokerUrl, err := url.Parse(sUrl)] *)
Definition parse_url (sUrl : string) : URL + error :=
  match url_Parse (if String.eqb sUrl "" then "tcp://localhost:1883" else sUrl) with
  | inr err => inr (ErrText ("invalid 'services.com.url' in DDA configuration: " +:+ Error err))
  | inl u => inl u
  end.

(** [switch comCfg.Auth.Method] *)
Definition tls_config (a : AuthOptions) : option (Certificate * bool) + error :=
  if String.eqb (Method a) "none" || String.eqb (Method a) "" then inl None
  else if String.eqb (Method a) "tls" then
    match LoadX509KeyPair (Cert a) (Config.Key a) with
    | inr err => inr (ErrText ("invalid or missing PEM file in DDA configuration under 'services.com.auth.cert/.key' : "
                               +:+ Error err))
    | inl cert => inl (Some (cert, negb (Verify_ a)))
    end
  else inr (ErrText ("unsupported 'services.com.auth.method' " +:+ Method a +:+ " in DDA configuration")).

Definition keep_alive (opts : Opts) : Z + error :=
  match opt_int opts "keepAlive" with
  | Some v => if v <? 0 then inr (ErrText "keepAlive must be a positive integer") else inl (uwrap 16 v)
  | None => inl 30
  end.

Definition qos_option (opts : Opts) : Z :=
  match opt_int opts "qos" with
  | Some v => uwrap 8 v
  | None => 0
  end.

Definition millis_option (opts : Opts) (key : string) (default : Z) : Z :=
  match opt_int opts key with
  | Some v => int64 (v * Millisecond)
  | None => int64 (default * Millisecond)
  end.

(** The client configuration and the new value of the binding's [qos]. *)
Definition getClientConfig (cfg : Config) (b : Mqtt5Binding) : (ClientConfig * Z) + error :=
  let comCfg := Com (Services cfg) in
  let opts := com_Opts comCfg in
  match parse_url (Url comCfg) with
  | inr err => inr err
  | inl brokerUrl =>
      match tls_config (Auth comCfg) with
      | inr err => inr err
      | inl tls =>
          match keep_alive opts with
          | inr err => inr err
          | inl keepAlive =>
              inl ({| cc_ClientID := clientId b;
                      cc_Debug := opt_is_true opts "debug" && plog_Enabled;
                      cc_CleanStart := true;
                      cc_BrokerUrls := [brokerUrl];
                      cc_UsernamePassword :=
                        if String.eqb (Password (Auth comCfg)) "" then None
                        else Some (Username (Auth comCfg), bytes_of_string (Password (Auth comCfg)));
                      cc_TlsCfg := tls;
                      cc_KeepAlive := keepAlive;
                      cc_ConnectRetryDelay := millis_option opts "connectRetryDelay" 1000;
                      cc_ConnectTimeout := millis_option opts "connectTimeout" 10000 |},
                   qos_option opts)
          end
      end
  end.

(** [OnConnectionUp]: the first connection delivers the broker's
    acknowledgment to [Open], a later one resubscribes. *)
Definition OnConnectionUp `{MapRange} (connackChan : bool) (b : Mqtt5Binding) : bool * Mqtt5Binding :=
  if connackChan then (false, b) else (false, resubscribe b).

(** The library's connecting: the connection, the error waiting for it to be
    up yields (with a timeout, if positive), and whether the broker's
    acknowledgment allows shared subscriptions. *)
Variable NewConnection : ClientConfig -> Conn + error.
Variable AwaitConnection : option Z -> Conn -> goerr.
Variable SharedSubAvailable : Conn -> bool.

(** The values sent on the channel returned, which is closed. *)
Definition Open (cfg : Config) (timeout : Z) (b : Mqtt5Binding) : list goerr * Mqtt5Binding :=
  match conn (link b) with
  | Some _ => ([None], b)
  | None =>
      let nl := opt_is_true (com_Opts (Com (Services cfg))) "noLocal" in
      let l0 := {| conn := None; qos := qos (link b); noLocal := nl |} in
      let fresh l shared :=
        {| eventRouter := NewRouter l; actionRouter := NewRouter l; actionResultRouter := NewRouter l;
           queryRouter := NewRouter l; queryResultRouter := NewRouter l;
           clientId := getClientId cfg; link := l; cluster := Cluster cfg; responseId := Config.Id (Identity_ cfg);
           sharedSubAvailable := shared |} in
      let b := fresh l0 (sharedSubAvailable b) in
      match getClientConfig cfg b with
      | inr err => ([Some err], b)
      | inl (ccfg, q) =>
          let b := with_link {| conn := None; qos := q; noLocal := nl |} b in
          match NewConnection ccfg with
          | inr err => ([Some err], b)
          | inl c =>
              match AwaitConnection (if 0 <? timeout then Some timeout else None) c with
              | Some err => ([NewRetryableError (Some err)], b)
              | None => ([], fresh {| conn := Some c; qos := q; noLocal := nl |} (SharedSubAvailable c))
              end
          end
      end
  end.
End Connect.

(** [Close]: disconnects, whatever comes of it. *)
Definition Close `{Paho} (b : Mqtt5Binding) : Mqtt5Binding :=
  match conn (link b) with
  | None => b
  | Some c => with_link {| conn := None; qos := qos (link b); noLocal := noLocal (link b) |} b
  end.

(** ** Topics *)

Definition slash : ascii := "/"%char.

Lemma good_name_free (name : string) : good_name name -> string_free slash name = true.
Proof.
  intros [_ Hall]. induction name as [|c name IH]; [done|].
  apply Forall_cons in Hall as [Hc Hall]. simpl. rewrite IH by done.
  destruct (Ascii.eqb_spec c slash) as [->|]; [|done].
  by destruct (name_byte_not_special _ Hc) as [? _].
Qed.

(** The scope level of a topic. *)
Definition scope_level (scope : string) : string := if String.eqb scope ScopeDef then ScopeCom else scope.

Lemma known_scope_level scope :
  known_scope scope -> string_free slash (scope_level scope) = true /\ (ToScope (scope_level scope)).2 = None.
Proof. intros [->|[->|[->| ->]]]; by split. Qed.

Lemma pub_topic_share cluster share scope levels :
  (topicWithLevels cluster share scope levels).1 = (topicWithLevels cluster "" scope levels).1.
Proof. done. Qed.

Section Topics.
Variables cluster scope level typ : string.
Hypothesis Hcluster : string_free slash cluster = true.
Hypothesis Hscope : string_free slash (scope_level scope) = true.
Hypothesis Hlevel : string_free slash level = true.
Hypothesis Htyp : string_free slash typ = true.

Lemma string_cons_app (x : ascii) (a b : string) : String x a +:+ b = String x (a +:+ b).
Proof. done. Qed.

Lemma topic_eq share :
  (topicWithLevels cluster share scope [level; typ]).1 =
  cluster +:+ String slash (scope_level scope +:+ String slash (level +:+ String slash typ)).
Proof. done. Qed.

Lemma Split_topic share :
  strings_Split (topicWithLevels cluster share scope [level; typ]).1 slash =
  [cluster; scope_level scope; level; typ].
Proof. rewrite topic_eq, !Split_app by done. by rewrite Split_free. Qed.

Lemma Split_response share rest :
  strings_Split ((topicWithLevels cluster share scope [level; typ]).1 +:+ String slash rest) slash =
  cluster :: scope_level scope :: level :: typ :: strings_Split rest slash.
Proof.
  rewrite topic_eq. rewrite !string_app_assoc, !string_cons_app, !string_app_assoc, !string_cons_app, !string_app_assoc.
  rewrite !string_cons_app. by rewrite !Split_app.
Qed.
End Topics.

(** for names the configuration and the API accept, the topic of a
    publication determines its cluster, scope, pattern and type: publications
    that differ in one of these never meet on a topic, and the subscription
    topic of a shared subscription is that topic behind the share name. *)
Theorem topics_injective (cl1 cl2 sc1 sc2 lv1 lv2 ty1 ty2 sh1 sh2 : string) :
  good_name cl1 -> good_name cl2 -> known_scope sc1 -> known_scope sc2 ->
  good_name lv1 -> good_name lv2 -> good_name ty1 -> good_name ty2 ->
  (topicWithLevels cl1 sh1 sc1 [lv1; ty1]).1 = (topicWithLevels cl2 sh2 sc2 [lv2; ty2]).1 ->
  cl1 = cl2 /\ ToScope sc1 = ToScope sc2 /\ lv1 = lv2 /\ ty1 = ty2 /\
  (sh1 <> "" -> (topicWithLevels cl1 sh1 sc1 [lv1; ty1]).2 =
                levelShare +:+ "/" +:+ sh1 +:+ "/" +:+ (topicWithLevels cl2 sh2 sc2 [lv2; ty2]).1).
Proof.
  intros H1 H2 [S1 _]%known_scope_level [S2 _]%known_scope_level H3 H4 H5 H6 E.
  pose proof (f_equal (fun t => strings_Split t slash) E) as Es. cbv beta in Es.
  rewrite !Split_topic in Es by (done || by apply good_name_free).
  injection Es as -> Esc -> ->. split_and!; try done.
  - unfold scope_level in Esc. destruct (String.eqb_spec sc1 ScopeDef) as [->|], (String.eqb_spec sc2 ScopeDef) as [->|];
      subst; done.
  - intros Hsh. rewrite <- E. unfold topicWithLevels. simpl. destruct (String.eqb_spec sh1 ""); done.
Qed.

(** ** Publications and what arrives *)

Section Delivery.
Context `{PahoLaws}.

Lemma levels_good : forallb (string_free slash) [levelEvent; levelAction; levelActionResult; levelQuery; levelQueryResult] = true.
Proof. done. Qed.

Ltac get_props := rewrite ?Get_first, ?Get_next by done; rewrite ?Get_first, ?Get_next by done; rewrite ?Get_first, ?Get_next by done; rewrite ?Get_first.

Section OneTopic.
Variables (cl scope typ : string) (q : Z) (payload : slice).
Hypothesis Hcl : good_name cl.
Hypothesis Hsc : known_scope scope.
Hypothesis Htyp : good_name typ.

(** Parsing up to the pattern: the topic is split by [split], and its scope
    is known. *)
Ltac parse_topic split :=
  destruct (known_scope_level scope Hsc) as [Hs Hk];
  unfold parse_publication, packet; cbn [p_Properties User p_Topic];
  rewrite split by (done || by apply good_name_free);
  destruct (ToScope (scope_level scope)) as [x [err|]]; [done|].

Abbreviation topic level := (topicWithLevels cl "" scope [level; typ]).1.

Lemma parse_event (e : Event) :
  ev_Type e = typ -> ev_Data e = payload ->
  parse_publication (packet q (topic levelEvent) payload (event_props e) "" None) =
  Some (InEvent {| Topic := topic levelEvent; CorrelationId := "" |} e).
Proof.
  intros Ht Hd. parse_topic Split_topic.
  unfold event_props. get_props. simpl. subst. by destruct e.
Qed.

Lemma parse_action (a : Action) (rt : string) (cid : slice) :
  ac_Type a = typ -> ac_Params a = payload ->
  parse_publication (packet q (topic levelAction) payload
    (request_props (ac_Id a) (ac_Source a) (ac_DataContentType a)) rt cid) =
  Some (InAction {| Topic := topic levelAction; CorrelationId := "" |}
    {| awc_Action := a; awc_Callback := {| cb_responseTopic := rt; cb_correlationId := cid |} |}).
Proof.
  intros Ht Hd. parse_topic Split_topic.
  unfold request_props. get_props. simpl. subst. by destruct a.
Qed.

Lemma parse_query (a : Query) (rt : string) (cid : slice) :
  qu_Type a = typ -> qu_Data a = payload ->
  parse_publication (packet q (topic levelQuery) payload
    (request_props (qu_Id a) (qu_Source a) (qu_DataContentType a)) rt cid) =
  Some (InQuery {| Topic := topic levelQuery; CorrelationId := "" |}
    {| qwc_Query := a; qwc_Callback := {| cb_responseTopic := rt; cb_correlationId := cid |} |}).
Proof.
  intros Ht Hd. parse_topic Split_topic.
  unfold request_props. get_props. simpl. subst. by destruct a.
Qed.

Lemma parse_action_result (r : ActionResult) (rid : string) (cid : slice) :
  in_sint 64 (ar_SequenceNumber r) ->
  parse_publication (packet q (topic levelActionResult +:+ "/" +:+ rid) (ar_Data r)
    (result_props (ar_Context r) (ar_DataContentType r) (ar_SequenceNumber r)) "" cid) =
  Some (InActionResult {| Topic := topic levelActionResult +:+ "/" +:+ rid;
                          CorrelationId := string_of_bytes (sl cid) |} r).
Proof.
  intros Hseq. change ("/" +:+ rid) with (String slash rid). parse_topic Split_response.
  unfold result_props. get_props. simpl. rewrite ParseInt_FormatInt by done. by destruct r.
Qed.

Lemma parse_query_result (r : QueryResult) (rid : string) (cid : slice) :
  in_sint 64 (qr_SequenceNumber r) ->
  parse_publication (packet q (topic levelQueryResult +:+ "/" +:+ rid) (qr_Data r)
    (result_props (qr_Context r) (qr_DataContentType r) (qr_SequenceNumber r)) "" cid) =
  Some (InQueryResult {| Topic := topic levelQueryResult +:+ "/" +:+ rid;
                          CorrelationId := string_of_bytes (sl cid) |} r).
Proof.
  intros Hseq. change ("/" +:+ rid) with (String slash rid). parse_topic Split_response.
  unfold result_props. get_props. simpl. rewrite ParseInt_FormatInt by done. by destruct r.
Qed.
End OneTopic.

Lemma ToScope_level sc1 sc2 :
  known_scope sc1 -> ToScope sc1 = ToScope sc2 -> scope_level sc1 = scope_level sc2 /\ known_scope sc2.
Proof.
  intros Hk E. assert (known_scope sc2) as Hk2.
  { apply ToScope_known. rewrite <- E. by apply ToScope_known. }
  split; [|done]. destruct Hk as [->|[->|[->| ->]]], Hk2 as [->|[->|[->| ->]]]; by vm_compute in E.
Qed.

Lemma topic_scope cl sc1 sc2 sh1 sh2 level typ :
  scope_level sc1 = scope_level sc2 ->
  (topicWithLevels cl sh1 sc1 [level; typ]).1 = (topicWithLevels cl sh2 sc2 [level; typ]).1.
Proof. intros E. unfold topicWithLevels. simpl. unfold scope_level in E. by rewrite E. Qed.

(** Dispatching to a channel just added. *)
Lemma dispatch_added {R} ctx f sub pub uns (r r' : RouterState R string Link) rc cancelled x :
  router_ok r -> Add ctx f sub pub uns [] r = (inl rc, r') -> ctx ∉ cancelled ->
  (forall rc', rc' ∈ default [] (routes r !! Topic f) -> CtxDone rc' ∉ cancelled ->
     correlationId rc' = CorrelationId f -> exists c, chans r !! rc_addr rc' = Some c /\ has_room c) ->
  exists cs, Router.Dispatch "" cancelled f x r' = Ret tt cs /\
    cs !! rc_addr rc = Some (push x (make_chan 1)) /\
    forall a, a <> rc_addr rc ->
      (forall rc', rc' ∈ default [] (routes r !! Topic f) -> correlationId rc' <> CorrelationId f) ->
      cs !! a = chans r !! a.
Proof.
  intros Hok Hadd Hctx Hroom.
  destruct (Add_inl _ _ _ _ _ _ _ _ Hok Hadd) as (Hok' & Hcid & Hd & _ & Hr & Hch & Hne).
  destruct (dispatch_ok "" cancelled f x r' Hok') as (cs & Hrun & Hcs).
  - intros rc' [[Hc' Hcid'] Hin]%list_elem_of_filter. rewrite Hr, lookup_insert_eq in Hin. simpl in Hin.
    rewrite Hch. apply elem_of_app in Hin as [Hin|Hin%list_elem_of_singleton].
    + destruct (Hroom rc' Hin Hc' Hcid') as (c & Hc & Hroomc). exists c.
      rewrite lookup_insert_ne; [done|]. intros E.
      destruct (routes r !! Topic f) as [rcs|] eqn:Er; [|by apply not_elem_of_nil in Hin].
      by apply (Hne _ _ rc' Er Hin).
    + subst rc'. exists (make_chan receiveBufferSize). rewrite lookup_insert_eq. split; [done|].
      split; [done|]. unfold receiveBufferSize. simpl. lia.
  - exists cs. split; [exact Hrun|]. split.
    + rewrite Hcs, decide_True.
      * by rewrite Hch, lookup_insert_eq.
      * apply list_elem_of_fmap_2, list_elem_of_filter. rewrite Hd. split; [done|].
        rewrite Hr, lookup_insert_eq. simpl. apply elem_of_app. right. left.
    + intros a Ha Hno. rewrite Hcs, Hch, lookup_insert_ne by done.
      case_decide as Hin; [|done]. exfalso.
      apply list_elem_of_fmap in Hin as (rc' & -> & [[_ Hcid'] Hin]%list_elem_of_filter).
      rewrite Hr, lookup_insert_eq in Hin. simpl in Hin.
      apply elem_of_app in Hin as [Hin|Hin%list_elem_of_singleton]; [by apply (Hno rc')|by subst rc'].
Qed.

Lemma with_binding_ok {R} (r : RouterState R string Link) l : router_ok r -> router_ok (with_binding l r).
Proof. apply router_ok_binding. Qed.

Lemma subscribe_pattern_inl {R} pat level ctx filter (router : Mqtt5Binding -> RouterState R string Link)
    with_router b rc b' :
  subscribe_pattern pat level ctx filter router with_router b = (inl rc, b') ->
  exists r', Add ctx {| Topic := (topicWithLevels (cluster b) (sf_Share filter) (sf_Scope filter) [level; sf_Type filter]).1;
                        CorrelationId := "" |}
      (subscribe [(topicWithLevels (cluster b) (sf_Share filter) (sf_Scope filter) [level; sf_Type filter]).2]) noop
      (unsubscribe [(topicWithLevels (cluster b) (sf_Share filter) (sf_Scope filter) [level; sf_Type filter]).2]) []
      (with_binding (link b) (router b)) = (inl rc, r') /\ b' = with_router r' (binding r') b.
Proof.
  unfold subscribe_pattern, add_route. destruct (validatePatternFilter b pat filter); [done|].
  destruct (conn (link b)); [|done].
  destruct (topicWithLevels _ _ _ _) as [pubTopic subTopic]. cbn [fst snd].
  destruct (Add _ _ _ _ _ _ _) as [res r'] eqn:E. intros [= -> <-]. by exists r'.
Qed.

(** C23: an event reaches its subscribers unchanged.  Between two open
    bindings of one cluster: a valid event published in a scope becomes one
    MQTT publication, and when that arrives at a binding that has subscribed
    the event's type in that scope (shared or not), the new subscriber's
    channel receives an event equal in every field. *)
Theorem event_delivered (b1 b2 b2' : Mqtt5Binding) (c : Conn) (event : Event) (scope : list string)
    (filter : SubscriptionFilter) (ctx : nat) (rc : RouteChannel string Link) (cancelled : gset nat) :
  conn (link b1) = Some c -> good_name (cluster b1) -> cluster b2 = cluster b1 ->
  validatePatternTypeIdSource "Event" (ev_Type event) (ev_Id event) (ev_Source event) = None ->
  known_scope (opt_scope scope) -> ToScope (opt_scope scope) = ToScope (sf_Scope filter) ->
  sf_Type filter = ev_Type event ->
  router_ok (eventRouter b2) -> SubscribeEvent ctx filter b2 = (inl rc, b2') -> ctx ∉ cancelled ->
  (forall t rcs rc', routes (eventRouter b2) !! t = Some rcs -> rc' ∈ rcs -> CtxDone rc' ∉ cancelled ->
     exists ch, chans (eventRouter b2) !! rc_addr rc' = Some ch /\ has_room ch) ->
  exists pk,
    PublishEvent event scope b1 = Ret (NewRetryableError (conn_Publish pk c).1)
                                      (with_link (set_conn (conn_Publish pk c).2 (link b1)) b1) /\
    exists b3, handle cancelled pk b2' = Ret tt b3 /\
      chans (eventRouter b3) !! rc_addr rc = Some (push event (make_chan 1)).
Proof.
  intros Hconn Hcl Hcl2 Hval Hk Hsc Hty Hok Hsub Hctx Hroom.
  destruct (ToScope_level _ _ Hk Hsc) as [Hlev Hk2].
  assert (good_name (ev_Type event)) as Hgt.
  { unfold validatePatternTypeIdSource in Hval. destruct (ValidateName _ _) eqn:E; [done|].
    by apply ValidateName_nil in E. }
  exists (packet (qos (link b1)) (topicWithLevels (cluster b1) "" (opt_scope scope) [levelEvent; ev_Type event]).1
            (ev_Data event) (event_props event) "" None). split.
  { unfold PublishEvent. rewrite Hval, Hconn. unfold publish. simpl. rewrite Hconn. by destruct (conn_Publish _ c). }
  destruct (subscribe_pattern_inl _ _ _ _ _ _ _ _ _ Hsub) as (r' & Hadd & ->).
  unfold handle. rewrite (parse_event (cluster b1) (opt_scope scope) (ev_Type event) (qos (link b1)) (ev_Data event)) by done.
  assert ((topicWithLevels (cluster b1) "" (opt_scope scope) [levelEvent; ev_Type event]).1 =
          (topicWithLevels (cluster b2) (sf_Share filter) (sf_Scope filter) [levelEvent; sf_Type filter]).1) as ->.
  { rewrite Hcl2, Hty. by apply topic_scope. }
  destruct (dispatch_added _ _ _ _ _ _ _ _ cancelled event (with_binding_ok _ (link b2) Hok) Hadd Hctx) as (cs & Hrun & Hcs & _).
  { intros rc' Hin Hc' _. simpl in Hin |- *.
    destruct (routes (eventRouter b2) !! _) as [rcs|] eqn:Er; [|by apply not_elem_of_nil in Hin]. by eapply Hroom. }
  unfold dispatch_in. cbn [eventRouter with_eventRouter]. rewrite Hrun. eexists. split; [reflexivity|]. exact Hcs.
Qed.

(** The publish function of a request ran, and succeeded. *)
Lemma Add_published {R} ctx f topics payload topic props rt cid uns (r r' : RouterState R string Link) rc l c :
  conn l = Some c ->
  Add ctx f (subscribe topics) (publish_func topic payload props rt cid) uns [] (with_binding l r) = (inl rc, r') ->
  exists c0, (conn_Publish (packet (qos l) topic payload props rt cid) c0).1 = None /\
    conn (binding r') = Some (conn_Publish (packet (qos l) topic payload props rt cid) c0).2.
Proof.
  intros Hc Hadd.
  assert (forall l' c', conn l' = Some c' -> qos l' = qos l ->
    let '(err, l2) := publish_func topic payload props rt cid l' in err = None ->
    (conn_Publish (packet (qos l) topic payload props rt cid) c').1 = None /\
    conn l2 = Some (conn_Publish (packet (qos l) topic payload props rt cid) c').2) as Hpub.
  { intros l' c' Hc' Hq. unfold publish_func, publish. rewrite Hc', Hq.
    destruct (conn_Publish _ c') as [[e|] c2]; simpl; [done|by split]. }
  unfold Add in Hadd. simpl in Hadd. destruct (routes r !! Topic f).
  - specialize (Hpub l c Hc eq_refl). destruct (publish_func _ _ _ _ _ l) as [[e|] l2]; [done|].
    injection Hadd as _ <-. exists c. by apply Hpub.
  - destruct (subscribe topics l) as [[e|] l1] eqn:Es; [done|].
    assert (exists c1, conn l1 = Some c1 /\ qos l1 = qos l) as (c1 & Hc1 & Hq1).
    { destruct topics as [|t ts]; [injection Es as <-; by exists c|]. unfold subscribe in Es. rewrite Hc in Es.
      destruct (conn_Subscribe _ c) as [[e|] c1]; [done|]. injection Es as <-. by exists c1. }
    specialize (Hpub l1 c1 Hc1 Hq1). destruct (publish_func _ _ _ _ _ l1) as [[e|] l2]; [done|].
    injection Hadd as _ <-. exists c1. by apply Hpub.
Qed.

Abbreviation topic_of b level scope typ := (topicWithLevels (cluster b) "" (opt_scope scope) [level; typ]).1.

Lemma publish_request_inl {R} level resultLevel typ payload props uuid ctx scope
    (router : Mqtt5Binding -> RouterState R string Link) with_router b rc b' c :
  conn (link b) = Some c ->
  publish_request level resultLevel typ payload props uuid ctx scope router with_router b = (inl rc, b') ->
  let rt := topic_of b resultLevel scope typ +:+ "/" +:+ responseId b in
  let pk := packet (qos (link b)) (topic_of b level scope typ) payload props rt (Some (bytes_of_string uuid)) in
  exists r', Add ctx {| Topic := rt; CorrelationId := uuid |} (subscribe [rt])
      (publish_func (topic_of b level scope typ) payload props rt (Some (bytes_of_string uuid)))
      (unsubscribe [rt]) [] (with_binding (link b) (router b)) = (inl rc, r') /\
    b' = with_router r' (binding r') b /\
    exists c0, (conn_Publish pk c0).1 = None /\ conn (binding r') = Some (conn_Publish pk c0).2.
Proof.
  intros Hc. unfold publish_request, responseInfo, add_route.
  destruct (topicWithLevels (cluster b) "" (opt_scope scope) [level; typ]) as [pubTopic x].
  destruct (topicWithLevels (cluster b) "" (opt_scope scope) [resultLevel; typ]) as [resTopic y]. cbn [fst snd].
  destruct (Add _ _ _ _ _ _ _) as [res r'] eqn:E. intros [= -> <-]. exists r'. split_and!; [done|done|].
  by eapply Add_published.
Qed.

Lemma validate_type pat typ id source : validatePatternTypeIdSource pat typ id source = None -> good_name typ.
Proof.
  unfold validatePatternTypeIdSource. destruct (ValidateName _ _) eqn:E; [done|]. by apply ValidateName_nil in E.
Qed.

(** Dispatching to a channel whose correlation id no other channel has. *)
Lemma dispatch_fresh {R} ctx f sub pub uns (r r' : RouterState R string Link) rc cancelled l x :
  router_ok r -> Add ctx f sub pub uns [] (with_binding l r) = (inl rc, r') -> ctx ∉ cancelled ->
  (forall t rcs rc', routes r !! t = Some rcs -> rc' ∈ rcs -> correlationId rc' <> CorrelationId f) ->
  exists cs, Router.Dispatch "" cancelled f x r' = Ret tt cs /\
    cs !! rc_addr rc = Some (push x (make_chan 1)) /\
    forall a, a <> rc_addr rc -> cs !! a = chans r !! a.
Proof.
  intros Hok Hadd Hctx Hfresh.
  assert (forall rc', rc' ∈ default [] (routes r !! Topic f) -> correlationId rc' <> CorrelationId f) as Hno.
  { intros rc' Hin. destruct (routes r !! Topic f) as [rcs|] eqn:Er; [by eapply Hfresh|by apply not_elem_of_nil in Hin]. }
  destruct (dispatch_added _ _ _ _ _ _ _ _ cancelled x (with_binding_ok _ l Hok) Hadd Hctx)
    as (cs & Hrun & Hcs & Hother).
  - intros rc' Hin _ Hcid. by destruct (Hno rc' Hin).
  - exists cs. split_and!; [done|done|]. intros a Ha. by apply Hother.
Qed.

(** Publishing a result on an open binding. *)
Lemma publish_result_open what payload props rt cid (b : Mqtt5Binding) c :
  conn (link b) = Some c ->
  let pk := packet (qos (link b)) rt payload props "" cid in
  publish_result what payload props {| cb_responseTopic := rt; cb_correlationId := cid |} b =
  Ret (NewRetryableError (conn_Publish pk c).1) (with_link (set_conn (conn_Publish pk c).2 (link b)) b).
Proof.
  intros Hc. unfold publish_result. rewrite Hc. unfold publish. rewrite Hc.
  cbn [cb_responseTopic cb_correlationId]. by destruct (conn_Publish _ c).
Qed.

(** An action's way to whoever gets it, and its results' way back. *)
Lemma action_exchange (b1 b1' : Mqtt5Binding) (c : Conn) (action : Action) (scope : list string) (uuid : string)
    (ctx : nat) (rc : RouteChannel string Link) :
  conn (link b1) = Some c -> good_name (cluster b1) -> known_scope (opt_scope scope) ->
  router_ok (actionResultRouter b1) ->
  (forall t rcs rc', routes (actionResultRouter b1) !! t = Some rcs -> rc' ∈ rcs -> correlationId rc' <> uuid) ->
  PublishAction uuid ctx action scope b1 = (inl rc, b1') ->
  exists pk cb,
    (exists c0, (conn_Publish pk c0).1 = None /\ conn (link b1') = Some (conn_Publish pk c0).2) /\
    parse_publication pk = Some (InAction {| Topic := topic_of b1 levelAction scope (ac_Type action); CorrelationId := "" |}
                                   {| awc_Action := action; awc_Callback := cb |}) /\
    forall b2 c2 result, conn (link b2) = Some c2 -> in_sint 64 (ar_SequenceNumber result) ->
    exists pk2,
      publishActionResult result cb b2 = Ret (NewRetryableError (conn_Publish pk2 c2).1)
                                             (with_link (set_conn (conn_Publish pk2 c2).2 (link b2)) b2) /\
      forall cancelled, ctx ∉ cancelled -> exists b3, handle cancelled pk2 b1' = Ret tt b3 /\
        chans (actionResultRouter b3) !! rc_addr rc = Some (push result (make_chan 1)) /\
        forall a, a <> rc_addr rc -> chans (actionResultRouter b3) !! a = chans (actionResultRouter b1) !! a.
Proof.
  intros Hc Hcl Hk Hok Hfresh Hpub. unfold PublishAction in Hpub.
  destruct (validatePatternTypeIdSource _ _ _ _) eqn:Hval; [done|]. apply validate_type in Hval. rewrite Hc in Hpub.
  destruct (publish_request_inl _ _ _ _ _ _ _ _ _ _ _ _ _ _ Hc Hpub) as (r' & Hadd & -> & Hconn).
  eexists _, _. split_and!; [exact Hconn|by apply parse_action|].
  intros b2 c2 result Hc2 Hseq. eexists. split; [by apply publish_result_open|].
  intros cancelled Hctx. unfold handle. rewrite parse_action_result by done.
  change (sl (Some (bytes_of_string uuid))) with (bytes_of_string uuid). rewrite string_bytes_string.
  destruct (dispatch_fresh _ _ _ _ _ _ _ _ cancelled _ result Hok Hadd Hctx Hfresh) as (cs & Hrun & Hcs & Hother).
  unfold dispatch_in. cbn [actionResultRouter with_actionResultRouter]. rewrite Hrun. by eexists.
Qed.

(** C22: an action is answered to whom published it.  The action an open
    binding publishes arrives elsewhere unchanged, with a callback; whatever
    result a binding publishes through this callback, and whenever, its
    publication is dispatched at the publisher to the channel returned for
    that action, equal in every field, and to no other channel. *)
Theorem action_answered (b1 b1' : Mqtt5Binding) (c : Conn) (action : Action) (scope : list string) (uuid : string)
    (ctx : nat) (rc : RouteChannel string Link) :
  conn (link b1) = Some c -> good_name (cluster b1) -> known_scope (opt_scope scope) ->
  router_ok (actionResultRouter b1) ->
  (forall t rcs rc', routes (actionResultRouter b1) !! t = Some rcs -> rc' ∈ rcs -> correlationId rc' <> uuid) ->
  PublishAction uuid ctx action scope b1 = (inl rc, b1') ->
  exists pk cb f,
    (exists c0, (conn_Publish pk c0).1 = None /\ conn (link b1') = Some (conn_Publish pk c0).2) /\
    parse_publication pk = Some (InAction f {| awc_Action := action; awc_Callback := cb |}) /\
    forall b2 c2 result, conn (link b2) = Some c2 -> in_sint 64 (ar_SequenceNumber result) ->
    exists pk2,
      publishActionResult result cb b2 = Ret (NewRetryableError (conn_Publish pk2 c2).1)
                                             (with_link (set_conn (conn_Publish pk2 c2).2 (link b2)) b2) /\
      forall cancelled, ctx ∉ cancelled -> exists b3, handle cancelled pk2 b1' = Ret tt b3 /\
        chans (actionResultRouter b3) !! rc_addr rc = Some (push result (make_chan 1)) /\
        forall a, a <> rc_addr rc -> chans (actionResultRouter b3) !! a = chans (actionResultRouter b1) !! a.
Proof.
  intros Hc Hcl Hk Hok Hfresh Hpub.
  destruct (action_exchange _ _ _ _ _ _ _ _ Hc Hcl Hk Hok Hfresh Hpub) as (pk & cb & ? & ? & ?).
  by eexists pk, cb, _.
Qed.
(** a query is answered to whom published it.  The query an open
    binding publishes arrives elsewhere unchanged, with a callback; whatever
    result a binding publishes through this callback, and whenever, its
    publication is dispatched at the publisher to the channel returned for
    that query, equal in every field, and to no other channel. *)
Theorem query_answered (b1 b1' : Mqtt5Binding) (c : Conn) (query : Query) (scope : list string) (uuid : string)
    (ctx : nat) (rc : RouteChannel string Link) :
  conn (link b1) = Some c -> good_name (cluster b1) -> known_scope (opt_scope scope) ->
  router_ok (queryResultRouter b1) ->
  (forall t rcs rc', routes (queryResultRouter b1) !! t = Some rcs -> rc' ∈ rcs -> correlationId rc' <> uuid) ->
  PublishQuery uuid ctx query scope b1 = (inl rc, b1') ->
  exists pk cb f,
    (exists c0, (conn_Publish pk c0).1 = None /\ conn (link b1') = Some (conn_Publish pk c0).2) /\
    parse_publication pk = Some (InQuery f {| qwc_Query := query; qwc_Callback := cb |}) /\
    forall b2 c2 result, conn (link b2) = Some c2 -> in_sint 64 (qr_SequenceNumber result) ->
    exists pk2,
      publishQueryResult result cb b2 = Ret (NewRetryableError (conn_Publish pk2 c2).1)
                                             (with_link (set_conn (conn_Publish pk2 c2).2 (link b2)) b2) /\
      forall cancelled, ctx ∉ cancelled -> exists b3, handle cancelled pk2 b1' = Ret tt b3 /\
        chans (queryResultRouter b3) !! rc_addr rc = Some (push result (make_chan 1)) /\
        forall a, a <> rc_addr rc -> chans (queryResultRouter b3) !! a = chans (queryResultRouter b1) !! a.
Proof.
  intros Hc Hcl Hk Hok Hfresh Hpub. unfold PublishQuery in Hpub.
  destruct (validatePatternTypeIdSource _ _ _ _) eqn:Hval; [done|]. apply validate_type in Hval. rewrite Hc in Hpub.
  destruct (publish_request_inl _ _ _ _ _ _ _ _ _ _ _ _ _ _ Hc Hpub) as (r' & Hadd & -> & Hconn).
  eexists _, _, _. split_and!; [exact Hconn|by apply parse_query|].
  intros b2 c2 result Hc2 Hseq. eexists. split; [by apply publish_result_open|].
  intros cancelled Hctx. unfold handle. rewrite parse_query_result by done.
  change (sl (Some (bytes_of_string uuid))) with (bytes_of_string uuid). rewrite string_bytes_string.
  destruct (dispatch_fresh _ _ _ _ _ _ _ _ cancelled _ result Hok Hadd Hctx Hfresh) as (cs & Hrun & Hcs & Hother).
  unfold dispatch_in. cbn [queryResultRouter with_queryResultRouter]. rewrite Hrun. by eexists.
Qed.
End Delivery.

(** ** The client id *)

Lemma rune_width_alnum c s : alnum c = true -> rune_width (c :: s) = 1%nat.
Proof.
  intros Hc. unfold alnum in Hc. unfold rune_width. pose proof (byte_val_range c).
  assert (byte_val c < 128) as Hlt by lia.
  by rewrite !(proj2 (Z.leb_gt _ (byte_val c))) by lia.
Qed.

Lemma replace_alnum skip s : Forall (fun c => alnum c = true) (replace_non_alnum skip s).
Proof.
  revert skip. induction s as [|c s IH]; intros [|k]; simpl; [constructor..| |apply IH].
  constructor; [|apply IH]. by destruct (alnum c) eqn:E.
Qed.

Lemma replace_id s : Forall (fun c => alnum c = true) s -> replace_non_alnum 0 s = s.
Proof.
  induction s as [|c s IH]; [done|]. intros [Hc Hs]%Forall_cons.
  cbn [replace_non_alnum]. rewrite rune_width_alnum, Hc by done. simpl. by rewrite IH.
Qed.

Lemma replace_nonempty s : s <> [] -> replace_non_alnum 0 s <> [].
Proof. by destruct s. Qed.

(** the MQTT client id is the configured name and id; in strict mode it
    has at most 23 bytes, all alphanumeric, so that every server must accept
    it, is not empty unless name and id are, and is the name and id where
    these comply already. *)
Theorem getClientId_strict (cfg : Config) :
  let plain := Name (Identity_ cfg) +:+ Config.Id (Identity_ cfg) in
  let id := bytes_of_string (getClientId cfg) in
  if opt_is_true (com_Opts (Com (Services cfg))) "strictClientId" then
    (length id <= 23)%nat /\ Forall (fun c => alnum c = true) id /\
    (plain <> "" -> id <> []) /\
    (Forall (fun c => alnum c = true) (bytes_of_string plain) ->
     (length (bytes_of_string plain) <= 23)%nat -> getClientId cfg = plain)
  else getClientId cfg = plain.
Proof.
  simpl. unfold getClientId. destruct (opt_is_true _ _); [|done].
  set (plain := Name (Identity_ cfg) +:+ Config.Id (Identity_ cfg)).
  rewrite bytes_string_bytes. set (r := replace_non_alnum 0 (bytes_of_string plain)).
  assert (Forall (fun c => alnum c = true) r) as Hr by apply replace_alnum.
  split_and!.
  - destruct (Nat.ltb_spec 23 (length r)); [rewrite length_take|]; lia.
  - destruct (Nat.ltb 23 (length r)); [by apply Forall_take|done].
  - intros Hne. assert (r <> []) as Hrne.
    { apply replace_nonempty. intros E. apply Hne. apply bytes_of_string_inj. by rewrite E. }
    destruct (Nat.ltb 23 (length r)); [|done]. by destruct r.
  - intros Hal Hlen. assert (r = bytes_of_string plain) as E by (by apply replace_id). rewrite E.
    destruct (Nat.ltb_spec 23 (length (bytes_of_string plain))); [lia|]. apply string_bytes_string.
Qed.

(** ** Routed topics and the broker's subscriptions *)

Section Subscriptions.
Context `{PahoLaws}.

Definition broker_subs (l : Link) : gset string :=
  match conn l with
  | None => ∅
  | Some c => conn_subs c
  end.

(** The topic subscribed for a routed topic. *)
Definition sub_topic (share t : string) : string :=
  if negb (String.eqb share "") then levelShare +:+ "/" +:+ share +:+ "/" +:+ t else t.

(** A topic a router is given: of a pattern, or of a request's results. *)
Definition route_topic (cl level t : string) : Prop :=
  exists scope typ, known_scope scope /\ good_name level /\ good_name typ /\
    (t = (topicWithLevels cl "" scope [level; typ]).1 \/
     exists id, t = (topicWithLevels cl "" scope [level; typ]).1 +:+ "/" +:+ id).

(** A share name that is accepted: none, or a good one. *)
Definition share_name (share : string) : Prop := share = "" \/ good_name share.

(** The functions the operations pass to [Router.Add] for a topic, those of
    a subscription with or without a share name, which [ok] may restrict, and
    those of a request that awaits results. *)
Inductive mqtt_binding (ok : string -> string -> Prop) (cl level t : string) :
    ComBindingFunc Link -> ComBindingFunc Link -> ComBindingFunc Link -> Prop :=
  | subscribes share :
      route_topic cl level t -> share_name share -> ok t share ->
      mqtt_binding ok cl level t (subscribe [sub_topic share t]) noop (unsubscribe [sub_topic share t])
  | requests topic payload props rt cid :
      route_topic cl level t -> ok t "" ->
      mqtt_binding ok cl level t (subscribe [t]) (publish_func topic payload props rt cid) (unsubscribe [t]).

(** The other users of the connection: publications, and the routers of the
    other patterns and results. *)
Inductive other_users (cl level : string) (l : Link) : Link -> Prop :=
  | other_publication topic payload props rt cid :
      other_users cl level l (publish_func topic payload props rt cid l).2
  | other_router level' t sub pub uns f :
      level' <> level -> mqtt_binding (fun _ _ => True) cl level' t sub pub uns -> f ∈ [sub; pub; uns] ->
      other_users cl level l (f l).2.

Lemma sub_topic_of cl share scope levels :
  (topicWithLevels cl share scope levels).2 = sub_topic share (topicWithLevels cl share scope levels).1.
Proof. unfold topicWithLevels, sub_topic. by destruct (negb (String.eqb share "")). Qed.

Lemma mqtt_binding_subs ok cl level t sub pub uns : mqtt_binding ok cl level t sub pub uns ->
  exists share, route_topic cl level t /\ share_name share /\ ok t share /\
    sub = subscribe [sub_topic share t] /\ uns = unsubscribe [sub_topic share t].
Proof. intros [share ? ? ?|topic payload props rt cid ? ?]; [by exists share|]. exists "". split_and!; by try left. Qed.

Lemma subscribe_subs u l :
  broker_subs (subscribe [u] l).2 = match (subscribe [u] l).1 with None => {[u]} ∪ broker_subs l | Some _ => broker_subs l end.
Proof.
  unfold subscribe, broker_subs. destruct (conn l) as [c|] eqn:Ec; simpl; [|by rewrite Ec].
  pose proof (Subscribe_subs u (qos l) (noLocal l && negb (strings_HasPrefix u levelShare)) c) as Hs.
  destruct (conn_Subscribe _ c) as [[e|] c']; simpl; exact Hs.
Qed.

Lemma unsubscribe_subs u l :
  broker_subs (unsubscribe [u] l).2 = match (unsubscribe [u] l).1 with None => broker_subs l ∖ {[u]} | Some _ => broker_subs l end.
Proof.
  unfold unsubscribe, broker_subs. destruct (conn l) as [c|] eqn:Ec; simpl; [|by rewrite Ec].
  pose proof (Unsubscribe_subs u c) as Hs. destruct (conn_Unsubscribe _ c) as [[e|] c']; simpl; exact Hs.
Qed.

Lemma publish_func_subs topic payload props rt cid l :
  broker_subs (publish_func topic payload props rt cid l).2 = broker_subs l.
Proof.
  unfold publish_func, publish, broker_subs. destruct (conn l) as [c|] eqn:Ec; [|simpl; by rewrite Ec].
  pose proof (Publish_subs (packet (qos l) topic payload props rt cid) c) as Hp.
  destruct (conn_Publish _ c) as [err c']. exact Hp.
Qed.

Lemma mqtt_binding_pub ok cl level t sub pub uns l : mqtt_binding ok cl level t sub pub uns ->
  broker_subs (pub l).2 = broker_subs l.
Proof. intros [? _ _ _|topic payload props rt cid _ _]; [done|apply publish_func_subs]. Qed.

(** The first levels of a routed topic. *)
Lemma Split_route_topic cl level t : good_name cl -> route_topic cl level t ->
  exists scope rest, strings_Split t slash = cl :: scope :: level :: rest.
Proof.
  intros Hcl (scope & typ & [Hs _]%known_scope_level & Hl & Ht & [->|[id ->]]).
  - rewrite Split_topic by (done || by apply good_name_free). by eexists _, _.
  - change ("/" +:+ id) with (String slash id). rewrite Split_response by (done || by apply good_name_free). by eexists _, _.
Qed.

Lemma Split_sub_topic share t : share_name share -> strings_Split (sub_topic share t) slash =
  if String.eqb share "" then strings_Split t slash else levelShare :: share :: strings_Split t slash.
Proof.
  intros Hs. unfold sub_topic. destruct (String.eqb_spec share "") as [|Hne]; [done|]. simpl negb. cbn iota.
  change (levelShare +:+ "/" +:+ share +:+ "/" +:+ t) with (levelShare +:+ String slash (share +:+ String slash t)).
  destruct Hs as [|Hs]; [done|]. rewrite !Split_app by (done || by apply good_name_free). done.
Qed.

(** The subscriptions made for different topics differ. *)
Lemma sub_topic_split cl level level' t t' share share' :
  good_name cl -> route_topic cl level t -> route_topic cl level' t' -> share_name share -> share_name share' ->
  sub_topic share t = sub_topic share' t' -> level = level' /\ t = t'.
Proof.
  intros Hcl Ht Ht' Hs Hs' E.
  assert (share = share' /\ level = level') as [-> ->].
  { apply (f_equal (fun u => strings_Split u slash)) in E. rewrite !Split_sub_topic in E by done.
    destruct (Split_route_topic cl level t Hcl Ht) as (sc & r & Et), (Split_route_topic cl level' t' Hcl Ht') as (sc' & r' & Et').
    rewrite Et, Et' in E. assert (cl <> levelShare) as Hne.
    { intros ->. destruct Hcl as [_ Hcl]. unfold levelShare in Hcl. simpl in Hcl. apply Forall_cons in Hcl as [Hc _].
      by vm_compute in Hc. }
    destruct (String.eqb_spec share "") as [->|], (String.eqb_spec share' "") as [->|]; by simplify_eq. }
  split; [done|]. unfold sub_topic in E. destruct (negb _); [|done]. by simplify_eq.
Qed.

(** C16: each topic a router routes has a subscription at the broker.  While
    the connection is up, whatever the interleaving of subscriptions, shared
    or not, of requests awaiting results, dispatches and cancellations, of
    publications and of all that the routers of the other patterns do on the
    same connection, and whichever of the calls to the broker fail: for each
    routed topic, the topic itself is subscribed, or it with a share name of a
    subscriber of this topic, of which [ok] bounds what callers use.  So a
    topic is itself subscribed if nobody shares it; of one that was shared
    first, the members get the share of messages only, also those that
    subscribe without a share name ([plain_subscription_not_made]). *)
Theorem routed_topics_at_broker (R : Type) (ok : string -> string -> Prop) (cl level : string) (l : Link)
    (s : @Sys R string _ _ Link) :
  good_name cl -> reachable "" (mqtt_binding ok cl level) (other_users cl level) l (Some s) ->
  forall t, is_Some (routes (router s) !! t) ->
    exists share, share_name share /\ ok t share /\ sub_topic share t ∈ broker_subs (binding (router s)).
Proof.
  intros Hcl Hr t Ht.
  destruct (reachable_subscribed (R := R) "" (mqtt_binding ok cl level) (other_users cl level) broker_subs
    (fun t u => exists share, route_topic cl level t /\ share_name share /\ ok t share /\ u = sub_topic share t)) with (w := l) (s := s)
    as [Hs _].
  - intros t1 t2 u (sh1 & H1 & Hs1 & _ & ->) (sh2 & H2 & Hs2 & _ & E). by destruct (sub_topic_split cl level level t1 t2 sh1 sh2 Hcl H1 H2 Hs1 Hs2 E).
  - intros t1 sub pub uns (share & Ht1 & Hs1 & Ho & -> & ->)%mqtt_binding_subs. exists (sub_topic share t1).
    split_and!; [by exists share|intros; apply subscribe_subs|intros; apply unsubscribe_subs].
  - intros t1 sub pub uns w Hb. by eapply mqtt_binding_pub.
  - intros w w' t1 u Ho (share & Ht1 & Hs1 & _ & ->) Hin. destruct Ho as [|level' t2 sub pub uns f Hne Hb Hf].
    + by rewrite publish_func_subs.
    + pose proof (mqtt_binding_pub _ _ _ _ _ _ _ w Hb) as Hp.
      apply mqtt_binding_subs in Hb as (share2 & Ht2 & Hs2 & _ & -> & ->).
      assert (sub_topic share t1 <> sub_topic share2 t2).
      { intros E. by destruct (sub_topic_split cl level level' t1 t2 share share2 Hcl Ht1 Ht2 Hs1 Hs2 E) as [-> _]. }
      rewrite !elem_of_cons, elem_of_nil in Hf. destruct Hf as [->|[->|[->|[]]]].
      * rewrite subscribe_subs. case_match; set_solver.
      * by rewrite Hp.
      * rewrite unsubscribe_subs. case_match; set_solver.
  - exact Hr.
  - destruct (Hs t Ht) as (u & (share & _ & Hsh & Ho & ->) & Hin). by exists share.
Qed.

(** These are the functions the operations pass: a filter that is validated,
    and the topic of a request's results. *)
Lemma subscribe_pattern_binding b pat level filter :
  validatePatternFilter b pat filter = None -> known_scope (sf_Scope filter) -> good_name level ->
  let topics := topicWithLevels (cluster b) (sf_Share filter) (sf_Scope filter) [level; sf_Type filter] in
  mqtt_binding (fun _ share => share = sf_Share filter) (cluster b) level topics.1
    (subscribe [topics.2]) noop (unsubscribe [topics.2]).
Proof.
  intros Hv Hsc Hl topics. unfold topics. rewrite sub_topic_of. unfold validatePatternFilter in Hv.
  destruct (ValidateName (sf_Type filter) _) eqn:Ht; [done|]. apply ValidateName_nil in Ht.
  constructor; [|..|done].
  - exists (sf_Scope filter), (sf_Type filter). split_and!; [done..|by left].
  - destruct (String.eqb_spec (sf_Share filter) ""); [by left|right]. simpl in Hv.
    destruct (negb (sharedSubAvailable b)); [done|]. destruct (ValidateName (sf_Share filter) _) eqn:Hs; [done|].
    by apply ValidateName_nil in Hs.
Qed.

(** A topic one of the five routers routes. *)
Definition routed_topic (b : Mqtt5Binding) (t : string) : Prop :=
  is_Some (routes (eventRouter b) !! t) \/ is_Some (routes (actionRouter b) !! t) \/
  is_Some (routes (actionResultRouter b) !! t) \/ is_Some (routes (queryRouter b) !! t) \/
  is_Some (routes (queryResultRouter b) !! t).

Context `{MapRange}.

Lemma elem_of_getTopics b t : t ∈ getTopics b <-> routed_topic b t.
Proof. unfold getTopics, GetTopics, routed_topic. by rewrite !elem_of_app, !elem_of_range_keys. Qed.

(** C24: after a reconnection, unless the call to the broker fails, exactly
    the topics the binding routes are subscribed on the new connection
    besides those it may have had: no ordinary subscription is lost, and none
    of a topic that is no longer routed comes back. *)
Theorem reconnect_restores (b : Mqtt5Binding) (c : Conn) :
  conn (link b) = Some c -> (subscribe (getTopics b) (link b)).1 = None ->
  let b' := (OnConnectionUp false b).2 in
  (forall t, routed_topic b' t <-> routed_topic b t) /\
  forall t, t ∈ broker_subs (link b') <-> t ∈ conn_subs c \/ routed_topic b t.
Proof.
  intros Hc Hs. split; [done|]. intros t. unfold OnConnectionUp, resubscribe. simpl. rewrite <- elem_of_getTopics.
  unfold subscribe in *. destruct (getTopics b) as [|t0 ts] eqn:Et.
  - unfold broker_subs. simpl. rewrite Hc. set_solver.
  - rewrite Hc in *. set (os := _ <$> t0 :: ts) in *.
    assert (so_Topic <$> os = t0 :: ts) as Hos.
    { unfold os. rewrite <- list_fmap_compose. apply list_fmap_id. }
    destruct (conn_Subscribe os c) as [[e|] c'] eqn:E; [done|]. simpl. unfold broker_subs. simpl.
    rewrite (Subscribe_all _ _ _ E), Hos. set_solver.
Qed.
End Subscriptions.

(** ** A concrete client library and concrete runs *)

Module Run.
#[export] Instance run_order : MapRange := range_in_map_order.

(** The broker's subscriptions, and what was published. *)
Record mem_conn := { subs : gset string; published : list Publish }.

Fixpoint get_first (props : list UserProperty) (k : string) : string :=
  match props with
  | [] => ""
  | p :: props => if String.eqb (up_Key p) k then up_Value p else get_first props k
  end.

#[export] Instance mem_paho : Paho := {|
  Conn := mem_conn;
  conn_Publish := fun p c => (None, {| subs := subs c; published := published c ++ [p] |});
  conn_Subscribe := fun os c => (None, {| subs := list_to_set (so_Topic <$> os) ∪ subs c; published := published c |});
  conn_Unsubscribe := fun ts c => (None, {| subs := subs c ∖ list_to_set ts; published := published c |});
  up_Get := fun ps k => get_first (default [] ps) k;
|}.

#[export] Instance mem_laws : PahoLaws.
Proof.
  refine {| conn_subs := subs : Conn -> gset string |}; simpl; try done.
  - intros. by rewrite String.eqb_refl.
  - intros k k' v rest Hne. by destruct (String.eqb_spec k' k).
  - intros. by rewrite (right_id_L ∅ (∪)).
  - by intros os c c' [= <-].
  - intros. by rewrite (right_id_L ∅ (∪)).
Defined.

Definition link0 : Link := {| conn := Some ({| subs := ∅; published := [] |} : Conn); qos := 0; noLocal := false |}.

Definition binding_of (l : Link) : Mqtt5Binding :=
  {| eventRouter := NewRouter l; actionRouter := NewRouter l; actionResultRouter := NewRouter l;
     queryRouter := NewRouter l; queryResultRouter := NewRouter l; clientId := "c"; link := l;
     cluster := "cl"; responseId := "me"; sharedSubAvailable := true |}.
Definition agent : Mqtt5Binding := binding_of link0.

Definition event : Event :=
  {| ev_Type := "Temp"; ev_Id := "1"; ev_Source := "s"; ev_Time := ""; ev_Data := Some (bytes_of_string "x");
     ev_DataContentType := "" |}.
Definition plain : SubscriptionFilter := {| sf_Scope := ""; sf_Type := "Temp"; sf_Share := "" |}.
Definition shared : SubscriptionFilter := {| sf_Scope := ""; sf_Type := "Temp"; sf_Share := "g" |}.
Definition action : Action :=
  {| ac_Type := "Do"; ac_Id := "1"; ac_Source := "s"; ac_Params := None; ac_DataContentType := "" |}.
Definition query : Query :=
  {| qu_Type := "Ask"; qu_Id := "1"; qu_Source := "s"; qu_Data := None; qu_DataContentType := "" |}.

Definition subs_of (b : Mqtt5Binding) : gset string := broker_subs (link b).

(** What a successful call returns. *)
Definition rc_of (r : (RouteChannel string Link + error) * Mqtt5Binding) : RouteChannel string Link :=
  match r.1 with
  | inl rc => rc
  | inr _ => {| rc_addr := 0; CtxDone := 0; correlationId := ""; unsub := noop |}
  end.
End Run.
Import Run.

(** After a reconnection the binding resubscribes the topics it routes, which
    are those without the share name: a shared subscription comes back as an
    ordinary one, and the group's load is no longer balanced. *)
Theorem shared_subscription_lost_on_reconnect :
  let b := (SubscribeEvent 0 shared agent).2 in
  subs_of b = {["$share/g/cl/com/evt/Temp"]} /\
  subs_of (resubscribe (with_link link0 b)) = {["cl/com/evt/Temp"]}.
Proof. split; by_vm. Qed.

(** A second subscription of a type reuses the first one's, shared or not: an
    ordinary subscriber after a shared one never subscribes at the broker, so
    it only gets the share of events its group's member gets; and when the
    shared one is cancelled first, the last removal unsubscribes a topic that
    was never subscribed and leaves the shared subscription behind. *)
Theorem plain_subscription_not_made :
  let b := (SubscribeEvent 1 plain (SubscribeEvent 0 shared agent).2).2 in
  (SubscribeEvent 1 plain (SubscribeEvent 0 shared agent).2).1 =
    inl (rc_of (SubscribeEvent 1 plain (SubscribeEvent 0 shared agent).2)) /\
  subs_of b = {["$share/g/cl/com/evt/Temp"]} /\
  subs_of (with_link (unsub (rc_of (SubscribeEvent 1 plain (SubscribeEvent 0 shared agent).2)) (link b)).2 b) =
    {["$share/g/cl/com/evt/Temp"]}.
Proof. split_and!; by_vm. Qed.

Lemma good_name_check (n : string) : compliesWithNamingConvention n = true -> good_name n.
Proof. apply compliesWithNamingConvention_spec. Qed.

Lemma topics_injective_witness :
  (topicWithLevels "cl" "g" "" ["evt"; "Temp"]).2 = "$share/g/cl/com/evt/Temp"
  /\ ToScope "" = ToScope "com".
Proof.
  destruct (topics_injective "cl" "cl" "" "com" "evt" "evt" "Temp" "Temp" "g" "") as (_ & Hs & _ & _ & Hsub);
    try (apply good_name_check; reflexivity).
  - left. reflexivity.
  - right. left. reflexivity.
  - reflexivity.
  - split; [|exact Hs]. rewrite Hsub by discriminate. reflexivity.
Defined.

Definition subscriber : Mqtt5Binding := (SubscribeEvent 3 plain agent).2.

Lemma event_delivered_witness :
  exists pk b3, handle ∅ pk subscriber = Ret tt b3 /\
    chans (eventRouter b3) !! 0%nat = Some (MkChan 1 [event] false).
Proof.
  destruct (event_delivered agent agent subscriber (default {| Run.subs := ∅; published := [] |} (conn link0))
    event [] plain 3 (rc_of (SubscribeEvent 3 plain agent)) ∅) as (pk & _ & b3 & Hh & Hc).
  - reflexivity.
  - apply good_name_check. reflexivity.
  - reflexivity.
  - reflexivity.
  - left. reflexivity.
  - reflexivity.
  - reflexivity.
  - apply router_ok_new.
  - by_vm.
  - apply not_elem_of_empty.
  - intros t rcs rc' Hr. exfalso. revert Hr. simpl. by rewrite lookup_empty.
  - exists pk, b3. split; [exact Hh|exact Hc].
Defined.

Definition asker : Mqtt5Binding := (PublishAction "u1" 3 action [] agent).2.
Definition querier : Mqtt5Binding := (PublishQuery "u1" 3 query [] agent).2.

Lemma action_answered_witness :
  exists pk cb f, parse_publication pk = Some (InAction f {| awc_Action := action; awc_Callback := cb |}) /\
    exists pk2 b3, handle ∅ pk2 asker = Ret tt b3 /\
      chans (actionResultRouter b3) !! 0%nat =
        Some (MkChan 1 [{| ar_Context := "x"; ar_Data := None; ar_DataContentType := ""; ar_SequenceNumber := -5 |}] false).
Proof.
  destruct (action_answered agent asker (default {| Run.subs := ∅; published := [] |} (conn link0))
    action [] "u1" 3 (rc_of (PublishAction "u1" 3 action [] agent))) as (pk & cb & f & _ & Hp & Hres).
  - reflexivity.
  - apply good_name_check. reflexivity.
  - left. reflexivity.
  - apply router_ok_new.
  - intros t rcs rc' Hr. exfalso. revert Hr. simpl. by rewrite lookup_empty.
  - by_vm.
  - exists pk, cb, f. split; [exact Hp|].
    destruct (Hres agent (default {| Run.subs := ∅; published := [] |} (conn link0))
      {| ar_Context := "x"; ar_Data := None; ar_DataContentType := ""; ar_SequenceNumber := -5 |} eq_refl)
      as (pk2 & _ & Hh); [unfold in_sint; simpl; lia|].
    destruct (Hh ∅) as (b3 & Hrun & Hc & _); [apply not_elem_of_empty|].
    exists pk2, b3. split; [exact Hrun|exact Hc].
Defined.

Lemma query_answered_witness :
  exists pk cb f, parse_publication pk = Some (InQuery f {| qwc_Query := query; qwc_Callback := cb |}) /\
    exists pk2 b3, handle ∅ pk2 querier = Ret tt b3 /\
      chans (queryResultRouter b3) !! 0%nat =
        Some (MkChan 1 [{| qr_Context := "x"; qr_Data := None; qr_DataContentType := ""; qr_SequenceNumber := 7 |}] false).
Proof.
  destruct (query_answered agent querier (default {| Run.subs := ∅; published := [] |} (conn link0))
    query [] "u1" 3 (rc_of (PublishQuery "u1" 3 query [] agent))) as (pk & cb & f & _ & Hp & Hres).
  - reflexivity.
  - apply good_name_check. reflexivity.
  - left. reflexivity.
  - apply router_ok_new.
  - intros t rcs rc' Hr. exfalso. revert Hr. simpl. by rewrite lookup_empty.
  - by_vm.
  - exists pk, cb, f. split; [exact Hp|].
    destruct (Hres agent (default {| Run.subs := ∅; published := [] |} (conn link0))
      {| qr_Context := "x"; qr_Data := None; qr_DataContentType := ""; qr_SequenceNumber := 7 |} eq_refl)
      as (pk2 & _ & Hh); [unfold in_sint; simpl; lia|].
    destruct (Hh ∅) as (b3 & Hrun & Hc & _); [apply not_elem_of_empty|].
    exists pk2, b3. split; [exact Hrun|exact Hc].
Defined.

(** One shared subscription, as a run of the router's system. *)
Definition routed : RouterState Event string Link := eventRouter (SubscribeEvent 3 shared agent).2.

Definition any_share (t share : string) : Prop := True.
Definition events : Sys := {| router := routed; cancelled := ∅; dispatchers := [] |}.

Lemma routed_reachable :
  reachable "" (mqtt_binding any_share "cl" levelEvent) (other_users "cl" levelEvent) link0 (Some events).
Proof.
  eapply reachable_step; [apply reachable_init|].
  refine (step_add "" _ _ {| router := NewRouter link0; cancelled := ∅; dispatchers := [] |} 3
    {| Topic := "cl/com/evt/Temp"; CorrelationId := "" |}
    (subscribe [sub_topic "g" "cl/com/evt/Temp"]) noop (unsubscribe [sub_topic "g" "cl/com/evt/Temp"]) [] eq_refl _).
  constructor; [|right; by apply good_name_check|done].
  exists "", "Temp". split_and!; [by left|by apply good_name_check..|by left].
Qed.

(** A shared subscription. *)
Lemma routed_topics_at_broker_witness :
  exists share, share_name share /\ sub_topic share "cl/com/evt/Temp" ∈ broker_subs (binding routed).
Proof.
  destruct (routed_topics_at_broker Event any_share "cl" levelEvent link0 events ltac:(by apply good_name_check)
    routed_reachable "cl/com/evt/Temp") as (share & Hs & _ & Hin).
  - exists [rc_of (SubscribeEvent 3 shared agent)]. by_vm.
  - exists share. split; [exact Hs|exact Hin].
Defined.

Lemma reconnect_restores_witness :
  "cl/com/evt/Temp" ∈ subs_of (OnConnectionUp false (with_link link0 subscriber)).2.
Proof.
  apply (reconnect_restores (with_link link0 subscriber) (default {| Run.subs := ∅; published := [] |} (conn link0))).
  - reflexivity.
  - by_vm.
  - right. left. exists [rc_of (SubscribeEvent 3 plain agent)]. by_vm.
Defined.

(** ** The binding's lock

    [sync.RWMutex]: a writer first announces itself, which keeps new readers
    out, and then waits for the readers there are. *)

Module Locks.

Inductive lock_op := RLock | RUnlock | Lock | Unlock.

Record lock := { readers : nat; waiting : bool; writer : bool }.

Record threads := { mutex : lock; progs : list (list lock_op) }.

Inductive lock_step (s : threads) : threads -> Prop :=
  | do_rlock i rest :
      progs s !! i = Some (RLock :: rest) -> waiting (mutex s) = false -> writer (mutex s) = false ->
      lock_step s {| mutex := {| readers := S (readers (mutex s)); waiting := false; writer := false |};
                     progs := <[i := rest]> (progs s) |}
  | do_runlock i rest n :
      progs s !! i = Some (RUnlock :: rest) -> readers (mutex s) = S n ->
      lock_step s {| mutex := {| readers := n; waiting := waiting (mutex s); writer := writer (mutex s) |};
                     progs := <[i := rest]> (progs s) |}
  | announce i rest :
      progs s !! i = Some (Lock :: rest) -> waiting (mutex s) = false -> writer (mutex s) = false ->
      lock_step s {| mutex := {| readers := readers (mutex s); waiting := true; writer := false |}; progs := progs s |}
  | do_lock i rest :
      progs s !! i = Some (Lock :: rest) -> waiting (mutex s) = true -> readers (mutex s) = 0%nat ->
      lock_step s {| mutex := {| readers := 0; waiting := false; writer := true |}; progs := <[i := rest]> (progs s) |}
  | do_unlock i rest :
      progs s !! i = Some (Unlock :: rest) -> writer (mutex s) = true ->
      lock_step s {| mutex := {| readers := 0; waiting := false; writer := false |}; progs := <[i := rest]> (progs s) |}.

(** [SubscribeEvent], which calls [subscribe] through the router, and
    [Close]: their operations on [mu]. *)
Definition SubscribeEvent_locks : list lock_op := [RLock; RLock; RUnlock; RUnlock].
Definition Close_locks : list lock_op := [Lock; Unlock].

Definition both_start : threads :=
  {| mutex := {| readers := 0; waiting := false; writer := false |};
     progs := [SubscribeEvent_locks; Close_locks] |}.

(** The read lock is held, and the writer has announced itself. *)
Definition stuck : threads :=
  {| mutex := {| readers := 1; waiting := true; writer := false |};
     progs := [[RLock; RUnlock; RUnlock]; Close_locks] |}.
End Locks.

(** A subscription and a concurrent [Close] can wait for each other for ever:
    [subscribe] takes the read lock its caller already holds, which blocks
    once [Close] waits for the write lock. *)
Theorem subscribe_and_close_deadlock :
  rtc Locks.lock_step Locks.both_start Locks.stuck /\ ~ exists s, Locks.lock_step Locks.stuck s.
Proof.
  split.
  - eapply rtc_l; [by apply (Locks.do_rlock Locks.both_start 0 [Locks.RLock; Locks.RUnlock; Locks.RUnlock])|].
    eapply rtc_l; [|apply rtc_refl].
    by apply (Locks.announce {| Locks.mutex := {| Locks.readers := 1; Locks.waiting := false; Locks.writer := false |};
      Locks.progs := [[Locks.RLock; Locks.RUnlock; Locks.RUnlock]; Locks.Close_locks] |} 1 [Locks.Unlock]).
  - intros [s Hs]. inversion Hs as [i rest Hi Hw|i rest n Hi|i rest Hi Hw|i rest Hi Hw Hr|i rest Hi Hw]; simpl in *; try done.
    destruct i as [|[|i]]; by simplify_eq/=.
Qed.
