(* ===== verification/Network.v ===== *)
(** * Agents over one MQTT network ([services/com/mqtt5/mqtt5.go])

    Any number of agents, each with its own MQTT binding, publish, subscribe,
    answer, cancel, reconnect and close in any order, and the brokers deliver
    whatever was published to whomever, late, repeatedly or never.  The
    operations are those of [Mqtt5]; a step is one call of an agent, one send
    of a dispatching goroutine, or one receive of a consumer.  Sends are less
    restricted than in the code, where a goroutine serves its route channels
    one after the other: what holds of all steps holds of these runs
    ([handle_is_a_run]), while that messages do arrive is [Router]'s matter
    ([dispatches_complete]).  The invariant proved relates what consumers
    receive to the calls that were made. *)

From S2P Require Import Prelude GoRuntime GoStrings Services Config ComApi Router Mqtt5.

(** ** The five patterns *)

(** The two patterns with results. *)
Inductive Kind := KAction | KQuery.

Inductive Pattern := PEvent | PRequest (k : Kind) | PResult (k : Kind).

#[export] Instance Kind_eq_dec : EqDecision Kind.
Proof. solve_decision. Defined.
#[export] Instance Pattern_eq_dec : EqDecision Pattern.
Proof. solve_decision. Defined.

Definition Req (k : Kind) : Type := match k with KAction => Action | KQuery => Query end.
Definition Res (k : Kind) : Type := match k with KAction => ActionResult | KQuery => QueryResult end.

(** What the router of a pattern dispatches. *)
Definition Msg (p : Pattern) : Type :=
  match p with
  | PEvent => Event
  | PRequest KAction => ActionWithCallback Callback
  | PRequest KQuery => QueryWithCallback Callback
  | PResult k => Res k
  end.

Definition req_type {k} : Req k -> string :=
  match k with KAction => ac_Type | KQuery => qu_Type end.
Definition sequence_number {k} : Res k -> Z :=
  match k with KAction => ar_SequenceNumber | KQuery => qr_SequenceNumber end.
Definition request_of {k} : Msg (PRequest k) -> Req k :=
  match k with KAction => awc_Action | KQuery => qwc_Query end.
Definition callback_of {k} : Msg (PRequest k) -> Callback :=
  match k with KAction => awc_Callback | KQuery => qwc_Callback end.

Definition level (p : Pattern) : string :=
  match p with
  | PEvent => levelEvent
  | PRequest KAction => levelAction
  | PRequest KQuery => levelQuery
  | PResult KAction => levelActionResult
  | PResult KQuery => levelQueryResult
  end.

Definition arriving (p : Pattern) : RouteFilter string -> Msg p -> Incoming :=
  match p with
  | PEvent => InEvent
  | PRequest KAction => InAction
  | PRequest KQuery => InQuery
  | PResult KAction => InActionResult
  | PResult KQuery => InQueryResult
  end.

Lemma arriving_inj p f x p' f' x' (P : forall p, RouteFilter string -> Msg p -> Prop) :
  arriving p f x = arriving p' f' x' -> P p' f' x' -> P p f x.
Proof. destruct p as [|[]|[]], p' as [|[]|[]]; simpl; try done; by intros [= -> ->]. Qed.

(** What can be subscribed: events, or requests of a kind. *)
Definition pattern_of (s : option Kind) : Pattern :=
  match s with None => PEvent | Some k => PRequest k end.

Lemma pattern_of_inj s s' : pattern_of s = pattern_of s' -> s = s'.
Proof. destruct s, s'; simpl; congruence. Qed.

Section Network.
Context `{PahoLaws} `{MapRange}.
Abbreviation RouterOf p := (RouterState (Msg p) string Link).

(** The binding's router of a pattern. *)
Definition get (p : Pattern) : Mqtt5Binding -> RouterOf p :=
  match p with
  | PEvent => eventRouter
  | PRequest KAction => actionRouter
  | PRequest KQuery => queryRouter
  | PResult KAction => actionResultRouter
  | PResult KQuery => queryResultRouter
  end.

Definition put (p : Pattern) : RouterOf p -> Link -> Mqtt5Binding -> Mqtt5Binding :=
  match p with
  | PEvent => with_eventRouter
  | PRequest KAction => with_actionRouter
  | PRequest KQuery => with_queryRouter
  | PResult KAction => with_actionResultRouter
  | PResult KQuery => with_queryResultRouter
  end.

Lemma get_put p r l b : get p (put p r l b) = r.
Proof. by destruct p as [|[]|[]]. Qed.
Lemma get_put_ne p p' r l b : p' <> p -> get p' (put p r l b) = get p' b.
Proof. by destruct p as [|[]|[]], p' as [|[]|[]]. Qed.
Lemma link_put p r l b : link (put p r l b) = l.
Proof. by destruct p as [|[]|[]]. Qed.
Lemma cluster_put p r l b : cluster (put p r l b) = cluster b.
Proof. by destruct p as [|[]|[]]. Qed.
Lemma get_with_link p l b : get p (with_link l b) = get p b.
Proof. by destruct p as [|[]|[]]. Qed.

(** The operations, by pattern. *)
Definition Subscribe (s : option Kind) (ctx : nat) (filter : SubscriptionFilter) (b : Mqtt5Binding) :=
  match s with
  | None => SubscribeEvent ctx filter b
  | Some KAction => SubscribeAction ctx filter b
  | Some KQuery => SubscribeQuery ctx filter b
  end.

Definition Request {k} (uuid : string) (ctx : nat) (x : Req k) (scope : list string) (b : Mqtt5Binding)
    : (RouteChannel string Link + error) * Mqtt5Binding :=
  match k return Req k -> _ with
  | KAction => fun x => PublishAction uuid ctx x scope b
  | KQuery => fun x => PublishQuery uuid ctx x scope b
  end x.

Definition Answer {k} (r : Res k) (cb : Callback) (b : Mqtt5Binding) : run Mqtt5Binding goerr :=
  match k return Res k -> _ with
  | KAction => fun r => publishActionResult r cb b
  | KQuery => fun r => publishQueryResult r cb b
  end r.

(** ** What an agent hands to its broker *)

(** A connection hands over at most what is published on it; subscribing and
    unsubscribing publish nothing. *)
Class PahoSent := {
  conn_sent : Conn -> list Publish;
  Publish_sent : forall pk c x, x ∈ conn_sent (conn_Publish pk c).2 -> x ∈ conn_sent c \/ x = pk;
  Subscribe_sent : forall os c, conn_sent (conn_Subscribe os c).2 = conn_sent c;
  Unsubscribe_sent : forall ts c, conn_sent (conn_Unsubscribe ts c).2 = conn_sent c;
}.
Context `{PahoSent}.

Definition sent (l : Link) : list Publish :=
  match conn l with
  | None => []
  | Some c => conn_sent c
  end.

(** A function of the binding after which only packets in [P] are new. *)
Definition sends (P : Publish -> Prop) (f : ComBindingFunc Link) : Prop :=
  forall l x, x ∈ sent (f l).2 -> x ∈ sent l \/ P x.
Abbreviation silent := (sends (fun _ => False)).

Lemma subscribe_silent topics : silent (subscribe topics).
Proof.
  intros l x. unfold subscribe, sent. destruct topics as [|t ts]; [by left|].
  destruct (conn l) as [c|] eqn:E; simpl; [|rewrite E; by left].
  pose proof (Subscribe_sent ((fun topic => {| so_Topic := topic; so_QoS := qos l;
    so_NoLocal := noLocal l && negb (strings_HasPrefix topic levelShare) |}) <$> t :: ts) c) as Hs.
  simpl in Hs. destruct (conn_Subscribe _ c) as [[e|] c']; simpl in *; rewrite Hs; by left.
Qed.

Lemma unsubscribe_silent topics : silent (unsubscribe topics).
Proof.
  intros l x. unfold unsubscribe, sent. destruct topics as [|t ts]; [by left|].
  destruct (conn l) as [c|] eqn:E; simpl; [|rewrite E; by left].
  pose proof (Unsubscribe_sent (t :: ts) c) as Hs.
  destruct (conn_Unsubscribe _ c) as [[e|] c']; simpl in *; rewrite Hs; by left.
Qed.

Lemma noop_silent : silent noop.
Proof. by left. Qed.

Lemma publish_sent topic payload props rt cid l err l' x :
  publish topic payload props rt cid l = Ret err l' -> x ∈ sent l' ->
  x ∈ sent l \/ exists q, x = packet q topic payload props rt cid.
Proof.
  unfold publish, sent. destruct (conn l) as [c|] eqn:E; [|done].
  pose proof (Publish_sent (packet (qos l) topic payload props rt cid) c x) as Hp.
  destruct (conn_Publish _ c) as [e c']. intros [= <- <-] [Hx| ->]%Hp; eauto.
Qed.

Lemma publish_func_sends topic payload props rt cid :
  sends (fun x => exists q, x = packet q topic payload props rt cid) (publish_func topic payload props rt cid).
Proof.
  intros l x. unfold publish_func. destruct (publish _ _ _ _ _ l) eqn:E; [|by left..]. by eapply publish_sent.
Qed.

Lemma Add_sends {R} (P : Publish -> Prop) ctx f sub pub uns (r : RouterState R string Link) x :
  silent sub -> sends P pub -> silent uns ->
  x ∈ sent (binding (Add ctx f sub pub uns [] r).2) -> x ∈ sent (binding r) \/ P x.
Proof.
  intros Hsub Hpub Huns. unfold Add. destruct (routes _ !! Topic f).
  - simpl. specialize (Hpub (binding r) x). by destruct (pub (binding r)) as [[e|] w].
  - simpl. pose proof (Hsub (binding r) x) as Hs. destruct (sub (binding r)) as [[e|] w]; simpl in *.
    { intros [?|[]]%Hs. by left. }
    pose proof (Hpub w x) as Hp. destruct (pub w) as [[e|] w']; simpl in *.
    + intros [[[?|[]]%Hs|?]%Hp|[]]%Huns; eauto.
    + intros [[?|[]]%Hs|?]%Hp; eauto.
Qed.

(** ** What is known of a router

    [Routed t rc] is kept for the registered route channels, [Held a x] for
    the messages in the receive channels; the functions that pending removals
    will run publish nothing; and each channel has room for a message. *)
Section Tracked.
Context {R : Type}.
Variable Routed : string -> RouteChannel string Link -> Prop.
Variable Held : nat -> R -> Prop.
Implicit Types r : RouterState R string Link.

Record tracked (r : RouterState R string Link) : Prop := {
  tracked_routes : forall t rcs rc, routes r !! t = Some rcs -> rc ∈ rcs -> Routed t rc;
  tracked_removals : forall ctx t rc, (ctx, t, rc) ∈ after_funcs r -> silent (unsub rc);
  tracked_held : forall a c x, chans r !! a = Some c -> x ∈ ch_buf c -> Held a x;
  tracked_cap : forall a c, chans r !! a = Some c -> (0 < ch_cap c)%nat;
}.

Lemma tracked_new l : tracked (NewRouter l).
Proof. split; simpl; intros *; rewrite ?lookup_empty; try done. by intros ?%not_elem_of_nil. Qed.

Lemma tracked_binding l r : tracked r -> tracked (with_binding l r).
Proof. intros []. by split. Qed.

Lemma tracked_drop_after i r : tracked r -> tracked (drop_after i r).
Proof. intros []. split; simpl; eauto using elem_of_list_delete. Qed.

Lemma tracked_Add ctx f sub pub uns r :
  tracked r -> silent uns ->
  (forall rc, (Add ctx f sub pub uns [] r).1 = inl rc -> rc_addr rc = next_addr r ->
     correlationId rc = CorrelationId f -> Routed (Topic f) rc) ->
  tracked (Add ctx f sub pub uns [] r).2.
Proof.
  intros [Hr Ha Hh Hcap] Huns. unfold Add.
  assert (forall a c x, <[next_addr r := make_chan receiveBufferSize]> (chans r) !! a = Some c ->
    x ∈ ch_buf c -> Held a x) as Hh'.
  { intros a c x [[_ <-]|[_ Hc]]%lookup_insert_Some Hx; [by apply not_elem_of_nil in Hx|eauto]. }
  assert (forall a c, <[next_addr r := make_chan receiveBufferSize]> (chans r) !! a = Some c -> (0 < ch_cap c)%nat) as Hcap'.
  { intros a c [[_ <-]|[_ Hc]]%lookup_insert_Some; [simpl; unfold receiveBufferSize; lia|eauto]. }
  assert (forall w rcs rc, rc_addr rc = next_addr r -> unsub rc = uns -> Routed (Topic f) rc ->
    (forall rc', rc' ∈ rcs -> Routed (Topic f) rc') ->
    tracked (register (Topic f) rcs rc ctx (with_binding w (alloc receiveBufferSize r)))) as Hreg.
  { intros w rcs rc Hrc Hu HR Hrcs. split; simpl; [| |done|done].
    - intros t l rc' [[<- <-]|[_ Ht]]%lookup_insert_Some Hin; [|eauto].
      apply elem_of_app in Hin as [Hin| ->%list_elem_of_singleton]; eauto.
    - intros c t rc' [Hin|Hin]%elem_of_app; [eauto|].
      apply list_elem_of_singleton in Hin as [= -> -> ->]. by rewrite Hu. }
  cbn [routes alloc binding with_binding]. destruct (routes r !! Topic f) as [rcs|] eqn:Er.
  - destruct (pub (binding r)) as [[e|] w]; simpl; [by split|]. intros HR. apply Hreg; eauto.
  - destruct (sub (binding r)) as [[e|] w]; simpl; [by split|].
    destruct (pub w) as [[e|] w']; simpl; [by split|]. intros HR. apply Hreg; eauto.
    by intros ? ?%not_elem_of_nil.
Qed.

(** Replacing a channel by one with no other messages than those in [Held]. *)
Lemma tracked_set_chan a c c' r :
  tracked r -> chans r !! a = Some c -> ch_cap c' = ch_cap c -> (forall x, x ∈ ch_buf c' -> Held a x) ->
  tracked (set_chans (<[a := c']> (chans r)) r).
Proof.
  intros [Hr Ha Hh Hcap] Hc Heq Hc'. split; simpl; [done|done| |].
  - intros b d x [[<- <-]|[_ Hd]]%lookup_insert_Some; eauto.
  - intros b d [[<- <-]|[_ Hd]]%lookup_insert_Some; [rewrite Heq|]; eauto.
Qed.

Lemma tracked_dispatch1 (done : gset nat) (rc : RouteChannel string Link) x r cs :
  tracked r -> Held (rc_addr rc) x -> dispatch1 done rc x (chans r) = Ret tt cs -> tracked (set_chans cs r).
Proof.
  intros Ht Hx. unfold dispatch1. case_decide; [intros [= <-]; by destruct Ht|].
  destruct (chans r !! rc_addr rc) as [c|] eqn:Ec; [|done]. unfold chan_send.
  destruct (ch_closed c); [done|]. destruct (Nat.ltb _ _); [|done]. intros [= <-].
  eapply tracked_set_chan; [done|exact Ec|done|]. simpl.
  intros y [Hy| ->%list_elem_of_singleton]%elem_of_app; [|done]. by eapply (tracked_held r Ht).
Qed.

Lemma tracked_remove t rc r r' :
  tracked r -> remove t rc r = Ret tt r' ->
  tracked r' /\ next_addr r' = next_addr r /\
  (silent (unsub rc) -> sent (binding r') ⊆ sent (binding r)).
Proof.
  intros Ht. pose proof Ht as [Hr Ha Hh Hcap]. unfold remove.
  destruct (routes r !! t) as [rcs|] eqn:Er; [|by intros [= <-]].
  destruct (remove_loop_pair (rc_addr rc) rcs) as (rs & -> & Hin & _).
  case_bool_decide as Hmem; [|by intros [= <-]]. rewrite (Hin Hmem).
  assert (forall m w, (forall t rcs rc, m !! t = Some rcs -> rc ∈ rcs -> Routed t rc) ->
    (silent (unsub rc) -> sent w ⊆ sent (binding r)) ->
    close_chan (rc_addr rc) (set_routes m w r) = Ret tt r' ->
    tracked r' /\ next_addr r' = next_addr r /\ (silent (unsub rc) -> sent (binding r') ⊆ sent (binding r))) as Hclose.
  { intros m w Hm Hw. unfold close_chan. simpl. destruct (chans r !! rc_addr rc) as [c|] eqn:Ec; [|done].
    unfold chan_close. destruct (ch_closed c); [done|]. intros [= <-]. simpl. split_and!; [|done|done].
    split; simpl; [done|done|intros a d x [[<- <-]|[_ Hd]]%lookup_insert_Some; eauto|].
    intros a d [[<- <-]|[_ Hd]]%lookup_insert_Some; [|eauto]. exact (Hcap _ _ Ec). }
  assert (forall rs t' l rc', (forall rc0, rc0 ∈ rs -> rc0 ∈ rcs) ->
    <[t := rs]> (routes r) !! t' = Some l -> rc' ∈ l -> Routed t' rc') as Hins.
  { intros rs' t' l rc' Hsub [[<- <-]|[_ Ht']]%lookup_insert_Some Hl; eauto. }
  destruct (Nat.eqb _ 1).
  - pose proof (fun Hs : silent (unsub rc) => Hs (binding r)) as Hs.
    destruct (unsub rc (binding r)) as [[e|] w]; apply Hclose; simpl in Hs.
    + intros t' l rc'. apply Hins. by intros ? ?%not_elem_of_nil.
    + intros Hq x Hx. by destruct (Hs Hq x Hx) as [|[]].
    + intros t' l rc' Hl. apply lookup_delete_Some in Hl as [_ Hl]. eauto.
    + intros Hq x Hx. by destruct (Hs Hq x Hx) as [|[]].
  - apply Hclose; [|done]. intros t' l rc'. apply Hins. apply elem_of_del_first.
Qed.
End Tracked.

Lemma router_ok_dispatch1 {R} (done : gset nat) (rc : RouteChannel string Link) x (r : RouterState R string Link) cs :
  router_ok r -> dispatch1 done rc x (chans r) = Ret tt cs -> router_ok (set_chans cs r).
Proof.
  intros Hok. unfold dispatch1. case_decide; [intros [= <-]; by destruct Hok|].
  destruct (chans r !! rc_addr rc) as [c|] eqn:Ec; [|done].
  destruct (chan_send c x) as [c'| |] eqn:Es; [|done|done]. intros [= <-].
  eapply router_ok_set_chan; [done|exact Ec|]. by eapply chan_send_closed.
Qed.

Lemma tracked_mono {R} (Routed Routed' : string -> RouteChannel string Link -> Prop) (Held Held' : nat -> R -> Prop) r :
  (forall t rc, Routed t rc -> Routed' t rc) -> (forall a x, Held a x -> Held' a x) ->
  tracked Routed Held r -> tracked Routed' Held' r.
Proof. intros HR HH []. split; eauto. Qed.

(** ** The network *)

(** What has been called and received so far: [n] names the agent, [cl] its
    cluster and [a] a receive channel of the agent's router of the pattern.
    A request is recorded with the agent's response id, and the channel
    returned if the call succeeded. *)
Inductive Hist :=
  | Subscribed (n cl : string) (s : option Kind) (a : nat) (filter : SubscriptionFilter)
  | PublishedEvent (n cl scope : string) (e : Event)
  | Requested (n cl rid : string) (k : Kind) (scope uuid : string) (a : option nat) (x : Req k)
  | Answered (n : string) (k : Kind) (y : Msg (PRequest k)) (r : Res k)
  | Got (n : string) (p : Pattern) (a : nat) (x : Msg p).

Record Node := { bind : Mqtt5Binding; done_ctx : gset nat }.

(** [soup] is what was handed to the brokers. *)
Record Net := { nodes : gmap string Node; soup : list Publish; history : list Hist }.

Definition start : Net := {| nodes := ∅; soup := []; history := [] |}.

(** Agent [n] becomes [nd], and what its connection handed over is there. *)
Definition act (n : string) (nd : Node) (h : list Hist) (s : Net) : Net :=
  {| nodes := <[n := nd]> (nodes s); soup := soup s ++ sent (link (bind nd)); history := history s ++ h |}.

Definition topic (cl scope : string) (p : Pattern) (typ : string) : string :=
  (topicWithLevels cl "" scope [level p; typ]).1.

(** The callback of a request published with the given response id. *)
Definition reply_to (cl rid : string) (k : Kind) (scope uuid typ : string) : Callback :=
  {| cb_responseTopic := topic cl scope (PResult k) typ +:+ "/" +:+ rid;
     cb_correlationId := Some (bytes_of_string uuid) |}.

Definition returned (res : RouteChannel string Link + error) : option nat :=
  match res with
  | inl rc => Some (rc_addr rc)
  | inr _ => None
  end.

Definition used (uuid : string) (h : list Hist) : Prop :=
  exists n cl rid k scope a x, Requested n cl rid k scope uuid a x ∈ h.

(** The client library's connecting, as [Open] uses it. *)
Context {URL Certificate : Type}.
Variable url_Parse : string -> URL + error.
Variable LoadX509KeyPair : string -> string -> Certificate + error.
Variable plog_Enabled : bool.
Variable NewConnection : ClientConfig (URL := URL) (Certificate := Certificate) -> Conn + error.
Variable AwaitConnection : option Z -> Conn -> goerr.
Variable SharedSubAvailable : Conn -> bool.

Abbreviation open_binding :=
  (Mqtt5.Open url_Parse LoadX509KeyPair plog_Enabled NewConnection AwaitConnection SharedSubAvailable).

(** One step.  Callers pass the scopes the API declares; a correlation id is
    new ([uuid.NewString]), a sequence number an [int64]. *)
Inductive step (s : Net) : Net -> Prop :=
  | step_open n cfg timeout b0 b :
      nodes s !! n = None -> good_name (Cluster cfg) -> conn (link b0) = None ->
      open_binding cfg timeout b0 = ([], b) ->
      step s (act n {| bind := b; done_ctx := ∅ |} [] s)
  | step_publish_event n nd e scope err b :
      nodes s !! n = Some nd -> known_scope (opt_scope scope) ->
      PublishEvent e scope (bind nd) = Ret err b ->
      step s (act n {| bind := b; done_ctx := done_ctx nd |} [PublishedEvent n (cluster b) (opt_scope scope) e] s)
  | step_subscribe n nd k ctx filter res b :
      nodes s !! n = Some nd -> known_scope (sf_Scope filter) ->
      Subscribe k ctx filter (bind nd) = (res, b) ->
      step s (act n {| bind := b; done_ctx := done_ctx nd |}
        (match returned res with Some a => [Subscribed n (cluster b) k a filter] | None => [] end) s)
  | step_request n nd k (x : Req k) uuid ctx scope res b :
      nodes s !! n = Some nd -> known_scope (opt_scope scope) -> ~ used uuid (history s) ->
      Request uuid ctx x scope (bind nd) = (res, b) ->
      step s (act n {| bind := b; done_ctx := done_ctx nd |}
        [Requested n (cluster b) (responseId b) k (opt_scope scope) uuid (returned res) x] s)
  | step_answer n nd k a (y : Msg (PRequest k)) (r : Res k) err b :
      nodes s !! n = Some nd -> Got n (PRequest k) a y ∈ history s -> in_sint 64 (sequence_number r) ->
      Answer r (callback_of y) (bind nd) = Ret err b ->
      step s (act n {| bind := b; done_ctx := done_ctx nd |} [Answered n k y r] s)
  | step_send n nd pk p f (x : Msg p) rc cs :
      nodes s !! n = Some nd -> pk ∈ soup s -> parse_publication pk = Some (arriving p f x) ->
      rc ∈ dispatch_targets "" f (get p (bind nd)) ->
      dispatch1 (done_ctx nd) rc x (chans (get p (bind nd))) = Ret tt cs ->
      step s (act n {| bind := put p (set_chans cs (get p (bind nd))) (link (bind nd)) (bind nd);
                       done_ctx := done_ctx nd |} [] s)
  | step_receive n nd p a c (x : Msg p) c' :
      nodes s !! n = Some nd -> chans (get p (bind nd)) !! a = Some c -> chan_recv c = Received x c' ->
      step s (act n {| bind := put p (set_chans (<[a := c']> (chans (get p (bind nd)))) (get p (bind nd)))
                                 (link (bind nd)) (bind nd);
                       done_ctx := done_ctx nd |} [Got n p a x] s)
  | step_cancel n nd ctx :
      nodes s !! n = Some nd ->
      step s (act n {| bind := bind nd; done_ctx := {[ctx]} ∪ done_ctx nd |} [] s)
  | step_remove n nd p i ctx t rc r :
      nodes s !! n = Some nd -> after_funcs (get p (bind nd)) !! i = Some (ctx, t, rc) -> ctx ∈ done_ctx nd ->
      remove t rc (drop_after i (with_binding (link (bind nd)) (get p (bind nd)))) = Ret tt r ->
      step s (act n {| bind := put p r (binding r) (bind nd); done_ctx := done_ctx nd |} [] s)
  | step_reconnect n nd b :
      nodes s !! n = Some nd -> OnConnectionUp false (bind nd) = (false, b) ->
      step s (act n {| bind := b; done_ctx := done_ctx nd |} [] s)
  | step_close n nd :
      nodes s !! n = Some nd ->
      step s (act n {| bind := Mqtt5.Close (bind nd); done_ctx := done_ctx nd |} [] s).

Definition reachable (s : Net) : Prop := rtc step start s.

(** ** Where messages come from *)

Definition valid_topic (cl scope typ : string) : Prop := good_name cl /\ known_scope scope /\ good_name typ.

(** A subscription and a publication that meet on a topic. *)
Definition meets (filter : SubscriptionFilter) (scope typ : string) : Prop :=
  ToScope scope = ToScope (sf_Scope filter) /\ typ = sf_Type filter.

(** The request [x] was made, and [cb] is what its callback captured. *)
Definition request_made (h : list Hist) (k : Kind) (x : Req k) (cb : Callback) (cl scope uuid : string) : Prop :=
  exists n rid a, Requested n cl rid k scope uuid a x ∈ h /\ cb = reply_to cl rid k scope uuid (req_type x).

(** What a message [x] that arrives for the filter [f] stems from. *)
Definition Origin (h : list Hist) (p : Pattern) (f : RouteFilter string) : Msg p -> Prop :=
  match p with
  | PEvent => fun e => exists n cl scope,
      PublishedEvent n cl scope e ∈ h /\ valid_topic cl scope (ev_Type e) /\
      f = {| Topic := topic cl scope PEvent (ev_Type e); CorrelationId := "" |}
  | PRequest k => fun x => exists cl scope uuid,
      request_made h k (request_of x) (callback_of x) cl scope uuid /\
      valid_topic cl scope (req_type (request_of x)) /\
      f = {| Topic := topic cl scope (PRequest k) (req_type (request_of x)); CorrelationId := "" |}
  | PResult k => fun r => exists m y cl scope uuid,
      Answered m k y r ∈ h /\ request_made h k (request_of y) (callback_of y) cl scope uuid /\
      CorrelationId f = uuid
  end.

(** The call that registered a route channel. *)
Definition Routed (h : list Hist) (n : string) (p : Pattern) (t : string) (rc : RouteChannel string Link) : Prop :=
  match p with
  | PResult k => exists cl rid scope x,
      Requested n cl rid k scope (correlationId rc) (Some (rc_addr rc)) x ∈ h
  | _ => exists cl filter s,
      pattern_of s = p /\ Subscribed n cl s (rc_addr rc) filter ∈ h /\
      valid_topic cl (sf_Scope filter) (sf_Type filter) /\ t = topic cl (sf_Scope filter) p (sf_Type filter)
  end.

(** Why a message is in, or was received from, the channel [a] of agent [n]. *)
Definition Held (h : list Hist) (n : string) (p : Pattern) (a : nat) : Msg p -> Prop :=
  match p with
  | PEvent => fun e => exists cl filter m scope,
      Subscribed n cl None a filter ∈ h /\ PublishedEvent m cl scope e ∈ h /\ meets filter scope (ev_Type e)
  | PRequest k => fun x => exists cl filter scope uuid,
      Subscribed n cl (Some k) a filter ∈ h /\ request_made h k (request_of x) (callback_of x) cl scope uuid /\
      valid_topic cl scope (req_type (request_of x)) /\ meets filter scope (req_type (request_of x))
  | PResult k => fun r => exists cl rid scope uuid m y,
      Requested n cl rid k scope uuid (Some a) (request_of y) ∈ h /\ Answered m k y r ∈ h /\
      callback_of y = reply_to cl rid k scope uuid (req_type (request_of y))
  end.

(** A packet that the agents' calls explain. *)
Definition genuine (h : list Hist) (pk : Publish) : Prop :=
  exists p f x, parse_publication pk = Some (arriving p f x) /\ Origin h p f x.

(** The call that made the receive channel [a] of the pattern's router. *)
Definition makes (e : Hist) (n : string) (p : Pattern) (a : nat) : Prop :=
  match e with
  | Subscribed n' _ s a' _ => n' = n /\ pattern_of s = p /\ a' = a
  | Requested n' _ _ k _ _ a' _ => n' = n /\ PResult k = p /\ a' = Some a
  | _ => False
  end.

Definition uuid_of (e : Hist) : option string :=
  match e with
  | Requested _ _ _ _ _ uuid _ _ => Some uuid
  | _ => None
  end.

(** *** The invariant *)

Record node_ok (h : list Hist) (sp : list Publish) (n : string) (nd : Node) : Prop := {
  node_cluster : good_name (cluster (bind nd));
  node_wf : forall p, router_ok (get p (bind nd));
  node_routers : forall p, tracked (Routed h n p) (Held h n p) (get p (bind nd));
  node_sent : sent (link (bind nd)) ⊆ sp;
}.

Record hist_ok (h : list Hist) : Prop := {
  hist_got : forall n p a x, Got n p a x ∈ h -> Held h n p a x;
  hist_answered : forall n k y r, Answered n k y r ∈ h -> exists a, Got n (PRequest k) a y ∈ h;
  hist_uuid : forall e1 e2 u, e1 ∈ h -> e2 ∈ h -> uuid_of e1 = Some u -> uuid_of e2 = Some u -> e1 = e2;
  hist_makes : forall e1 e2 n p a, e1 ∈ h -> e2 ∈ h -> makes e1 n p a -> makes e2 n p a -> e1 = e2;
}.

Record net_ok (s : Net) : Prop := {
  net_nodes : forall n nd, nodes s !! n = Some nd -> node_ok (history s) (soup s) n nd;
  net_soup : forall pk, pk ∈ soup s -> genuine (history s) pk;
  net_hist : hist_ok (history s);
  net_makes : forall e n p a, e ∈ history s -> makes e n p a ->
    exists nd, nodes s !! n = Some nd /\ (a < next_addr (get p (bind nd)))%nat;
}.

(** *** More history keeps what is known *)

Section Mono.
Variables h h' : list Hist.
Hypothesis Hh : h ⊆ h'.

Lemma request_made_mono k (x : Req k) cb cl scope uuid :
  request_made h k x cb cl scope uuid -> request_made h' k x cb cl scope uuid.
Proof. intros (n & rid & a & ? & ?). exists n, rid, a. auto. Qed.

Hint Resolve request_made_mono : core.

(** A conjunction of facts of the history, with its witnesses. *)
Ltac keep := intros; repeat match goal with E : exists _, _ |- _ => destruct E | E : _ /\ _ |- _ => destruct E end;
  repeat match goal with |- exists _, _ => eexists end; split_and?; eauto.

Lemma Origin_mono p f x : Origin h p f x -> Origin h' p f x.
Proof. destruct p; simpl; keep. Qed.

Lemma Routed_mono n p t rc : Routed h n p t rc -> Routed h' n p t rc.
Proof. destruct p; simpl; keep. Qed.

Lemma Held_mono n p a x : Held h n p a x -> Held h' n p a x.
Proof. destruct p; simpl; keep. Qed.

Lemma genuine_mono pk : genuine h pk -> genuine h' pk.
Proof. intros (p & f & x & Hp & Ho). exists p, f, x. eauto using Origin_mono. Qed.

Lemma node_ok_mono sp sp' n nd : sp ⊆ sp' -> node_ok h sp n nd -> node_ok h' sp' n nd.
Proof.
  intros Hsp []. split; [done|done| |set_solver]. intros p.
  eapply tracked_mono; [| |eauto]; eauto using Routed_mono, Held_mono.
Qed.
End Mono.

(** *** A message is dispatched to those that asked for it *)

Lemma targets_correlated cid rcs (rc : RouteChannel string Link) :
  rc ∈ targets "" cid rcs -> rc ∈ rcs /\ correlationId rc = cid.
Proof. unfold targets. case_decide; intros [? ?]%list_elem_of_filter; naive_solver. Qed.

Lemma topics_meet cl1 cl2 sc1 sc2 p ty1 ty2 :
  valid_topic cl1 sc1 ty1 -> valid_topic cl2 sc2 ty2 ->
  topic cl1 sc1 p ty1 = topic cl2 sc2 p ty2 -> cl1 = cl2 /\ ToScope sc1 = ToScope sc2 /\ ty1 = ty2.
Proof.
  intros (?&?&?) (?&?&?) E. assert (good_name (level p)) as Hl.
  { apply good_name_check. by destruct p as [|[]|[]]. }
  destruct (topics_injective cl1 cl2 sc1 sc2 (level p) (level p) ty1 ty2 "" "") as (?&?&?&?&?); done.
Qed.

Lemma Origin_Held h n p f x rc :
  hist_ok h -> Origin h p f x -> Routed h n p (Topic f) rc -> correlationId rc = CorrelationId f ->
  Held h n p (rc_addr rc) x.
Proof.
  intros Hok. destruct p as [|k|k]; simpl.
  - intros (m & cl & scope & Hin & Hv & ->) (cl' & filter & s & Hs & Hsub & Hv' & Ht) _.
    destruct (topics_meet _ _ _ _ _ _ _ Hv Hv' Ht) as (-> & Hsc & Hty).
    destruct s; [done|]. exists cl', filter, m, scope. by split_and!.
  - intros (cl & scope & uuid & Hreq & Hv & ->) (cl' & filter & s & Hs & Hsub & Hv' & Ht) _.
    destruct (topics_meet _ _ _ _ _ _ _ Hv Hv' Ht) as (-> & Hsc & Hty).
    apply (pattern_of_inj _ (Some k)) in Hs as ->. exists cl', filter, scope, uuid. by split_and!.
  - intros (m & y & cl & scope & uuid & Hans & (n' & rid & a & Hreq & Hcb) & Huuid) (cl' & rid' & scope' & x' & Hreq') Hc.
    rewrite Hc, Huuid in Hreq'.
    pose proof (hist_uuid h Hok _ _ uuid Hreq Hreq' eq_refl eq_refl) as E.
    injection E as -> -> -> -> -> _.
    exists cl', rid', scope', uuid, m, y. by split_and!.
Qed.

(** *** Every packet handed over is explained *)

Definition req_payload {k} : Req k -> slice :=
  match k with KAction => ac_Params | KQuery => qu_Data end.
Definition req_props {k} : Req k -> list UserProperty :=
  match k with
  | KAction => fun x => request_props (ac_Id x) (ac_Source x) (ac_DataContentType x)
  | KQuery => fun x => request_props (qu_Id x) (qu_Source x) (qu_DataContentType x)
  end.
Definition res_payload {k} : Res k -> slice :=
  match k with KAction => ar_Data | KQuery => qr_Data end.
Definition res_props {k} : Res k -> list UserProperty :=
  match k with
  | KAction => fun r => result_props (ar_Context r) (ar_DataContentType r) (ar_SequenceNumber r)
  | KQuery => fun r => result_props (qr_Context r) (qr_DataContentType r) (qr_SequenceNumber r)
  end.

Lemma genuine_event h n cl scope e q :
  PublishedEvent n cl scope e ∈ h -> valid_topic cl scope (ev_Type e) ->
  genuine h (packet q (topic cl scope PEvent (ev_Type e)) (ev_Data e) (event_props e) "" None).
Proof.
  intros Hin Hv. pose proof Hv as (?&?&?). eexists PEvent, _, e. split; [by apply parse_event|]. simpl.
  by exists n, cl, scope.
Qed.

Lemma genuine_request h n cl rid k scope uuid a (x : Req k) q :
  Requested n cl rid k scope uuid a x ∈ h -> valid_topic cl scope (req_type x) ->
  let cb := reply_to cl rid k scope uuid (req_type x) in
  genuine h (packet q (topic cl scope (PRequest k) (req_type x)) (req_payload x) (req_props x)
               (cb_responseTopic cb) (cb_correlationId cb)).
Proof.
  intros Hin Hv cb. pose proof Hv as (?&?&?).
  assert (request_made h k x cb cl scope uuid) by by exists n, rid, a.
  destruct k; [eexists (PRequest KAction), _, {| awc_Action := x; awc_Callback := cb |}
              |eexists (PRequest KQuery), _, {| qwc_Query := x; qwc_Callback := cb |}].
  - split; [by apply parse_action|]. by exists cl, scope, uuid.
  - split; [by apply parse_query|]. by exists cl, scope, uuid.
Qed.

Lemma genuine_result h m k (y : Msg (PRequest k)) r cl scope uuid q :
  Answered m k y r ∈ h -> request_made h k (request_of y) (callback_of y) cl scope uuid ->
  valid_topic cl scope (req_type (request_of y)) -> in_sint 64 (sequence_number r) ->
  genuine h (packet q (cb_responseTopic (callback_of y)) (res_payload r) (res_props r) ""
               (cb_correlationId (callback_of y))).
Proof.
  intros Hin Hreq (?&?&?) Hseq. pose proof Hreq as (n & rid & a & _ & ->).
  exists (PResult k). destruct k; eexists _, r; (split; [by apply parse_action_result || by apply parse_query_result|]).
  - exists m, y, cl, scope, uuid. split_and!; [done|done|]. simpl. by rewrite string_bytes_string.
  - exists m, y, cl, scope, uuid. split_and!; [done|done|]. simpl. by rewrite string_bytes_string.
Qed.

(** *** What the operations do to a binding *)

(** Only the link of the binding changes, and only packets in [P] are new. *)
Definition relinked (P : Publish -> Prop) (b b' : Mqtt5Binding) : Prop :=
  exists l, b' = with_link l b /\ forall x, x ∈ sent l -> x ∈ sent (link b) \/ P x.

(** Or [Add] was called on the router of a pattern. *)
Definition added (P : Publish -> Prop) (p : Pattern) (f : RouteFilter string)
    (res : RouteChannel string Link + error) (b b' : Mqtt5Binding) : Prop :=
  exists ctx sub pub uns r, Add ctx f sub pub uns [] (with_binding (link b) (get p b)) = (res, r) /\
    b' = put p r (binding r) b /\ silent sub /\ sends P pub /\ silent uns.

Lemma relinked_refl P b : relinked P b b.
Proof. exists (link b). split; [by destruct b|by left]. Qed.

Lemma PublishEvent_effect e scope b err b' :
  PublishEvent e scope b = Ret err b' ->
  relinked (fun x => good_name (ev_Type e) /\ exists q, x = packet q
    (topic (cluster b) (opt_scope scope) PEvent (ev_Type e)) (ev_Data e) (event_props e) "" None) b b'.
Proof.
  unfold PublishEvent. destruct (validatePatternTypeIdSource _ _ _ _) eqn:Hv;
    [intros [= <- <-]; apply relinked_refl|]. apply validate_type in Hv.
  destruct (conn (link b)); [|intros [= <- <-]; apply relinked_refl].
  destruct (topicWithLevels _ _ _ _) as [t t'] eqn:Et.
  destruct (publish _ _ _ _ _ _) as [e' l| |] eqn:Ep; [|done|done]. intros [= <- <-].
  exists l. split; [done|]. intros x Hx. destruct (publish_sent _ _ _ _ _ _ _ _ _ Ep Hx) as [|[q ->]]; [by left|].
  right. split; [done|]. exists q. unfold topic. simpl level. by rewrite Et.
Qed.

Lemma Answer_effect {k} (r : Res k) cb b err b' :
  Answer r cb b = Ret err b' ->
  relinked (fun x => exists q, x = packet q (cb_responseTopic cb) (res_payload r) (res_props r) "" (cb_correlationId cb)) b b'.
Proof.
  assert (exists what, Answer r cb b = publish_result what (res_payload r) (res_props r) cb b) as [what ->]
    by (destruct k; by eexists).
  unfold publish_result. destruct (conn (link b)); [|intros [= <- <-]; apply relinked_refl].
  destruct (publish _ _ _ _ _ _) as [e' l| |] eqn:Ep; [|done|done]. intros [= <- <-].
  exists l. split; [done|]. intros x Hx. by apply (publish_sent _ _ _ _ _ _ _ _ _ Ep Hx).
Qed.

Lemma Subscribe_effect s ctx filter b res b' :
  Subscribe s ctx filter b = (res, b') ->
  (b' = b /\ returned res = None) \/
  (good_name (sf_Type filter) /\
   added (fun _ => False) (pattern_of s)
     {| Topic := topic (cluster b) (sf_Scope filter) (pattern_of s) (sf_Type filter); CorrelationId := "" |} res b b').
Proof.
  assert (exists pat, Subscribe s ctx filter b =
    subscribe_pattern pat (level (pattern_of s)) ctx filter (get (pattern_of s)) (put (pattern_of s)) b)
    as [pat ->] by (destruct s as [[]|]; by eexists).
  unfold subscribe_pattern, add_route. destruct (validatePatternFilter b pat filter) eqn:Hv; [intros [= <- <-]; by left|].
  destruct (conn (link b)); [|intros [= <- <-]; by left].
  destruct (topicWithLevels _ _ _ _) as [t t'] eqn:Et. destruct (Add _ _ _ _ _ _ _) as [res' r] eqn:Ea.
  intros [= <- <-]. right. split.
  { unfold validatePatternFilter in Hv. destruct (ValidateName (sf_Type filter) _) eqn:E; [done|]. by apply ValidateName_nil in E. }
  assert (topic (cluster b) (sf_Scope filter) (pattern_of s) (sf_Type filter) = t) as ->.
  { unfold topic. by rewrite <- (pub_topic_share _ (sf_Share filter)), Et. }
  eexists ctx, _, _, _, r. split_and!; [exact Ea|done|apply subscribe_silent|apply noop_silent|apply unsubscribe_silent].
Qed.

Lemma Request_effect {k} uuid ctx (x : Req k) scope b res b' :
  Request uuid ctx x scope b = (res, b') ->
  let cb := reply_to (cluster b) (responseId b) k (opt_scope scope) uuid (req_type x) in
  (b' = b /\ returned res = None) \/
  added (fun pk => good_name (req_type x) /\ exists q, pk = packet q
      (topic (cluster b) (opt_scope scope) (PRequest k) (req_type x)) (req_payload x) (req_props x)
      (cb_responseTopic cb) (cb_correlationId cb))
    (PResult k) {| Topic := cb_responseTopic cb; CorrelationId := uuid |} res b b'.
Proof.
  intros Hr cb.
  assert (forall res' b2, publish_request (level (PRequest k)) (level (PResult k)) (req_type x) (req_payload x) (req_props x)
      uuid ctx scope (get (PResult k)) (put (PResult k)) b = (res', b2) -> good_name (req_type x) ->
    added (fun pk => good_name (req_type x) /\ exists q, pk = packet q
      (topic (cluster b) (opt_scope scope) (PRequest k) (req_type x)) (req_payload x) (req_props x)
      (cb_responseTopic cb) (cb_correlationId cb))
    (PResult k) {| Topic := cb_responseTopic cb; CorrelationId := uuid |} res' b b2) as Hadd.
  { intros res' b2. unfold publish_request, add_route, responseInfo, cb, reply_to, topic. simpl.
    destruct (topicWithLevels (cluster b) "" (opt_scope scope) [level (PRequest k); req_type x]) as [t t'] eqn:E1.
    destruct (topicWithLevels (cluster b) "" (opt_scope scope) [level (PResult k); req_type x]) as [u u'] eqn:E2.
    simpl in *. destruct (Add _ _ _ _ _ _ _) as [r1 r] eqn:Ea. intros [= <- <-] Hty.
    eexists ctx, _, _, _, r. split_and!; [exact Ea|done|apply subscribe_silent| |apply unsubscribe_silent].
    intros l y Hy. destruct (publish_func_sends _ _ _ _ _ _ _ Hy) as [|[q ->]]; [by left|]. right. eauto. }
  destruct k; simpl in Hr; [unfold PublishAction in Hr|unfold PublishQuery in Hr];
    (destruct (validatePatternTypeIdSource _ _ _ _) eqn:Hv; [injection Hr as <- <-; by left|]);
    apply validate_type in Hv; (destruct (conn (link b)); [|injection Hr as <- <-; by left]);
    right; by apply Hadd.
Qed.

(** *** One agent acts *)

Lemma hist_ok_snoc h e :
  hist_ok h ->
  (forall n p a x, e = Got n p a x -> Held h n p a x) ->
  (forall n k y r, e = Answered n k y r -> exists a, Got n (PRequest k) a y ∈ h) ->
  (forall u, uuid_of e = Some u -> ~ used u h) ->
  (forall n p a e', makes e n p a -> e' ∈ h -> ~ makes e' n p a) ->
  hist_ok (h ++ [e]).
Proof.
  intros [Hg Ha Hu Hm] Hg' Ha' Hu' Hm'.
  assert (h ⊆ h ++ [e]) as Hsub by set_solver.
  assert (forall e' u, e' ∈ h -> uuid_of e' = Some u -> used u h) as Hused.
  { intros [] u Hin E; try done. injection E as ->. repeat eexists. exact Hin. }
  split.
  - intros n p a x [Hin| Hin%list_elem_of_singleton]%elem_of_app; [eauto using Held_mono|].
    by eapply (Held_mono h), Hg'.
  - intros n k y r [Hin| Hin%list_elem_of_singleton]%elem_of_app;
      [destruct (Ha _ _ _ _ Hin) as [a ?]|destruct (Ha' n k y r) as [a ?]; [done|]]; exists a; set_solver.
  - intros e1 e2 u [H1'| ->%list_elem_of_singleton]%elem_of_app [H2'| ->%list_elem_of_singleton]%elem_of_app E1 E2;
      [eauto| | |done]; by destruct (Hu' u); eauto.
  - intros e1 e2 n p a [H1'| ->%list_elem_of_singleton]%elem_of_app [H2'| ->%list_elem_of_singleton]%elem_of_app E1 E2;
      [eauto| | |done]; by edestruct Hm'.
Qed.

Lemma net_ok_act s n nd h :
  net_ok s -> hist_ok (history s ++ h) ->
  node_ok (history s ++ h) (soup s ++ sent (link (bind nd))) n nd ->
  (forall x, x ∈ sent (link (bind nd)) -> x ∈ soup s \/ genuine (history s ++ h) x) ->
  (forall nd0 p, nodes s !! n = Some nd0 -> (next_addr (get p (bind nd0)) <= next_addr (get p (bind nd)))%nat) ->
  (forall e n' p a, e ∈ h -> makes e n' p a -> n' = n /\ (a < next_addr (get p (bind nd)))%nat) ->
  net_ok (act n nd h s).
Proof.
  intros [Hn Hs Hh Hm] Hh' Hnd Hsent Hnext Hmakes. assert (history s ⊆ history s ++ h) as Hsub by set_solver.
  split; simpl; [| |done|].
  - intros n' nd' [[<- <-]|[_ Hl]]%lookup_insert_Some; [done|].
    eapply (node_ok_mono (history s)); [done| |by apply Hn]. set_solver.
  - intros pk [Hin|Hin]%elem_of_app; [by eapply genuine_mono, Hs|].
    destruct (Hsent pk Hin) as [Hin'|]; [by eapply genuine_mono, Hs|done].
  - intros e n' p a [Hin|Hin]%elem_of_app He.
    + destruct (Hm _ _ _ _ Hin He) as (nd' & Hl & Hlt). destruct (decide (n' = n)) as [->|Hne].
      * exists nd. rewrite lookup_insert_eq. split; [done|]. specialize (Hnext nd' p Hl). lia.
      * exists nd'. by rewrite lookup_insert_ne.
    + destruct (Hmakes _ _ _ _ Hin He) as [-> Hlt]. exists nd. by rewrite lookup_insert_eq.
Qed.

(** An agent whose routers stay as they are. *)
Lemma net_ok_relinked P s n nd b done h :
  net_ok s -> nodes s !! n = Some nd -> relinked P (bind nd) b -> hist_ok (history s ++ h) ->
  (forall x, P x -> genuine (history s ++ h) x) -> (forall e n' p a, e ∈ h -> ~ makes e n' p a) ->
  net_ok (act n {| bind := b; done_ctx := done |} h s).
Proof.
  intros Hok Hl (l & -> & Hsent) Hh Hgen Hmk. pose proof (net_nodes s Hok n nd Hl) as [Hc Hwf Hr Hs].
  assert (forall x, x ∈ sent l -> x ∈ soup s \/ genuine (history s ++ h) x) as Hnew.
  { intros x [Hx|Hx]%Hsent; [left; by apply Hs|right; by apply Hgen]. }
  apply net_ok_act; simpl; [done|done| |done| |].
  - assert (history s ⊆ history s ++ h) as Hsub by set_solver.
    split; simpl; [done|intros p; by rewrite get_with_link| |set_solver]. intros p. rewrite get_with_link.
    eapply tracked_mono; [| |apply Hr]; eauto using Routed_mono, Held_mono.
  - intros nd0 p Hl'. rewrite Hl in Hl'. injection Hl' as <-. by rewrite get_with_link.
  - intros e n' p a He Hm. by destruct (Hmk _ _ _ _ He Hm).
Qed.

(** An agent one of whose routers changes. *)
Lemma net_ok_put s n nd p r l done h :
  net_ok s -> nodes s !! n = Some nd -> hist_ok (history s ++ h) -> router_ok r ->
  tracked (Routed (history s ++ h) n p) (Held (history s ++ h) n p) r ->
  (forall x, x ∈ sent l -> x ∈ soup s \/ genuine (history s ++ h) x) ->
  (next_addr (get p (bind nd)) <= next_addr r)%nat ->
  (forall e n' p' a, e ∈ h -> makes e n' p' a -> n' = n /\ p' = p /\ (a < next_addr r)%nat) ->
  net_ok (act n {| bind := put p r l (bind nd); done_ctx := done |} h s).
Proof.
  intros Hok Hl Hh Hrok Ht Hsent Hnext Hmk. pose proof (net_nodes s Hok n nd Hl) as [Hc Hwf Hr _].
  assert (history s ⊆ history s ++ h) as Hsub by set_solver.
  apply net_ok_act; simpl; rewrite ?link_put; [done|done| |done| |].
  - assert (forall Q : forall p, RouterOf p -> Prop, Q p r -> (forall p', Q p' (get p' (bind nd))) ->
      forall p', Q p' (get p' (put p r l (bind nd)))) as Hall.
    { intros Q Hp Ho p'. destruct (decide (p' = p)) as [->|Hne]; [by rewrite get_put|]. by rewrite get_put_ne. }
    split; simpl; [by rewrite cluster_put|by apply (Hall (fun _ => router_ok))| |rewrite link_put; set_solver].
    apply (Hall (fun p r => tracked (Routed (history s ++ h) n p) (Held (history s ++ h) n p) r)); [done|]. intros p'.
    eapply tracked_mono; [| |apply Hr]; eauto using Routed_mono, Held_mono.
  - intros nd0 p' Hl'. rewrite Hl in Hl'. injection Hl' as <-.
    destruct (decide (p' = p)) as [->|Hne]; [by rewrite get_put|]. by rewrite get_put_ne.
  - intros e n' p' a He Hm. destruct (Hmk _ _ _ _ He Hm) as (-> & -> & Hlt). by rewrite get_put.
Qed.

Lemma Add_addr {R} ctx f sub pub uns (r : RouterState R string Link) :
  next_addr (Add ctx f sub pub uns [] r).2 = S (next_addr r) /\
  forall rc, (Add ctx f sub pub uns [] r).1 = inl rc -> rc_addr rc = next_addr r.
Proof.
  unfold Add. destruct (routes _ !! _).
  - destruct (pub _) as [[e|] w]; split; simpl; try done. by intros rc [= <-].
  - destruct (sub _) as [[e|] w]; [by split|]. destruct (pub w) as [[e|] w']; split; simpl; try done. by intros rc [= <-].
Qed.

(** The call [e] added a route channel to the router of [p], or failed. *)
Lemma net_ok_added P s n nd p f res b done h :
  net_ok s -> nodes s !! n = Some nd -> added P p f res (bind nd) b ->
  (forall e, e ∈ h -> uuid_of e = None \/ exists u, uuid_of e = Some u /\ ~ used u (history s)) ->
  (forall e n' p' a, e ∈ h -> makes e n' p' a -> n' = n /\ p' = p /\ returned res = Some a) ->
  (forall rc, res = inl rc -> correlationId rc = CorrelationId f -> Routed (history s ++ h) n p (Topic f) rc) ->
  (forall x, P x -> genuine (history s ++ h) x) ->
  (forall e n' k y r, e ∈ h -> e <> Answered n' k y r) -> (forall e n' p' a x, e ∈ h -> e <> Got n' p' a x) ->
  (length h <= 1)%nat ->
  net_ok (act n {| bind := b; done_ctx := done |} h s).
Proof.
  intros Hok Hl (ctx & sub & pub & uns & r & Ha & -> & Hsub & Hpub & Huns) Huuid Hmk HR Hgen Hans Hgot Hlen.
  pose proof (net_nodes s Hok n nd Hl) as [Hc Hwf Hr Hs].
  assert (history s ⊆ history s ++ h) as Hhsub by set_solver.
  destruct (Add_addr ctx f sub pub uns (with_binding (link (bind nd)) (get p (bind nd)))) as [Hnext Haddr].
  rewrite Ha in Hnext, Haddr. simpl in Hnext, Haddr.
  assert (forall a, returned res = Some a -> a = next_addr (get p (bind nd))) as Hret.
  { intros a E. destruct res as [rc|]; [|done]. injection E as <-. by apply Haddr. }
  apply net_ok_put; [done|done| | | | |lia|].
  - destruct h as [|e [|? ?]]; [by rewrite app_nil_r; apply net_hist| |simpl in Hlen; lia].
    apply hist_ok_snoc; [by apply net_hist| | | |].
    + intros n' p' a x ->. by destruct (Hgot (Got n' p' a x) n' p' a x); [left|].
    + intros n' k y r0 ->. by destruct (Hans (Answered n' k y r0) n' k y r0); [left|].
    + intros u Hu. destruct (Huuid e) as [E|(u' & E & Hun)]; [left|congruence|]. by simplify_eq.
    + intros n' p' a e' He He' Hm'. destruct (Hmk e n' p' a) as (-> & -> & Hra); [left|done|].
      destruct (net_makes s Hok _ _ _ _ He' Hm') as (nd' & Hl' & Hlt). rewrite Hl in Hl'. injection Hl' as <-.
      rewrite (Hret _ Hra) in Hlt. lia.
  - pose proof (router_ok_Add ctx f sub pub uns [] _ (router_ok_binding (link (bind nd)) _ (Hwf p))) as Hrok.
    by rewrite Ha in Hrok.
  - pose proof (tracked_Add (Routed (history s ++ h) n p) (Held (history s ++ h) n p) ctx f sub pub uns
      (with_binding (link (bind nd)) (get p (bind nd)))) as Ht. rewrite Ha in Ht. apply Ht; [|done|].
    + apply tracked_binding. eapply tracked_mono; [| |apply Hr]; eauto using Routed_mono, Held_mono.
    + intros rc E _ Hcid. by apply HR.
  - intros x Hx. pose proof (Add_sends P ctx f sub pub uns (with_binding (link (bind nd)) (get p (bind nd))) x Hsub Hpub Huns) as Hsend.
    rewrite Ha in Hsend. destruct (Hsend Hx) as [Hx'|Hx']; [left; by apply Hs|right; by apply Hgen].
  - intros e n' p' a He Hm. destruct (Hmk _ _ _ _ He Hm) as (-> & -> & Hra). rewrite (Hret _ Hra), Hnext.
    split_and!; [done|done|]. lia.
Qed.

(** *** Every step keeps the invariant *)

(** A new connection has not handed over anything. *)
Hypothesis NewConnection_sent : forall ccfg c, NewConnection ccfg = inl c -> conn_sent c = [].

Lemma Open_fresh cfg timeout b0 b :
  conn (link b0) = None -> open_binding cfg timeout b0 = ([], b) ->
  cluster b = Cluster cfg /\ sent (link b) = [] /\ forall p, exists l, get p b = NewRouter l.
Proof.
  intros Hb0. unfold Mqtt5.Open. rewrite Hb0. destruct (getClientConfig _ _ _ _ _) as [[ccfg q]|err]; [|done].
  destruct (NewConnection ccfg) as [c|err] eqn:Ec; [|done]. destruct (AwaitConnection _ _); [done|].
  intros [= <-]. split_and!; [done|by apply NewConnection_sent in Ec|].
  intros p. destruct p as [|[]|[]]; by eexists.
Qed.

Lemma net_ok_start : net_ok start.
Proof.
  split; [done|by intros ? ?%not_elem_of_nil| |by intros ? ? ? ? ?%not_elem_of_nil].
  split; intros *; by intros ?%not_elem_of_nil.
Qed.

(** Requests that were received are explained. *)
Lemma got_request s n k a y :
  net_ok s -> Got n (PRequest k) a y ∈ history s ->
  exists cl scope uuid, request_made (history s) k (request_of y) (callback_of y) cl scope uuid /\
    valid_topic cl scope (req_type (request_of y)).
Proof.
  intros Hok Hg. destruct (hist_got _ (net_hist s Hok) _ _ _ _ Hg) as (cl & _ & scope & uuid & _ & Hr & Hv & _). eauto.
Qed.

Lemma net_cluster s n nd : net_ok s -> nodes s !! n = Some nd -> good_name (cluster (bind nd)).
Proof. intros Hok Hl. by destruct (net_nodes s Hok n nd Hl). Qed.

Lemma added_cluster P p f res b b' : added P p f res b b' -> cluster b' = cluster b.
Proof. intros (? & ? & ? & ? & r & _ & -> & _). apply cluster_put. Qed.

(** The entry just made. *)
Ltac logged := apply elem_of_app; right; left.

Lemma subscribe_ok s n nd k ctx filter res b :
  net_ok s -> nodes s !! n = Some nd -> known_scope (sf_Scope filter) -> Subscribe k ctx filter (bind nd) = (res, b) ->
  net_ok (act n {| bind := b; done_ctx := done_ctx nd |}
    (match returned res with Some a => [Subscribed n (cluster b) k a filter] | None => [] end) s).
Proof.
  intros Hok Hl Hk Hs. pose proof (net_cluster _ _ _ Hok Hl) as Hcl.
  destruct (Subscribe_effect _ _ _ _ _ _ Hs) as [[-> ->]|[Hty Hadd]].
  - eapply (net_ok_relinked (fun _ => False)); eauto using relinked_refl; try done.
    + rewrite app_nil_r. by apply net_hist.
    + by intros ? ? ? ? ?%not_elem_of_nil.
  - rewrite (added_cluster _ _ _ _ _ _ Hadd).
    assert (forall e, e ∈ match returned res with Some a => [Subscribed n (cluster (bind nd)) k a filter] | None => [] end ->
      exists a, returned res = Some a /\ e = Subscribed n (cluster (bind nd)) k a filter) as Hin.
    { destruct res; simpl; [|by intros ? ?%not_elem_of_nil]. intros e ->%list_elem_of_singleton. eauto. }
    eapply net_ok_added; [done|done|exact Hadd|..].
    + intros e (a & _ & ->)%Hin. by left.
    + intros e n' p' a (a' & Hr & ->)%Hin (-> & <- & ->). done.
    + intros rc -> Hcid. simpl.
      assert (Routed [Subscribed n (cluster (bind nd)) k (rc_addr rc) filter] n (pattern_of k)
        (topic (cluster (bind nd)) (sf_Scope filter) (pattern_of k) (sf_Type filter)) rc) as HR.
      { destruct k as [k|]; simpl; exists (cluster (bind nd)), filter; eexists; (split_and!; [|left| |]; done). }
      eapply Routed_mono, HR. set_solver.
    + done.
    + by intros e ? ? ? ? (a & _ & ->)%Hin.
    + by intros e ? ? ? ? (a & _ & ->)%Hin.
    + destruct (returned res); simpl; lia.
Qed.

Lemma request_ok s n nd k (x : Req k) uuid ctx scope res b :
  net_ok s -> nodes s !! n = Some nd -> known_scope (opt_scope scope) -> ~ used uuid (history s) ->
  Request uuid ctx x scope (bind nd) = (res, b) ->
  net_ok (act n {| bind := b; done_ctx := done_ctx nd |}
    [Requested n (cluster b) (responseId b) k (opt_scope scope) uuid (returned res) x] s).
Proof.
  intros Hok Hl Hk Hu Hr. pose proof (net_cluster _ _ _ Hok Hl) as Hcl.
  destruct (Request_effect _ _ _ _ _ _ _ Hr) as [[-> ->]|Hadd].
  - eapply (net_ok_relinked (fun _ => False)); eauto using relinked_refl; try done.
    + apply hist_ok_snoc; [by apply net_hist|done|done|by intros u [= <-]|]. by intros n' p a e (_ & _ & ?).
    + by intros e n' p a ->%list_elem_of_singleton (_ & _ & ?).
  - assert (cluster b = cluster (bind nd) /\ responseId b = responseId (bind nd)) as [-> ->].
    { destruct Hadd as (? & ? & ? & ? & r & _ & -> & _). by destruct k. }
    eapply net_ok_added; [done|done|exact Hadd|..].
    + intros e ->%list_elem_of_singleton. right. by exists uuid.
    + by intros e n' p' a ->%list_elem_of_singleton (-> & <- & ?).
    + intros rc -> Hcid. simpl in *. exists (cluster (bind nd)), (responseId (bind nd)), (opt_scope scope), x.
      rewrite Hcid. logged.
    + intros pk [Hty [q ->]]. eapply genuine_request; [|done]. logged.
    + by intros e ? ? ? ? ->%list_elem_of_singleton.
    + by intros e ? ? ? ? ->%list_elem_of_singleton.
    + done.
Qed.

Lemma publish_event_ok s n nd e scope err b :
  net_ok s -> nodes s !! n = Some nd -> known_scope (opt_scope scope) -> PublishEvent e scope (bind nd) = Ret err b ->
  net_ok (act n {| bind := b; done_ctx := done_ctx nd |} [PublishedEvent n (cluster b) (opt_scope scope) e] s).
Proof.
  intros Hok Hl Hk Hp. pose proof (net_cluster _ _ _ Hok Hl) as Hcl.
  apply PublishEvent_effect in Hp as Hrel. assert (cluster b = cluster (bind nd)) as -> by by destruct Hrel as (l & -> & _).
  eapply net_ok_relinked; [done|done|exact Hrel| | |].
  - apply hist_ok_snoc; [by apply net_hist|done..].
  - intros x [Hty [q ->]]. eapply genuine_event; [|done]. logged.
  - intros e' n' p a ->%list_elem_of_singleton [].
Qed.

Lemma answer_ok s n nd k a (y : Msg (PRequest k)) (r : Res k) err b :
  net_ok s -> nodes s !! n = Some nd -> Got n (PRequest k) a y ∈ history s -> in_sint 64 (sequence_number r) ->
  Answer r (callback_of y) (bind nd) = Ret err b ->
  net_ok (act n {| bind := b; done_ctx := done_ctx nd |} [Answered n k y r] s).
Proof.
  intros Hok Hl Hg Hseq Ha. destruct (got_request _ _ _ _ _ Hok Hg) as (cl & scope & uuid & Hreq & Hv).
  eapply net_ok_relinked; [done|done|by eapply Answer_effect| | |].
  - apply hist_ok_snoc; [by apply net_hist|done| |done|done].
    intros n' k' y' r' [= -> -> Ey Er]. apply (Eqdep_dec.inj_pair2_eq_dec _ (decide_rel (=))) in Ey as <-. eauto.
  - intros x [q ->]. eapply genuine_result; [| |done|done]; [logged|].
    eapply request_made_mono; [|exact Hreq]. set_solver.
  - intros e' n' p a' ->%list_elem_of_singleton [].
Qed.

Lemma send_ok s n nd pk p f (x : Msg p) rc cs :
  net_ok s -> nodes s !! n = Some nd -> pk ∈ soup s -> parse_publication pk = Some (arriving p f x) ->
  rc ∈ dispatch_targets "" f (get p (bind nd)) ->
  dispatch1 (done_ctx nd) rc x (chans (get p (bind nd))) = Ret tt cs ->
  net_ok (act n {| bind := put p (set_chans cs (get p (bind nd))) (link (bind nd)) (bind nd); done_ctx := done_ctx nd |} [] s).
Proof.
  intros Hok Hl Hpk Hparse Hrc Hd. pose proof (net_nodes s Hok n nd Hl) as [_ Hwf Hr Hs].
  apply net_ok_put; rewrite ?app_nil_r;
    [done|done|by apply net_hist|by eapply router_ok_dispatch1| |left; by apply Hs|done|by intros ? ? ? ? ?%not_elem_of_nil].
  eapply tracked_dispatch1; [apply Hr| |exact Hd].
  destruct (net_soup s Hok pk Hpk) as (p' & f' & x' & Hparse' & Ho).
  assert (Origin (history s) p f x) as Ho'.
  { refine (arriving_inj p f x p' f' x' (Origin (history s)) _ Ho). congruence. }
  unfold dispatch_targets in Hrc. destruct (routes _ !! Topic f) as [rcs|] eqn:Er; [|by apply not_elem_of_nil in Hrc].
  apply targets_correlated in Hrc as [Hin Hcid].
  eapply Origin_Held; [by apply net_hist|done| |done]. by eapply (tracked_routes _ _ _ (Hr p)).
Qed.

Lemma chan_recv_buf {R} (c c' : Chan R) x :
  chan_recv c = Received x c' -> ch_buf c = x :: ch_buf c' /\ ch_cap c' = ch_cap c.
Proof.
  unfold chan_recv. destruct (ch_buf c) eqn:E; [by destruct (ch_closed c)|]. by intros [= -> <-].
Qed.

Lemma receive_ok s n nd p a c (x : Msg p) c' :
  net_ok s -> nodes s !! n = Some nd -> chans (get p (bind nd)) !! a = Some c -> chan_recv c = Received x c' ->
  net_ok (act n {| bind := put p (set_chans (<[a := c']> (chans (get p (bind nd)))) (get p (bind nd)))
                             (link (bind nd)) (bind nd);
                   done_ctx := done_ctx nd |} [Got n p a x] s).
Proof.
  intros Hok Hl Hc Hr. pose proof (net_nodes s Hok n nd Hl) as [_ Hwf Ht Hs].
  apply chan_recv_buf in Hr as Hbuf. destruct Hbuf as [Hbuf Hcap].
  pose proof (tracked_held _ _ _ (Ht p) a c) as Hheld. rewrite Hbuf in Hheld.
  assert (history s ⊆ history s ++ [Got n p a x]) as Hsub by set_solver.
  apply net_ok_put; [done|done| | | |left; by apply Hs|done|].
  - apply hist_ok_snoc; [by apply net_hist| |done|done|done].
    intros n' p' a' x' E. pose proof (Hheld x Hc ltac:(left)) as Hx.
    injection E as <- -> <- Ex. apply (Eqdep_dec.inj_pair2_eq_dec _ (decide_rel (=))) in Ex as <-. exact Hx.
  - eapply router_ok_set_chan; [done|exact Hc|]. by eapply chan_recv_closed.
  - eapply tracked_set_chan; [eapply tracked_mono; [| |apply Ht]; eauto using Routed_mono, Held_mono|exact Hc|done|].
    intros y Hy. eapply Held_mono; [done|]. apply Hheld; [done|by right].
  - intros e n' p' a' ->%list_elem_of_singleton [].
Qed.

Lemma remove_step_ok s n nd p i ctx t rc r :
  net_ok s -> nodes s !! n = Some nd -> after_funcs (get p (bind nd)) !! i = Some (ctx, t, rc) ->
  remove t rc (drop_after i (with_binding (link (bind nd)) (get p (bind nd)))) = Ret tt r ->
  net_ok (act n {| bind := put p r (binding r) (bind nd); done_ctx := done_ctx nd |} [] s).
Proof.
  intros Hok Hl Ha Hr. pose proof (net_nodes s Hok n nd Hl) as [_ Hwf Ht Hs].
  destruct (remove_ok t rc (drop_after i (with_binding (link (bind nd)) (get p (bind nd))))) as (r' & Hr' & Hrok & _);
    [by apply router_ok_drop_after, router_ok_binding|]. assert (r' = r) as -> by congruence.
  eapply (tracked_remove (Routed (history s) n p) (Held (history s) n p)) in Hr as (Htr & Hnext & Hsent);
    [|by apply tracked_drop_after, tracked_binding].
  simpl in Hnext, Hsent.
  apply net_ok_put; rewrite ?app_nil_r; [done|done|by apply net_hist|done|done| |lia|by intros ? ? ? ? ?%not_elem_of_nil].
  intros x Hx. left. apply Hs, Hsent; [|done]. eapply (tracked_removals _ _ _ (Ht p)), list_elem_of_lookup_2, Ha.
Qed.

Lemma net_ok_silent s n nd b done :
  net_ok s -> nodes s !! n = Some nd -> relinked (fun _ => False) (bind nd) b ->
  net_ok (act n {| bind := b; done_ctx := done |} [] s).
Proof.
  intros Hok Hl Hrel. eapply net_ok_relinked; [done|done|exact Hrel| |done|by intros ? ? ? ? ?%not_elem_of_nil].
  rewrite app_nil_r. by apply net_hist.
Qed.

Lemma reconnect_effect b : relinked (fun _ => False) b (resubscribe b).
Proof. eexists. split; [done|]. apply subscribe_silent. Qed.

Lemma close_effect b : relinked (fun _ => False) b (Mqtt5.Close b).
Proof.
  unfold Mqtt5.Close. destruct (conn (link b)); [|apply relinked_refl]. eexists. split; [done|].
  by intros x ?%not_elem_of_nil.
Qed.

Lemma step_ok s s' : net_ok s -> step s s' -> net_ok s'.
Proof.
  intros Hok [n cfg timeout b0 b Hl Hcl Hc Ho| | | | | | | | |n nd b Hl [= <-]|].
  - destruct (Open_fresh _ _ _ _ Hc Ho) as (Hcl' & Hsent & Hr).
    apply net_ok_act; simpl; rewrite ?Hsent; [done|rewrite app_nil_r; by apply net_hist| |by intros ? ?%not_elem_of_nil| |].
    + split; simpl; [by rewrite Hcl'|intros p; destruct (Hr p) as [l ->]; apply router_ok_new|
        |rewrite Hsent; by intros ? ?%not_elem_of_nil]. intros p. destruct (Hr p) as [l ->]. apply tracked_new.
    + intros nd0 p Hl'. by rewrite Hl in Hl'.
    + by intros ? ? ? ? ?%not_elem_of_nil.
  - by eapply publish_event_ok.
  - by eapply subscribe_ok.
  - by eapply request_ok.
  - by eapply answer_ok.
  - by eapply send_ok.
  - by eapply receive_ok.
  - eapply net_ok_silent; eauto using relinked_refl.
  - by eapply remove_step_ok.
  - eapply net_ok_silent; eauto using reconnect_effect.
  - eapply net_ok_silent; eauto using close_effect.
Qed.

Lemma reachable_net_ok s : reachable s -> net_ok s.
Proof.
  unfold reachable. intros Hr. pose proof net_ok_start as Hok. revert Hok.
  induction Hr as [|s1 s2 s3 Hs _ IH]; [done|]. intros Hok. apply IH. by eapply step_ok.
Qed.

(** ** Handling a publication

    The network's [step_send] is one turn of the loop in [dispatch]; what
    [handle] does with a publication is a run of such steps. *)

Lemma handle_eq done pk b p f x :
  parse_publication pk = Some (arriving p f x) ->
  handle done pk b = dispatch_in done f x (get p b) (fun r => put p r (link b) b).
Proof. intros Hp. unfold handle. rewrite Hp. by destruct p as [|[]|[]]. Qed.

Lemma put_put p r r' l b : put p r l (put p r' l b) = put p r l b.
Proof. by destruct p as [|[]|[]]. Qed.

(** Agent [n] has become [nd], nothing else has happened. *)
Definition only (n : string) (nd : Node) (s s' : Net) : Prop :=
  nodes s' = <[n := nd]> (nodes s) /\ soup s ⊆ soup s' /\ history s' = history s.

Lemma sends_step n pk p f x b done cs cs' rcs s :
  pk ∈ soup s -> parse_publication pk = Some (arriving p f x) ->
  nodes s !! n = Some {| bind := put p (set_chans cs (get p b)) (link b) b; done_ctx := done |} ->
  (forall rc, rc ∈ rcs -> rc ∈ dispatch_targets "" f (get p b)) ->
  (mfor rcs (fun rc => dispatch1 done rc x) cs = Ret tt cs' \/ mfor rcs (fun rc => dispatch1 done rc x) cs = Blocked cs') ->
  exists s', rtc step s s' /\
    only n {| bind := put p (set_chans cs' (get p b)) (link b) b; done_ctx := done |} s s'.
Proof.
  intros Hpk Hparse. revert cs s Hpk. induction rcs as [|rc rcs IH]; intros cs s Hpk Hn Hin Hrun.
  { destruct Hrun as [[= <-]|]; [|done]. exists s. split; [done|]. split_and!; [by rewrite insert_id|done|done]. }
  simpl in Hrun. unfold mbind in Hrun. destruct (dispatch1 done rc x cs) as [[] cs1|cs1|] eqn:E; [| |naive_solver].
  - pose proof (step_send s n _ pk p f x rc cs1 Hn Hpk Hparse) as Hstep. cbn [bind done_ctx] in Hstep.
    rewrite get_put, link_put, put_put in Hstep. specialize (Hstep (Hin rc ltac:(left)) E).
    destruct (IH cs1 (act n {| bind := put p (set_chans cs1 (get p b)) (link b) b; done_ctx := done |} [] s))
      as (s' & Hr & Hnodes & Hsoup & Hhist).
    + simpl. set_solver.
    + simpl. by rewrite lookup_insert_eq.
    + intros rc' Hrc'. apply Hin. by right.
    + exact Hrun.
    + exists s'. split; [by eapply rtc_l|]. split_and!.
      * rewrite Hnodes. simpl. by rewrite insert_insert_eq.
      * simpl in Hsoup. set_solver.
      * rewrite Hhist. simpl. by rewrite app_nil_r.
  - assert (cs1 = cs') as -> by naive_solver. assert (cs' = cs) as ->.
    { unfold dispatch1 in E. case_decide; [done|]. destruct (cs !! _); [|congruence].
      destruct (chan_send _ _); congruence. }
    exists s. split; [done|]. split_and!; [by rewrite insert_id|done|done].
Qed.

(** C18: the network's steps are those of the binding.  Whenever a published
    packet arrives at an agent, [handle] neither panics on its topic's levels
    nor on a closed channel; and the state in which it returns, or in which
    it waits for room in a consumer's channel, is one the network reaches by
    the sends to single route channels, so that the theorems on what is
    received hold for every schedule of the dispatching goroutines. *)
Theorem handle_is_a_run (s : Net) (n : string) (nd : Node) (pk : Publish) :
  reachable s -> nodes s !! n = Some nd -> pk ∈ soup s ->
  exists b, (handle (done_ctx nd) pk (bind nd) = Ret tt b \/ handle (done_ctx nd) pk (bind nd) = Blocked b) /\
    exists s', rtc step s s' /\ only n {| bind := b; done_ctx := done_ctx nd |} s s'.
Proof.
  intros Hok%reachable_net_ok Hn Hpk. destruct (net_soup s Hok pk Hpk) as (p & f & x & Hparse & _).
  pose proof (node_wf _ _ _ _ (net_nodes s Hok n nd Hn) p) as Hwf.
  assert (put p (set_chans (chans (get p (bind nd))) (get p (bind nd))) (link (bind nd)) (bind nd) = bind nd) as Hid.
  { destruct p as [|[]|[]]; destruct nd as [[[] [] [] [] []] ?]; done. }
  assert (nodes s !! n = Some {| bind := put p (set_chans (chans (get p (bind nd))) (get p (bind nd))) (link (bind nd)) (bind nd);
    done_ctx := done_ctx nd |}) as Hn' by (rewrite Hid, Hn; by destruct nd).
  rewrite (handle_eq _ _ _ _ _ _ Hparse). unfold dispatch_in, Router.Dispatch.
  pose proof (dispatch_no_panic "" (done_ctx nd) f x (get p (bind nd))) as Hno.
  destruct (dispatch "" (done_ctx nd) f x (get p (bind nd))) as [[] cs|cs|msg] eqn:E; [| |by destruct (Hno msg Hwf)];
    eexists; (split; [eauto|]); unfold dispatch in E; eapply sends_step; eauto.
Qed.

(** ** What consumers receive *)

(** C7: whatever the agents do and however the brokers deliver, a consumer
    only receives an event that some agent of its cluster published, equal in
    every field, in the scope and of the type the consumer subscribed. *)
Theorem events_are_published (s : Net) (n : string) (a : nat) (e : Event) :
  reachable s -> Got n PEvent a e ∈ history s ->
  exists cl filter m scope,
    Subscribed n cl None a filter ∈ history s /\ PublishedEvent m cl scope e ∈ history s /\
    ToScope scope = ToScope (sf_Scope filter) /\ ev_Type e = sf_Type filter.
Proof.
  intros Hok%reachable_net_ok Hg. destruct (hist_got _ (net_hist s Hok) _ _ _ _ Hg) as (cl & filter & m & scope & ? & ? & ? & ?).
  by exists cl, filter, m, scope.
Qed.

(** C3: whatever the agents do and however the brokers deliver, a result on
    the channel returned for an action or query stems from an agent that
    received that very request, equal in every field, through a subscription
    of its type and scope in the same cluster, and answered it with that
    result; and the channel was made for no other call. *)
Theorem results_answer_requests (s : Net) (n : string) (k : Kind) (a : nat) (r : Res k) :
  reachable s -> Got n (PResult k) a r ∈ history s ->
  exists cl rid scope uuid m b y filter,
    Requested n cl rid k scope uuid (Some a) (request_of y) ∈ history s /\
    Subscribed m cl (Some k) b filter ∈ history s /\
    ToScope scope = ToScope (sf_Scope filter) /\ req_type (request_of y) = sf_Type filter /\
    Got m (PRequest k) b y ∈ history s /\ Answered m k y r ∈ history s /\
    forall e, e ∈ history s -> makes e n (PResult k) a -> e = Requested n cl rid k scope uuid (Some a) (request_of y).
Proof.
  intros Hok%reachable_net_ok Hg. pose proof (net_hist s Hok) as Hh.
  destruct (hist_got _ Hh _ _ _ _ Hg) as (cl & rid & scope & uuid & m & y & Hreq & Hans & Hcb).
  destruct (hist_answered _ Hh _ _ _ _ Hans) as [b Hgy].
  destruct (hist_got _ Hh _ _ _ _ Hgy) as (cl' & filter & scope' & uuid' & Hsub & (n' & rid' & a' & Hreq' & Hcb') & _ & Hsc & Hty).
  assert (uuid' = uuid) as ->.
  { apply bytes_of_string_inj. rewrite Hcb in Hcb'. unfold reply_to in Hcb'. congruence. }
  pose proof (hist_uuid _ Hh _ _ uuid Hreq Hreq' eq_refl eq_refl) as E. injection E as <- <- <- <- <-.
  exists cl, rid, scope, uuid, m, b, y, filter. split_and!; try done.
  intros e He Hm. eapply (hist_makes _ Hh); [done|exact Hreq|exact Hm|done].
Qed.
End Network.

(** ** A concrete run: an event, an action and its result *)

Module Run.
Export Mqtt5.Run.

#[export] Instance mem_sent : PahoSent.
Proof.
  refine {| conn_sent := published : Conn -> list Publish |}; simpl; [|done|done].
  intros pk c x [?| ->%list_elem_of_singleton]%elem_of_app; auto.
Defined.

Definition connect (_ : ClientConfig (URL := string) (Certificate := unit)) : Conn + error :=
  inl {| subs := ∅; published := [] |}.

Abbreviation net_step := (step (inl : string -> string + error) (fun _ _ => inl tt) false connect
  (fun _ _ => None) (fun _ => true)).
Abbreviation net_reachable := (reachable (inl : string -> string + error) (fun _ _ => inl tt) false connect
  (fun _ _ => None) (fun _ => true)).

Definition unopened : Mqtt5Binding := Mqtt5.Close agent.
Definition opened : Mqtt5Binding :=
  (Mqtt5.Open (inl : string -> string + error) (fun _ _ => inl tt) false connect (fun _ _ => None) (fun _ => true)
     (Config.New "id") 0 unopened).2.

(** The steps, as functions of the network. *)
Definition node (n : string) (s : Net) : Node := default {| bind := unopened; done_ctx := ∅ |} (nodes s !! n).

Definition do_open (n : string) (s : Net) : Net := act n {| bind := opened; done_ctx := ∅ |} [] s.

Definition do_subscribe (n : string) (k : option Kind) (s : Net) : Net :=
  let '(res, b) := Subscribe k 7 {| sf_Scope := ""; sf_Type := "Temp"; sf_Share := "" |} (bind (node n s)) in
  act n {| bind := b; done_ctx := done_ctx (node n s) |}
    (match returned res with
     | Some a => [Subscribed n (cluster b) k a {| sf_Scope := ""; sf_Type := "Temp"; sf_Share := "" |}]
     | None => []
     end) s.

Definition temp : Action :=
  {| ac_Type := "Temp"; ac_Id := "1"; ac_Source := "s"; ac_Params := None; ac_DataContentType := "" |}.

Definition do_request (n : string) (s : Net) : Net :=
  let '(res, b) := Request (k := KAction) "u" 8 temp [] (bind (node n s)) in
  act n {| bind := b; done_ctx := done_ctx (node n s) |}
    [Requested n (cluster b) (responseId b) KAction "" "u" (returned res) temp] s.

Definition do_event (n : string) (s : Net) : Net :=
  match PublishEvent event [] (bind (node n s)) with
  | Ret _ b => act n {| bind := b; done_ctx := done_ctx (node n s) |} [PublishedEvent n (cluster b) "" event] s
  | _ => s
  end.

(** The first route channel of the topic takes the message. *)
Definition do_send (n : string) (p : Pattern) (f : RouteFilter string) (x : Msg p) (s : Net) : Net :=
  let r := get p (bind (node n s)) in
  match dispatch_targets "" f r with
  | rc :: _ =>
      match dispatch1 (done_ctx (node n s)) rc x (chans r) with
      | Ret _ cs => act n {| bind := put p (set_chans cs r) (link (bind (node n s))) (bind (node n s));
                             done_ctx := done_ctx (node n s) |} [] s
      | _ => s
      end
  | [] => s
  end.

Definition do_receive (n : string) (p : Pattern) (s : Net) : Net :=
  let r := get p (bind (node n s)) in
  match chans r !! 0%nat with
  | Some c =>
      match chan_recv c with
      | Received x c' =>
          act n {| bind := put p (set_chans (<[0%nat := c']> (chans r)) r) (link (bind (node n s))) (bind (node n s));
                   done_ctx := done_ctx (node n s) |} [Got n p 0 x] s
      | _ => s
      end
  | None => s
  end.

Definition cb : Callback := reply_to "dda" "id" KAction "" "u" "Temp".
Definition asked : Msg (PRequest KAction) := {| awc_Action := temp; awc_Callback := cb |}.
Definition result : Res KAction :=
  {| ar_Context := "x"; ar_Data := None; ar_DataContentType := ""; ar_SequenceNumber := -3 |}.

Definition do_answer (n : string) (s : Net) : Net :=
  match Answer result cb (bind (node n s)) with
  | Ret _ b => act n {| bind := b; done_ctx := done_ctx (node n s) |} [Answered n KAction asked result] s
  | _ => s
  end.

Definition route (p : Pattern) : RouteFilter string :=
  {| Topic := topic "dda" "" p "Temp"; CorrelationId := "" |}.
Definition response : RouteFilter string := {| Topic := cb_responseTopic cb; CorrelationId := "u" |}.

Definition s2 : Net := do_open "bob" (do_open "alice" start).
Definition s4 : Net := do_subscribe "bob" (Some KAction) (do_subscribe "bob" None s2).
Definition s5 : Net := do_event "alice" s4.
Definition s7 : Net := do_receive "bob" PEvent (do_send "bob" PEvent (route PEvent) event s5).
Definition s8 : Net := do_request "alice" s7.
Definition s10 : Net :=
  do_receive "bob" (PRequest KAction) (do_send "bob" (PRequest KAction) (route (PRequest KAction)) asked s8).
Definition s11 : Net := do_answer "bob" s10.
Definition s13 : Net :=
  do_receive "alice" (PResult KAction) (do_send "alice" (PResult KAction) response result s11).
End Run.
Import Run.

Definition has_node (n : string) (s : Net) : bool := bool_decide (is_Some (nodes s !! n)).
Lemma has_node_Some n s : has_node n s = true -> nodes s !! n = Some (node n s).
Proof. intros [nd Hn]%bool_decide_eq_true. unfold node. by rewrite Hn. Qed.

Section RunSteps.
Implicit Types s : Net.

Lemma do_open_step n s : bool_decide (nodes s !! n = None) = true -> net_step s (do_open n s).
Proof.
  intros Hn%bool_decide_eq_true.
  apply (step_open _ _ _ _ _ _ s n (Config.New "id") 0 unopened opened Hn); [|done|by_vm].
  apply good_name_check. reflexivity.
Qed.

Lemma do_subscribe_step n k s : has_node n s = true -> net_step s (do_subscribe n k s).
Proof.
  intros Hn%has_node_Some. unfold do_subscribe.
  destruct (Subscribe k 7 _ (bind (node n s))) as [res b] eqn:E.
  eapply step_subscribe; [exact Hn| |exact E]. by left.
Qed.

Lemma do_request_step n s :
  has_node n s = true -> forallb (fun e => match uuid_of e with None => true | Some _ => false end) (history s) = true ->
  net_step s (do_request n s).
Proof.
  intros Hn%has_node_Some Hu. unfold do_request. destruct (Request "u" 8 _ [] (bind (node n s))) as [res b] eqn:E.
  eapply (step_request _ _ _ _ _ _ s n _ KAction temp "u" 8 []); [exact Hn|by left| |exact E].
  intros (? & ? & ? & ? & ? & ? & ? & Hin). rewrite forallb_forall in Hu.
  apply list_elem_of_In, Hu in Hin. done.
Qed.

Lemma do_event_step n s : has_node n s = true -> rtc net_step s (do_event n s).
Proof.
  intros Hn%has_node_Some. unfold do_event. destruct (PublishEvent event [] _) as [err b| |] eqn:E; [|done..].
  apply rtc_once. eapply (step_publish_event _ _ _ _ _ _ s n _ event []); [exact Hn|by left|exact E].
Qed.

Lemma do_send_step n p f x i s :
  has_node n s = true -> (forall P : Prop, (forall pk, soup s !! i = Some pk ->
    parse_publication pk = Some (arriving p f x) -> P) -> P) -> rtc net_step s (do_send n p f x s).
Proof.
  intros Hn%has_node_Some Hpk. unfold do_send.
  destruct (dispatch_targets "" f (get p (bind (node n s)))) as [|rc rcs] eqn:Et; [done|].
  destruct (dispatch1 _ rc x _) as [[] cs| |] eqn:E; [|done..]. apply Hpk. intros pk Hi Hparse.
  apply rtc_once. eapply step_send; [exact Hn|eapply list_elem_of_lookup_2, Hi|exact Hparse| |exact E].
  rewrite Et. left.
Qed.

Lemma do_receive_step n p s : has_node n s = true -> rtc net_step s (do_receive n p s).
Proof.
  intros Hn%has_node_Some. unfold do_receive. destruct (chans _ !! 0%nat) as [c|] eqn:Ec; [|done].
  destruct (chan_recv c) as [x c'| |] eqn:Er; [|done..]. apply rtc_once. by eapply step_receive.
Qed.

Lemma do_answer_step n s : has_node n s = true ->
  Got n (PRequest KAction) 0 asked ∈ history s -> rtc net_step s (do_answer n s).
Proof.
  intros Hn%has_node_Some Hg. unfold do_answer. destruct (Answer result cb _) as [err b| |] eqn:E; [|done..].
  apply rtc_once. eapply (step_answer _ _ _ _ _ _ s n _ KAction 0 asked result); [exact Hn|exact Hg| |exact E].
  unfold in_sint. simpl. lia.
Qed.
End RunSteps.

Lemma rtc_after {A} (R : A -> A -> Prop) x y z : rtc R x y -> rtc R y z -> rtc R x z.
Proof. intros ? ?. by etrans. Qed.

Lemma reachable_s4 : net_reachable s4.
Proof.
  eapply rtc_l; [apply (do_open_step "alice" start); reflexivity|].
  eapply rtc_l; [apply (do_open_step "bob"); by_vm|].
  eapply rtc_l; [apply (do_subscribe_step "bob" None); by_vm|].
  apply rtc_once. apply (do_subscribe_step "bob" (Some KAction)). by_vm.
Qed.

Lemma reachable_s5 : net_reachable s5.
Proof. eapply rtc_after; [apply reachable_s4|]. apply do_event_step. by_vm. Qed.

(** The packet at the position of the soup is the one parsed. *)
Ltac packet_at := intros P HP; eapply HP; [vm_compute; reflexivity|by_vm].

Lemma reachable_s7 : net_reachable s7.
Proof.
  eapply rtc_after; [apply reachable_s5|].
  eapply rtc_after; [apply (do_send_step "bob" PEvent (route PEvent) event 0); [by_vm|packet_at]|].
  apply do_receive_step. by_vm.
Qed.

Lemma reachable_s10 : net_reachable s10.
Proof.
  eapply rtc_after; [apply reachable_s7|].
  eapply rtc_l; [apply (do_request_step "alice"); by_vm|].
  eapply rtc_after; [|apply do_receive_step; by_vm].
  apply (do_send_step "bob" (PRequest KAction) (route (PRequest KAction)) asked 2); [by_vm|packet_at].
Qed.

Lemma reachable_s11 : net_reachable s11.
Proof.
  unfold s11. eapply rtc_after; [apply reachable_s10|]. apply (do_answer_step "bob"); [by_vm|].
  apply (list_elem_of_lookup_2 _ 5). vm_compute. reflexivity.
Qed.

Lemma reachable_s13 : net_reachable s13.
Proof.
  eapply rtc_after; [apply reachable_s11|]. unfold s13.
  eapply rtc_after; [|apply do_receive_step; by_vm].
  apply (do_send_step "alice" (PResult KAction) response result 3); [by_vm|packet_at].
Qed.

Lemma conn_new ccfg c : connect ccfg = inl c -> conn_sent (PahoSent := mem_sent) c = [].
Proof. by intros [= <-]. Qed.

Lemma events_are_published_witness :
  exists cl filter m scope, Subscribed "bob" cl None 0 filter ∈ history s7 /\
    PublishedEvent m cl scope event ∈ history s7 /\
    ToScope scope = ToScope (sf_Scope filter) /\ ev_Type event = sf_Type filter.
Proof.
  eapply (events_are_published _ _ _ _ _ _ conn_new s7 "bob" 0 event reachable_s7).
  apply (list_elem_of_lookup_2 _ 3). vm_compute. reflexivity.
Defined.

Lemma results_answer_requests_witness :
  exists m y, Answered m KAction y result ∈ history s13 /\ exists b, Got m (PRequest KAction) b y ∈ history s13.
Proof.
  destruct (results_answer_requests _ _ _ _ _ _ conn_new s13 "alice" KAction 0 result reachable_s13)
    as (cl & rid & scope & uuid & m & b & y & filter & _ & _ & _ & _ & Hg & Ha & _).
  - apply (list_elem_of_lookup_2 _ 7). vm_compute. reflexivity.
  - exists m, y. split; [exact Ha|]. exists b. exact Hg.
Defined.

Definition sent_event : Publish := packet 0 "dda/com/evt/Temp" (ev_Data event) (event_props event) "" None.

Lemma handle_is_a_run_witness :
  exists b, (handle ∅ sent_event (bind (node "bob" s5)) = Ret tt b \/
             handle ∅ sent_event (bind (node "bob" s5)) = Blocked b) /\
    exists s', rtc net_step s5 s' /\ only "bob" {| bind := b; done_ctx := ∅ |} s5 s'.
Proof.
  apply (handle_is_a_run _ _ _ _ _ _ conn_new s5 "bob" (node "bob" s5) sent_event reachable_s5).
  - apply has_node_Some. by_vm.
  - apply (list_elem_of_lookup_2 _ 0). vm_compute. reflexivity.
Defined.
