(* ===== verification/Transport.v ===== *)
(** * The Raft transport ([services/state/raft/transport.go])

    Remote operations between Raft nodes, and leader forwarding, carried by
    actions of the communication API.  The Raft library's request and response
    types and the communication service are parameters; what happens outside
    (the Raft node that consumes RPCs, the channels) is a world [W] passed
    along. *)

From S2P Require Import Prelude GoRuntime Services StateApi ComApi.

(** ** Constants and types *)

Definition DefaultRpcTimeout : Z := 1000 * Millisecond.
Definition DefaultInstallSnapshotTimeoutScale : Z := 256 * 1024.

Definition rpcAppendEntries : string := "ae".
Definition rpcRequestVote : string := "rv".
Definition rpcInstallSnapshot : string := "is".
Definition rpcTimeoutNow : string := "tn".
Definition rpcAddVoter : string := "av".
Definition rpcRemoveServer : string := "rs".
Definition rpcApply : string := "ap".

(** [type rpcType string] *)
Inductive rpcType := rpcTargetedType | rpcLeaderForwardedType.
Definition rpcType_string (r : rpcType) : string :=
  match r with
  | rpcTargetedType => "rpc"
  | rpcLeaderForwardedType => "lfw"
  end.

Definition ErrTransportShutdown : error := ErrVar "raft.ErrTransportShutdown" "transport shutdown" None.
Definition ErrPipelineShutdown : error := ErrVar "raft.ErrPipelineShutdown" "append pipeline closed" None.

(** Errors of the Raft library. *)
Definition hraft_ErrNotLeader : error := ErrVar "raft.ErrNotLeader" "node is not the leader" None.
Definition hraft_ErrLeader : error := ErrVar "raft.ErrLeader" "node is the leader" None.
Definition hraft_ErrLeadershipLost : error :=
  ErrVar "raft.ErrLeadershipLost" "leadership lost while committing log" None.
Definition hraft_ErrAbortedByRestore : error :=
  ErrVar "raft.ErrAbortedByRestore" "snapshot restored while committing log" None.
Definition hraft_ErrLeadershipTransferInProgress : error :=
  ErrVar "raft.ErrLeadershipTransferInProgress" "leadership transfer in progress" None.
Definition hraft_ErrPipelineReplicationNotSupported : error :=
  ErrVar "raft.ErrPipelineReplicationNotSupported" "pipeline replication not supported" None.

Record rpcResponse (T : Type) := MkRpcResponse {
  Response : T;
  Error_ : string;
  Retryable : bool;
}.
Arguments MkRpcResponse {_} _ _ _.
Arguments Response {_} _.
Arguments Error_ {_} _.
Arguments Retryable {_} _.

Record AddVoterRequest := { av_ServerId : string; av_ServerAddress : string; av_Timeout : Z }.
Record AddVoterResponse := { av_Index : Z }.
Record RemoveServerRequest := { rs_ServerId : string; rs_Timeout : Z }.
Record RemoveServerResponse := { rs_Index : Z }.
Record ApplyRequest := { ap_Command : slice; ap_Timeout : Z }.
Record ApplyResponse := { ap_Index : Z; ap_Response : goerr }.

Record RaftTransportConfig := { cfg_Timeout : Z; cfg_TimeoutScale : Z }.

(** The library's requests and responses, with the fields the transport
    looks at. *)
Class HraftRpc := {
  AppendEntriesRequest : Type;
  AppendEntriesResponse : Type;
  RequestVoteRequest : Type;
  RequestVoteResponse : Type;
  InstallSnapshotRequest : Type;
  InstallSnapshotResponse : Type;
  TimeoutNowRequest : Type;
  TimeoutNowResponse : Type;
  ae_Term : AppendEntriesRequest -> Z;
  ae_Addr : AppendEntriesRequest -> slice;          (* RPCHeader.Addr *)
  ae_PrevLogEntry : AppendEntriesRequest -> Z;
  ae_PrevLogTerm : AppendEntriesRequest -> Z;
  ae_Entries : AppendEntriesRequest -> nat;         (* len(req.Entries) *)
  ae_LeaderCommitIndex : AppendEntriesRequest -> Z;
  is_Size : InstallSnapshotRequest -> Z;            (* int64 *)
}.

Section Transport.
Context `{HraftRpc}.

Record installSnapshotRequestWithData := { Req : InstallSnapshotRequest; Data : slice }.

(** [hraft.RPC]: the command, with the reader of a snapshot. *)
Inductive Command :=
  | CmdAppendEntries (req : AppendEntriesRequest)
  | CmdRequestVote (req : RequestVoteRequest)
  | CmdInstallSnapshot (req : InstallSnapshotRequest) (reader : bytes)
  | CmdTimeoutNow (req : TimeoutNowRequest)
  | CmdAddVoter (req : AddVoterRequest)
  | CmdRemoveServer (req : RemoveServerRequest)
  | CmdApply (req : ApplyRequest).

(** The values an [hraft.RPCResponse] carries as its [Response]. *)
Inductive AnyResponse :=
  | RespAppendEntries (r : AppendEntriesResponse)
  | RespRequestVote (r : RequestVoteResponse)
  | RespInstallSnapshot (r : InstallSnapshotResponse)
  | RespTimeoutNow (r : TimeoutNowResponse)
  | RespAddVoter (r : AddVoterResponse)
  | RespRemoveServer (r : RemoveServerResponse)
  | RespApply (r : ApplyResponse).

Record RPCResponse := { rr_Response : option AnyResponse; rr_Error : goerr }.

(** A response type [T] of an operation: the type assertion to [*T], and the
    codecs of what is sent and of what is received. *)
Class ResponseType (T : Type) := {
  assert_response : AnyResponse -> option T;
  response_enc :: MsgPack (rpcResponse (option T));
  response_dec :: MsgPack (rpcResponse T);
}.

Context `{!MsgPack AppendEntriesRequest} `{!MsgPack RequestVoteRequest}
  `{!MsgPack installSnapshotRequestWithData} `{!MsgPack TimeoutNowRequest}
  `{!MsgPack AddVoterRequest} `{!MsgPack RemoveServerRequest} `{!MsgPack ApplyRequest}
  `{!ResponseType AppendEntriesResponse} `{!ResponseType RequestVoteResponse}
  `{!ResponseType InstallSnapshotResponse} `{!ResponseType TimeoutNowResponse}
  `{!ResponseType AddVoterResponse} `{!ResponseType RemoveServerResponse} `{!ResponseType ApplyResponse}.

(** *** State *)

Context {W : Type}.

(** The consumer of RPCs, asynchronous in the source: sends the RPC on a
    channel and waits for the response on the RPC's own channel. *)
Record RaftTransport := {
  localAddr : string;
  timeout : Z;
  timeoutScale : Z;
  shutdown : bool;     (* with it [consumeCh], [lfwChan] and [shutdownCh] are closed *)
  heartbeatFn : option (Command -> W -> RPCResponse * W);
}.

Definition NewRaftTransport (config : option RaftTransportConfig) (addr : string) : RaftTransport :=
  let config := default {| cfg_Timeout := 0; cfg_TimeoutScale := 0 |} config in
  {| localAddr := addr;
     timeout := if cfg_Timeout config <=? 0 then DefaultRpcTimeout else cfg_Timeout config;
     timeoutScale := if cfg_TimeoutScale config <=? 0 then DefaultInstallSnapshotTimeoutScale
                     else cfg_TimeoutScale config;
     shutdown := false;
     heartbeatFn := None |}.

Definition Timeout (t : RaftTransport) : Z := timeout t.
Definition LocalAddr (t : RaftTransport) : string := localAddr t.

Definition AppendEntriesPipeline (t : RaftTransport) (id target : string) : goerr :=
  Some hraft_ErrPipelineReplicationNotSupported.

Definition EncodePeer (t : RaftTransport) (id addr : string) : bytes := bytes_of_string addr.
Definition DecodePeer (t : RaftTransport) (buf : bytes) : string := string_of_bytes buf.

Definition SetHeartbeatHandler (cb : option (Command -> W -> RPCResponse * W)) (t : RaftTransport) : RaftTransport :=
  {| localAddr := localAddr t; timeout := timeout t; timeoutScale := timeoutScale t;
     shutdown := shutdown t; heartbeatFn := cb |}.

(** Closing twice is no panic: the channels are closed once. *)
Definition Close (t : RaftTransport) : RaftTransport :=
  if negb (shutdown t) then
    {| localAddr := localAddr t; timeout := timeout t; timeoutScale := timeoutScale t;
       shutdown := true; heartbeatFn := heartbeatFn t |}
  else t.

(** *** Addressing *)

Definition publicationType (t : RaftTransport) (r : rpcType) (target : string) : string :=
  match r with
  | rpcTargetedType => rpcType_string rpcTargetedType +:+ target
  | rpcLeaderForwardedType => rpcType_string rpcLeaderForwardedType
  end.

Definition subscriptionType (t : RaftTransport) (r : rpcType) : string :=
  match r with
  | rpcTargetedType => rpcType_string rpcTargetedType +:+ localAddr t
  | rpcLeaderForwardedType => rpcType_string rpcLeaderForwardedType
  end.

(** *** Sending RPCs *)

(** What comes of waiting for the result of an action. *)
Inductive Awaited :=
  | AwaitShutdown                  (* [shutdownCh] is closed *)
  | AwaitClosed (ctx_Err : goerr)  (* the context is done, so the channel closed *)
  | AwaitResult (ar : ActionResult).

(** [com.PublishAction], with the scope, and the wait for its result. *)
Variable PublishAction : Z -> Action -> string -> W -> (Awaited + error) * W.

(** The response, written to [*resp] on success. *)
Definition receive_response {T} `{!ResponseType T} (a : Awaited) : T + goerr :=
  match a with
  | AwaitShutdown => inr (Some ErrTransportShutdown)
  | AwaitClosed err => inr err
  | AwaitResult ar =>
      match DecodeMsgPack (ar_Data ar) (mp_zero : rpcResponse T) with
      | (_, Some err) => inr (Some err)
      | (res, None) =>
          if String.eqb (Error_ res) "" then inl (Response res)
          else if Retryable res then inr (RetryableErrorf (Error_ res))
          else inr (Some (ErrText (Error_ res)))
      end
  end.

Definition rpc_action (t : RaftTransport) (pubType rpcOp : string) (b : slice) : Action :=
  {| ac_Type := pubType; ac_Id := rpcOp; ac_Source := localAddr t; ac_Params := b; ac_DataContentType := "" |}.

(** [ctx] is given by its timeout. *)
Definition sendRPC {A T} `{!MsgPack A} `{!ResponseType T} (ctx : Z) (t : RaftTransport)
    (pubType rpcOp : string) (args : A) (w : W) : (T + goerr) * W :=
  match EncodeMsgPack args with
  | (_, Some err) => (inr (Some err), w)
  | (b, None) =>
      match PublishAction ctx (rpc_action t pubType rpcOp b) ScopeState w with
      | (inr err, w) => (inr (Some err), w)
      | (inl a, w) => (receive_response a, w)
      end
  end.

Definition AppendEntries (t : RaftTransport) (id target : string) (args : AppendEntriesRequest) :=
  sendRPC (T := AppendEntriesResponse) (timeout t) t (publicationType t rpcTargetedType target) rpcAppendEntries args.

Definition RequestVote (t : RaftTransport) (id target : string) (args : RequestVoteRequest) :=
  sendRPC (T := RequestVoteResponse) (timeout t) t (publicationType t rpcTargetedType target) rpcRequestVote args.

Definition TimeoutNow (t : RaftTransport) (id target : string) (args : TimeoutNowRequest) :=
  sendRPC (T := TimeoutNowResponse) (timeout t) t (publicationType t rpcTargetedType target) rpcTimeoutNow args.

(** The timeout of an InstallSnapshot operation. *)
Definition install_timeout (t : RaftTransport) (size : Z) : Z :=
  let timeout_ := int64 (timeout t * Z.quot size (timeoutScale t)) in
  if timeout_ <? timeout t then timeout t else timeout_.

(** [io.ReadAll(data)] yields the bytes or an error. *)
Definition InstallSnapshot (t : RaftTransport) (id target : string) (args : InstallSnapshotRequest)
    (data : bytes + error) (w : W) : (InstallSnapshotResponse + goerr) * W :=
  match data with
  | inr err => (inr (Some err), w)
  | inl b =>
      let req := {| Req := args; Data := Some b |} in
      sendRPC (install_timeout t (is_Size args)) t (publicationType t rpcTargetedType target) rpcInstallSnapshot req w
  end.

Definition LfwAddVoter (ctx : Z) (t : RaftTransport) (args : AddVoterRequest) :=
  sendRPC (T := AddVoterResponse) ctx t (publicationType t rpcLeaderForwardedType "") rpcAddVoter args.

Definition LfwRemoveServer (ctx : Z) (t : RaftTransport) (args : RemoveServerRequest) :=
  sendRPC (T := RemoveServerResponse) ctx t (publicationType t rpcLeaderForwardedType "") rpcRemoveServer args.

Definition LfwApply (ctx : Z) (t : RaftTransport) (args : ApplyRequest) :=
  sendRPC (T := ApplyResponse) ctx t (publicationType t rpcLeaderForwardedType "") rpcApply args.

(** *** Responding *)

Abbreviation Incoming := (ActionWithCallback (ActionResult -> W -> goerr * W)).

(** The response to be sent; a response of another type makes the assertion
    panic. *)
Definition response_of {T} `{!ResponseType T} (resp : RPCResponse) : option (rpcResponse (option T)) :=
  match rr_Error resp with
  | Some err => Some (MkRpcResponse None (Error err) (IsRetryable (Some err)))
  | None =>
      match rr_Response resp with
      | None => None
      | Some r =>
          match assert_response r with
          | None => None
          | Some x => Some (MkRpcResponse (Some x) "" false)
          end
      end
  end.

Definition sendRPCResponse (T : Type) `{!ResponseType T} (t : RaftTransport) (resp : RPCResponse) (ac : Incoming)
    : M W goerr := fun w =>
  match response_of (T := T) resp with
  | None => Panic "interface conversion"
  | Some res =>
      match EncodeMsgPack res with
      | (_, Some err) => Ret (Some err) w
      | (b, None) =>
          let '(err, w) := awc_Callback ac {| ar_Context := localAddr t; ar_Data := b;
                                              ar_DataContentType := ""; ar_SequenceNumber := 0 |} w in
          Ret err w
      end
  end.

Definition sendLfwResponse (T : Type) `{!ResponseType T} (t : RaftTransport) (resp : RPCResponse) (ac : Incoming)
    : M W goerr :=
  let rError := ErrorRetryable (rr_Error resp) in
  match rError with
  | None => sendRPCResponse T t resp ac
  | Some _ =>
      if err_eqb rError (Some hraft_ErrNotLeader) then mret None
      else if err_eqb rError (Some hraft_ErrLeadershipTransferInProgress) then sendRPCResponse T t resp ac
      else if err_eqb rError (Some hraft_ErrLeadershipLost) then sendRPCResponse T t resp ac
      else if err_eqb rError (Some hraft_ErrLeader) then sendRPCResponse T t resp ac
      else if err_eqb rError (Some hraft_ErrAbortedByRestore) then sendRPCResponse T t resp ac
      else mret rError
  end.

(** *** Handling incoming actions *)

Definition unknown_lfw (ac : Incoming) : goerr :=
  Some (ErrText ("unknown leader forwarding rpc type " +:+ ac_Id (awc_Action ac) +:+ " from " +:+ ac_Source (awc_Action ac))).
Definition unknown_rpc (ac : Incoming) : goerr :=
  Some (ErrText ("unknown rpc type " +:+ ac_Id (awc_Action ac) +:+ " from " +:+ ac_Source (awc_Action ac))).

Definition is_lfw (ac : Incoming) : bool :=
  String.eqb (ac_Type (awc_Action ac)) (rpcType_string rpcLeaderForwardedType).

(** Whether an AppendEntries request is a heartbeat. *)
Definition is_heartbeat (req : AppendEntriesRequest) : bool :=
  negb (ae_Term req =? 0) && match ae_Addr req with Some _ => true | None => false end &&
  (ae_PrevLogEntry req =? 0) && (ae_PrevLogTerm req =? 0) &&
  Nat.eqb (ae_Entries req) 0 && (ae_LeaderCommitIndex req =? 0).

(** The RPC an action is decoded to, or what [handleRpc] returns at once. *)
Inductive Decoded :=
  | Rpc (lfw heartbeat : bool) (cmd : Command)
  | Answer (m : M W goerr).

Definition decode_as (A : Type) `{!MsgPack A} (T : Type) `{!ResponseType T} (t : RaftTransport) (ac : Incoming)
    (k : A -> Decoded) : Decoded :=
  match DecodeMsgPack (ac_Params (awc_Action ac)) (mp_zero : A) with
  | (_, Some err) => Answer (sendRPCResponse T t {| rr_Response := None; rr_Error := Some err |} ac)
  | (req, None) => k req
  end.

Definition decode_rpc (t : RaftTransport) (ac : Incoming) : Decoded :=
  let id := ac_Id (awc_Action ac) in
  if is_lfw ac then
    if String.eqb id rpcAddVoter then
      decode_as AddVoterRequest AddVoterResponse t ac (fun req => Rpc true false (CmdAddVoter req))
    else if String.eqb id rpcRemoveServer then
      decode_as RemoveServerRequest RemoveServerResponse t ac (fun req => Rpc true false (CmdRemoveServer req))
    else if String.eqb id rpcApply then
      decode_as ApplyRequest ApplyResponse t ac (fun req => Rpc true false (CmdApply req))
    else Answer (mret (unknown_lfw ac))
  else
    if String.eqb id rpcAppendEntries then
      decode_as AppendEntriesRequest AppendEntriesResponse t ac
        (fun req => Rpc false (is_heartbeat req) (CmdAppendEntries req))
    else if String.eqb id rpcRequestVote then
      decode_as RequestVoteRequest RequestVoteResponse t ac (fun req => Rpc false false (CmdRequestVote req))
    else if String.eqb id rpcInstallSnapshot then
      decode_as installSnapshotRequestWithData InstallSnapshotResponse t ac
        (fun req => Rpc false false (CmdInstallSnapshot (Req req) (sl (Data req))))
    else if String.eqb id rpcTimeoutNow then
      decode_as TimeoutNowRequest TimeoutNowResponse t ac (fun req => Rpc false false (CmdTimeoutNow req))
    else Answer (mret (unknown_rpc ac)).

(** The second half of [handleRpc], after the label [RESP]. *)
Definition respond_rpc (t : RaftTransport) (ac : Incoming) (resp : RPCResponse) : M W goerr :=
  let id := ac_Id (awc_Action ac) in
  if is_lfw ac then
    if String.eqb id rpcAddVoter then sendLfwResponse AddVoterResponse t resp ac
    else if String.eqb id rpcRemoveServer then sendLfwResponse RemoveServerResponse t resp ac
    else if String.eqb id rpcApply then sendLfwResponse ApplyResponse t resp ac
    else mret (unknown_lfw ac)
  else
    if String.eqb id rpcAppendEntries then sendRPCResponse AppendEntriesResponse t resp ac
    else if String.eqb id rpcRequestVote then sendRPCResponse RequestVoteResponse t resp ac
    else if String.eqb id rpcInstallSnapshot then sendRPCResponse InstallSnapshotResponse t resp ac
    else if String.eqb id rpcTimeoutNow then sendRPCResponse TimeoutNowResponse t resp ac
    else mret (unknown_rpc ac).

(** Sending an RPC on [lfwChan] (true) or [consumeCh] (false), and receiving
    the response the consumer sends on the RPC's channel. *)
Variable consume : bool -> Command -> W -> RPCResponse * W.

Definition dispatch_rpc (t : RaftTransport) (lfw heartbeat : bool) (cmd : Command) : W -> RPCResponse * W :=
  match (if heartbeat then heartbeatFn t else None) with
  | Some fn => fn cmd
  | None => consume lfw cmd
  end.

Definition handleRpc (t : RaftTransport) (ac : Incoming) : M W goerr := fun w =>
  if is_lfw ac && String.eqb (ac_Source (awc_Action ac)) (localAddr t) then Ret None w
  else if shutdown t then Ret None w
  else
    match decode_rpc t ac with
    | Answer m => m w
    | Rpc lfw heartbeat cmd =>
        let '(resp, w) := dispatch_rpc t lfw heartbeat cmd w in
        respond_rpc t ac resp w
    end.

(** *** Receiving actions

    The goroutine [subscribeRpcs] starts receives from both subscriptions,
    handling each action concurrently, until the transport is shut down or a
    subscription's channel is closed. *)
Inductive ServeEvent :=
  | EvShutdown
  | EvNode (ac : option Incoming)   (* [None]: the channel is closed *)
  | EvLfw (ac : option Incoming).

Definition rpc_filters (t : RaftTransport) : list SubscriptionFilter :=
  [ {| sf_Scope := ScopeState; sf_Type := subscriptionType t rpcTargetedType; sf_Share := "" |};
    {| sf_Scope := ScopeState; sf_Type := subscriptionType t rpcLeaderForwardedType; sf_Share := "" |} ].

(** The actions handled. *)
Fixpoint subscribeRpcs (evs : list ServeEvent) : list Incoming :=
  match evs with
  | [] => []
  | EvShutdown :: _ => []
  | EvNode (Some ac) :: evs | EvLfw (Some ac) :: evs => ac :: subscribeRpcs evs
  | EvNode None :: _ | EvLfw None :: _ => []
  end.
End Transport.

(** ** Addressing *)

Section Addressing.
Context `{HraftRpc} {W : Type}.

(** an operation targeted at a node is published under exactly the type
    that node subscribes, and no other node does; leader forwarding
    operations are published under the one type all nodes subscribe, which no
    targeted operation uses. *)
Theorem rpc_addressing (t1 t2 t3 : RaftTransport (W := W)) :
  publicationType t1 rpcTargetedType (LocalAddr t2) = subscriptionType t2 rpcTargetedType /\
  (subscriptionType t2 rpcTargetedType = subscriptionType t3 rpcTargetedType -> LocalAddr t2 = LocalAddr t3) /\
  (forall target, publicationType t1 rpcLeaderForwardedType target = subscriptionType t2 rpcLeaderForwardedType) /\
  (forall target, publicationType t1 rpcTargetedType target <> subscriptionType t2 rpcLeaderForwardedType) /\
  DecodePeer t1 (EncodePeer t1 "" (LocalAddr t2)) = LocalAddr t2.
Proof.
  split_and!; try done.
  - unfold subscriptionType. intros E. by injection E.
  - apply string_bytes_string.
Qed.
End Addressing.

(** ** An exchange of a request and its response *)

Section Exchange.
Context `{HraftRpc}.
Context `{EAE : !MsgPack AppendEntriesRequest} `{ERV : !MsgPack RequestVoteRequest}
  `{EIS : !MsgPack installSnapshotRequestWithData} `{ETN : !MsgPack TimeoutNowRequest}
  `{EAV : !MsgPack AddVoterRequest} `{ERS : !MsgPack RemoveServerRequest} `{EAP : !MsgPack ApplyRequest}
  `{RAE : !ResponseType AppendEntriesResponse} `{RRV : !ResponseType RequestVoteResponse}
  `{RIS : !ResponseType InstallSnapshotResponse} `{RTN : !ResponseType TimeoutNowResponse}
  `{RAV : !ResponseType AddVoterResponse} `{RRS : !ResponseType RemoveServerResponse} `{RAP : !ResponseType ApplyResponse}.
Context {W : Type}.
Variable consume : bool -> Command -> W -> RPCResponse * W.

(** The operations: request and response type, id, whether it is forwarded to
    the leader, and the command it becomes. *)
Record Operation := {
  o_Request : Type;
  o_Response : Type;
  o_codec : MsgPack o_Request;
  o_response : ResponseType o_Response;
  o_id : string;
  o_lfw : bool;
  o_cmd : o_Request -> Command;
  o_heartbeat : o_Request -> bool;
}.

Definition op_AppendEntries : Operation :=
  {| o_codec := EAE; o_response := RAE; o_id := rpcAppendEntries; o_lfw := false;
     o_cmd := CmdAppendEntries; o_heartbeat := is_heartbeat |}.
Definition op_RequestVote : Operation :=
  {| o_codec := ERV; o_response := RRV; o_id := rpcRequestVote; o_lfw := false;
     o_cmd := CmdRequestVote; o_heartbeat := fun _ => false |}.
Definition op_InstallSnapshot : Operation :=
  {| o_codec := EIS; o_response := RIS; o_id := rpcInstallSnapshot; o_lfw := false;
     o_cmd := fun r => CmdInstallSnapshot (Req r) (sl (Data r)); o_heartbeat := fun _ => false |}.
Definition op_TimeoutNow : Operation :=
  {| o_codec := ETN; o_response := RTN; o_id := rpcTimeoutNow; o_lfw := false;
     o_cmd := CmdTimeoutNow; o_heartbeat := fun _ => false |}.
Definition op_AddVoter : Operation :=
  {| o_codec := EAV; o_response := RAV; o_id := rpcAddVoter; o_lfw := true;
     o_cmd := CmdAddVoter; o_heartbeat := fun _ => false |}.
Definition op_RemoveServer : Operation :=
  {| o_codec := ERS; o_response := RRS; o_id := rpcRemoveServer; o_lfw := true;
     o_cmd := CmdRemoveServer; o_heartbeat := fun _ => false |}.
Definition op_Apply : Operation :=
  {| o_codec := EAP; o_response := RAP; o_id := rpcApply; o_lfw := true;
     o_cmd := CmdApply; o_heartbeat := fun _ => false |}.

Inductive operation : Operation -> Prop :=
  | is_AppendEntries : operation op_AppendEntries
  | is_RequestVote : operation op_RequestVote
  | is_InstallSnapshot : operation op_InstallSnapshot
  | is_TimeoutNow : operation op_TimeoutNow
  | is_AddVoter : operation op_AddVoter
  | is_RemoveServer : operation op_RemoveServer
  | is_Apply : operation op_Apply.

Definition op_type (t : RaftTransport (W := W)) (o : Operation) (target : string) : string :=
  publicationType t (if o_lfw o then rpcLeaderForwardedType else rpcTargetedType) target.

(** The action an operation's request is published as. *)
Definition op_action (t : RaftTransport (W := W)) (o : Operation) (target : string) (b : slice) : Action :=
  rpc_action t (op_type t o target) (o_id o) b.

Lemma action_is_lfw t o target b cb :
  is_lfw (W := W) {| awc_Action := op_action t o target b; awc_Callback := cb |} = o_lfw o.
Proof. unfold is_lfw, op_action, op_type. simpl. by destruct (o_lfw o). Qed.

Lemma decode_operation o (t1 t2 : RaftTransport (W := W)) target b (cb : ActionResult -> W -> goerr * W) req :
  operation o -> @DecodeMsgPack _ (o_codec o) b (@mp_zero _ (o_codec o)) = (req, None) ->
  decode_rpc (W := W) t2 {| awc_Action := op_action t1 o target b; awc_Callback := cb |} =
  Rpc (o_lfw o) (o_heartbeat o req) (o_cmd o req).
Proof.
  intros Ho Hd. unfold decode_rpc. rewrite action_is_lfw.
  destruct Ho; simpl in *; unfold decode_as; simpl; by rewrite Hd.
Qed.

Lemma respond_operation o (t1 t2 : RaftTransport (W := W)) target b (cb : ActionResult -> W -> goerr * W) resp :
  operation o ->
  respond_rpc t2 {| awc_Action := op_action t1 o target b; awc_Callback := cb |} resp =
  (if o_lfw o then @sendLfwResponse _ W _ (o_response o) t2 resp {| awc_Action := op_action t1 o target b; awc_Callback := cb |}
   else @sendRPCResponse _ W _ (o_response o) t2 resp {| awc_Action := op_action t1 o target b; awc_Callback := cb |}).
Proof. intros Ho. unfold respond_rpc. rewrite action_is_lfw. by destruct Ho. Qed.

(** What handling the action of an operation's request comes to. *)
Lemma handle_operation o (t1 t2 : RaftTransport (W := W)) target b (cb : ActionResult -> W -> goerr * W) req w :
  operation o -> @DecodeMsgPack _ (o_codec o) b (@mp_zero _ (o_codec o)) = (req, None) ->
  handleRpc consume t2 {| awc_Action := op_action t1 o target b; awc_Callback := cb |} w =
  (if o_lfw o && String.eqb (LocalAddr t1) (LocalAddr t2) then Ret None w
   else if shutdown t2 then Ret None w
   else
     let '(resp, w) := dispatch_rpc consume t2 (o_lfw o) (o_heartbeat o req) (o_cmd o req) w in
     (if o_lfw o then @sendLfwResponse _ W _ (o_response o) else @sendRPCResponse _ W _ (o_response o))
       t2 resp {| awc_Action := op_action t1 o target b; awc_Callback := cb |} w).
Proof.
  intros Ho Hd. unfold handleRpc. rewrite action_is_lfw. simpl.
  destruct (o_lfw o && String.eqb (localAddr t1) (localAddr t2)) eqn:E1; unfold LocalAddr; rewrite E1; [done|].
  destruct (shutdown t2); [done|].
  rewrite (decode_operation o t1 t2 target b cb req Ho Hd).
  destruct (dispatch_rpc _ _ _ _ _ _) as [resp w']. rewrite respond_operation by done. by destruct (o_lfw o).
Qed.

(** The errors a leader forwarding operation responds with: those that safely
    originate from the leader. *)
Definition leader_errors : list error :=
  [hraft_ErrLeadershipTransferInProgress; hraft_ErrLeadershipLost; hraft_ErrLeader; hraft_ErrAbortedByRestore].

Definition answered (lfw : bool) (resp : RPCResponse) : bool :=
  negb lfw ||
  match ErrorRetryable (rr_Error resp) with
  | None => true
  | Some e => existsb (fun e' => err_eqb (Some e) (Some e')) leader_errors
  end.

(** What [handleRpc] returns for an error it does not respond with. *)
Definition kept_back (e : error) : goerr := if err_eqb (Some e) (Some hraft_ErrNotLeader) then None else Some e.

Lemma not_leader_not_answered e :
  err_eqb (Some e) (Some hraft_ErrNotLeader) = true -> existsb (fun e' => err_eqb (Some e) (Some e')) leader_errors = false.
Proof.
  unfold err_eqb. destruct e; intros E; try discriminate E.
  apply String.eqb_eq in E. subst. reflexivity.
Qed.

(** A response to a forwarded request is sent like any other, or an error is
    kept back. *)
Lemma sendLfwResponse_answered {T} `{!ResponseType T} t resp (ac : ActionWithCallback (ActionResult -> W -> goerr * W)) :
  if answered true resp then sendLfwResponse T t resp ac = sendRPCResponse T t resp ac
  else exists e, ErrorRetryable (rr_Error resp) = Some e /\ forall w, sendLfwResponse T t resp ac w = Ret (kept_back e) w.
Proof.
  unfold answered, sendLfwResponse, kept_back. simpl. destruct (ErrorRetryable (rr_Error resp)) as [e|] eqn:E; [|done].
  destruct (err_eqb (Some e) (Some hraft_ErrNotLeader)) eqn:En.
  { pose proof (not_leader_not_answered e En) as Hno. unfold leader_errors in Hno. simpl in Hno. rewrite Hno. exists e. by rewrite En. }
  repeat (case_match; simpl; try done). exists e. by rewrite En.
Qed.

Lemma sendLfwResponse_cases T `{!ResponseType T} t resp :
  (exists e, forall (ac : ActionWithCallback (ActionResult -> W -> goerr * W)) w, sendLfwResponse T t resp ac w = Ret e w) \/
  (forall (ac : ActionWithCallback (ActionResult -> W -> goerr * W)) w,
     sendLfwResponse T t resp ac w = sendRPCResponse T t resp ac w).
Proof.
  unfold sendLfwResponse, mret. destruct (ErrorRetryable (rr_Error resp)); [|by right].
  repeat (case_match; [by eauto|]). by eauto.
Qed.

(** What the library promises for a response of the [good] ones, or an error:
    it is encoded, and decoding the result gives its error and flag, and its
    response if there is one. *)
Class ResponseLaws (T : Type) `{!ResponseType T} (good : T -> Prop) (rel : T -> T -> Prop) := {
  response_roundtrip : forall r : rpcResponse (option T), (forall x, Response r = Some x -> good x) -> exists b r',
    mp_encode r = (Some b, None) /\ mp_decode b (mp_zero : rpcResponse T) = (r', None) /\
    Error_ r' = Error_ r /\ Retryable r' = Retryable r /\
    forall x, Response r = Some x -> rel x (Response r');
}.

(** What the requesting node gets for a response: the response up to [rel],
    or an error with the same text that is retryable if the original is. *)
Definition outcome {T} `{!ResponseType T} (rel : T -> T -> Prop) (resp : RPCResponse) (r : T + goerr) : Prop :=
  match rr_Error resp with
  | None => exists a x x', rr_Response resp = Some a /\ assert_response a = Some x /\ r = inl x' /\ rel x x'
  | Some e => if IsRetryable (Some e) then r = inr (RetryableErrorf (Error e)) else r = inr (Some (ErrText (Error e)))
  end.

(** A response the node may give: one of the right type that the codec
    carries, or an error with a text. *)
Definition proper {T} `{!ResponseType T} (good : T -> Prop) (resp : RPCResponse) : Prop :=
  match rr_Error resp with
  | None => exists a x, rr_Response resp = Some a /\ assert_response a = Some x /\ good x
  | Some e => Error e <> ""
  end.

Lemma response_sent {T} `{!ResponseType T} (good : T -> Prop) (rel : T -> T -> Prop) `{!ResponseLaws T good rel} t resp :
  proper good resp -> exists ar, ar_SequenceNumber ar = 0 /\
    (forall (ac : ActionWithCallback (ActionResult -> W -> goerr * W)) w,
      sendRPCResponse T t resp ac w = (let '(err, w') := awc_Callback ac ar w in Ret err w')) /\
    outcome rel resp (receive_response (T := T) (AwaitResult ar)).
Proof.
  intros Hp. unfold sendRPCResponse, response_of, outcome, proper in *.
  destruct (rr_Error resp) as [e|] eqn:Ee.
  - destruct (response_roundtrip (MkRpcResponse (T := option T) None (Error e) (IsRetryable (Some e))) ltac:(done))
      as (b & r' & He & Hd & Herr & Hret & _).
    unfold EncodeMsgPack. rewrite He. eexists. split_and!; [|done|]; [done|].
    unfold receive_response, DecodeMsgPack. cbn [ar_Data sl default from_option]. unfold sl. simpl.
    rewrite Hd, Herr, Hret. simpl. destruct (String.eqb_spec (Error e) ""); [done|].
    by destruct e as [|i m [[]|]|].
  - destruct Hp as (a & x & Ha & Hx & Hg). rewrite Ha, Hx.
    destruct (response_roundtrip (MkRpcResponse (Some x) "" false) ltac:(by intros ? [= <-])) as (b & r' & He & Hd & Herr & Hret & Hrel).
    unfold EncodeMsgPack. rewrite He. eexists. split_and!; [|done|]; [done|].
    unfold receive_response, DecodeMsgPack. unfold sl. simpl. rewrite Hd, Herr. simpl.
    exists a, x, (Response r'). split_and!; [done|done|done|]. by apply Hrel.
Qed.

(** Handling the request of an operation, with whatever callback, publishes
    one result, from which the other side gets the outcome, or keeps an error
    back. *)
Lemma handle_answered (o : Operation) (goodr : o_Response o -> Prop) (relr : o_Response o -> o_Response o -> Prop)
    {RL : @ResponseLaws (o_Response o) (o_response o) goodr relr} t1 t2 target b args' w resp w' :
  operation o -> @DecodeMsgPack _ (o_codec o) b (@mp_zero _ (o_codec o)) = (args', None) ->
  shutdown t2 = false -> LocalAddr t1 <> LocalAddr t2 ->
  dispatch_rpc consume t2 (o_lfw o) (o_heartbeat o args') (o_cmd o args') w = (resp, w') ->
  @proper _ (o_response o) goodr resp ->
  if answered (o_lfw o) resp then
    exists ar, ar_SequenceNumber ar = 0 /\
      (forall cb, handleRpc consume t2 {| awc_Action := op_action t1 o target b; awc_Callback := cb |} w =
         (let '(err, w2) := cb ar w' in Ret err w2)) /\
      @outcome _ (o_response o) relr resp (@receive_response _ _ (o_response o) (AwaitResult ar))
  else
    exists e, ErrorRetryable (rr_Error resp) = Some e /\
      forall cb, handleRpc consume t2 {| awc_Action := op_action t1 o target b; awc_Callback := cb |} w = Ret (kept_back e) w'.
Proof.
  intros Ho Hd Hs Hne Hdisp Hp.
  assert (Hh : forall cb, handleRpc consume t2 {| awc_Action := op_action t1 o target b; awc_Callback := cb |} w =
    (if o_lfw o then @sendLfwResponse _ W _ (o_response o) else @sendRPCResponse _ W _ (o_response o))
      t2 resp {| awc_Action := op_action t1 o target b; awc_Callback := cb |} w').
  { intros cb. rewrite (handle_operation o t1 t2 target b cb args' w Ho Hd), (proj2 (String.eqb_neq _ _) Hne).
    by rewrite andb_false_r, Hs, Hdisp. }
  destruct (@response_sent _ (o_response o) goodr relr RL t2 resp Hp) as (ar & Hseq & Har & Hout).
  destruct (o_lfw o); [|exists ar; split_and!; [done| |done]; intros cb; rewrite Hh; apply Har].
  assert (Hl := fun cb => @sendLfwResponse_answered _ (o_response o) t2 resp
    {| awc_Action := op_action t1 o target b; awc_Callback := cb |}).
  destruct (answered true resp).
  - exists ar. split_and!; [done| |done]. intros cb. rewrite Hh, Hl. apply Har.
  - destruct (Hl (fun _ w => (None, w))) as (e & He & _). exists e. split; [done|]. intros cb. rewrite Hh.
    destruct (Hl cb) as (e' & He' & Hr). rewrite Hr. by simplify_eq.
Qed.

(** C17: a remote operation reaches the other node and what that node
    responds comes back.  For each of the seven operations: the request is
    encoded into one action; the node that handles this action gives its
    consumer (the heartbeat handler for heartbeats) the command with the
    request sent.  If the consumer gives a response the codec carries, or,
    for an operation targeted at the node, any error, or, for one forwarded to
    the leader, an error of those that safely originate from the leader, then
    the node publishes one result; from it the requesting node obtains the
    response, or an error with the text of the consumer's error, retryable
    exactly if that is; and this is what [sendRPC] returns if it publishes
    the action and gets this result.  Any other error of a forwarded
    operation is kept back: nothing is published, and [handleRpc] returns it,
    or nil if it says that the node is not the leader. *)
Theorem rpc_exchange (o : Operation) (relq : o_Request o -> o_Request o -> Prop) (good : o_Request o -> Prop)
    (goodr : o_Response o -> Prop) (relr : o_Response o -> o_Response o -> Prop)
    {ML : @MsgPackLaws (o_Request o) (o_codec o) good relq}
    {RL : @ResponseLaws (o_Response o) (o_response o) goodr relr}
    (t1 t2 : RaftTransport (W := W)) (target : string) (args : o_Request o) (w : W) :
  operation o -> good args -> shutdown t2 = false -> LocalAddr t1 <> LocalAddr t2 ->
  exists b args', @EncodeMsgPack _ (o_codec o) args = (Some b, None) /\ relq args args' /\
    forall resp w', dispatch_rpc consume t2 (o_lfw o) (o_heartbeat o args') (o_cmd o args') w = (resp, w') ->
      @proper _ (o_response o) goodr resp ->
      if answered (o_lfw o) resp then
        exists ar,
          (forall cb, handleRpc consume t2 {| awc_Action := op_action t1 o target (Some b); awc_Callback := cb |} w =
            (let '(err, w2) := cb ar w' in Ret err w2)) /\
          forall (PublishAction : Z -> Action -> string -> W -> (Awaited + error) * W) ctx v v',
            PublishAction ctx (op_action t1 o target (Some b)) ScopeState v = (inl (AwaitResult ar), v') ->
            exists r, @sendRPC _ W PublishAction _ _ (o_codec o) (o_response o) ctx t1 (op_type t1 o target) (o_id o) args v =
              (r, v') /\ @outcome _ (o_response o) relr resp r
      else
        exists e, ErrorRetryable (rr_Error resp) = Some e /\
          forall cb, handleRpc consume t2 {| awc_Action := op_action t1 o target (Some b); awc_Callback := cb |} w =
            Ret (kept_back e) w'.
Proof.
  intros Ho Hg Hs Hne. destruct (@mp_roundtrip _ (o_codec o) good relq ML args Hg) as (b & args' & He & Hd & Hrel).
  exists b, args'. split_and!; [done|done|]. intros resp w' Hdisp Hp.
  pose proof (handle_answered o goodr relr t1 t2 target (Some b) args' w resp w' Ho Hd Hs Hne Hdisp Hp) as Ha.
  destruct (answered (o_lfw o) resp); [|exact Ha].
  destruct Ha as (ar & _ & Har & Hout). exists ar. split; [exact Har|].
  intros PublishAction ctx v v' Hpub. eexists. split; [|exact Hout]. unfold sendRPC.
  unfold EncodeMsgPack in *. rewrite He.
  change (rpc_action t1 (op_type t1 o target) (o_id o) (Some b)) with (op_action t1 o target (Some b)).
  by rewrite Hpub.
Qed.

(** C39: when a node keeps silent.  It ignores a leader forwarding request of
    its own, and every action once its transport is shut down; a leader
    forwarding request whose consumer reports that the node is not the leader
    is not answered, nor is one that failed with an error that may not stem
    from the leader, which is returned instead.  In none of these cases is
    the callback called. *)
Theorem rpc_silent (o : Operation) (t1 t2 : RaftTransport (W := W)) (target : string) (b : slice)
    (cb : ActionResult -> W -> goerr * W) (w : W) :
  operation o ->
  let ac := {| awc_Action := op_action t1 o target b; awc_Callback := cb |} in
  (shutdown t2 = true -> handleRpc consume t2 ac w = Ret None w) /\
  (o_lfw o = true -> LocalAddr t1 = LocalAddr t2 -> handleRpc consume t2 ac w = Ret None w) /\
  (forall req resp w' e, o_lfw o = true -> shutdown t2 = false -> LocalAddr t1 <> LocalAddr t2 ->
     @DecodeMsgPack _ (o_codec o) b (@mp_zero _ (o_codec o)) = (req, None) ->
     dispatch_rpc consume t2 true (o_heartbeat o req) (o_cmd o req) w = (resp, w') ->
     ErrorRetryable (rr_Error resp) = Some e -> (forall e', e' ∈ leader_errors -> err_eqb (Some e) (Some e') = false) ->
     handleRpc consume t2 ac w = Ret (if err_eqb (Some e) (Some hraft_ErrNotLeader) then None else Some e) w').
Proof.
  intros Ho ac. unfold handleRpc. split_and!.
  - intros ->. by destruct (_ && _).
  - intros Hl E. unfold ac. rewrite action_is_lfw, Hl. simpl. unfold LocalAddr in E. by rewrite E, String.eqb_refl.
  - intros req resp w' e Hl Hs Hne Hd Hdisp He Hnot.
    pose proof (handle_operation o t1 t2 target b cb req w Ho Hd) as Hh.
    rewrite (proj2 (String.eqb_neq _ _) Hne), andb_false_r, Hs, Hl, Hdisp in Hh. unfold handleRpc in Hh. rewrite Hs in Hh.
    unfold ac. rewrite Hs, Hh. unfold sendLfwResponse. rewrite He.
    rewrite (Hnot hraft_ErrLeadershipTransferInProgress), (Hnot hraft_ErrLeadershipLost), (Hnot hraft_ErrLeader),
      (Hnot hraft_ErrAbortedByRestore) by (unfold leader_errors; set_solver).
    by destruct (err_eqb (Some e) (Some hraft_ErrNotLeader)).
Qed.
End Exchange.

(** ** Timeouts *)

Section Timeouts.
Context `{HraftRpc} {W : Type}.

(** the timeout of a snapshot's installation is never below the
    transport's, for whatever size, even if the multiplication overflows; it
    grows with the size where it does not; and the transport's timeout and
    scale are positive however it was configured. *)
Theorem install_timeout_bounds (config : option RaftTransportConfig) (addr : string) (size : Z) :
  let t := NewRaftTransport (W := W) config addr in
  (forall c, config = Some c -> in_sint 64 (cfg_Timeout c)) ->
  0 < timeout t /\ 0 < timeoutScale t /\
  timeout t <= install_timeout t size <= MaxInt64 /\
  (0 <= size -> timeout t * (size / timeoutScale t) <= MaxInt64 ->
   install_timeout t size = Z.max (timeout t) (timeout t * (size / timeoutScale t))).
Proof.
  intros t Hc. assert (0 < timeout t <= MaxInt64 /\ 0 < timeoutScale t) as [Ht Hs].
  { unfold t, NewRaftTransport, DefaultRpcTimeout, DefaultInstallSnapshotTimeoutScale, Millisecond. simpl.
    destruct config as [c|]; simpl; [|lia]. specialize (Hc c eq_refl). unfold in_sint in Hc.
    destruct (Z.leb_spec (cfg_Timeout c) 0), (Z.leb_spec (cfg_TimeoutScale c) 0); lia. }
  split_and!; [lia|lia|..].
  - unfold install_timeout. destruct (Z.ltb_spec (int64 (timeout t * Z.quot size (timeoutScale t))) (timeout t)); lia.
  - unfold install_timeout. pose proof (swrap_range 64 (timeout t * Z.quot size (timeoutScale t)) ltac:(lia)) as Hr.
    unfold in_sint in Hr.
    destruct (Z.ltb_spec (int64 (timeout t * Z.quot size (timeoutScale t))) (timeout t)); lia.
  - intros Hsz Hfit. unfold install_timeout. rewrite Z.quot_div_nonneg by lia.
    assert (0 <= size / timeoutScale t) by (apply Z.div_pos; lia).
    rewrite swrap_id; [|lia|unfold in_sint; nia].
    destruct (Z.ltb_spec (timeout t * (size / timeoutScale t)) (timeout t)); lia.
Qed.
End Timeouts.

(** ** Concrete runs

    A Raft library whose types are numbers, codecs by way of countable types,
    and a node that answers every RPC with the number of RPCs it consumed. *)

Module Run.
Definition ix := 7.

#[export] Instance rpc_types : HraftRpc :=
  {| AppendEntriesRequest := Z * slice; AppendEntriesResponse := Z;
     RequestVoteRequest := Z; RequestVoteResponse := bool;
     InstallSnapshotRequest := Z; InstallSnapshotResponse := Z * bool;
     TimeoutNowRequest := unit; TimeoutNowResponse := unit;
     ae_Term := fst; ae_Addr := snd; ae_PrevLogEntry := fun _ => 0; ae_PrevLogTerm := fun _ => 0;
     ae_Entries := fun _ => 0%nat; ae_LeaderCommitIndex := fun _ => 0; is_Size := fun n => n |}.

#[export] Instance append_codec : MsgPack AppendEntriesRequest := BitCodec.codec ((0, None) : Z * slice).
#[export] Instance vote_codec : MsgPack RequestVoteRequest := BitCodec.codec (0 : Z).
#[export] Instance install_codec : MsgPack installSnapshotRequestWithData :=
  BitCodec.codec_via (B := Z * slice) (fun r => (Req r, Data r)) (fun p => {| Req := p.1 : InstallSnapshotRequest; Data := p.2 |})
    {| Req := (0 : Z) : InstallSnapshotRequest; Data := None |}.
#[export] Instance timeout_codec : MsgPack TimeoutNowRequest := BitCodec.codec tt.
#[export] Instance voter_codec : MsgPack AddVoterRequest :=
  BitCodec.codec_via (fun r => (av_ServerId r, av_ServerAddress r, av_Timeout r))
    (fun p => {| av_ServerId := p.1.1; av_ServerAddress := p.1.2; av_Timeout := p.2 |})
    {| av_ServerId := ""; av_ServerAddress := ""; av_Timeout := 0 |}.
#[export] Instance remove_codec : MsgPack RemoveServerRequest :=
  BitCodec.codec_via (fun r => (rs_ServerId r, rs_Timeout r)) (fun p => {| rs_ServerId := p.1; rs_Timeout := p.2 |})
    {| rs_ServerId := ""; rs_Timeout := 0 |}.
#[export] Instance apply_codec : MsgPack ApplyRequest :=
  BitCodec.codec_via (fun r => (ap_Command r, ap_Timeout r)) (fun p => {| ap_Command := p.1; ap_Timeout := p.2 |})
    {| ap_Command := None; ap_Timeout := 0 |}.

(** A response type by way of a countable type. *)
Definition response {T B} `{Countable B} (as_T : AnyResponse -> option T) (to : T -> B) (from : B -> T) (z : T) :
    ResponseType T :=
  {| assert_response := as_T;
     response_enc := BitCodec.codec_via (fun r => (to <$> Response r, Error_ r, Retryable r))
       (fun p => MkRpcResponse (from <$> p.1.1) p.1.2 p.2) (MkRpcResponse None "" false);
     response_dec := BitCodec.codec_via (fun r => (Some (to (Response r)), Error_ r, Retryable r))
       (fun p => MkRpcResponse (from_option from z p.1.1) p.1.2 p.2) (MkRpcResponse z "" false) |}.

Lemma response_laws {T B} `{Countable B} (as_T : AnyResponse -> option T) (to : T -> B) (from : B -> T) (z : T)
    (good : T -> Prop) (rel : T -> T -> Prop) :
  (forall x, good x -> rel x (from (to x))) -> @ResponseLaws _ T (response as_T to from z) good rel.
Proof.
  intros Hrel. split. intros r Hg.
  eexists _, (MkRpcResponse (from_option from z (to <$> Response r)) (Error_ r) (Retryable r)).
  split_and!; [reflexivity| |done|done|].
  - simpl. by rewrite BitCodec.of_bits_bits, decode_encode.
  - intros x Hx. simpl. rewrite Hx. by apply Hrel, Hg.
Qed.

#[export] Instance append_response : ResponseType AppendEntriesResponse :=
  response (fun r => match r with RespAppendEntries x => Some x | _ => None end) (fun x : Z => x) (fun x => x) 0.
#[export] Instance vote_response : ResponseType RequestVoteResponse :=
  response (fun r => match r with RespRequestVote x => Some x | _ => None end) (fun x : bool => x) (fun x => x) false.
#[export] Instance install_response : ResponseType InstallSnapshotResponse :=
  response (fun r => match r with RespInstallSnapshot x => Some x | _ => None end) (fun x : Z * bool => x) (fun x => x) (0, false).
#[export] Instance timeout_response : ResponseType TimeoutNowResponse :=
  response (fun r => match r with RespTimeoutNow x => Some x | _ => None end) (fun x : unit => x) (fun x => x) tt.
#[export] Instance voter_response : ResponseType AddVoterResponse :=
  response (fun r => match r with RespAddVoter x => Some x | _ => None end) av_Index (fun i => {| av_Index := i |}) {| av_Index := 0 |}.
#[export] Instance remove_response : ResponseType RemoveServerResponse :=
  response (fun r => match r with RespRemoveServer x => Some x | _ => None end) rs_Index (fun i => {| rs_Index := i |}) {| rs_Index := 0 |}.
#[export] Instance apply_response : ResponseType ApplyResponse :=
  response (fun r => match r with RespApply x => Some x | _ => None end) ap_Index
    (fun i => {| ap_Index := i; ap_Response := None |}) {| ap_Index := 0; ap_Response := None |}.

Definition consume (lfw : bool) (cmd : Command) (n : nat) : RPCResponse * nat :=
  (match cmd with
   | CmdApply r => if (ap_Timeout r <=? 0) then {| rr_Response := None; rr_Error := Some hraft_ErrNotLeader |}
                   else {| rr_Response := Some (RespApply {| ap_Index := ix; ap_Response := None |}); rr_Error := None |}
   | _ => {| rr_Response := None; rr_Error := Some (ErrText "unexpected") |}
   end, S n).

Definition ta : RaftTransport (W := nat) := NewRaftTransport None "a".
Definition tb : RaftTransport (W := nat) := NewRaftTransport None "b".
End Run.
Import Run.

Lemma rpc_exchange_witness :
  (exists b, exists ar,
    (forall cb, handleRpc consume tb {| awc_Action := op_action ta op_Apply "" (Some b); awc_Callback := cb |} 0%nat =
      (let '(err, w2) := cb ar 1%nat in Ret err w2)) /\
    sendRPC (T := ApplyResponse) (fun _ _ _ w => (inl (AwaitResult ar), w)) 5 ta "lfw" "ap"
        {| ap_Command := Some [zero]; ap_Timeout := 5 |} 0%nat = (inl {| ap_Index := 7; ap_Response := None |}, 0%nat)) /\
  (exists b, forall cb,
    handleRpc consume tb {| awc_Action := op_action ta op_Apply "" (Some b); awc_Callback := cb |} 0%nat = Ret None 1%nat).
Proof.
  assert (ML : @MsgPackLaws ApplyRequest apply_codec (fun _ => True) eq) by (apply BitCodec.codec_via_laws; by intros []).
  assert (RL : @ResponseLaws rpc_types ApplyResponse apply_response (fun x => ap_Response x = None) eq)
    by (apply response_laws; by intros [? ?] [= ->]).
  pose proof (fun args => @rpc_exchange rpc_types append_codec vote_codec install_codec timeout_codec
     voter_codec remove_codec apply_codec append_response vote_response install_response
     timeout_response voter_response remove_response apply_response nat consume op_Apply eq (fun _ => True)
     (fun x => ap_Response x = None) eq ML RL ta tb "" args 0%nat (is_Apply) I eq_refl ltac:(discriminate)) as Hex.
  split.
  - destruct (Hex {| ap_Command := Some [zero]; ap_Timeout := 5 |}) as (b & args' & He & <- & Hx). exists b.
    specialize (Hx _ _ eq_refl). destruct Hx as (ar & Har & Hsend); [by eexists _, _|]. exists ar. split; [exact Har|].
    destruct (Hsend (fun _ _ _ w => (inl (AwaitResult ar), w)) 5 0%nat 0%nat eq_refl) as (r & Hr & a & x & x' & Ha & Hx' & -> & Hi).
    etransitivity; [exact Hr|]. injection Ha as <-. injection Hx' as <-. by rewrite <- Hi.
  - destruct (Hex {| ap_Command := None; ap_Timeout := 0 |}) as (b & args' & He & <- & Hx). exists b.
    specialize (Hx _ _ eq_refl ltac:(discriminate)). destruct Hx as (e & He' & Hr). injection He' as <-. exact Hr.
Defined.

Lemma rpc_silent_witness :
  handleRpc consume (Close tb) {| awc_Action := op_action ta op_Apply "" None; awc_Callback := fun _ w => (None, S w) |} 0%nat
    = Ret None 0%nat /\
  handleRpc consume ta {| awc_Action := op_action ta op_Apply "" None; awc_Callback := fun _ w => (None, S w) |} 0%nat
    = Ret None 0%nat /\
  handleRpc consume tb {| awc_Action := op_action ta op_Apply ""
    (EncodeMsgPack (A := ApplyRequest) {| ap_Command := None; ap_Timeout := 0 |}).1;
    awc_Callback := fun _ w => (None, S w) |} 0%nat = Ret None 1%nat.
Proof.
  pose (cb := fun (_ : ActionResult) (w : nat) => (None : goerr, S w)).
  pose (b := (EncodeMsgPack (A := ApplyRequest) {| ap_Command := None; ap_Timeout := 0 |}).1).
  split_and!.
  - exact (proj1 (rpc_silent consume op_Apply ta (Close tb) "" None cb 0%nat (is_Apply)) eq_refl).
  - exact (proj1 (proj2 (rpc_silent consume op_Apply ta ta "" None cb 0%nat (is_Apply))) eq_refl eq_refl).
  - refine (proj2 (proj2 (rpc_silent consume op_Apply ta tb "" b cb 0%nat (is_Apply)))
      {| ap_Command := None; ap_Timeout := 0 |} {| rr_Response := None; rr_Error := Some hraft_ErrNotLeader |} 1%nat
      hraft_ErrNotLeader eq_refl eq_refl _ _ _ eq_refl _); [done|by_vm|by_vm|].
    unfold leader_errors. intros e' He. rewrite !elem_of_cons, elem_of_nil in He.
    by destruct He as [H1|[H1|[H1|[H1|[]]]]]; rewrite H1.
Defined.

Lemma rpc_addressing_witness :
  publicationType ta rpcTargetedType "b" = subscriptionType tb rpcTargetedType /\
  publicationType ta rpcTargetedType "lfw" <> subscriptionType tb rpcLeaderForwardedType.
Proof.
  destruct (rpc_addressing ta tb ta) as (H1 & _ & _ & H4 & _). split; [exact H1|apply H4].
Defined.

Lemma install_timeout_bounds_witness :
  install_timeout tb (3 * 256 * 1024 + 5) = 3 * DefaultRpcTimeout /\
  DefaultRpcTimeout <= install_timeout tb (2 ^ 62).
Proof.
  destruct (install_timeout_bounds (W := nat) None "b" (3 * 256 * 1024 + 5) ltac:(done)) as (_ & _ & _ & H).
  destruct (install_timeout_bounds (W := nat) None "b" (2 ^ 62) ltac:(done)) as (_ & _ & [H' _] & _).
  split; [|exact H'].
  unfold tb. rewrite H; [by_vm|lia|]. vm_compute. discriminate.
Defined.
