(* ===== verification/RaftOverMqtt.v ===== *)
(** * Raft's remote operations over MQTT
      ([services/state/raft/transport.go] on [services/com/mqtt5/mqtt5.go])

    The transport is verified against an arbitrary communication service, the
    MQTT binding for arbitrary actions.  Here they are put together: the
    world the transport's operations run in is an MQTT binding next to the
    state of the Raft node, and the callback of an action is the one the
    binding made for it. *)

From S2P Require Import Prelude GoRuntime GoStrings Services StateApi ComApi Config Router Mqtt5 Transport.

Section RaftOverMqtt.
Context `{PahoLaws} `{HraftRpc}.
Context `{EAE : !MsgPack AppendEntriesRequest} `{ERV : !MsgPack RequestVoteRequest}
  `{EIS : !MsgPack installSnapshotRequestWithData} `{ETN : !MsgPack TimeoutNowRequest}
  `{EAV : !MsgPack AddVoterRequest} `{ERS : !MsgPack RemoveServerRequest} `{EAP : !MsgPack ApplyRequest}
  `{RAE : !ResponseType AppendEntriesResponse} `{RRV : !ResponseType RequestVoteResponse}
  `{RIS : !ResponseType InstallSnapshotResponse} `{RTN : !ResponseType TimeoutNowResponse}
  `{RAV : !ResponseType AddVoterResponse} `{RRS : !ResponseType RemoveServerResponse} `{RAP : !ResponseType ApplyResponse}.

(** ** The two components together *)

(** The state of the Raft node that consumes RPCs. *)
Context {V : Type}.

Definition World : Type := Mqtt5Binding * V.

(** The callback of an incoming action, on the binding. *)
Definition callback (cb : Callback) (ar : ActionResult) (w : World) : goerr * World :=
  let '(err, b) := action_callback cb ar w.1 in (err, (b, w.2)).

Definition received (ac : ActionWithCallback Callback) : ActionWithCallback (ActionResult -> World -> goerr * World) :=
  {| awc_Action := awc_Action ac; awc_Callback := callback (awc_Callback ac) |}.

(** The topic a transport's subscription is routed under. *)
Definition subscribed_topic (cluster : string) (filter : SubscriptionFilter) : string :=
  (topicWithLevels cluster (sf_Share filter) (sf_Scope filter) [levelAction; sf_Type filter]).1.

(** The transports whose subscriptions an operation is published to. *)
Definition addressed (o : Operation) (target : string) (t : RaftTransport (W := World)) : Prop :=
  o_lfw o = true \/ target = LocalAddr t.

Lemma addressed_topic o target (t1 t2 : RaftTransport (W := World)) cl :
  addressed o target t2 ->
  exists filter, filter ∈ rpc_filters t2 /\
    (topicWithLevels cl "" ScopeState [levelAction; op_type t1 o target]).1 = subscribed_topic cl filter.
Proof.
  unfold addressed, op_type. destruct (o_lfw o).
  - intros _. eexists. split; [right; left|done].
  - intros [?| ->]; [done|]. eexists. split; [left|done].
Qed.

(** A type that is published or subscribed is a good name. *)
Lemma not_addressed_topic o target (t1 t3 : RaftTransport (W := World)) cl filter :
  good_name cl -> good_name (op_type t1 o target) -> good_name (sf_Type filter) ->
  filter ∈ rpc_filters t3 ->
  (topicWithLevels cl "" ScopeState [levelAction; op_type t1 o target]).1 = subscribed_topic cl filter ->
  addressed o target t3.
Proof.
  intros Hcl Ht Hf Hin E. apply (f_equal (fun t => strings_Split t slash)) in E. unfold subscribed_topic in E.
  assert (sf_Scope filter = ScopeState) as Hs.
  { unfold rpc_filters in Hin. rewrite !elem_of_cons, elem_of_nil in Hin. by destruct Hin as [->|[->|[]]]. }
  rewrite Hs, !Split_topic in E by (done || by apply good_name_free). injection E as E.
  unfold addressed, op_type in *. destruct (o_lfw o); [by left|right].
  unfold rpc_filters in Hin. rewrite !elem_of_cons, elem_of_nil in Hin.
  destruct Hin as [->|[->|[]]]; simpl in E; [by injection E|done].
Qed.

(** ** A remote operation *)

Section Operation.
Variable consume : bool -> Command -> World -> RPCResponse * World.
Variables (o : Operation) (relq : o_Request o -> o_Request o -> Prop) (good : o_Request o -> Prop)
  (goodr : o_Response o -> Prop) (relr : o_Response o -> o_Response o -> Prop).
Context {ML : @MsgPackLaws (o_Request o) (o_codec o) good relq}
  {RL : @ResponseLaws _ (o_Response o) (o_response o) goodr relr}.

(** C5: a remote operation between two Raft nodes over MQTT, end to end.
    What [sendRPC] publishes through an open binding becomes one MQTT
    publication; it is on the topic of a subscription of each node addressed
    (all nodes if it is forwarded to the leader) and on none of another node.
    An addressed node's binding makes of it an action whose handling gives
    the node's consumer the request that was sent.  A response of the consumer
    that the codec carries, any error of an operation targeted at the node,
    and an error of a forwarded operation that safely originates from the
    leader, are published, through the binding's callback, by one MQTT
    publication.  Its arrival at the requesting node's binding puts one result
    on the channel [sendRPC] waits on, and from it [sendRPC] gets the
    consumer's response, or its error with its text and whether it is
    retryable.  Any other error of a forwarded operation is kept back by the
    node: it publishes nothing, so that nothing comes back from it. *)
Theorem remote_operation (t1 t2 : RaftTransport (W := World)) (target uuid : string) (ctx : nat)
    (args : o_Request o) (b1 b1' : Mqtt5Binding) (c : Conn) (b : bytes) (rc : RouteChannel string Link) :
  operation o -> good args -> @EncodeMsgPack _ (o_codec o) args = (Some b, None) ->
  addressed o target t2 -> LocalAddr t1 <> LocalAddr t2 -> shutdown t2 = false ->
  conn (link b1) = Some c -> good_name (cluster b1) -> router_ok (actionResultRouter b1) ->
  (forall t rcs rc', routes (actionResultRouter b1) !! t = Some rcs -> rc' ∈ rcs -> correlationId rc' <> uuid) ->
  PublishAction uuid ctx (op_action t1 o target (Some b)) [ScopeState] b1 = (inl rc, b1') ->
  exists pk filter ac args',
    (exists c0, (conn_Publish pk c0).1 = None /\ conn (link b1') = Some (conn_Publish pk c0).2) /\
    filter ∈ rpc_filters t2 /\
    parse_publication pk =
      Some (InAction {| Topic := subscribed_topic (cluster b1) filter; CorrelationId := "" |} ac) /\
    (forall t3 filter', good_name (sf_Type filter') -> filter' ∈ rpc_filters t3 ->
       subscribed_topic (cluster b1) filter' = subscribed_topic (cluster b1) filter -> addressed o target t3) /\
    relq args args' /\
    forall w resp w' c2,
      dispatch_rpc consume t2 (o_lfw o) (o_heartbeat o args') (o_cmd o args') w = (resp, w') ->
      @proper _ _ (o_response o) goodr resp -> conn (link w'.1) = Some c2 ->
      if answered (o_lfw o) resp then
        exists pk2 ar,
          handleRpc consume t2 (received ac) w =
            Ret (NewRetryableError (conn_Publish pk2 c2).1)
                (with_link (set_conn (conn_Publish pk2 c2).2 (link w'.1)) w'.1, w'.2) /\
          (forall cancelled, ctx ∉ cancelled -> exists b3, handle cancelled pk2 b1' = Ret tt b3 /\
             chans (actionResultRouter b3) !! rc_addr rc = Some (push ar (make_chan 1))) /\
          @outcome _ _ (o_response o) relr resp (@receive_response _ _ (o_response o) (AwaitResult ar))
      else
        exists e, ErrorRetryable (rr_Error resp) = Some e /\ handleRpc consume t2 (received ac) w = Ret (kept_back e) w'.
Proof.
  intros Ho Hg He Hadr Hne Hs Hc Hcl Hok Hfresh Hpub.
  assert (good_name (op_type t1 o target)) as Hty.
  { unfold PublishAction in Hpub. destruct (validatePatternTypeIdSource _ _ _ _) eqn:Hval; [done|].
    by apply validate_type in Hval. }
  destruct (action_exchange _ _ _ _ [ScopeState] _ _ _ Hc Hcl ltac:(by right; right; left) Hok Hfresh Hpub)
    as (pk & cb & Hsent & Hparse & Hback).
  destruct (addressed_topic o target t1 t2 (cluster b1) Hadr) as (filter & Hin & Htopic).
  destruct (@mp_roundtrip _ (o_codec o) good relq ML args Hg) as (b' & args' & He' & Hd & Hrel).
  unfold EncodeMsgPack in He. assert (b' = b) as -> by congruence.
  exists pk, filter, {| awc_Action := op_action t1 o target (Some b); awc_Callback := cb |}, args'.
  split_and!; [exact Hsent|exact Hin|by rewrite <- Htopic| |exact Hrel|].
  - intros t3 filter' Hf Hin' E. eapply (not_addressed_topic o target t1); [..|rewrite Htopic; symmetry; exact E]; done.
  - intros w resp w' c2 Hdisp Hp Hc2.
    pose proof (handle_answered consume o goodr relr t1 t2 target (Some b) args' w resp w' Ho Hd Hs Hne Hdisp Hp) as Ha.
    destruct (answered (o_lfw o) resp).
    2:{ destruct Ha as (e & He2 & Hr). exists e. split; [done|apply Hr]. }
    destruct Ha as (ar & Hseq & Har & Hout).
    destruct (Hback w'.1 c2 ar Hc2) as (pk2 & Hpub2 & Hhandle); [rewrite Hseq; unfold in_sint; lia|].
    exists pk2, ar. split_and!; [| |exact Hout].
    + unfold received. cbn [awc_Action awc_Callback]. rewrite Har. unfold callback, action_callback. by rewrite Hpub2.
    + intros cancelled Hctx. destruct (Hhandle cancelled Hctx) as (b3 & Hb3 & Hch & _). by exists b3.
Qed.
End Operation.
End RaftOverMqtt.

(** ** A concrete run

    Node [a] forwards a proposal to the leader, and node [b], which is the
    leader, answers it. *)

Module Run.
Export Mqtt5.Run Transport.Run.

Definition leader (lfw : bool) (cmd : Command) (w : World (V := nat)) : RPCResponse * World :=
  let '(resp, n) := Transport.Run.consume lfw cmd w.2 in (resp, (w.1, n)).

Definition ra : RaftTransport (W := World (V := nat)) := NewRaftTransport None "a".
Definition rb : RaftTransport (W := World (V := nat)) := NewRaftTransport None "b".
Definition proposal : ApplyRequest := {| ap_Command := Some [zero]; ap_Timeout := 5 |}.
Definition request : bytes := sl (EncodeMsgPack (A := ApplyRequest) proposal).1.
Definition published : (RouteChannel string Link + error) * Mqtt5Binding :=
  PublishAction "u" 3 (op_action ra op_Apply "" (Some request)) [ScopeState] agent.
Definition conn0 : Conn := {| Mqtt5.Run.subs := ∅; Mqtt5.Run.published := [] |}.
End Run.
Import Run.

Lemma remote_operation_witness :
  exists pk f ac pk2 ar b3 x,
    parse_publication pk = Some (InAction f ac) /\
    (exists w, handleRpc leader rb (received ac) (agent, 0%nat) = Ret None (w, 1%nat)) /\
    handle ∅ pk2 published.2 = Ret tt b3 /\
    chans (actionResultRouter b3) !! 0%nat = Some (MkChan 1 [ar] false) /\
    receive_response (T := ApplyResponse) (AwaitResult ar) = inl x /\ ap_Index x = 7.
Proof.
  assert (ML : @MsgPackLaws ApplyRequest apply_codec (fun _ => True) eq) by (apply BitCodec.codec_via_laws; by intros []).
  assert (RL : @ResponseLaws rpc_types ApplyResponse apply_response (fun x => ap_Response x = None) eq)
    by (apply response_laws; by intros [? ?] [= ->]).
  destruct (@remote_operation mem_paho mem_laws rpc_types append_codec vote_codec install_codec timeout_codec
     voter_codec remove_codec apply_codec append_response vote_response install_response
     timeout_response voter_response remove_response apply_response nat leader op_Apply eq (fun _ => True)
     (fun x => ap_Response x = None) eq ML RL ra rb "" "u" 3 proposal agent published.2 conn0 request (rc_of published))
    as (pk & filter & ac & args' & _ & _ & Hparse & _ & <- & Hx).
  - constructor.
  - exact I.
  - reflexivity.
  - left. reflexivity.
  - discriminate.
  - reflexivity.
  - reflexivity.
  - apply good_name_check. reflexivity.
  - apply router_ok_new.
  - intros t rcs rc' Hr. exfalso. revert Hr. simpl. by rewrite lookup_empty.
  - by_vm.
  - destruct (Hx (agent, 0%nat) {| rr_Response := Some (RespApply {| ap_Index := 7; ap_Response := None |}); rr_Error := None |}
      (agent, 1%nat) conn0) as (pk2 & ar & Hh & Hb & Hout).
    + by_vm.
    + eexists _, _. split_and!; reflexivity.
    + reflexivity.
    + destruct (Hb ∅ (not_elem_of_empty _)) as (b3 & Hb3 & Hch).
      destruct Hout as (a & x & x' & Ha & Hx' & Hr & Hi). injection Ha as <-. injection Hx' as <-.
      exists pk, {| Topic := subscribed_topic "cl" filter; CorrelationId := "" |}, ac, pk2, ar, b3, x'.
      split_and!; [exact Hparse|eexists; exact Hh|exact Hb3|exact Hch|exact Hr|]. by rewrite <- Hi.
Defined.
