(* ===== verification/RaftBinding.v ===== *)
(** * The Raft binding of the state synchronization API ([services/state/raft/raft.go])

    Opening and closing a Raft node, proposing inputs with leader forwarding,
    and answering forwarded requests.  The Raft node is a parameter: its
    operations act on a world that also holds the state machine, the store and
    the file system, and everything other nodes do meanwhile. *)

From S2P Require Import Prelude GoRuntime Services GoStrings Config StateApi ComApi StoreApi Pebble Fsm RaftStore Transport.

Definition DefaultStartupTimeout : Z := 10000 * Millisecond.
Definition DefaultLfwTimeout : Z := 20000 * Millisecond.

(** The part of [hraft.Config] the binding sets. *)
Record HraftConfig := {
  hc_LocalID : string;
  hc_HeartbeatTimeout : Z;
  hc_ElectionTimeout : Z;
  hc_SnapshotInterval : Z;
  hc_SnapshotThreshold : Z;   (* uint64 *)
  hc_CommitTimeout : Z;
  hc_LogLevel : string;
}.

Record Server := { srv_Voter : bool; srv_ID : string; srv_Address : string }.

(** An [hraft.ApplyFuture] or [hraft.IndexFuture] that is done: its error,
    its index, and its response if this is an [error]. *)
Record Future := { f_Error : goerr; f_Index : Z; f_Response : goerr }.

Section RaftBinding.
Context `{MapRange} `{PebbleEngine} `{HraftRpc}.
Context `{!MsgPack (Input bytes)} `{!MsgPack AddVoterRequest} `{!MsgPack RemoveServerRequest} `{!MsgPack ApplyRequest}
  `{!ResponseType AddVoterResponse} `{!ResponseType RemoveServerResponse} `{!ResponseType ApplyResponse}.

(** The world: the Raft nodes, each named by its id, with their file systems,
    stores and state machines.  Operations of a node take its id first. *)
Class RaftWorld (W : Type) := {
  SnapshotStore : Type;
  get_disk : string -> W -> Disk;
  set_disk : string -> Disk -> W -> W;
  get_store : string -> W -> RaftStore.RaftStore PebbleBinding;
  set_store : string -> RaftStore.RaftStore PebbleBinding -> W -> W;
  get_fsm : string -> W -> Fsm.RaftFsm;
  set_fsm : string -> Fsm.RaftFsm -> W -> W;
  DefaultConfig : HraftConfig;
  NewRaft : HraftConfig -> SnapshotStore -> RaftTransport (W := W) -> W -> goerr * W;
  raft_Apply : string -> slice -> Z -> W -> Future * W;
  raft_AddVoter : string -> string -> string -> Z -> Z -> W -> Future * W;
  raft_RemoveServer : string -> string -> Z -> Z -> W -> Future * W;
  raft_Barrier : string -> Z -> W -> goerr * W;
  raft_Shutdown : string -> W -> goerr * W;
  raft_BootstrapCluster : string -> list Server -> W -> goerr * W;
  raft_is_leader : string -> W -> bool;             (* State() == Leader *)
  raft_await_leader : string -> Z -> W -> option bool * W;  (* a value of LeaderCh(), [None] after the timeout *)
  (* [ctx.Err()] of the context last created with this timeout *)
  ctx_Err : Z -> W -> goerr;
}.

Context {W : Type} `{!RaftWorld W}.
Variable new_uuid : string.
Variable NewFileSnapshotStore : string -> Z -> SnapshotStore + error.
Variable NewInmemSnapshotStore : SnapshotStore.
Variable RemoveAll : string -> Disk -> Disk.
Variable PublishAction : Z -> Action -> string -> W -> (Awaited + error) * W.

(** The fields of the binding; [raft] tells whether it is non-nil.  The store
    and the state machine are part of the world; [serving] tells whether the
    goroutine [processLeaderForwardedRPCs] runs: it is started by [Open] and
    ends with the transport's channel. *)
Record RaftBinding := {
  raftId : string;
  raftDir : string;
  raft : bool;
  trans : RaftTransport (W := W);
  lfwTimeout : Z;
  serving : bool;
}.

Definition NodeId (b : RaftBinding) : string := raftId b.

(** *** Leader forwarding *)

(** A call whose response is not used. *)
Definition error_of {T} (r : (T + goerr) * W) : goerr * W :=
  match r with
  | (inl _, w) => (None, w)
  | (inr err, w) => (err, w)
  end.

Definition addVoterByLeaderForwarding (b : RaftBinding) (ctx startDelayOnLeader : Z) (w : W) : goerr * W :=
  error_of (LfwAddVoter PublishAction ctx (trans b)
    {| av_ServerId := raftId b; av_ServerAddress := raftId b; av_Timeout := startDelayOnLeader |} w).

Definition removeServerByLeaderForwarding (b : RaftBinding) (ctx startDelayOnLeader : Z) (w : W) : goerr * W :=
  error_of (LfwRemoveServer PublishAction ctx (trans b)
    {| rs_ServerId := raftId b; rs_Timeout := startDelayOnLeader |} w).

Definition applyByLeaderForwarding (b : RaftBinding) (ctx : Z) (cmd : slice) (startDelayOnLeader : Z) (w : W) : goerr * W :=
  match LfwApply PublishAction ctx (trans b) {| ap_Command := cmd; ap_Timeout := startDelayOnLeader |} w with
  | (inr (Some err), w) => (Some err, w)
  | (inr None, w) => (None, w)
  | (inl resp, w) => (ap_Response resp, w)
  end.

(** [if err := ...; err == ctx.Err() { return services.NewRetryableError(err) } else { return err }] *)
Definition retry_on_timeout (ctx : Z) (r : goerr * W) : goerr * W :=
  let '(err, w) := r in
  if err_eqb err (ctx_Err ctx w) then (NewRetryableError err, w) else (err, w).

(** *** Proposing inputs *)

Definition backoff100 : Backoff := {| Base := 100 * Millisecond; Cap := 100 * Millisecond; Max := 0 |}.

(** One attempt: apply locally, forward to the leader in follower state. *)
Definition propose_attempt (b : RaftBinding) (cmd : slice) (cnt : Z) (w : W) : goerr * W :=
  let '(f, w) := raft_Apply (raftId b) cmd 0 w in
  match f_Error f with
  | Some err =>
      if negb (err_eqb (Some err) (Some hraft_ErrNotLeader)) then (NewRetryableError (Some err), w)
      else retry_on_timeout (lfwTimeout b) (applyByLeaderForwarding b (lfwTimeout b) cmd 0 w)
  | None => (f_Response f, w)
  end.

(** [wait] sleeps, or yields [ctx.Err()] if the caller's context is done. *)
Definition ProposeInput (fuel : nat) (wait : Z -> W -> goerr * W) (i : Input bytes) (text : string)
    (b : RaftBinding) (w : W) : option (goerr * W) :=
  if negb (raft b) then
    Some (Some (ErrText ("ProposeInput " +:+ text +:+ " failed as binding is not yet open")), w)
  else
    match EncodeMsgPack i with
    | (_, Some err) => Some (Some err, w)
    | (cmd, None) => RetryWithBackoff (propose_attempt b cmd) wait backoff100 fuel w
    end.

(** *** Observing changes *)

(** An operation on a component of the world. *)
Definition zoom {S A} (get : W -> S) (set : S -> W -> W) (m : M S A) : M W A := fun w =>
  match m (get w) with
  | Ret a s => Ret a (set s w)
  | Blocked s => Blocked (set s w)
  | Panic msg => Panic msg
  end.

Definition on_store_members {A} (b : RaftBinding) (m : M Membership A) : M W A :=
  zoom (fun w => membership (get_store (raftId b) w))
    (fun s w => set_store (raftId b) (with_membership s (get_store (raftId b) w)) w) m.

(** [make(chan T, n)]: a channel not used before. *)
Definition make_state_chan : M Fsm.RaftFsm nat := fun f =>
  let c := fresh (dom (Fsm.chans f)) in
  Ret c (Fsm.set_chan c {| Fsm.sent := []; Fsm.closed := false |} f).
Definition make_member_chan : M Membership nat := fun s =>
  let c := fresh (dom (mchans s)) in
  Ret c (set_mchan c {| msent := []; mclosed := false |} s).

(** The channel, with the observer's id its goroutine keeps. *)
Definition ObserveStateChange (b : RaftBinding) : M W ((nat * Z) + error) :=
  if negb (raft b) then mret (inr (ErrText "ObserveStateChange failed as binding is not yet open"))
  else
    let! c := zoom (get_fsm (raftId b)) (set_fsm (raftId b)) make_state_chan in
    let! id := zoom (get_fsm (raftId b)) (set_fsm (raftId b)) (Fsm.AddStateChangeObserver c) in
    mret (inl (c, id)).

(** The deferred calls of its goroutine, once the context is done. *)
Definition end_state_observation (b : RaftBinding) (c : nat) (id : Z) : M W unit :=
  zoom (get_fsm (raftId b)) (set_fsm (raftId b)) (
    run! Fsm.RemoveStateChangeObserver id;
    fun f => match Fsm.chans f !! c with
             | Some oc => if Fsm.closed oc then Panic "close of closed channel"
                          else Ret tt (Fsm.set_chan c {| Fsm.sent := Fsm.sent oc; Fsm.closed := true |} f)
             | None => Panic "close of nil channel"
             end).

Definition ObserveMembershipChange (b : RaftBinding) : M W ((nat * Z) + error) :=
  if negb (raft b) then mret (inr (ErrText "ObserveMemberChange failed as binding is not yet open"))
  else
    let! c := on_store_members b make_member_chan in
    let! id := on_store_members b AddMembershipChangeObserver in
    mret (inl (c, id)).

Definition end_membership_observation (b : RaftBinding) (c : nat) (id : Z) : M W unit :=
  on_store_members b (
    run! RemoveMembershipChangeObserver id;
    fun s => match mchans s !! c with
             | Some mc => if mclosed mc then Panic "close of closed channel"
                          else Ret tt (set_mchan c {| msent := msent mc; mclosed := true |} s)
             | None => Panic "close of nil channel"
             end).

(** *** Answering forwarded requests

    The response and error passed to [rpc.Respond]. *)
Definition respond (r : AnyResponse) : RPCResponse := {| rr_Response := Some r; rr_Error := None |}.
Definition respond_error (err : goerr) : RPCResponse := {| rr_Response := None; rr_Error := err |}.

Definition with_barrier (b : RaftBinding) (r : AnyResponse) (w : W) : RPCResponse * W :=
  match raft_Barrier (raftId b) 0 w with
  | (Some err, w) => (respond_error (NewRetryableError (Some err)), w)
  | (None, w) => (respond r, w)
  end.

(** [stop] and the response.  Commands of other types are not forwarded to
    the leader; their text is not modelled. *)
Definition processLeaderForwardingRPC (b : RaftBinding) (cmd : Command) (w : W) : bool * RPCResponse * W :=
  if negb (raft b) then (true, respond_error (Some hraft_ErrNotLeader), w)
  else
    let '(resp, w) :=
      match cmd with
      | CmdAddVoter req =>
          let '(f, w) := raft_AddVoter (raftId b) (av_ServerId req) (av_ServerAddress req) 0 (av_Timeout req) w in
          match f_Error f with
          | Some err => (respond_error (NewRetryableError (Some err)), w)
          | None => with_barrier b (RespAddVoter {| av_Index := f_Index f |}) w
          end
      | CmdRemoveServer req =>
          let '(f, w) := raft_RemoveServer (raftId b) (rs_ServerId req) 0 (rs_Timeout req) w in
          match f_Error f with
          | Some err => (respond_error (NewRetryableError (Some err)), w)
          | None => (respond (RespRemoveServer {| rs_Index := f_Index f |}), w)
          end
      | CmdApply req =>
          let '(f, w) := raft_Apply (raftId b) (ap_Command req) (ap_Timeout req) w in
          match f_Error f with
          | Some err => (respond_error (NewRetryableError (Some err)), w)
          | None =>
              match f_Response f with
              | Some err => (respond (RespApply {| ap_Index := 0; ap_Response := Some err |}), w)
              | None => with_barrier b (RespApply {| ap_Index := f_Index f; ap_Response := None |}) w
              end
          end
      | _ => (respond_error (Some (ErrText "unexpected leader forwarding command")), w)
      end in
    (false, resp, w).

(** The RPCs received until the channel is closed or one stops the loop, and
    their responses. *)
Fixpoint processLeaderForwardedRPCs (b : RaftBinding) (rpcs : list Command) (w : W) : list RPCResponse * W :=
  match rpcs with
  | [] => ([], w)
  | rpc :: rpcs =>
      let '(stop, resp, w) := processLeaderForwardingRPC b rpc w in
      if stop then ([resp], w)
      else let '(resps, w) := processLeaderForwardedRPCs b rpcs w in (resp :: resps, w)
  end.

(** *** Opening and closing *)

Definition duration_option (opts : Opts) (key : string) (dflt : Z) : Z :=
  match opt_int opts key with
  | Some v => int64 (v * Millisecond)
  | None => dflt
  end.

Definition snapshot_threshold (opts : Opts) : Z + error :=
  match opt_int opts "snapshotThreshold" with
  | Some v =>
      if v <? 0 then inr (ErrText "snapshotThreshold must be a positive integer")
      else inl (uint64 v)
  | None => inl (hc_SnapshotThreshold DefaultConfig)
  end.

(** The node's configuration; logging is enabled if [plog_Enabled]. *)
Definition raft_config (plog_Enabled : bool) (id : string) (opts : Opts) : HraftConfig + error :=
  let dc := DefaultConfig in
  let heartbeat := duration_option opts "heartbeatTimeout" (hc_HeartbeatTimeout dc) in
  match snapshot_threshold opts with
  | inr err => inr err
  | inl threshold =>
      inl {| hc_LocalID := id;
             hc_HeartbeatTimeout := heartbeat;
             hc_ElectionTimeout := duration_option opts "electionTimeout" (hc_ElectionTimeout dc);
             hc_SnapshotInterval := duration_option opts "snapshotInterval" (hc_SnapshotInterval dc);
             hc_SnapshotThreshold := threshold;
             hc_CommitTimeout := Z.quot heartbeat 10;
             hc_LogLevel := if plog_Enabled then if opt_is_true opts "debug" then "DEBUG" else "ERROR" else "OFF" |}
  end.

Definition transport_config (opts : Opts) : RaftTransportConfig :=
  {| cfg_Timeout := duration_option opts "rpcTimeout" 0;
     cfg_TimeoutScale := default 0 (opt_int opts "installSnapshotTimeoutScale") |}.

(** Starting as the leader of a new cluster. *)
Definition bootstrap (id : string) (startupTimeout : Z) (w : W) : goerr * W :=
  match raft_BootstrapCluster id [{| srv_Voter := true; srv_ID := id; srv_Address := id |}] w with
  | (Some err, w) => (Some err, w)
  | (None, w) =>
      match raft_await_leader id startupTimeout w with
      | (None, w) => (Some (ErrText "timeout on bootstrapping Raft node as a leader"), w)
      | (Some false, w) => (Some (ErrText "on bootstrap Raft node should become leader"), w)
      | (Some true, w) => (None, w)
      end
  end.

(** One attempt to be added to an existing cluster. *)
Definition join_attempt (b : RaftBinding) (cnt : Z) (w : W) : goerr * W :=
  retry_on_timeout (lfwTimeout b) (addVoterByLeaderForwarding b (lfwTimeout b) 0 w).

Definition with_raft (r s : bool) (b : RaftBinding) : RaftBinding :=
  {| raftId := raftId b; raftDir := raftDir b; raft := r; trans := trans b; lfwTimeout := lfwTimeout b; serving := s |}.

Definition open_node (fuel : nat) (wait : Z -> W -> goerr * W) (cfg : Config) (b : RaftBinding) (w : W)
    : option (goerr * W) :=
  let st := Config.State (Services cfg) in
  if Bootstrap st then
    Some (bootstrap (raftId b) (duration_option (state_Opts st) "startupTimeout" DefaultStartupTimeout) w)
  else RetryWithBackoff (join_attempt b) wait backoff100 fuel w.

(** [wait] sleeps; the background context is never done.  The fields are set
    one after the other; an error leaves those set before. *)
Definition Open (fuel : nat) (wait : Z -> W -> goerr * W) (plog_Enabled : bool) (cfg : Config) (b : RaftBinding) (w : W)
    : option (goerr * RaftBinding * W) :=
  if raft b then Some (None, b, w)
  else
    let st := Config.State (Services cfg) in
    let opts := state_Opts st in
    let id := Config.Id (Identity_ cfg) in
    let b := {| raftId := id; raftDir := Store st; raft := false; trans := trans b; lfwTimeout := lfwTimeout b;
                serving := serving b |} in
    match NewRaftStore NewFileSnapshotStore NewInmemSnapshotStore new_uuid (raftDir b) (get_disk (raftId b) w)
            (mchans (membership (get_store (raftId b) w))) with
    | inr err => Some (Some err, b, w)
    | inl (store, snapStore) =>
        let w := set_store (raftId b) store w in
        let b := {| raftId := raftId b; raftDir := raftDir b; raft := false; trans := trans b;
                    lfwTimeout := duration_option opts "lfwTimeout" DefaultLfwTimeout; serving := serving b |} in
        match raft_config plog_Enabled id opts with
        | inr err => Some (Some err, b, w)
        | inl config =>
            let b := {| raftId := raftId b; raftDir := raftDir b; raft := false;
                        trans := NewRaftTransport (Some (transport_config opts)) id;
                        lfwTimeout := lfwTimeout b; serving := serving b |} in
            let w := set_fsm (raftId b) (NewRaftFsm (Fsm.mem (get_fsm (raftId b) w)) (Fsm.brk (get_fsm (raftId b) w)) (Fsm.chans (get_fsm (raftId b) w))) w in
            match NewRaft config snapStore (trans b) w with
            | (Some err, w) => Some (Some err, b, w)
            | (None, w) =>
                let b := with_raft true (serving b) b in
                match open_node fuel wait cfg b w with
                | None => None
                | Some (Some err, w) => Some (Some err, b, w)
                | Some (None, w) => Some (None, with_raft true true b, w)
                end
            end
        end
    end.

(** A leader removes itself and closes its transport; another node asks the
    leader to remove it.  Shutting down the node closes the transport
    ([hraft.Raft.Shutdown]). *)
Definition Close (b : RaftBinding) (w : W) : RaftBinding * W :=
  if negb (raft b) then (b, w)
  else
    let '(trans', w) :=
      if raft_is_leader (raftId b) w then
        let '(_, w) := raft_RemoveServer (raftId b) (raftId b) 0 0 w in (Transport.Close (trans b), w)
      else
        let '(_, w) := removeServerByLeaderForwarding b (Transport.Timeout (trans b)) 0 w in
        let '(_, w) := raft_Shutdown (raftId b) w in (Transport.Close (trans b), w) in
    let '(_, disk, store) := RaftStore.Close RemoveAll false (get_disk (raftId b) w) (get_store (raftId b) w) in
    ({| raftId := raftId b; raftDir := raftDir b; raft := false; trans := trans'; lfwTimeout := lfwTimeout b;
        serving := false |}, set_store (raftId b) store (set_disk (raftId b) disk w)).
End RaftBinding.

(** ** A proposal that succeeds is committed *)

#[global] Instance ActionResult_eq_dec : EqDecision ActionResult.
Proof. solve_decision. Defined.

Section Proposals.
Context `{MapRange} `{PebbleEngine} `{HraftRpc}.
Context `{!MsgPack AppendEntriesRequest} `{!MsgPack RequestVoteRequest}
  `{!MsgPack installSnapshotRequestWithData} `{!MsgPack TimeoutNowRequest}
  `{!MsgPack (Input bytes)} `{!MsgPack AddVoterRequest} `{!MsgPack RemoveServerRequest} `{EAP : !MsgPack ApplyRequest}
  `{!ResponseType AppendEntriesResponse} `{!ResponseType RequestVoteResponse}
  `{!ResponseType InstallSnapshotResponse} `{!ResponseType TimeoutNowResponse}
  `{!ResponseType AddVoterResponse} `{!ResponseType RemoveServerResponse} `{RAP : !ResponseType ApplyResponse}.
Context {W : Type} `{!RaftWorld W}.
Variable PublishAction : Z -> Action -> string -> W -> (Awaited + error) * W.
(** The Raft node's consumption of RPCs that are not forwarded to the leader. *)
Variable raft_consume : Command -> W -> RPCResponse * W.

(** What the Raft library documents: the commands committed to the log, in
    order, only grow, and an Apply future without an error has its command
    committed since. *)
Class RaftLaws := {
  committed : W -> list bytes;
  Apply_grows : forall n c t w f w', raft_Apply n c t w = (f, w') -> committed w `prefix_of` committed w';
  Apply_commits : forall n c t w f w', raft_Apply n c t w = (f, w') -> f_Error f = None ->
    exists l, committed w' = committed w ++ l /\ sl c ∈ l;
  Barrier_grows : forall n t w e w', raft_Barrier n t w = (e, w') -> committed w `prefix_of` committed w';
}.

(** The consumer of a node's transport: its binding for forwarded requests. *)
Definition lfw_consumer (b : RaftBinding (W := W)) (lfw : bool) (cmd : Command) (w : W) : RPCResponse * W :=
  if lfw then let '(_, resp, w') := processLeaderForwardingRPC b cmd w in (resp, w') else raft_consume cmd w.

(** The node answers the action with the result [ar] by the callback. *)
Definition responds (b : RaftBinding (W := W)) (act : Action) (w1 : W) (ar : ActionResult) (w2 : W) : Prop :=
  forall cb, handleRpc (lfw_consumer b) (trans b) {| awc_Action := act; awc_Callback := cb |} w1 =
    (let '(err, w') := cb ar w2 in Ret err w').

(** What the communication service gives: a result for an action stems from
    a node that received the action and answered it in the meantime
    ([Mqtt5.action_answered]); the channel of results is closed only if the
    context is done. *)
Class Network `{!RaftLaws} := {
  publish_grows : forall ctx act w r w', PublishAction ctx act ScopeState w = (r, w') ->
    committed w `prefix_of` committed w';
  publish_answered : forall ctx act w ar w', PublishAction ctx act ScopeState w = (inl (AwaitResult ar), w') ->
    exists b w1 w2, committed w `prefix_of` committed w1 /\ responds b act w1 ar w2 /\
      committed w2 `prefix_of` committed w';
  publish_closed : forall ctx act w e w', PublishAction ctx act ScopeState w = (inl (AwaitClosed e), w') -> e <> None;
}.

(** A command of a request keeps its bytes. *)
Definition same_command (a b : ApplyRequest) : Prop := sl (ap_Command a) = sl (ap_Command b).

(** A response without an error of the state machine, which is carried
    exactly; one with an error holds a value of an interface type, of which
    the codec need not be able to decode anything. *)
Definition plain_response (r : ApplyResponse) : Prop := ap_Response r = None.

Context `{!MsgPackLaws ApplyRequest (fun _ => True) same_command} `{!ResponseLaws ApplyResponse plain_response eq}.

(** Which action results a handler's run can have been given. *)
Lemma responds_answer (m : (ActionResult -> W -> goerr * W) -> run W goerr) ar w2 :
  (forall cb, m cb = (let '(err, w') := cb ar w2 in Ret err w')) ->
  (forall e w', (forall cb, m cb = Ret e w') -> False) /\
  (forall ar' w', (forall cb, m cb = (let '(err, w'') := cb ar' w' in Ret err w'')) -> ar' = ar /\ w' = w2).
Proof.
  intros Hm. split.
  - intros e w' He. pose proof (Hm (fun _ w => (None, w))) as Hm1.
    pose proof (Hm (fun _ w => (Some ErrTransportShutdown, w))) as Hm2. rewrite He in Hm1, Hm2. congruence.
  - intros ar' w' Ha. pose proof (Hm (fun a w => (if decide (a = ar) then None else Some ErrTransportShutdown, w))) as Hm1.
    rewrite Ha in Hm1. destruct (decide (ar' = ar)) as [->|]; [|by destruct (decide (ar = ar))].
    destruct (decide (ar = ar)); [|done]. split; congruence.
Qed.

(** A node that answers a forwarded command has decoded it and processed it,
    and has sent the response. *)
Lemma responds_processed b t1 bb req act w1 ar w2 :
  act = op_action (W := W) t1 op_Apply "" (Some bb) ->
  DecodeMsgPack (Some bb) (mp_zero : ApplyRequest) = (req, None) ->
  responds b act w1 ar w2 ->
  exists stop resp w', processLeaderForwardingRPC b (CmdApply req) w1 = (stop, resp, w') /\
    answered true resp = true /\
    forall cb : ActionResult -> W -> goerr * W, sendRPCResponse ApplyResponse (trans b) resp {| awc_Action := act; awc_Callback := cb |} w' =
      (let '(err, w'') := cb ar w2 in Ret err w'').
Proof.
  intros -> Hd Hresp. destruct (responds_answer _ _ _ Hresp) as [Hno _].
  assert (Hh := fun cb => handle_operation (lfw_consumer b) op_Apply t1 (trans b) "" (Some bb) cb req w1 is_Apply Hd).
  simpl in Hh. destruct (String.eqb (LocalAddr t1) (LocalAddr (trans b))); [by edestruct Hno|].
  destruct (shutdown (trans b)); [by edestruct Hno|]. unfold dispatch_rpc, lfw_consumer in Hh.
  destruct (processLeaderForwardingRPC b (CmdApply req) w1) as [[stop resp] w'].
  assert (Hl := fun cb => sendLfwResponse_answered (T := ApplyResponse) (trans b) resp
    {| awc_Action := op_action t1 op_Apply "" (Some bb); awc_Callback := cb |}).
  exists stop, resp, w'. split; [done|]. destruct (answered true resp).
  - split; [done|]. intros cb. rewrite <- (Hl cb), <- Hresp. symmetry. apply Hh.
  - exfalso. destruct (Hl (fun _ w => (None, w))) as (e & He & _). apply (Hno (kept_back e) w'). intros cb.
    destruct (Hl cb) as (e' & He' & Hr). rewrite Hh, Hr. by simplify_eq.
Qed.

(** The result then is the response's, if the codec carries it. *)
Lemma sent_outcome (b : RaftBinding (W := W)) act resp w' ar w2 :
  (forall cb : ActionResult -> W -> goerr * W, sendRPCResponse ApplyResponse (trans b) resp {| awc_Action := act; awc_Callback := cb |} w' =
      (let '(err, w'') := cb ar w2 in Ret err w'')) ->
  proper plain_response resp ->
  w' = w2 /\ outcome eq resp (receive_response (T := ApplyResponse) (AwaitResult ar)).
Proof.
  intros Hs Hp. destruct (response_sent plain_response eq (trans b) resp Hp) as (ar' & _ & Har & Hout).
  destruct (responds_answer (fun cb => sendRPCResponse ApplyResponse (trans b) resp
    {| awc_Action := act; awc_Callback := cb |} w') ar w2 Hs) as [_ Hyes].
  destruct (Hyes ar' w') as [-> ->]; [intros cb; apply Har|done].
Qed.

(** ** Forwarding until a node accepts *)

Section Retried.
(** The type assertion of a response to [ *ApplyResponse]. *)
Hypothesis assert_apply : forall r, assert_response (T := ApplyResponse) (RespApply r) = Some r.
Variables (b : RaftBinding (W := W)) (cmd : slice).

(** The action a proposal is forwarded by. *)
Definition forwarded : Action :=
  op_action (trans b) op_Apply "" (EncodeMsgPack {| ap_Command := cmd; ap_Timeout := 0 |}).1.

(** A node that has its Raft node, given the forwarded action, applies the
    command with the future [f]. *)
Definition applies (b2 : RaftBinding (W := W)) (v : W) (f : Future) (v' : W) : Prop :=
  exists req, DecodeMsgPack (ac_Params forwarded) (mp_zero : ApplyRequest) = (req, None) /\
    raft b2 = true /\ raft_Apply (raftId b2) (ap_Command req) (ap_Timeout req) v = (f, v').

(** This node's Raft node is not the leader. *)
Definition follower (v v1 : W) : Prop :=
  exists f e, raft_Apply (raftId b) cmd 0 v = (f, v1) /\ f_Error f = Some e /\
    err_eqb (Some e) (Some hraft_ErrNotLeader) = true.

(** The proposal is accepted: by this node, or by the node that answers the
    forwarded command. *)
Inductive accepted (v : W) : W -> Prop :=
  | accepted_here f v' :
      raft_Apply (raftId b) cmd 0 v = (f, v') -> f_Error f = None -> f_Response f = None -> accepted v v'
  | accepted_there v1 ar v' b2 va f vb vc :
      follower v v1 -> PublishAction (lfwTimeout b) forwarded ScopeState v1 = (inl (AwaitResult ar), v') ->
      responds b2 forwarded va ar vc ->
      applies b2 va f vb -> f_Error f = None -> f_Response f = None -> raft_Barrier (raftId b2) 0 vb = (None, vc) ->
      accepted v v'.

(** It is refused for now: this node fails with anything but not being the
    leader; forwarding fails with an error that can be retried, or gets no
    answer before its context's deadline; or the node that answers fails to
    apply the command or to wait for it. *)
Inductive refused (v : W) : W -> Prop :=
  | refused_here f e v' :
      raft_Apply (raftId b) cmd 0 v = (f, v') -> f_Error f = Some e ->
      err_eqb (Some e) (Some hraft_ErrNotLeader) = false -> refused v v'
  | refused_unpublished v1 e v' :
      follower v v1 -> PublishAction (lfwTimeout b) forwarded ScopeState v1 = (inr e, v') ->
      IsRetryable (Some e) = true \/ err_eqb (Some e) (ctx_Err (lfwTimeout b) v') = true -> refused v v'
  | refused_unanswered v1 e v' :
      follower v v1 -> PublishAction (lfwTimeout b) forwarded ScopeState v1 = (inl (AwaitClosed (Some e)), v') ->
      err_eqb (Some e) (ctx_Err (lfwTimeout b) v') = true -> refused v v'
  | refused_there v1 ar v' b2 va f vb vc e :
      follower v v1 -> PublishAction (lfwTimeout b) forwarded ScopeState v1 = (inl (AwaitResult ar), v') ->
      responds b2 forwarded va ar vc -> applies b2 va f vb ->
      f_Error f = Some e \/ f_Error f = None /\ f_Response f = None /\ raft_Barrier (raftId b2) 0 vb = (Some e, vc) ->
      refused v v'.

(** [n] refused attempts, each followed by a wait for the backoff's time that
    is not cut short by the caller's context. *)
Inductive retried (wait : Z -> W -> goerr * W) : nat -> W -> W -> Prop :=
  | retried_none v : retried wait 0 v v
  | retried_more n v v1 v2 v3 :
      refused v v1 -> wait (100 * Millisecond) v1 = (None, v2) -> retried wait n v2 v3 -> retried wait (S n) v v3.

Lemma forwarded_request : exists bb req, EncodeMsgPack {| ap_Command := cmd; ap_Timeout := 0 |} = (Some bb, None) /\
  DecodeMsgPack (Some bb) (mp_zero : ApplyRequest) = (req, None) /\ forwarded = op_action (trans b) op_Apply "" (Some bb).
Proof.
  destruct (mp_roundtrip (rel := same_command) {| ap_Command := cmd; ap_Timeout := 0 |} I) as (bb & req & He & Hd & _).
  exists bb, req. split_and!; [done|done|]. unfold forwarded. unfold EncodeMsgPack. by rewrite He.
Qed.

Lemma forward_follower cnt v v1 : follower v v1 ->
  propose_attempt PublishAction b cmd cnt v =
  retry_on_timeout (lfwTimeout b) (applyByLeaderForwarding PublishAction b (lfwTimeout b) cmd 0 v1).
Proof. intros (f & e & Ha & Hf & He). unfold propose_attempt. by rewrite Ha, Hf, He. Qed.

Lemma forward_published v1 r v' :
  PublishAction (lfwTimeout b) forwarded ScopeState v1 = (r, v') ->
  applyByLeaderForwarding PublishAction b (lfwTimeout b) cmd 0 v1 =
  match r with
  | inr e => (Some e, v')
  | inl a => match receive_response (T := ApplyResponse) a with
             | inl x => (ap_Response x, v')
             | inr err => (err, v')
             end
  end.
Proof.
  intros Hp. unfold applyByLeaderForwarding, LfwApply, sendRPC.
  destruct forwarded_request as (bb & req & He & _ & Hf). rewrite He. rewrite Hf in Hp.
  change (rpc_action (trans b) _ rpcApply (Some bb)) with (op_action (trans b) op_Apply "" (Some bb)). rewrite Hp.
  destruct r as [a|e]; [|done]. by destruct (receive_response a) as [x|[e|]].
Qed.

(** What a node makes of the forwarded command when it answers it. *)
Lemma answered_applied b2 va f vb ar vc :
  responds b2 forwarded va ar vc -> applies b2 va f vb -> f_Response f = None \/ f_Error f <> None ->
  match f_Error f with
  | Some e => receive_response (T := ApplyResponse) (AwaitResult ar) = inr (RetryableErrorf (Error (ErrRetryable e)))
  | None =>
      match raft_Barrier (raftId b2) 0 vb with
      | (Some e, _) =>
          receive_response (T := ApplyResponse) (AwaitResult ar) = inr (RetryableErrorf (Error (ErrRetryable e)))
      | (None, _) => exists x, receive_response (T := ApplyResponse) (AwaitResult ar) = inl x /\ ap_Response x = None
      end
  end.
Proof.
  intros Hr (req & Hd & Hraft & Ha) Hresp. destruct forwarded_request as (bb & req' & _ & Hd' & Hf).
  rewrite Hf in Hd. simpl in Hd. assert (req' = req) as -> by congruence.
  destruct (responds_processed b2 (trans b) bb req forwarded va ar vc Hf Hd' Hr) as (stop & resp & w' & Hp & _ & Hs).
  pose proof (sent_outcome b2 forwarded resp w' ar vc Hs) as Hout. unfold outcome in Hout.
  unfold processLeaderForwardingRPC, with_barrier in Hp. rewrite Hraft in Hp. simpl in Hp. rewrite Ha in Hp.
  destruct (f_Error f) as [e|]; [injection Hp as <- <- <-; by apply Hout|].
  destruct Hresp as [Hre|]; [|done]. rewrite Hre in Hp.
  destruct (raft_Barrier (raftId b2) 0 vb) as [[e|] vd]; injection Hp as <- <- <-; [by apply Hout|].
  unfold proper in Hout. simpl in Hout.
  destruct Hout as [_ (a & x & x' & [= <-] & Hx & Hrec & <-)]; [by eexists _, _|].
  exists x. split; [done|]. rewrite assert_apply in Hx. by injection Hx as <-.
Qed.

Lemma refused_attempt cnt v v' : refused v v' ->
  exists err, propose_attempt PublishAction b cmd cnt v = (err, v') /\ IsRetryable err = true.
Proof.
  assert (Hretry : forall e w, IsRetryable (Some e) = true \/ err_eqb (Some e) (ctx_Err (lfwTimeout b) w) = true ->
    exists err, retry_on_timeout (lfwTimeout b) (Some e, w) = (err, w) /\ IsRetryable err = true).
  { intros e w He. unfold retry_on_timeout. destruct (err_eqb _ _); [by eexists|]. destruct He; [by eexists|done]. }
  intros [f e v1 Ha Hf He|v1 e v1' Hfo Hp He|v1 e v1' Hfo Hp He|v1 ar v1' b2 va f vb vc e Hfo Hp Hr Ha Hfail].
  - unfold propose_attempt. rewrite Ha, Hf, He. by eexists.
  - rewrite (forward_follower _ _ _ Hfo), (forward_published _ _ _ Hp). by apply Hretry.
  - rewrite (forward_follower _ _ _ Hfo), (forward_published _ _ _ Hp). simpl. apply Hretry. by right.
  - rewrite (forward_follower _ _ _ Hfo), (forward_published _ _ _ Hp).
    assert (receive_response (T := ApplyResponse) (AwaitResult ar) = inr (RetryableErrorf (Error (ErrRetryable e)))) as ->.
    { pose proof (answered_applied b2 va f vb ar vc Hr Ha) as Hans. destruct Hfail as [Hf|(Hf & Hre & Hb)].
      - rewrite Hf in Hans. apply Hans. by right.
      - rewrite Hf, Hb in Hans. apply Hans. by left. }
    apply Hretry. by left.
Qed.

Lemma accepted_attempt cnt v v' : accepted v v' -> propose_attempt PublishAction b cmd cnt v = (None, v').
Proof.
  intros [f v1 Ha Hf Hr|v1 ar v1' b2 va f vb vc Hfo Hp Hr Ha Hf Hre Hb].
  - unfold propose_attempt. by rewrite Ha, Hf, Hr.
  - rewrite (forward_follower _ _ _ Hfo), (forward_published _ _ _ Hp).
    pose proof (answered_applied b2 va f vb ar vc Hr Ha (or_introl Hre)) as Hans. rewrite Hf, Hb in Hans.
    destruct Hans as (x & -> & Hx). rewrite Hx. unfold retry_on_timeout. by destruct (err_eqb _ _).
Qed.

(** The loop sleeps for the same time before every attempt. *)
Lemma retried_loop wait n v v1 v2 fuel retry base :
  retried wait n v v1 -> accepted v1 v2 -> (n < fuel)%nat ->
  base = 100 * Millisecond \/ base = 200 * Millisecond ->
  retry_loop (propose_attempt PublishAction b cmd) wait backoff100 fuel retry base v = Some (None, v2).
Proof.
  intros Hr Hacc. revert fuel retry base. induction Hr as [v|n v va vb vc Href Hw _ IH]; intros fuel retry base Hn Hb.
  - destruct fuel; [lia|]. simpl. unfold retry_iter. by rewrite (accepted_attempt _ _ _ Hacc).
  - destruct fuel as [|fuel]; [lia|]. simpl. unfold retry_iter.
    destruct (refused_attempt (int64 (retry + 1)) v va Href) as (err & -> & Hre). rewrite Hre. simpl.
    assert (delay backoff100 base = 100 * Millisecond) as -> by (by destruct Hb as [->| ->]). rewrite Hw.
    apply IH; [done|lia|]. destruct Hb as [->| ->]; [by right|]. by right.
Qed.

(** C29: proposing goes on until a node accepts.  Each attempt may be refused
    for now: the node's own Raft node fails with anything but not being the
    leader; or, if it is a follower, forwarding the command fails with an
    error that can be retried, gets no answer before the context's deadline,
    or is answered by a node that fails to apply the command or to wait for
    it.  After any number of such attempts, each followed by a wait of 100
    milliseconds that the caller's context does not cut short, an attempt
    that is accepted, by this node or by the node that answers the forwarded
    command, makes [ProposeInput] return nil, for every fuel beyond the
    number of refused attempts. *)
Theorem propose_succeeds (wait : Z -> W -> goerr * W) (i : Input bytes) (text : string) (n fuel : nat) (w w1 w2 : W) :
  raft b = true -> EncodeMsgPack i = (cmd, None) ->
  retried wait n w w1 -> accepted w1 w2 -> (n < fuel)%nat ->
  ProposeInput PublishAction fuel wait i text b w = Some (None, w2).
Proof.
  intros Hb He Hr Hacc Hn. unfold ProposeInput. rewrite Hb, He. simpl.
  by apply (retried_loop wait n w w1); [..|left].
Qed.
End Retried.

(** ** What a successful proposal has committed *)

Context `{!RaftLaws} `{!Network}.

(** What the leader does with a forwarded command. *)
Lemma process_apply b req w stop resp w' :
  processLeaderForwardingRPC b (CmdApply req) w = (stop, resp, w') ->
  (rr_Error resp = Some hraft_ErrNotLeader) \/
  (exists e, rr_Error resp = Some (ErrRetryable e)) \/
  (rr_Error resp = None /\ (exists r, rr_Response resp = Some (RespApply r)) /\
   exists l, committed w' = committed w ++ l /\ sl (ap_Command req) ∈ l).
Proof.
  unfold processLeaderForwardingRPC, with_barrier. destruct (raft b); simpl; [|intros [= <- <- <-]; by left].
  destruct (raft_Apply (raftId b) (ap_Command req) (ap_Timeout req) w) as [f w1] eqn:Ea.
  destruct (f_Error f) eqn:Ef; [intros [= <- <- <-]; right; left; by eexists|].
  destruct (Apply_commits _ _ _ _ _ _ Ea Ef) as (l & Hl & Hin).
  destruct (f_Response f); [intros [= <- <- <-]; right; right; eauto 10|].
  destruct (raft_Barrier (raftId b) 0 w1) as [[e|] w2] eqn:Eb; intros [= <- <- <-]; [right; left; by eexists|].
  right; right. split_and!; [done|by eexists|]. destruct (Barrier_grows _ _ _ _ _ Eb) as [l' Hl'].
  exists (l ++ l'). rewrite Hl', Hl, <- app_assoc. set_solver.
Qed.

(** A forwarded command that is answered without an error is committed. *)
Lemma answered_apply b t1 bb req act w1 ar w2 x :
  act = op_action (W := W) t1 op_Apply "" (Some bb) ->
  DecodeMsgPack (Some bb) (mp_zero : ApplyRequest) = (req, None) ->
  responds b act w1 ar w2 -> receive_response (T := ApplyResponse) (AwaitResult ar) = inl x ->
  exists l, committed w2 = committed w1 ++ l /\ sl (ap_Command req) ∈ l.
Proof.
  intros -> Hd Hresp Hrec.
  destruct (responds_processed b t1 bb req _ w1 ar w2 eq_refl Hd Hresp) as (stop & resp & w' & Ep & Hans & Hs).
  destruct (process_apply _ _ _ _ _ _ Ep) as [He|[[e He]|(He & [r Hr] & l & Hl & Hin)]].
  - unfold answered in Hans. by rewrite He in Hans.
  - destruct (sent_outcome _ _ _ _ _ _ Hs) as [_ Hout]; [unfold proper; by rewrite He|].
    unfold outcome in Hout. by rewrite He, Hrec in Hout.
  - unfold sendRPCResponse, response_of in Hs. rewrite He, Hr in Hs.
    destruct (assert_response (T := ApplyResponse) (RespApply r)); [|by specialize (Hs (fun _ w => (None, w)))].
    destruct (EncodeMsgPack _) as [d [e|]].
    + by destruct (responds_answer _ _ _ Hs) as [Hno _]; edestruct Hno.
    + destruct (responds_answer _ _ _ Hs) as [_ Hyes]. edestruct Hyes as [_ <-]; [by intros cb|]. eauto.
Qed.

Lemma added_trans {A} (x : A) (k l m : list A) : k `prefix_of` l ->
  (exists n, m = l ++ n /\ x ∈ n) -> exists n, m = k ++ n /\ x ∈ n.
Proof. intros [k' ->] (n & -> & Hn). exists (k' ++ n). rewrite app_assoc. set_solver. Qed.

Lemma added_grows {A} (x : A) (k l m : list A) : l `prefix_of` m ->
  (exists n, l = k ++ n /\ x ∈ n) -> exists n, m = k ++ n /\ x ∈ n.
Proof. intros [k' ->] (n & -> & Hn). exists (n ++ k'). rewrite app_assoc. set_solver. Qed.

Lemma forwarded_commits b ctx cmd w err w' :
  applyByLeaderForwarding PublishAction b ctx cmd 0 w = (err, w') ->
  committed w `prefix_of` committed w' /\
  (err = None -> exists l, committed w' = committed w ++ l /\ sl cmd ∈ l).
Proof.
  unfold applyByLeaderForwarding, LfwApply, sendRPC. set (req := {| ap_Command := cmd; ap_Timeout := 0 |}).
  destruct (mp_roundtrip (rel := same_command) req I) as (bb & req' & He & Hd & Hrel).
  unfold EncodeMsgPack. rewrite He.
  change (rpc_action (trans b) _ rpcApply (Some bb)) with (op_action (trans b) op_Apply "" (Some bb)).
  destruct (PublishAction _ _ _ w) as [[a|e] w1] eqn:Ep; simpl.
  2:{ intros [= <- <-]. split; [by eapply publish_grows|done]. }
  pose proof (publish_grows _ _ _ _ _ Ep) as Hg. destruct (receive_response a) as [x|[e|]] eqn:Er.
  - intros [= <- <-]. split; [done|]. intros _. destruct a as [|e|ar]; [done|done|].
    destruct (publish_answered _ _ _ _ _ Ep) as (b2 & w2 & w3 & H1' & Hresp & H3').
    pose proof (answered_apply b2 (trans b) bb req' _ w2 ar w3 x eq_refl Hd Hresp Er) as Hc.
    eapply added_grows; [exact H3'|]. eapply added_trans; [exact H1'|]. by rewrite <- Hrel in Hc.
  - intros [= <- <-]. by split.
  - exfalso. destruct a as [|e|ar]; simpl in Er; [done| |].
    + injection Er as ->. by eapply publish_closed.
    + by repeat case_match.
Qed.

Lemma attempt_commits b cmd cnt w err w' :
  propose_attempt PublishAction b cmd cnt w = (err, w') ->
  committed w `prefix_of` committed w' /\
  (err = None -> exists l, committed w' = committed w ++ l /\ sl cmd ∈ l).
Proof.
  unfold propose_attempt, retry_on_timeout. destruct (raft_Apply (raftId b) cmd 0 w) as [f w1] eqn:Ea.
  pose proof (Apply_grows _ _ _ _ _ _ Ea) as Hg. destruct (f_Error f) as [e|] eqn:Ef.
  - destruct (negb _); [by intros [= <- <-]|].
    destruct (applyByLeaderForwarding PublishAction b (lfwTimeout b) cmd 0 w1) as [err1 w2] eqn:El.
    destruct (forwarded_commits _ _ _ _ _ _ El) as [Hg2 Hc].
    assert (committed w `prefix_of` committed w2) by (by transitivity (committed w1)).
    destruct (err_eqb err1 _); intros [= <- <-]; (split; [done|]); intros Hn; (eapply added_trans; [exact Hg|]);
      apply Hc; by destruct err1.
  - intros [= <- <-]. split; [done|]. intros _. by eapply Apply_commits.
Qed.

Lemma proposal_commits (fuel : nat) (wait : Z -> W -> goerr * W) (i : Input bytes) (text : string)
    (b : RaftBinding (W := W)) (w w' : W) :
  (forall d v e v', wait d v = (e, v') -> committed v `prefix_of` committed v') ->
  ProposeInput PublishAction fuel wait i text b w = Some (None, w') ->
  exists cmd l, EncodeMsgPack i = (cmd, None) /\ committed w' = committed w ++ l /\ sl cmd ∈ l.
Proof.
  intros Hwait. unfold ProposeInput. destruct (negb (raft b)); [done|].
  destruct (EncodeMsgPack i) as [cmd [e|]] eqn:He; [done|]. intros Hrun. exists cmd.
  enough (exists l, committed w' = committed w ++ l /\ sl cmd ∈ l) as (l & ?) by eauto.
  eapply (retry_loop_success _ _ _ (fun v => committed w `prefix_of` committed v)
    (fun v => exists l, committed v = committed w ++ l /\ sl cmd ∈ l)); [| | |exact Hrun]; [| |done].
  - intros cnt v err v1 Hv Ha. destruct (attempt_commits _ _ _ _ _ _ Ha) as [Hg Hc]. split; [by transitivity (committed v)|].
    intros Hn. eapply added_trans; [exact Hv|auto].
  - intros d v e v1 Hv Hw. transitivity (committed v); [done|]. by eapply Hwait.
Qed.

(** C8: a proposal that succeeds is committed.  If [ProposeInput] returns
    nil, the encoded input has been added to the committed commands during
    the call: by this node, or by a node that answered the forwarded command;
    in no case does a lost, refused or timed out request count as success. *)
Theorem propose_committed (fuel : nat) (wait : Z -> W -> goerr * W) (i : Input bytes) (text : string)
    (b : RaftBinding (W := W)) (w w' : W) :
  (forall d v e v', wait d v = (e, v') -> committed v `prefix_of` committed v') ->
  ProposeInput PublishAction fuel wait i text b w = Some (None, w') ->
  exists cmd l, EncodeMsgPack i = (cmd, None) /\ committed w' = committed w ++ l /\ sl cmd ∈ l.
Proof. apply proposal_commits. Qed.
End Proposals.

(** ** The binding's life cycle *)

Section LifeCycle.
Context `{MapRange} `{PebbleEngine} `{HraftRpc}.
Context `{!MsgPack (Input bytes)} `{!MsgPack AddVoterRequest} `{!MsgPack RemoveServerRequest} `{!MsgPack ApplyRequest}
  `{!ResponseType AddVoterResponse} `{!ResponseType RemoveServerResponse} `{!ResponseType ApplyResponse}.
Context {W : Type} `{!RaftWorld W}.
Variable new_uuid : string.
Variable NewFileSnapshotStore : string -> Z -> SnapshotStore + error.
Variable NewInmemSnapshotStore : SnapshotStore.
Variable RemoveAll : string -> Disk -> Disk.
Variable PublishAction : Z -> Action -> string -> W -> (Awaited + error) * W.

Abbreviation open := (Open new_uuid NewFileSnapshotStore NewInmemSnapshotStore PublishAction).

(** opening and closing.  A binding that is opened without an error has
    its Raft node, named by the identity's id, an open transport under that
    address, and serves forwarded requests; one that is closed has none: its
    operations fail and change nothing, and closing it again is no
    operation; closing shuts the transport down.  Opening an open binding
    changes nothing. *)
Theorem open_close (fuel : nat) (wait : Z -> W -> goerr * W) (plog_Enabled : bool) (cfg : Config)
    (b : RaftBinding (W := W)) (w : W) :
  (raft b = true ->
     open fuel wait plog_Enabled cfg b w = Some (None, b, w) /\
     forall b' w', Close RemoveAll PublishAction b w = (b', w') ->
       raft b' = false /\ serving b' = false /\ shutdown (trans b') = true) /\
  (raft b = false ->
     (forall i text, exists e, ProposeInput PublishAction fuel wait i text b w = Some (Some e, w)) /\
     (exists e, ObserveStateChange b w = Ret (inr e) w) /\ (exists e, ObserveMembershipChange b w = Ret (inr e) w) /\
     Close RemoveAll PublishAction b w = (b, w) /\
     forall b' w', open fuel wait plog_Enabled cfg b w = Some (None, b', w') ->
       raft b' = true /\ serving b' = true /\ shutdown (trans b') = false /\
       NodeId b' = Config.Id (Identity_ cfg) /\ LocalAddr (trans b') = NodeId b').
Proof.
  split; intros Hb.
  - split; [unfold Open; by rewrite Hb|]. intros b' w'. unfold Close. rewrite Hb. simpl.
    assert (Hs : forall t : RaftTransport (W := W), shutdown (Transport.Close t) = true)
      by (intros t; unfold Transport.Close; by destruct (shutdown t) eqn:E).
    destruct (raft_is_leader (raftId b) w).
    + destruct (raft_RemoveServer _ _ _ _ w) as [f w1]. destruct (RaftStore.Close _ _ _ _) as [[e d] st].
      intros [= <- <-]. simpl. auto.
    + destruct (removeServerByLeaderForwarding _ _ _ _ w) as [e1 w1]. destruct (raft_Shutdown _ w1) as [e2 w2].
      destruct (RaftStore.Close _ _ _ _) as [[e d] st]. intros [= <- <-]. simpl. auto.
  - split_and!.
    + intros i text. unfold ProposeInput. rewrite Hb. by eexists.
    + unfold ObserveStateChange. rewrite Hb. by eexists.
    + unfold ObserveMembershipChange. rewrite Hb. by eexists.
    + unfold Close. by rewrite Hb.
    + intros b' w'. unfold Open. rewrite Hb. destruct (NewRaftStore _ _ _ _ _ _) as [[st sn]|e]; [|done].
      destruct (raft_config _ _ _) as [config|e]; [|done].
      destruct (NewRaft _ _ _ _) as [[e|] w1]; [done|].
      destruct (open_node _ _ _ _ _ _) as [[[e|] w2]|]; [done| |done]. by intros [= <- <-].
Qed.

(** An Open that fails once the Raft node exists, e.g. as the node does not
    become the leader in time, leaves a binding that counts as open: opening
    it again returns nil, without any request being served. *)
Theorem failed_open_looks_open (fuel : nat) (wait : Z -> W -> goerr * W) (plog_Enabled : bool) (cfg : Config)
    (b b' : RaftBinding (W := W)) (w w' : W) (e : error) :
  raft b = false -> open fuel wait plog_Enabled cfg b w = Some (Some e, b', w') -> raft b' = true ->
  serving b' = serving b /\ open fuel wait plog_Enabled cfg b' w' = Some (None, b', w').
Proof.
  intros Hb Ho Hb'. split; [|unfold Open; by rewrite Hb']. revert Ho. unfold Open. rewrite Hb.
  destruct (NewRaftStore _ _ _ _ _ _) as [[st sn]|e1]; [|by intros [= <- <- <-]].
  destruct (raft_config _ _ _) as [config|e1]; [|by intros [= <- <- <-]].
  destruct (NewRaft _ _ _ _) as [[e1|] w1]; [by intros [= <- <- <-]|].
  destruct (open_node _ _ _ _ _ _) as [[[e1|] w2]|]; [by intros [= <- <- <-]|done..].
Qed.
End LifeCycle.

(** ** Closing while a forwarded request is handled

    [handleRpc] holds the transport's read lock until its RPC is answered by
    [processLeaderForwardingRPC], which takes the binding's lock; [Close]
    holds the binding's lock and takes the transport's write lock. *)

Module Locks.

Inductive lock_op :=
  | RLock_shutdown | RUnlock_shutdown      (* [t.shutdownMu], shared *)
  | Lock_shutdown | Unlock_shutdown        (* [t.shutdownMu], exclusive *)
  | Lock_mu | Unlock_mu                    (* [b.mu] *)
  | SendRpc | ReceiveRpc                   (* [lfwChan], unbuffered *)
  | SendResp | ReceiveResp.                (* the RPC's channel, buffered *)

Record locks := { readers : nat; writer : bool; mu : bool; resp : nat; progs : list (list lock_op) }.

Definition advance (i : nat) (rest : list lock_op) (s : locks) : list (list lock_op) := <[i := rest]> (progs s).

Inductive lock_step (s : locks) : locks -> Prop :=
  | do_rlock i rest :
      progs s !! i = Some (RLock_shutdown :: rest) -> writer s = false ->
      lock_step s {| readers := S (readers s); writer := false; mu := mu s; resp := resp s; progs := advance i rest s |}
  | do_runlock i rest n :
      progs s !! i = Some (RUnlock_shutdown :: rest) -> readers s = S n ->
      lock_step s {| readers := n; writer := writer s; mu := mu s; resp := resp s; progs := advance i rest s |}
  | do_lock i rest :
      progs s !! i = Some (Lock_shutdown :: rest) -> readers s = 0%nat -> writer s = false ->
      lock_step s {| readers := 0; writer := true; mu := mu s; resp := resp s; progs := advance i rest s |}
  | do_unlock i rest :
      progs s !! i = Some (Unlock_shutdown :: rest) -> writer s = true ->
      lock_step s {| readers := readers s; writer := false; mu := mu s; resp := resp s; progs := advance i rest s |}
  | do_lock_mu i rest :
      progs s !! i = Some (Lock_mu :: rest) -> mu s = false ->
      lock_step s {| readers := readers s; writer := writer s; mu := true; resp := resp s; progs := advance i rest s |}
  | do_unlock_mu i rest :
      progs s !! i = Some (Unlock_mu :: rest) -> mu s = true ->
      lock_step s {| readers := readers s; writer := writer s; mu := false; resp := resp s; progs := advance i rest s |}
  | do_rpc i j rest rest' :
      progs s !! i = Some (SendRpc :: rest) -> progs s !! j = Some (ReceiveRpc :: rest') -> i <> j ->
      lock_step s {| readers := readers s; writer := writer s; mu := mu s; resp := resp s;
                     progs := <[j := rest']> (advance i rest s) |}
  | do_send_resp i rest :
      progs s !! i = Some (SendResp :: rest) ->
      lock_step s {| readers := readers s; writer := writer s; mu := mu s; resp := S (resp s); progs := advance i rest s |}
  | do_receive_resp i rest n :
      progs s !! i = Some (ReceiveResp :: rest) -> resp s = S n ->
      lock_step s {| readers := readers s; writer := writer s; mu := mu s; resp := n; progs := advance i rest s |}.

Definition handleRpc_locks : list lock_op := [RLock_shutdown; SendRpc; ReceiveResp; RUnlock_shutdown].
Definition process_locks : list lock_op := [ReceiveRpc; Lock_mu; SendResp; Unlock_mu].
Definition Close_locks : list lock_op := [Lock_mu; Lock_shutdown; Unlock_shutdown; Unlock_mu].

Definition start : locks :=
  {| readers := 0; writer := false; mu := false; resp := 0; progs := [handleRpc_locks; process_locks; Close_locks] |}.

Definition stuck : locks :=
  {| readers := 1; writer := false; mu := true; resp := 0;
     progs := [[ReceiveResp; RUnlock_shutdown]; [Lock_mu; SendResp; Unlock_mu]; [Lock_shutdown; Unlock_shutdown; Unlock_mu]] |}.
End Locks.

(** A forwarded request and a concurrent [Close] can wait for each other for
    ever. *)
Theorem close_and_forwarded_request_deadlock :
  rtc Locks.lock_step Locks.start Locks.stuck /\ ~ exists s, Locks.lock_step Locks.stuck s.
Proof.
  split.
  - eapply rtc_l; [by apply (Locks.do_rlock _ 0 [Locks.SendRpc; Locks.ReceiveResp; Locks.RUnlock_shutdown])|].
    eapply rtc_l; [by eapply (Locks.do_rpc _ 0 1)|]. eapply rtc_l; [by eapply (Locks.do_lock_mu _ 2)|]. apply rtc_refl.
  - intros [s Hs]. inversion Hs as [i rest Hi|i rest n Hi|i rest Hi|i rest Hi|i rest Hi|i rest Hi|i j rest rest' Hi|i rest Hi|i rest n Hi];
      simpl in *; destruct i as [|[|[|i]]]; by simplify_eq/=.
Qed.

(** ** Concrete runs

    Two nodes, of which "n2" is the leader; the first node's requests are
    answered by the second. *)

Module Run.
Import MemEngine Transport.Run.
#[export] Existing Instance RaftStore.Run.run_order.
#[export] Existing Instance BitCodec.input_codec.

Record world := {
  rw_disk : Disk;
  rw_store : RaftStore.RaftStore PebbleBinding;
  rw_fsm : Fsm.RaftFsm;
  rw_log : list bytes;
  rw_leads : option bool;
}.

Definition apply (n : string) (c : slice) (t : Z) (w : world) : Future * world :=
  if String.eqb n "n2" then
    ({| f_Error := None; f_Index := 7; f_Response := None |},
     {| rw_disk := rw_disk w; rw_store := rw_store w; rw_fsm := rw_fsm w; rw_log := rw_log w ++ [sl c]; rw_leads := rw_leads w |})
  else ({| f_Error := Some hraft_ErrNotLeader; f_Index := 0; f_Response := None |}, w).

Definition done : Future := {| f_Error := None; f_Index := 7; f_Response := None |}.

#[export] Instance run_world : RaftWorld world :=
  {| SnapshotStore := unit;
     get_disk := fun _ => rw_disk; get_store := fun _ => rw_store; get_fsm := fun _ => rw_fsm;
     set_disk := fun _ d w => {| rw_disk := d; rw_store := rw_store w; rw_fsm := rw_fsm w; rw_log := rw_log w; rw_leads := rw_leads w |};
     set_store := fun _ s w => {| rw_disk := rw_disk w; rw_store := s; rw_fsm := rw_fsm w; rw_log := rw_log w; rw_leads := rw_leads w |};
     set_fsm := fun _ f w => {| rw_disk := rw_disk w; rw_store := rw_store w; rw_fsm := f; rw_log := rw_log w; rw_leads := rw_leads w |};
     DefaultConfig := {| hc_LocalID := ""; hc_HeartbeatTimeout := Second; hc_ElectionTimeout := Second;
       hc_SnapshotInterval := 120 * Second; hc_SnapshotThreshold := 8192; hc_CommitTimeout := 50 * Millisecond; hc_LogLevel := "DEBUG" |};
     NewRaft := fun _ _ _ w => (None, w);
     raft_Apply := apply;
     raft_AddVoter := fun _ _ _ _ _ w => (done, w);
     raft_RemoveServer := fun _ _ _ _ w => (done, w);
     raft_Barrier := fun _ _ w => (None, w);
     raft_Shutdown := fun _ w => (None, w);
     raft_BootstrapCluster := fun _ _ w => (None, w);
     raft_is_leader := fun n _ => String.eqb n "n2";
     raft_await_leader := fun _ _ w => (rw_leads w, w);
     ctx_Err := fun _ _ => None |}.

Definition node (id : string) : RaftBinding (W := world) :=
  {| raftId := id; raftDir := ""; raft := true; trans := NewRaftTransport None id; lfwTimeout := 5; serving := true |}.

Definition world0 (leads : option bool) : world :=
  {| rw_disk := ∅; rw_store := RaftStore.Run.store0; rw_fsm := NewRaftFsm ∅ 0 ∅; rw_log := []; rw_leads := leads |}.

Definition input : Input bytes := MkInput 1 "k" (Some [one]).
Definition cmd : slice := (EncodeMsgPack input).1.
Definition request : Action :=
  op_action (trans (node "n1")) op_Apply "" (EncodeMsgPack {| ap_Command := cmd; ap_Timeout := 0 |}).1.
Definition answer : ActionResult :=
  {| ar_Context := "n2";
     ar_Data := (EncodeMsgPack (MkRpcResponse (Some {| ap_Index := 7; ap_Response := None |}) "" false)).1;
     ar_DataContentType := ""; ar_SequenceNumber := 0 |}.

#[export] Instance Action_eq_dec : EqDecision Action.
Proof. solve_decision. Defined.

Definition PublishAction (ctx : Z) (act : Action) (scope : string) (w : world) : (Awaited + error) * world :=
  if decide (act = request) then (inl (AwaitResult answer), (apply "n2" cmd 0 w).2)
  else (inr (ErrText "unexpected"), w).

(** A communication service that is not connected at first. *)
Definition late_publish (ctx : Z) (act : Action) (scope : string) (w : world) : (Awaited + error) * world :=
  match rw_leads w with
  | None => (inr (ErrRetryable (ErrText "not connected")),
             {| rw_disk := rw_disk w; rw_store := rw_store w; rw_fsm := rw_fsm w; rw_log := rw_log w; rw_leads := Some true |})
  | Some _ => PublishAction ctx act scope w
  end.

Definition raft_consume (c : Command) (w : world) : RPCResponse * world :=
  ({| rr_Response := None; rr_Error := Some (ErrText "unexpected") |}, w).

Definition wait (d : Z) (w : world) : goerr * world := (None, w).

#[export] Instance run_laws : RaftLaws (W := world).
Proof.
  refine {| committed := rw_log |}.
  - intros n c t w f w'. unfold raft_Apply, run_world, apply. destruct (String.eqb n "n2"); intros [= <- <-]; [|done].
    by apply prefix_app_r.
  - intros n c t w f w'. unfold raft_Apply, run_world, apply. destruct (String.eqb n "n2"); intros [= <- <-]; [|done].
    intros _. exists [sl c]. split; [done|]. set_solver.
  - intros n t w e w' [= <- <-]. done.
Defined.

Lemma answers (w : world) :
  responds raft_consume (node "n2") request w answer (apply "n2" cmd 0 w).2.
Proof.
  intros cb. unfold request, op_action.
  pose proof (handle_operation (lfw_consumer raft_consume (node "n2")) op_Apply (trans (node "n1")) (trans (node "n2")) ""
    (EncodeMsgPack {| ap_Command := cmd; ap_Timeout := 0 |}).1 cb {| ap_Command := cmd; ap_Timeout := 0 |} w is_Apply
    ltac:(by_vm)) as Hh.
  etransitivity; [exact Hh|]. reflexivity.
Qed.

#[export] Instance run_network : Network PublishAction raft_consume.
Proof.
  split.
  - intros ctx act w r w'. unfold PublishAction. destruct (decide (act = request)); intros [= <- <-]; [|done].
    by apply prefix_app_r.
  - intros ctx act w ar w'. unfold PublishAction. destruct (decide (act = request)) as [->|]; intros [= <- <-].
    exists (node "n2"), w, (apply "n2" cmd 0 w).2. split_and!; [done|apply answers|done].
  - intros ctx act w e w'. unfold PublishAction. by destruct (decide (act = request)).
Qed.

#[export] Instance run_request_laws : MsgPackLaws ApplyRequest (fun _ => True) same_command.
Proof. by apply BitCodec.codec_via_laws. Qed.

#[export] Instance run_response_laws : ResponseLaws ApplyResponse plain_response eq.
Proof. apply Transport.Run.response_laws. by intros [? ?] [= ->]. Qed.

Definition committed_world : world := (apply "n2" cmd 0 (world0 None)).2.
Definition bootstrap_cfg : Config :=
  let c := Config.New "id" in
  {| Version := Version c; Identity_ := Identity_ c; Cluster := Cluster c; Apis := Apis c;
     Services := {| Com := Com (Services c); StoreSvc := StoreSvc (Services c);
       Config.State := {| state_Protocol := "raft"; Store := ""; Bootstrap := true; state_Disabled := false;
         state_Opts := <["snapshotThreshold" := AnyInt 3]> ∅ |} |} |}.
Definition closed_node : RaftBinding (W := world) :=
  {| raftId := ""; raftDir := ""; raft := false; trans := NewRaftTransport None ""; lfwTimeout := 0; serving := false |}.
Definition snapshot_store (d : string) (n : Z) : @SnapshotStore _ _ _ run_world + error := inl tt.
End Run.
Import MemEngine Transport.Run Run.

Lemma propose_committed_witness :
  ProposeInput Run.PublishAction 3 Run.wait Run.input "set k" (Run.node "n1") (Run.world0 None) = Some (None, Run.committed_world) /\
  exists c l, EncodeMsgPack Run.input = (c, None) /\ rw_log Run.committed_world = [] ++ l /\ sl c ∈ l.
Proof.
  assert (H : ProposeInput Run.PublishAction 3 Run.wait Run.input "set k" (Run.node "n1") (Run.world0 None)
    = Some (None, Run.committed_world)) by (vm_compute; reflexivity).
  split; [exact H|].
  exact (propose_committed Run.PublishAction Run.raft_consume 3 Run.wait Run.input "set k" (Run.node "n1")
    (Run.world0 None) Run.committed_world ltac:(by intros d v e v' [= <- <-]) H).
Defined.

(** The first node is a follower; forwarding fails at first, then the second
    node answers. *)
Lemma propose_succeeds_witness :
  ProposeInput Run.late_publish 2 Run.wait Run.input "set k" (Run.node "n1") (Run.world0 None) =
    Some (None, (Run.apply "n2" Run.cmd 0 (Run.world0 (Some true))).2).
Proof.
  apply (propose_succeeds Run.late_publish Run.raft_consume (fun r => eq_refl : assert_response (ResponseType := apply_response) (RespApply r) = Some r) (Run.node "n1") Run.cmd Run.wait Run.input
    "set k" 1 2 (Run.world0 None) (Run.world0 (Some true))); [reflexivity|by_vm| | |lia].
  - eapply retried_more; [|reflexivity|apply retried_none].
    apply (refused_unpublished _ _ _ _ _ (Run.world0 None) (ErrRetryable (ErrText "not connected")));
      [|by_vm|by left]. by eexists _, _.
  - apply (accepted_there _ _ _ _ _ (Run.world0 (Some true)) Run.answer _ (Run.node "n2") (Run.world0 (Some true)) Run.done
      (Run.apply "n2" Run.cmd 0 (Run.world0 (Some true))).2 (Run.apply "n2" Run.cmd 0 (Run.world0 (Some true))).2);
      [by eexists _, _|by_vm|apply Run.answers| |done..].
    exists {| ap_Command := Run.cmd; ap_Timeout := 0 |}. split_and!; [by_vm|done|done].
Defined.

Abbreviation run_open := (Open "uuid" Run.snapshot_store tt Run.PublishAction).

Lemma open_close_witness :
  exists b w, run_open 1 Run.wait false Run.bootstrap_cfg Run.closed_node (Run.world0 (Some true)) = Some (None, b, w) /\
    raft b = true /\ NodeId b = "id" /\
    run_open 1 Run.wait false Run.bootstrap_cfg b w = Some (None, b, w) /\
    raft (Close (fun _ d => d) Run.PublishAction b w).1 = false.
Proof.
  pose (o := run_open 1 Run.wait false Run.bootstrap_cfg Run.closed_node (Run.world0 (Some true))).
  destruct o as [[[[e|] b] w]|] eqn:E; [by vm_compute in E..| |by vm_compute in E]. exists b, w.
  destruct (proj2 (open_close "uuid" Run.snapshot_store tt (fun _ d => d) Run.PublishAction 1 Run.wait false Run.bootstrap_cfg
    Run.closed_node (Run.world0 (Some true))) eq_refl) as (_ & _ & _ & _ & Ho).
  destruct (Ho b w E) as (Hb & _ & _ & Hid & _).
  destruct (proj1 (open_close "uuid" Run.snapshot_store tt (fun _ d => d) Run.PublishAction 1 Run.wait false Run.bootstrap_cfg b w) Hb)
    as [Ha Hc].
  destruct (Close (fun _ d => d) Run.PublishAction b w) as [b' w'] eqn:Ec.
  destruct (Hc b' w' eq_refl) as (Hr & _). split_and!; [exact E|done|done|done|done].
Defined.

Example failed_open : exists e b w,
  run_open 1 Run.wait false Run.bootstrap_cfg Run.closed_node (Run.world0 None) = Some (Some e, b, w) /\
  raft b = true /\ serving b = false.
Proof. eexists _, _, _. split; [reflexivity|]. done. Qed.
