(* ===== verification/StateService.v ===== *)
(** * The state synchronization service
      ([services/state/raft/raft.go] over [services/state/raft/fsm.go])

    What the service promises its clients: the binding of one node, verified
    in RaftBinding against what the Raft library says about committed
    commands, and the state machines of all nodes, verified in Replication
    against the log of these commands, put together. *)

From S2P Require Import Prelude GoRuntime Services StateApi ComApi Pebble RaftStore Transport RaftBinding Fsm Replication.

Section StateService.
Context `{MapRange} `{PebbleEngine} `{HraftRpc}.
Context `{!MsgPack AppendEntriesRequest} `{!MsgPack RequestVoteRequest}
  `{!MsgPack installSnapshotRequestWithData} `{!MsgPack TimeoutNowRequest}
  `{!MsgPack (Input bytes)} `{!MsgPack (option (State bytes))}
  `{!MsgPack AddVoterRequest} `{!MsgPack RemoveServerRequest} `{EAP : !MsgPack ApplyRequest}
  `{!ResponseType AppendEntriesResponse} `{!ResponseType RequestVoteResponse}
  `{!ResponseType InstallSnapshotResponse} `{!ResponseType TimeoutNowResponse}
  `{!ResponseType AddVoterResponse} `{!ResponseType RemoveServerResponse} `{RAP : !ResponseType ApplyResponse}.
Context {W : Type} `{!RaftWorld W}.
Variable PublishAction : Z -> Action -> string -> W -> (Awaited + error) * W.
Variable raft_consume : Command -> W -> RPCResponse * W.
Context `{!RaftLaws} `{!Network PublishAction raft_consume}
  `{!MsgPackLaws ApplyRequest (fun _ => True) same_command} `{!ResponseLaws ApplyResponse plain_response eq}.
Context `{!MsgPackLaws (Input bytes) (fun _ => True) input_rel}
  `{!MsgPackLaws (option (State bytes)) (fun m => m <> None) snapshot_rel}.

(** The cluster's log begins with the committed commands. *)
Definition logs (w : W) (c : Cluster) : Prop := committed w `prefix_of` (sl <$> log c).

(** C2: what a successful proposal means to the readers of the state.  If
    [ProposeInput] returns nil for an input that sets or deletes a key, there
    is a position among the commands committed during the call such that
    [State], called on any node of the cluster that has passed it, however it
    got there, returns the value that was set under the key, or nothing under
    it after a delete, unless an entry after that position has set or deleted
    the key again. *)
Theorem proposal_replicated (fuel : nat) (wait : Z -> W -> goerr * W) (i : Input bytes) (text : string)
    (b : RaftBinding (W := W)) (w w' : W) :
  (forall d v e v', wait d v = (e, v') -> committed v `prefix_of` committed v') ->
  ProposeInput PublishAction fuel wait i text b w = Some (None, w') -> changes_state i ->
  exists k, (length (committed w) <= k < length (committed w'))%nat /\
    forall c id n, runs cluster_init c -> logs w' c -> nodes c !! id = Some n -> (k < index n)%nat ->
      (forall j e, (k < j < index n)%nat -> log c !! j = Some e -> ~ touches e (Key i)) ->
      exists m f', State_ (fsm (sys n)) = Ret m f' /\
        contents (mem f') m !! Key i = if decide (Op i = InputOpSet) then Some (sl (Value i)) else None.
Proof.
  intros Hwait Hp Hch.
  destruct (proposal_commits _ _ fuel wait i text b w w' Hwait Hp) as (cmd & l & He & Hl & [p Hpos]%list_elem_of_lookup).
  exists (length (committed w) + p)%nat. pose proof (lookup_lt_Some _ _ _ Hpos).
  split; [rewrite Hl, length_app; lia|]. intros c id n Hr [rest Hlog] Hn Hi Hno.
  destruct (node_State c id n Hr Hn) as (m & f' & HS & Hv). exists m, f'. split; [done|]. rewrite Hv.
  assert ((sl <$> log c) !! (length (committed w) + p)%nat = Some (sl cmd)) as He2.
  { rewrite Hlog, Hl, <- app_assoc, lookup_app_r by lia.
    rewrite Nat.add_comm, Nat.add_sub, lookup_app_l by done. done. }
  apply list_lookup_fmap_Some in He2 as (e & Hsl & Hle).
  by eapply committed_visible.
Qed.
End StateService.

(** ** A concrete run

    Node [n1] forwards a proposal to the leader [n2]; a node of the cluster
    has applied the committed entry. *)

Module Run.
Export Pebble.MemEngine Transport.Run RaftBinding.Run.
#[export] Existing Instance BitCodec.snapshot_codec.

#[export] Instance input_laws : MsgPackLaws (Input bytes) (fun _ => True) input_rel.
Proof. by apply BitCodec.codec_laws. Qed.

#[export] Instance snapshot_laws : MsgPackLaws (option (State bytes)) (fun m => m <> None) snapshot_rel.
Proof. by apply BitCodec.codec_laws. Qed.

Definition reader : Node :=
  {| sys := with_fsm (Fsm.Run.exec (Apply cmd) (fsm (sys new_node))) (sys new_node); index := 1; taken := [] |}.
Definition with_entry : Cluster :=
  {| log := [cmd]; nodes := nodes (set_node "n3" new_node cluster_init); stored := [] |}.
Definition cluster : Cluster := set_node "n3" reader with_entry.

Lemma cluster_runs : runs cluster_init cluster.
Proof.
  eapply runs_step; [eapply runs_step; [eapply runs_step; [constructor|by apply cs_start]|]|].
  - by apply (cs_commit (set_node "n3" new_node cluster_init) cmd).
  - eapply (cs_apply with_entry "n3" new_node cmd None); [by vm_compute|done|by_vm].
Qed.
End Run.

Import Run.

Lemma proposal_replicated_witness :
  exists m f', State_ (fsm (sys Run.reader)) = Ret m f' /\ contents (Fsm.mem f') m !! "k" = Some [one].
Proof.
  destruct (proposal_replicated Run.PublishAction Run.raft_consume 3 Run.wait Run.input "set k" (Run.node "n1")
    (Run.world0 None) Run.committed_world ltac:(by intros d v e v' [= <- <-]))
    as (k & Hk & Hread).
  - vm_compute. reflexivity.
  - left. reflexivity.
  - assert (k = 0%nat) as -> by (simpl in Hk; lia).
    refine (Hread Run.cluster "n3" Run.reader Run.cluster_runs _ _ _ _).
    + exists []. reflexivity.
    + apply lookup_insert_eq.
    + simpl. lia.
    + intros j e Hj. simpl in Hj. lia.
Defined.
