(* ===== verification/Grpc.v ===== *)
(** * The gRPC server ([apis/grpc/grpc.go], [apis/grpc/grpcweb.go])

    The handlers of the three services, over the communication, store and
    state services of the agent.  The generated stubs are represented by the
    fields of their messages; the streams, the network and the services the
    handlers call are parameters acting on a world. *)

From stdpp Require Import pretty.
From S2P Require Import Prelude GoRuntime Services GoStrings Config StoreApi Pebble ComApi StateApi.

(** ** Messages of the stubs

    A message's getters yield the fields of a message, and zero values for a
    nil message. *)

Record PbEvent := { pe_Type : string; pe_Id : string; pe_Source : string; pe_Time : string; pe_Data : slice;
  pe_DataContentType : string }.
Record PbAction := { pa_Type : string; pa_Id : string; pa_Source : string; pa_Params : slice; pa_DataContentType : string }.
Record PbActionResult := { par_Context : string; par_Data : slice; par_DataContentType : string; par_SequenceNumber : Z }.
Record PbQuery := { pq_Type : string; pq_Id : string; pq_Source : string; pq_Data : slice; pq_DataContentType : string }.
Record PbQueryResult := { pqr_Context : string; pqr_Data : slice; pqr_DataContentType : string; pqr_SequenceNumber : Z }.
Record PbActionCorrelated := { pac_Action : PbAction; pac_CorrelationId : string }.
Record PbQueryCorrelated := { pqc_Query : PbQuery; pqc_CorrelationId : string }.
Record PbActionResultCorrelated := { parc_Result : option PbActionResult; parc_CorrelationId : string }.
Record PbQueryResultCorrelated := { pqrc_Result : option PbQueryResult; pqrc_CorrelationId : string }.
Record PbSubscriptionFilter := { pf_Type : string; pf_Share : string }.
Record PbKey := { pk_Key : string }.
Record PbValue := { pv_Value : slice }.      (* explicit presence *)
Record PbKeyValue := { pkv_Key : string; pkv_Value : slice }.
Record PbRange := { pr_Start : string; pr_End : string }.
Record PbInput := { pi_Op : Z; pi_Key : string; pi_Value : slice }.
Record PbMembershipChange := { pm_Id : string; pm_Joined : bool }.

(** [result.GetResult()] may be nil. *)
Definition nil_ActionResult : PbActionResult :=
  {| par_Context := ""; par_Data := None; par_DataContentType := ""; par_SequenceNumber := 0 |}.
Definition nil_QueryResult : PbQueryResult :=
  {| pqr_Context := ""; pqr_Data := None; pqr_DataContentType := ""; pqr_SequenceNumber := 0 |}.

(** A bytes field without explicit presence as the server receives it: an
    empty value is not transmitted, so that its slice is nil. *)
Definition received_bytes (v : bytes) : slice := match v with [] => None | _ => Some v end.

(** ** Errors *)

Inductive Code := Unavailable | InvalidArgument.
Record Status := MkStatus { st_Code : Code; st_Message : string }.

(** What a handler returns: a status, or an error of the stream. *)
Inductive RpcError := StatusErr (s : Status) | RawErr (e : goerr).

Definition codeByError (err : goerr) : Code := if IsRetryable err then Unavailable else InvalidArgument.

(** [status.Errorf(s.codeByError(err), "...: %v", err)] *)
Definition status_of (what : string) (err : error) : Status :=
  MkStatus (codeByError (Some err)) (what +:+ ": " +:+ Error err).

Definition serviceDisabledError (srv : string) : RpcError :=
  StatusErr (status_of "failed" (ErrRetryable (ErrText ("service " +:+ srv +:+ " is disabled")))).

Section Grpc.
(** The world, the contexts of subscriptions, and the store. *)
Context {W Ctx B : Type} `{StoreApi B}.

(** *** The services

    Subscribing and publishing with responses yield the context whose
    cancelation ends them; what their channels deliver is given to the
    handlers as a sequence of stream steps. *)

Abbreviation ActionCallback := (ActionResult -> W -> goerr * W).
Abbreviation QueryCallback := (QueryResult -> W -> goerr * W).

Record ComService := {
  cs_PublishEvent : Event -> W -> goerr * W;
  cs_SubscribeEvent : SubscriptionFilter -> W -> (Ctx + error) * W;
  cs_PublishAction : Action -> W -> (Ctx + error) * W;
  cs_SubscribeAction : SubscriptionFilter -> W -> (Ctx + error) * W;
  cs_PublishQuery : Query -> W -> (Ctx + error) * W;
  cs_SubscribeQuery : SubscriptionFilter -> W -> (Ctx + error) * W;
}.

Record StateService := {
  ss_ProposeInput : Input bytes -> W -> goerr * W;
  ss_ObserveStateChange : W -> (Ctx + error) * W;
  ss_ObserveMembershipChange : W -> (Ctx + error) * W;
}.

(** [cancel()], and [uuid.NewString()] *)
Variable cancel : Ctx -> W -> W.
Variable NewString : W -> string * W.

Record grpcServer := {
  comApi : option ComService;
  storeApi : option B;
  stateApi : option StateService;
  srv : bool;                            (* the gRPC server, non-nil *)
  httpSrv : option string;               (* the address of the gRPC-Web server *)
  actionCallbacks : gmap string ActionCallback;
  queryCallbacks : gmap string QueryCallback;
}.

Definition New (com : option ComService) (store : option B) (state : option StateService) : grpcServer :=
  {| comApi := com; storeApi := store; stateApi := state; srv := false; httpSrv := None;
     actionCallbacks := ∅; queryCallbacks := ∅ |}.

Definition set_store (b : B) (s : grpcServer) : grpcServer :=
  {| comApi := comApi s; storeApi := Some b; stateApi := stateApi s; srv := srv s; httpSrv := httpSrv s;
     actionCallbacks := actionCallbacks s; queryCallbacks := queryCallbacks s |}.
Definition set_servers (sv : bool) (http : option string) (s : grpcServer) : grpcServer :=
  {| comApi := comApi s; storeApi := storeApi s; stateApi := stateApi s; srv := sv; httpSrv := http;
     actionCallbacks := actionCallbacks s; queryCallbacks := queryCallbacks s |}.
Definition set_callbacks (a : gmap string ActionCallback) (q : gmap string QueryCallback) (s : grpcServer) : grpcServer :=
  {| comApi := comApi s; storeApi := storeApi s; stateApi := stateApi s; srv := srv s; httpSrv := httpSrv s;
     actionCallbacks := a; queryCallbacks := q |}.

(** *** Streams *)

Record ServerStream (P : Type) := {
  st_SendHeader : W -> goerr * W;
  st_Send : P -> W -> goerr * W;
  st_Done : W -> bool;              (* whether the stream's context is done *)
}.
#[global] Arguments st_SendHeader {_} _ _.
#[global] Arguments st_Send {_} _ _ _.
#[global] Arguments st_Done {_} _ _.

(** What the [select] of a stream's loop receives. *)
Inductive StreamStep (A : Type) :=
  | Item (a : A)
  | ChanClosed
  | StreamDone (err : goerr).
#[global] Arguments Item {_} _.
#[global] Arguments ChanClosed {_}.
#[global] Arguments StreamDone {_} _.

(** A handler's outcome: [None] while its loop goes on. *)
Abbreviation Streaming := (option (option RpcError)).

(** The loop: an item is sent, after what [prepare] does for it; a failing
    send is logged only. *)
Fixpoint stream_loop {A P} (prepare : A -> grpcServer * W -> P * (grpcServer * W)) (stream : ServerStream P)
    (steps : list (StreamStep A)) (sw : grpcServer * W) : Streaming * (grpcServer * W) :=
  match steps with
  | [] => (None, sw)
  | Item a :: steps =>
      let '(p, (s, w)) := prepare a sw in
      let '(_, w) := st_Send stream p w in stream_loop prepare stream steps (s, w)
  | ChanClosed :: _ => (Some None, sw)
  | StreamDone err :: _ => (Some (Some (RawErr err)), sw)
  end.

(** The deferred [cancel()] *)
Definition with_cancel (ctx : Ctx) (r : Streaming * (grpcServer * W)) : Streaming * (grpcServer * W) :=
  match r with
  | (Some e, (s, w)) => (Some e, (s, cancel ctx w))
  | r => r
  end.

(** The shape shared by the streaming handlers: start the subscription (or
    publication), send the header if [header], run the loop. *)
Definition serve_stream {A P} (start : W -> (Ctx + error) * W) (failed : string) (header : bool)
    (prepare : A -> grpcServer * W -> P * (grpcServer * W)) (stream : ServerStream P) (steps : list (StreamStep A))
    (s : grpcServer) (w : W) : Streaming * (grpcServer * W) :=
  match start w with
  | (inr err, w) => (Some (Some (StatusErr (status_of failed err))), (s, w))
  | (inl ctx, w) =>
      with_cancel ctx
        (match (if header then st_SendHeader stream w else (None, w)) with
         | (Some err, w) => (Some (Some (RawErr (Some err))), (s, w))
         | (None, w) => stream_loop prepare stream steps (s, w)
         end)
  end.

Definition disabled (srv : string) (s : grpcServer) (w : W) : Streaming * (grpcServer * W) :=
  (Some (Some (serviceDisabledError srv)), (s, w)).

(** An item that is only converted. *)
Definition convert {A P} (f : A -> P) (a : A) (sw : grpcServer * W) : P * (grpcServer * W) := (f a, sw).

Definition filter_of (filter : PbSubscriptionFilter) : SubscriptionFilter :=
  {| sf_Scope := ""; sf_Type := pf_Type filter; sf_Share := pf_Share filter |}.

(** *** The communication service *)

Definition PublishEvent (event : PbEvent) (s : grpcServer) (w : W) : (unit + RpcError) * W :=
  match comApi s with
  | None => (inr (serviceDisabledError "com"), w)
  | Some com =>
      match cs_PublishEvent com {| ev_Type := pe_Type event; ev_Id := pe_Id event; ev_Source := pe_Source event;
              ev_Time := pe_Time event; ev_Data := pe_Data event; ev_DataContentType := pe_DataContentType event |} w with
      | (Some err, w) => (inr (StatusErr (status_of "failed publishing Event" err)), w)
      | (None, w) => (inl tt, w)
      end
  end.

Definition pb_event (evt : Event) : PbEvent :=
  {| pe_Type := ev_Type evt; pe_Id := ev_Id evt; pe_Source := ev_Source evt; pe_Time := ev_Time evt;
     pe_Data := ev_Data evt; pe_DataContentType := ev_DataContentType evt |}.

Definition SubscribeEvent (filter : PbSubscriptionFilter) (stream : ServerStream PbEvent)
    (steps : list (StreamStep Event)) (s : grpcServer) (w : W) : Streaming * (grpcServer * W) :=
  match comApi s with
  | None => disabled "com" s w
  | Some com => serve_stream (cs_SubscribeEvent com (filter_of filter)) "failed subscribing Event" true
                  (convert pb_event) stream steps s w
  end.

Definition pb_action_result (res : ActionResult) : PbActionResult :=
  {| par_Context := ar_Context res; par_Data := ar_Data res; par_DataContentType := ar_DataContentType res;
     par_SequenceNumber := ar_SequenceNumber res |}.

Definition PublishAction (action : PbAction) (stream : ServerStream PbActionResult)
    (steps : list (StreamStep ActionResult)) (s : grpcServer) (w : W) : Streaming * (grpcServer * W) :=
  match comApi s with
  | None => disabled "com" s w
  | Some com =>
      serve_stream (cs_PublishAction com {| ac_Type := pa_Type action; ac_Id := pa_Id action; ac_Source := pa_Source action;
          ac_Params := pa_Params action; ac_DataContentType := pa_DataContentType action |})
        "failed publishing Action" true (convert pb_action_result) stream steps s w
  end.

(** A received action is registered under a new correlation id. *)
Definition register_action (act : ActionWithCallback ActionCallback) (sw : grpcServer * W)
    : PbActionCorrelated * (grpcServer * W) :=
  let '(s, w) := sw in
  let '(cid, w) := NewString w in
  let a := awc_Action act in
  ({| pac_Action := {| pa_Type := ac_Type a; pa_Id := ac_Id a; pa_Source := ac_Source a; pa_Params := ac_Params a;
                       pa_DataContentType := ac_DataContentType a |};
      pac_CorrelationId := cid |},
   (set_callbacks (<[cid := awc_Callback act]> (actionCallbacks s)) (queryCallbacks s) s, w)).

Definition SubscribeAction (filter : PbSubscriptionFilter) (stream : ServerStream PbActionCorrelated)
    (steps : list (StreamStep (ActionWithCallback ActionCallback))) (s : grpcServer) (w : W)
    : Streaming * (grpcServer * W) :=
  match comApi s with
  | None => disabled "com" s w
  | Some com => serve_stream (cs_SubscribeAction com (filter_of filter)) "failed subscribing Action" true
                  register_action stream steps s w
  end.

(** The result published for a correlated result, which may lack one. *)
Definition action_result (result : PbActionResultCorrelated) : ActionResult :=
  let res := default nil_ActionResult (parc_Result result) in
  {| ar_Context := par_Context res; ar_Data := par_Data res; ar_DataContentType := par_DataContentType res;
     ar_SequenceNumber := par_SequenceNumber res |}.

(** Under the lock: no more results follow one that is not numbered. *)
Definition forget_action (cid : string) (seq : Z) (s : grpcServer) : grpcServer :=
  if seq <=? 0 then set_callbacks (delete cid (actionCallbacks s)) (queryCallbacks s) s else s.

Definition PublishActionResult (result : PbActionResultCorrelated) (s : grpcServer) (w : W)
    : (unit + RpcError) * (grpcServer * W) :=
  match comApi s with
  | None => (inr (serviceDisabledError "com"), (s, w))
  | Some com =>
      match actionCallbacks s !! parc_CorrelationId result with
      | None => (inr (StatusErr (MkStatus InvalidArgument "failed publishing ActionResult: unknown correlation id")), (s, w))
      | Some cb =>
          let res := action_result result in
          let s := forget_action (parc_CorrelationId result) (ar_SequenceNumber res) s in
          match cb res w with
          | (Some err, w) => (inr (StatusErr (status_of "failed publishing ActionResult" err)), (s, w))
          | (None, w) => (inl tt, (s, w))
          end
      end
  end.

Definition pb_query_result (res : QueryResult) : PbQueryResult :=
  {| pqr_Context := qr_Context res; pqr_Data := qr_Data res; pqr_DataContentType := qr_DataContentType res;
     pqr_SequenceNumber := qr_SequenceNumber res |}.

Definition PublishQuery (query : PbQuery) (stream : ServerStream PbQueryResult)
    (steps : list (StreamStep QueryResult)) (s : grpcServer) (w : W) : Streaming * (grpcServer * W) :=
  match comApi s with
  | None => disabled "com" s w
  | Some com =>
      serve_stream (cs_PublishQuery com {| qu_Type := pq_Type query; qu_Id := pq_Id query; qu_Source := pq_Source query;
          qu_Data := pq_Data query; qu_DataContentType := pq_DataContentType query |})
        "failed publishing Query" true (convert pb_query_result) stream steps s w
  end.

Definition register_query (qry : QueryWithCallback QueryCallback) (sw : grpcServer * W)
    : PbQueryCorrelated * (grpcServer * W) :=
  let '(s, w) := sw in
  let '(cid, w) := NewString w in
  let q := qwc_Query qry in
  ({| pqc_Query := {| pq_Type := qu_Type q; pq_Id := qu_Id q; pq_Source := qu_Source q; pq_Data := qu_Data q;
                      pq_DataContentType := qu_DataContentType q |};
      pqc_CorrelationId := cid |},
   (set_callbacks (actionCallbacks s) (<[cid := qwc_Callback qry]> (queryCallbacks s)) s, w)).

Definition SubscribeQuery (filter : PbSubscriptionFilter) (stream : ServerStream PbQueryCorrelated)
    (steps : list (StreamStep (QueryWithCallback QueryCallback))) (s : grpcServer) (w : W)
    : Streaming * (grpcServer * W) :=
  match comApi s with
  | None => disabled "com" s w
  | Some com => serve_stream (cs_SubscribeQuery com (filter_of filter)) "failed subscribing Query" true
                  register_query stream steps s w
  end.

Definition query_result (result : PbQueryResultCorrelated) : QueryResult :=
  let res := default nil_QueryResult (pqrc_Result result) in
  {| qr_Context := pqr_Context res; qr_Data := pqr_Data res; qr_DataContentType := pqr_DataContentType res;
     qr_SequenceNumber := pqr_SequenceNumber res |}.

Definition forget_query (cid : string) (seq : Z) (s : grpcServer) : grpcServer :=
  if seq <=? 0 then set_callbacks (actionCallbacks s) (delete cid (queryCallbacks s)) s else s.

Definition PublishQueryResult (result : PbQueryResultCorrelated) (s : grpcServer) (w : W)
    : (unit + RpcError) * (grpcServer * W) :=
  match comApi s with
  | None => (inr (serviceDisabledError "com"), (s, w))
  | Some com =>
      match queryCallbacks s !! pqrc_CorrelationId result with
      | None => (inr (StatusErr (MkStatus InvalidArgument "failed publishing QueryResult: unknown correlation id")), (s, w))
      | Some cb =>
          let res := query_result result in
          let s := forget_query (pqrc_CorrelationId result) (qr_SequenceNumber res) s in
          match cb res w with
          | (Some err, w) => (inr (StatusErr (status_of "failed publishing QueryResult" err)), (s, w))
          | (None, w) => (inl tt, (s, w))
          end
      end
  end.

(** *** The store service *)

(** A call of a store operation that yields an error only. *)
Definition store_ack (s : grpcServer) (r : B -> goerr * B) : (unit + RpcError) * grpcServer :=
  match storeApi s with
  | None => (inr (serviceDisabledError "store"), s)
  | Some b =>
      match r b with
      | (Some err, b) => (inr (StatusErr (status_of "failed" err)), set_store b s)
      | (None, b) => (inl tt, set_store b s)
      end
  end.

Definition Get (key : PbKey) (s : grpcServer) : PbValue + RpcError :=
  match storeApi s with
  | None => inr (serviceDisabledError "store")
  | Some b =>
      match api_Get b (pk_Key key) with
      | (_, Some err) => inr (StatusErr (status_of "failed" err))
      | (val, None) => inl {| pv_Value := val |}   (* not present if there is no such key *)
      end
  end.

Definition Set_ (kv : PbKeyValue) (s : grpcServer) : (unit + RpcError) * grpcServer :=
  store_ack s (fun b => api_Set b (pkv_Key kv) (pkv_Value kv)).
Definition Delete (key : PbKey) (s : grpcServer) : (unit + RpcError) * grpcServer :=
  store_ack s (fun b => api_Delete b (pk_Key key)).
Definition DeletePrefix (key : PbKey) (s : grpcServer) : (unit + RpcError) * grpcServer :=
  store_ack s (fun b => api_DeletePrefix b (pk_Key key)).
Definition DeleteRange (r : PbRange) (s : grpcServer) : (unit + RpcError) * grpcServer :=
  store_ack s (fun b => api_DeleteRange b (pr_Start r) (pr_End r)).

(** [None] is a lack of fuel. *)
Definition DeleteAll (fuel : nat) (s : grpcServer) : option ((unit + RpcError) * grpcServer) :=
  match storeApi s with
  | None => Some (inr (serviceDisabledError "store"), s)
  | Some b =>
      match api_DeleteAll fuel b with
      | None => None
      | Some r => Some (store_ack s (fun _ => r))
      end
  end.

(** The callback of a scan: stops once the call is canceled or a send fails. *)
Definition scan_callback (stream : ServerStream PbKeyValue) : ScanKeyValue W := fun key value w =>
  if st_Done stream w then (false, w)
  else
    match st_Send stream {| pkv_Key := key; pkv_Value := Some value |} w with
    | (Some err, w) => (false, w)
    | (None, w) => (true, w)
    end.

Definition finish_scan (r : option (goerr * W)) : option (option RpcError * W) :=
  match r with
  | None => None
  | Some (Some err, w) => Some (Some (StatusErr (status_of "failed" err)), w)
  | Some (None, w) => Some (None, w)
  end.

Definition ScanPrefix (fuel : nat) (key : PbKey) (stream : ServerStream PbKeyValue) (s : grpcServer) (w : W)
    : option (option RpcError * W) :=
  match storeApi s with
  | None => Some (Some (serviceDisabledError "store"), w)
  | Some b => finish_scan (api_ScanPrefix fuel b (pk_Key key) (scan_callback stream) w)
  end.

Definition ScanRange (fuel : nat) (r : PbRange) (stream : ServerStream PbKeyValue) (s : grpcServer) (w : W)
    : option (option RpcError * W) :=
  match storeApi s with
  | None => Some (Some (serviceDisabledError "store"), w)
  | Some b => finish_scan (api_ScanRange fuel b (pr_Start r) (pr_End r) (scan_callback stream) w)
  end.

(** *** The state service *)

(** [stateapi.InputOp] is an [int], the operation of the message an enum. *)
Definition ProposeInput (input : PbInput) (s : grpcServer) (w : W) : (unit + RpcError) * W :=
  match stateApi s with
  | None => (inr (serviceDisabledError "state"), w)
  | Some st =>
      match ss_ProposeInput st (MkInput (pi_Op input) (pi_Key input) (pi_Value input)) w with
      | (Some err, w) => (inr (StatusErr (status_of "failed" err)), w)
      | (None, w) => (inl tt, w)
      end
  end.

(** [state.InputOperation(in.Op)] is an [int32]. *)
Definition pb_input (i : Input bytes) : PbInput :=
  {| pi_Op := swrap 32 (Op i); pi_Key := Key i; pi_Value := Value i |}.

Definition ObserveStateChange (stream : ServerStream PbInput) (steps : list (StreamStep (Input bytes)))
    (s : grpcServer) (w : W) : Streaming * (grpcServer * W) :=
  match stateApi s with
  | None => disabled "state" s w
  | Some st => serve_stream (ss_ObserveStateChange st) "failed observing state changes" false
                 (convert pb_input) stream steps s w
  end.

Definition pb_membership (mc : MembershipChange) : PbMembershipChange :=
  {| pm_Id := StateApi.Id mc; pm_Joined := Joined mc |}.

Definition ObserveMembershipChange (stream : ServerStream PbMembershipChange) (steps : list (StreamStep MembershipChange))
    (s : grpcServer) (w : W) : Streaming * (grpcServer * W) :=
  match stateApi s with
  | None => disabled "state" s w
  | Some st => serve_stream (ss_ObserveMembershipChange st) "failed observing membership changes" false
                 (convert pb_membership) stream steps s w
  end.

(** *** Opening and closing *)

(** [credentials.NewServerTLSFromFile] and [tls.LoadX509KeyPair]; [os.Remove]
    (an error other than [os.IsNotExist]); [net.Listen] *)
Variable load_pair : string -> string -> W -> goerr.
Variable os_Remove : string -> W -> goerr * W.
Variable net_Listen : string -> string -> W -> goerr * W.
Variable http_Listen : string -> W -> W.
(** [s.srv.Stop()] and [s.httpSrv.Close()] *)
Variable srv_Stop : W -> W.
Variable http_Close : string -> W -> W.

Definition makeHttpOriginFunc (origins : list string) : string -> bool :=
  if Nat.eqb (length origins) 0 then fun _ => true
  else
    let originSet : gset string := list_to_set origins in
    fun origin => bool_decide (origin ∈ originSet).

Definition uses_tls (cfg : Config) : bool :=
  negb (String.eqb (apis_Cert (Apis cfg)) "") && negb (String.eqb (apis_Key (Apis cfg)) "").

(** The web server's address once it is opened. *)
Definition openWebServer (cfg : Config) (w : W) : goerr * option string * W :=
  if web_Disabled (GrpcWeb (Apis cfg)) then (None, None, w)
  else
    let address := web_Address (GrpcWeb (Apis cfg)) in
    if uses_tls cfg then
      match load_pair (apis_Cert (Apis cfg)) (apis_Key (Apis cfg)) w with
      | Some err =>
          (Some (ErrText ("invalid or missing PEM file in DDA configuration under 'apis.cert/.key' : " +:+ Error err)), None, w)
      | None => (None, Some address, http_Listen address w)
      end
    else (None, Some address, http_Listen address w).

(** The protocol and address to listen on; the socket file to remove before. *)
Definition listen_address (address : string) : string * string * option string :=
  match strings_CutPrefix address "unix:" with
  | (sockfile, true) => ("unix", sockfile, Some sockfile)
  | (_, false) => ("tcp", address, None)
  end.

(** The server is created before it listens: an error after that leaves it. *)
Definition Open (cfg : Config) (s : grpcServer) (w : W) : goerr * grpcServer * W :=
  if srv s then (None, s, w)
  else
    match (if uses_tls cfg then load_pair (apis_Cert (Apis cfg)) (apis_Key (Apis cfg)) w else None) with
    | Some err => (Some err, s, w)
    | None =>
        let s := set_servers true (httpSrv s) s in
        let '(protocol, address, sockfile) := listen_address (Address (Grpc (Apis cfg))) in
        match (match sockfile with Some f => os_Remove f w | None => (None, w) end) with
        | (Some err, w) => (Some err, s, w)
        | (None, w) =>
            match net_Listen protocol address w with
            | (Some err, w) => (Some err, s, w)
            | (None, w) =>
                match openWebServer cfg w with
                | (Some err, _, w) => (Some err, s, w)
                | (None, Some a, w) => (None, set_servers true (Some a) s, w)
                | (None, None, w) => (None, s, w)
                end
            end
        end
    end.

Definition closeWebServer (s : grpcServer) (w : W) : grpcServer * W :=
  match httpSrv s with
  | None => (s, w)
  | Some a => (set_servers (srv s) None s, http_Close a w)
  end.

Definition Close (s : grpcServer) (w : W) : grpcServer * W :=
  if srv s then
    let w := srv_Stop w in
    let '(s, w) := closeWebServer (set_servers false (httpSrv s) s) w in
    (set_callbacks ∅ ∅ s, w)
  else (s, w).
End Grpc.

(** ** Streams forward what the services deliver *)

Section Streams.
Context {W Ctx B : Type}.
Variable cancel : Ctx -> W -> W.

(** Sending every message, whatever becomes of each. *)
Fixpoint send_all {P} (stream : ServerStream (W := W) P) (ps : list P) (w : W) : W :=
  match ps with
  | [] => w
  | p :: ps => send_all stream ps (st_Send stream p w).2
  end.

Lemma stream_loop_items {A P} (f : A -> P) stream (items : list A) rest (s : grpcServer (Ctx := Ctx) (B := B)) (w : W) :
  stream_loop (convert f) stream ((Item <$> items) ++ rest) (s, w) =
  stream_loop (convert f) stream rest (s, send_all stream (f <$> items) w).
Proof.
  revert w. induction items as [|a items IH]; intros w; [done|]. simpl.
  destruct (st_Send stream (f a) w) as [e w1]. simpl. apply IH.
Qed.

(** How a stream ends, and the handler's result. *)
Inductive stream_end {A : Type} : list (StreamStep A) -> option RpcError -> Prop :=
  | end_closed (rest : list (StreamStep A)) : stream_end (ChanClosed :: rest) None
  | end_done err (rest : list (StreamStep A)) : stream_end (StreamDone err :: rest) (Some (RawErr err)).

Lemma serve_stream_items {A P} (f : A -> P) (start : W -> (Ctx + error) * W) failed (header : bool) (stream : ServerStream P) (items : list A) rest out
    (s : grpcServer (Ctx := Ctx) (B := B)) (w w1 w2 : W) ctx :
  start w = (inl ctx, w1) -> (if header then st_SendHeader stream w1 else (None, w1)) = (None, w2) -> stream_end rest out ->
  serve_stream cancel start failed header (convert f) stream ((Item <$> items) ++ rest) s w =
    (Some out, (s, cancel ctx (send_all stream (f <$> items) w2))) /\
  serve_stream cancel start failed header (convert f) stream (Item <$> items) s w =
    (None, (s, send_all stream (f <$> items) w2)).
Proof.
  intros Hs Hh He. unfold serve_stream. rewrite Hs, Hh, stream_loop_items.
  rewrite <- (app_nil_r (Item <$> items)), stream_loop_items. by destruct He.
Qed.

(** a stream forwards everything.  Once an event subscription (or a state
    observation) is made and acknowledged, every event delivered on its
    channel is sent to the client unchanged and in order, whether or not
    earlier sends failed; the handler goes on until the channel is closed,
    when it succeeds, or the client cancels, when it returns the stream's
    error; and then the subscription is canceled. *)
Theorem streams_forward (s : grpcServer (Ctx := Ctx) (B := B)) (com : ComService) (st : StateService)
    (filter : PbSubscriptionFilter) (stream : ServerStream PbEvent) (istream : ServerStream PbInput)
    (evts : list Event) (inputs : list (Input bytes)) (w w1 w2 : W) (ctx : Ctx)
    (rest : list (StreamStep Event)) (irest : list (StreamStep (Input bytes))) (out iout : option RpcError) :
  comApi s = Some com -> stateApi s = Some st -> stream_end rest out -> stream_end irest iout ->
  (cs_SubscribeEvent com {| sf_Scope := ""; sf_Type := pf_Type filter; sf_Share := pf_Share filter |} w = (inl ctx, w1) ->
   st_SendHeader stream w1 = (None, w2) ->
   SubscribeEvent cancel filter stream ((Item <$> evts) ++ rest) s w =
     (Some out, (s, cancel ctx (send_all stream (pb_event <$> evts) w2))) /\
   SubscribeEvent cancel filter stream (Item <$> evts) s w = (None, (s, send_all stream (pb_event <$> evts) w2))) /\
  (ss_ObserveStateChange st w = (inl ctx, w1) ->
   ObserveStateChange cancel istream ((Item <$> inputs) ++ irest) s w =
     (Some iout, (s, cancel ctx (send_all istream (pb_input <$> inputs) w1))) /\
   ObserveStateChange cancel istream (Item <$> inputs) s w = (None, (s, send_all istream (pb_input <$> inputs) w1))).
Proof.
  intros Hc Hst He Hie. unfold SubscribeEvent, ObserveStateChange. rewrite Hc, Hst. split.
  - intros Hsub Hh. by apply (serve_stream_items pb_event _ _ true stream evts rest out s w w1 w2 ctx).
  - intros Hsub. by apply (serve_stream_items pb_input _ _ false istream inputs irest iout s w w1 w1 ctx).
Qed.
End Streams.

(** ** The store service *)

Section StoreService.
Context {W Ctx B : Type} `{StoreApiLaws B}.

Lemma store_ack_inl (s : grpcServer (W := W) (Ctx := Ctx)) (r : B -> goerr * B) u s' :
  store_ack s r = (inl u, s') ->
  exists b b', storeApi s = Some b /\ r b = (None, b') /\ storeApi s' = Some b'.
Proof.
  unfold store_ack. destruct (storeApi s) as [b|] eqn:E; [|done]. destruct (r b) as [[e|] b'] eqn:Er; [done|].
  intros [= <- <-]. by exists b, b'.
Qed.

(** The pairs a client sees. *)
Definition pairs (s : grpcServer (W := W) (Ctx := Ctx)) : option (gmap bytes bytes) := storeApi s ≫= store_view.

(** the store over gRPC.  After a successful Set, a Get that succeeds
    finds the value under the key, and under any other key what was there
    before; after a successful Delete a Get finds no value; a value that is
    empty is taken for none and refused.  A failing call is answered with the
    code UNAVAILABLE exactly if the error is retryable, and else with
    INVALID_ARGUMENT. *)
Theorem store_over_grpc (s s' : grpcServer (W := W) (Ctx := Ctx)) (kv : PbKeyValue) (key : PbKey) (v : PbValue) :
  (Set_ kv s = (inl tt, s') -> Get key s' = inl v ->
     pkv_Value kv <> None /\
     pv_Value v = (if decide (pk_Key key = pkv_Key kv) then pkv_Value kv
                   else m ← pairs s; m !! bytes_of_string (pk_Key key))) /\
  (Delete key s = (inl tt, s') -> Get key s' = inl v -> pv_Value v = None) /\
  (forall what err, st_Code (status_of what err) = if IsRetryable (Some err) then Unavailable else InvalidArgument).
Proof.
  split_and!; [| |done].
  - intros (b & b' & Hb & Hs & Hb')%store_ack_inl. unfold Get, pairs. rewrite Hb, Hb'. simpl.
    rewrite Set_string in Hs. apply SetB_open in Hs as (m & x & Hm & Hx & Hm').
    rewrite Get_string. destruct (api_GetB b' _) as [y [e|]] eqn:Eg; [done|]. intros [= <-].
    apply GetB_open in Eg as (m2 & Hm2 & ->). rewrite Hm' in Hm2. injection Hm2 as <-. rewrite Hm, Hx. simpl.
    split; [done|]. destruct (decide _) as [->|Hne]; [by rewrite lookup_insert_eq|].
    rewrite lookup_insert_ne; [done|]. intros E. by apply Hne, bytes_of_string_inj.
  - intros (b & b' & Hb & Hs & Hb')%store_ack_inl. unfold Get. rewrite Hb'. simpl.
    rewrite Delete_string in Hs. apply DeleteB_open in Hs as (m & Hm & Hm').
    rewrite Get_string. destruct (api_GetB b' _) as [y [e|]] eqn:Eg; [done|]. intros [= <-].
    apply GetB_open in Eg as (m2 & Hm2 & ->). rewrite Hm' in Hm2. injection Hm2 as <-. by rewrite lookup_delete_eq.
Qed.

(** What a client of a scan is sent: pair by pair, until the call is canceled
    or a send fails. *)
Fixpoint send_pairs (stream : ServerStream PbKeyValue) (l : list (bytes * bytes)) (w : W) : W :=
  match l with
  | [] => w
  | (k, v) :: l =>
      if st_Done stream w then w
      else
        match st_Send stream {| pkv_Key := string_of_bytes k; pkv_Value := Some v |} w with
        | (Some err, w) => w
        | (None, w) => send_pairs stream l w
        end
  end.

Lemma scan_items_send stream l (w : W) :
  scan_items (string_cb (scan_callback stream)) l w = send_pairs stream l w.
Proof.
  revert w. induction l as [|[k v] l IH]; intros w; [done|]. simpl. unfold string_cb, scan_callback.
  destruct (st_Done stream w); [done|]. destruct (st_Send _ _ _) as [[e|] w1]; [done|]. apply IH.
Qed.

(** C34: a range scan ends, with fuel above the number of pairs, and if it
    succeeds it has sent the pairs whose keys are in the right-open range, in
    ascending key order, up to the first send that failed or the client's
    cancelation. *)
Theorem scan_range_streams (fuel : nat) (r : PbRange) (stream : ServerStream PbKeyValue)
    (s : grpcServer (W := W) (Ctx := Ctx)) (w : W) (m : gmap bytes bytes) :
  pairs s = Some m -> (size m < fuel)%nat ->
  exists err w', ScanRange fuel r stream s w = Some (err, w') /\
    (err = None -> exists l, StronglySorted bytes_lt l.*1 /\
      (forall k v, (k, v) ∈ l <-> m !! k = Some v /\
        bytes_le (bytes_of_string (pr_Start r)) k /\ bytes_lt k (bytes_of_string (pr_End r))) /\
      w' = send_pairs stream l w).
Proof.
  unfold pairs, ScanRange. destruct (storeApi s) as [b|]; [|done]. simpl. intros Hm Hf. rewrite ScanRange_string.
  destruct (Scan_fuel W fuel b (Some (bytes_of_string (pr_Start r))) (Some (bytes_of_string (pr_End r)))
    (string_cb (scan_callback stream)) w) as [[[err w'] Hs] _]; [intros m' Hm'; by simplify_eq|].
  rewrite Hs. destruct err as [e|]; simpl; [by eexists _, _|]. eexists _, _. split; [done|]. intros _.
  apply ScanRangeB_open in Hs as (m' & l & Hm' & [Hl He] & ->). simplify_eq.
  exists l. split_and!; [done|exact He|apply scan_items_send].
Qed.
End StoreService.

(** ** Correlated results

    The handlers of several clients run concurrently: [PublishActionResult]
    looks the callback up, forgets it after a final result, and calls it, in
    three steps others may come between. *)

Section Correlation.
Context {W Ctx B : Type}.
Variable NewString : W -> string * W.

Abbreviation Callback := (ActionResult -> W -> goerr * W).

(** A running [PublishActionResult]: the correlation id, the result, the
    callback found, and whether the step that forgets it is done. *)
Record Pending := { p_cid : string; p_res : ActionResult; p_cb : Callback; p_forgot : bool }.

(** The server, with what has happened: the callbacks ever registered, the
    calls made, the ids a final result was seen for. *)
Record Corr := {
  server : grpcServer (W := W) (Ctx := Ctx) (B := B);
  world : W;
  known : gmap string Callback;
  pending : list Pending;
  calls : list (string * Callback * ActionResult);
  ended : gset string;
}.

Definition final (res : ActionResult) : Prop := ar_SequenceNumber res <= 0.

Inductive corr_step (c : Corr) : Corr -> Prop :=
  | step_deliver act p s w :
      register_action NewString act (server c, world c) = (p, (s, w)) ->
      known c !! pac_CorrelationId p = None ->        (* UUIDs are unique *)
      corr_step c {| server := s; world := w; known := <[pac_CorrelationId p := awc_Callback act]> (known c);
                     pending := pending c; calls := calls c; ended := ended c |}
  | step_lookup result cb :
      actionCallbacks (server c) !! parc_CorrelationId result = Some cb ->
      corr_step c {| server := server c; world := world c; known := known c;
                     pending := pending c ++ [{| p_cid := parc_CorrelationId result; p_res := action_result result;
                                                 p_cb := cb; p_forgot := false |}];
                     calls := calls c; ended := ended c |}
  | step_forget i p :
      pending c !! i = Some p -> p_forgot p = false ->
      corr_step c {| server := forget_action (p_cid p) (ar_SequenceNumber (p_res p)) (server c); world := world c;
                     known := known c;
                     pending := <[i := {| p_cid := p_cid p; p_res := p_res p; p_cb := p_cb p; p_forgot := true |}]> (pending c);
                     calls := calls c;
                     ended := if ar_SequenceNumber (p_res p) <=? 0 then {[p_cid p]} ∪ ended c else ended c |}
  | step_call i p err w :
      pending c !! i = Some p -> p_forgot p = true -> p_cb p (p_res p) (world c) = (err, w) ->
      corr_step c {| server := server c; world := w; known := known c; pending := delete i (pending c);
                     calls := calls c ++ [(p_cid p, p_cb p, p_res p)]; ended := ended c |}
  | step_stopped srv_Stop http_Close s w :
      Close srv_Stop http_Close (server c) (world c) = (s, w) ->
      corr_step c {| server := s; world := w; known := known c; pending := pending c; calls := calls c; ended := ended c |}
  | step_world w :
      corr_step c {| server := server c; world := w; known := known c; pending := pending c; calls := calls c;
                     ended := ended c |}.

Definition corr_start (s : grpcServer) (w : W) : Corr :=
  {| server := s; world := w; known := ∅; pending := []; calls := []; ended := ∅ |}.

Record corr_ok (c : Corr) : Prop := {
  ok_known : forall cid cb, actionCallbacks (server c) !! cid = Some cb -> known c !! cid = Some cb;
  ok_ended : forall cid, cid ∈ ended c -> actionCallbacks (server c) !! cid = None /\ is_Some (known c !! cid);
  ok_pending : forall p, p ∈ pending c -> known c !! p_cid p = Some (p_cb p) /\
    (p_forgot p = true -> final (p_res p) -> p_cid p ∈ ended c);
  ok_calls : forall cid cb res, (cid, cb, res) ∈ calls c -> known c !! cid = Some cb /\
    (final res -> cid ∈ ended c);
}.

Lemma known_insert (m : gmap string Callback) k v cid cb :
  m !! k = None -> m !! cid = Some cb -> <[k := v]> m !! cid = Some cb.
Proof. intros Hn Hs. rewrite lookup_insert_ne; [done|]. congruence. Qed.

Lemma corr_ok_deliver c act p s w :
  corr_ok c -> register_action NewString act (server c, world c) = (p, (s, w)) -> known c !! pac_CorrelationId p = None ->
  corr_ok {| server := s; world := w; known := <[pac_CorrelationId p := awc_Callback act]> (known c);
             pending := pending c; calls := calls c; ended := ended c |}.
Proof.
  intros [Hk He Hp Hc]. unfold register_action. destruct (NewString (world c)) as [cid w']. intros [= <- <- <-]. simpl.
  intros Hn. split; simpl.
  - intros cid' cb. destruct (decide (cid = cid')) as [->|]; [by rewrite !lookup_insert_eq|].
    rewrite !lookup_insert_ne by done. apply Hk.
  - intros cid' Hin. destruct (He cid' Hin) as [Hnone [cb Hcb]].
    assert (cid <> cid') by congruence. rewrite !lookup_insert_ne by done. split; [done|by eexists].
  - intros p Hin. destruct (Hp p Hin) as [H1 H2]. split; [by apply known_insert|done].
  - intros cid' cb res Hin. destruct (Hc _ _ _ Hin) as [H1 H2]. split; [by apply known_insert|done].
Qed.

Lemma corr_ok_forget c i p :
  corr_ok c -> pending c !! i = Some p ->
  corr_ok {| server := forget_action (p_cid p) (ar_SequenceNumber (p_res p)) (server c); world := world c; known := known c;
             pending := <[i := {| p_cid := p_cid p; p_res := p_res p; p_cb := p_cb p; p_forgot := true |}]> (pending c);
             calls := calls c;
             ended := if ar_SequenceNumber (p_res p) <=? 0 then {[p_cid p]} ∪ ended c else ended c |}.
Proof.
  intros [Hk He Hp Hc] Hi. destruct (Hp p (list_elem_of_lookup_2 _ _ _ Hi)) as [Hkn _].
  assert (Hsub : forall cid, cid ∈ ended c ->
    cid ∈ (if ar_SequenceNumber (p_res p) <=? 0 then {[p_cid p]} ∪ ended c else ended c)) by (intros cid; case_match; set_solver).
  unfold forget_action. split; simpl.
  - intros cid cb. case_match; simpl; [|apply Hk]. intros [_ H1]%lookup_delete_Some. by apply Hk.
  - intros cid. destruct (ar_SequenceNumber (p_res p) <=? 0) eqn:E; simpl; [|apply He].
    rewrite elem_of_union, elem_of_singleton. intros [->|Hin].
    + rewrite lookup_delete_eq. split; [done|by eexists].
    + destruct (He cid Hin) as [Hn Hs]. split; [|done]. apply lookup_delete_None. by right.
  - intros q Hq. apply list_elem_of_lookup in Hq as [j Hj]. apply list_lookup_insert_Some in Hj as [(<- & <- & _)|[_ Hj]]; simpl.
    + split; [done|]. unfold final. intros _ Hf. rewrite (proj2 (Z.leb_le _ _) Hf). set_solver.
    + destruct (Hp q (list_elem_of_lookup_2 _ _ _ Hj)) as [H1 H2]. split; [done|]. auto.
  - intros cid cb res Hin. destruct (Hc _ _ _ Hin) as [H1 H2]. split; auto.
Qed.

Lemma corr_ok_step c c' : corr_ok c -> corr_step c c' -> corr_ok c'.
Proof.
  intros Hok Hstep. destruct Hstep as [act p s w Hr Hn|result cb Hl|i p Hi Hf|i p err w Hi Hf Hcb|f g s w Hcl|w].
  - by eapply corr_ok_deliver.
  - destruct Hok as [Hk He Hp Hc]. split; simpl; try done.
    intros p [Hin|Hin]%elem_of_app; [by apply Hp|]. apply list_elem_of_singleton in Hin as ->. simpl. by split; [apply Hk|].
  - by apply corr_ok_forget.
  - destruct Hok as [Hk He Hp Hc]. split; simpl; try done.
    + intros q Hin. apply Hp. by eapply elem_of_list_delete.
    + intros cid cb res [Hin|Hin]%elem_of_app; [by eapply Hc|]. apply list_elem_of_singleton in Hin as [= -> -> ->].
      destruct (Hp p (list_elem_of_lookup_2 _ _ _ Hi)) as [H1 H2]. split; auto.
  - destruct Hok as [Hk He Hp Hc]. unfold Close in Hcl. destruct (srv (server c)); [|by simplify_eq].
    destruct (closeWebServer _ _ _) as [s1 w1]. injection Hcl as <- <-. split; simpl; try done.
    intros cid Hin. split; [done|]. by apply He.
  - by destruct Hok.
Qed.

Lemma corr_ok_reachable s w c :
  actionCallbacks s = ∅ -> rtc corr_step (corr_start s w) c -> corr_ok c.
Proof.
  intros Hs. intros Hr. assert (corr_ok (corr_start s w)) as Hok by (split; simpl; rewrite ?Hs; set_solver).
  revert Hok. remember (corr_start s w) as c0. clear Heqc0. induction Hr; [done|]. eauto using corr_ok_step.
Qed.

(** The handler, run undisturbed, is its three steps. *)
Lemma handler_steps c result cb com r s w :
  comApi (server c) = Some com -> actionCallbacks (server c) !! parc_CorrelationId result = Some cb ->
  PublishActionResult result (server c) (world c) = (r, (s, w)) ->
  exists c', rtc corr_step c c' /\ server c' = s /\ world c' = w /\ pending c' = pending c /\
    calls c' = calls c ++ [(parc_CorrelationId result, cb, action_result result)].
Proof.
  intros Hcom Hl. unfold PublishActionResult. rewrite Hcom, Hl.
  destruct (cb (action_result result) (world c)) as [err w'] eqn:Ecb. intros Hr.
  pose (p := {| p_cid := parc_CorrelationId result; p_res := action_result result; p_cb := cb; p_forgot := false |}).
  assert (Hi : (pending c ++ [p]) !! length (pending c) = Some p) by (by apply list_lookup_middle).
  pose (p' := {| p_cid := p_cid p; p_res := p_res p; p_cb := p_cb p; p_forgot := true |}).
  assert (Hi' : <[length (pending c) := p']> (pending c ++ [p]) = pending c ++ [p'])
    by (rewrite insert_app_r_alt, Nat.sub_diag by lia; done).
  assert (Hl' : (pending c ++ [p']) !! length (pending c) = Some p') by (by apply list_lookup_middle).
  eexists. split.
  - eapply rtc_l; [exact (step_lookup c result cb Hl)|].
    eapply rtc_l; [eapply (step_forget _ (length (pending c)) p); [exact Hi|reflexivity]|].
    eapply rtc_l; [|apply rtc_refl]. eapply (step_call _ (length (pending c)) p'); simpl; [|done|exact Ecb].
    change (<[length (pending c) := p']> (pending c ++ [p]) !! length (pending c) = Some p'). by rewrite Hi'.
  - simpl. split_and!; [by destruct err; simplify_eq|by destruct err; simplify_eq| |done].
    change (delete (length (pending c)) (<[length (pending c) := p']> (pending c ++ [p])) = pending c).
    rewrite Hi', delete_middle. apply app_nil_r.
Qed.

(** C28: results reach the action they belong to.  However handlers of
    different clients interleave, a callback is only called with a result the
    client correlated with the action the callback came with; once a final
    result (sequence number zero or less) has been passed on, the correlation
    id stays unknown, so that later results are refused with
    INVALID_ARGUMENT and change nothing; and a handler that runs undisturbed
    calls the callback once. *)
Theorem results_correlated (s0 : grpcServer) (w0 : W) (c : Corr) :
  actionCallbacks s0 = ∅ -> rtc corr_step (corr_start s0 w0) c ->
  (forall cid cb res, (cid, cb, res) ∈ calls c ->
     known c !! cid = Some cb /\
     (final res -> forall result com, parc_CorrelationId result = cid -> comApi (server c) = Some com ->
        PublishActionResult result (server c) (world c) =
          (inr (StatusErr (MkStatus InvalidArgument "failed publishing ActionResult: unknown correlation id")),
           (server c, world c)))) /\
  (forall result cb com r s w, comApi (server c) = Some com ->
     actionCallbacks (server c) !! parc_CorrelationId result = Some cb ->
     PublishActionResult result (server c) (world c) = (r, (s, w)) ->
     known c !! parc_CorrelationId result = Some cb /\
     exists c', rtc corr_step c c' /\ server c' = s /\ world c' = w /\ pending c' = pending c /\
       calls c' = calls c ++ [(parc_CorrelationId result, cb, action_result result)]).
Proof.
  intros Hs Hr. destruct (corr_ok_reachable _ _ _ Hs Hr) as [Hk He Hp Hc]. split.
  - intros cid cb res Hin. destruct (Hc _ _ _ Hin) as [Hkn Hfin]. split; [done|].
    intros Hf result com <- Hcom. unfold PublishActionResult. by rewrite Hcom, (proj1 (He _ (Hfin Hf))).
  - intros result cb com r s w Hcom Hl Hrun. split; [by apply Hk|]. by apply (handler_steps c result cb com r s w).
Qed.

(** Two final results for one action can both be published, when the second
    callback lookup comes before the first handler's deletion. *)
Theorem final_result_published_twice (s0 : grpcServer) (w0 w1 : W) act cid result :
  NewString w0 = (cid, w1) -> parc_CorrelationId result = cid -> final (action_result result) ->
  exists c, rtc corr_step (corr_start s0 w0) c /\
    calls c = [(cid, awc_Callback act, action_result result); (cid, awc_Callback act, action_result result)].
Proof.
  intros Hn Hc Hf. 
  pose (p b := {| p_cid := cid; p_res := action_result result; p_cb := awc_Callback act; p_forgot := b |}).
  eexists. split.
  - eapply rtc_l; [eapply (step_deliver _ act); simpl; [by rewrite Hn|done]|].
    eapply rtc_l; [eapply (step_lookup _ result (awc_Callback act)); simpl; rewrite Hc; apply lookup_insert_eq|].
    eapply rtc_l; [eapply (step_lookup _ result (awc_Callback act)); simpl; rewrite Hc; apply lookup_insert_eq|].
    eapply rtc_l; [eapply (step_forget _ 0 (p false)); simpl; [by rewrite Hc|done]|].
    eapply rtc_l; [eapply (step_forget _ 1 (p false)); simpl; [by rewrite Hc|done]|].
    eapply rtc_l; [eapply (step_call _ 0 (p true)); simpl; [done|done|apply surjective_pairing]|].
    eapply rtc_l; [eapply (step_call _ 0 (p true)); simpl; [done|done|apply surjective_pairing]|]. apply rtc_refl.
  - done.
Qed.
End Correlation.

(** ** Limits of the server *)

Section Limits.
Context {W Ctx B : Type}.
Variable load_pair : string -> string -> W -> goerr.
Variable os_Remove : string -> W -> goerr * W.
Variable net_Listen : string -> string -> W -> goerr * W.
Variable http_Listen : string -> W -> W.

(** An Open that fails after the server is created, e.g. since the address is
    in use, leaves it there: opening again returns nil without listening. *)
Theorem failed_listen_looks_open (cfg : Config) (s s' : grpcServer (W := W) (Ctx := Ctx) (B := B)) (w w1 w2 : W) e :
  srv s = false -> uses_tls cfg = false -> listen_address (Address (Grpc (Apis cfg))) = ("tcp", "host:80", None) ->
  net_Listen "tcp" "host:80" w = (Some e, w1) ->
  exists s', Open load_pair os_Remove net_Listen http_Listen cfg s w = (Some e, s', w1) /\
    Open load_pair os_Remove net_Listen http_Listen cfg s' w2 = (None, s', w2).
Proof.
  intros Hs Ht Ha Hl. exists (set_servers true (httpSrv s) s). unfold Open. rewrite Hs, Ht, Ha, Hl. done.
Qed.

(** A value that is empty reaches a Set as nil, and a store refuses that. *)
Theorem empty_value_refused `{StoreApiLaws B} (s : grpcServer (W := W) (Ctx := Ctx)) (key : string) :
  storeApi s <> None ->
  exists st s', Set_ {| pkv_Key := key; pkv_Value := received_bytes [] |} s = (inr (StatusErr st), s').
Proof.
  intros Hs. unfold Set_, store_ack. destruct (storeApi s) as [b|]; [|done]. simpl. rewrite Set_string.
  destruct (api_SetB b _ None) as [[e|] b'] eqn:E; [by eexists _, _|].
  apply SetB_open in E as (m & v & _ & Hv & _). done.
Qed.
End Limits.

(** ** Concrete runs *)

Module Run.
Import MemEngine.

Definition world := (nat * list string)%type.
Definition ok {A} (_ : A) (w : world) : goerr * world := (None, w).
Definition start {A} (_ : A) (w : world) : (nat + error) * world := (inl 7%nat, w).

Definition com : ComService (W := world) (Ctx := nat) :=
  {| cs_PublishEvent := ok; cs_SubscribeEvent := start; cs_PublishAction := start; cs_SubscribeAction := start;
     cs_PublishQuery := start; cs_SubscribeQuery := start |}.
Definition state : StateService (W := world) (Ctx := nat) :=
  {| ss_ProposeInput := ok; ss_ObserveStateChange := start tt; ss_ObserveMembershipChange := start tt |}.

Definition cancel (c : nat) (w : world) : world := (w.1, w.2 ++ ["canceled"]).
Definition NewString (w : world) : string * world := (pretty w.1, (S w.1, w.2)).

(** A stream that records what is sent; the second send fails. *)
Definition recording {P} (text : P -> string) : ServerStream (W := world) P :=
  {| st_SendHeader := fun w => (None, w);
     st_Send := fun p w => (if Nat.eqb (length w.2) 1 then Some (ErrText "broken") else None, (w.1, w.2 ++ [text p]));
     st_Done := fun _ => false |}.

Definition server0 : grpcServer (W := world) (Ctx := nat) (B := PebbleBinding) :=
  New (Some com) (Some (mem_binding ∅)) (Some state).
Definition event (id : string) : Event :=
  {| ev_Type := "t"; ev_Id := id; ev_Source := "s"; ev_Time := ""; ev_Data := None; ev_DataContentType := "" |}.

Definition texts (w : world) : list string := w.2.
Definition key_text (p : PbKeyValue) : string := pkv_Key p.
Definition ev_id (p : PbEvent) : string := pe_Id p.
Definition op_text (p : PbInput) : string := pi_Key p.

(** A store with three pairs. *)
Definition server1 : grpcServer (W := world) (Ctx := nat) (B := PebbleBinding) :=
  New (Some com) (Some (mem_binding demo_map)) (Some state).

(** An action, its result, and the server's history. *)
Definition act : ActionWithCallback (ActionResult -> world -> goerr * world) :=
  {| awc_Action := {| ac_Type := "t"; ac_Id := "a"; ac_Source := "s"; ac_Params := None; ac_DataContentType := "" |};
     awc_Callback := fun res w => (None, (w.1, w.2 ++ [ar_Context res])) |}.
Definition result : PbActionResultCorrelated :=
  {| parc_Result := Some {| par_Context := "done"; par_Data := None; par_DataContentType := ""; par_SequenceNumber := 0 |};
     parc_CorrelationId := "0" |}.
Definition callback : ActionResult -> world -> goerr * world := awc_Callback act.
Definition registered : grpcServer (W := world) (Ctx := nat) (B := PebbleBinding) :=
  set_callbacks {["0" := callback]} ∅ server0.
End Run.
Import MemEngine.

Lemma streams_forward_witness :
  SubscribeEvent Run.cancel {| pf_Type := "t"; pf_Share := "" |} (Run.recording Run.ev_id)
    [Item (Run.event "1"); Item (Run.event "2"); Item (Run.event "3"); ChanClosed] Run.server0 (0%nat, []) =
  (Some None, (Run.server0, (0%nat, ["1"; "2"; "3"; "canceled"]))).
Proof.
  refine (proj1 (proj1 (streams_forward Run.cancel Run.server0 Run.com Run.state {| pf_Type := "t"; pf_Share := "" |}
    (Run.recording Run.ev_id) (Run.recording Run.op_text) [Run.event "1"; Run.event "2"; Run.event "3"] []
    (0%nat, []) (0%nat, []) (0%nat, []) 7%nat [ChanClosed] [ChanClosed] None None eq_refl eq_refl _ _) eq_refl eq_refl));
    constructor.
Defined.

Lemma store_over_grpc_witness :
  exists s' v, Set_ {| pkv_Key := "k"; pkv_Value := Some [one] |} Run.server0 = (inl tt, s') /\
    Get {| pk_Key := "k" |} s' = inl v /\ pv_Value v = Some [one].
Proof.
  pose (s' := set_store (mem_binding {[bs "k" := [one]]}) Run.server0).
  assert (H1 : Set_ {| pkv_Key := "k"; pkv_Value := Some [one] |} Run.server0 = (inl tt, s')) by reflexivity.
  assert (H2 : Get {| pk_Key := "k" |} s' = inl {| pv_Value := Some [one] |}) by reflexivity.
  exists s', {| pv_Value := Some [one] |}. split; [exact H1|]. split; [exact H2|].
  exact (proj2 (proj1 (store_over_grpc Run.server0 s' {| pkv_Key := "k"; pkv_Value := Some [one] |} {| pk_Key := "k" |}
    {| pv_Value := Some [one] |}) H1 H2)).
Defined.

Lemma scan_range_streams_witness :
  exists l, StronglySorted bytes_lt l.*1 /\
    (forall k v, (k, v) ∈ l <-> demo_map !! k = Some v /\ bytes_le (bs "a") k /\ bytes_lt k (bs "b")) /\
    send_pairs (Run.recording Run.key_text) l (0%nat, []) = (0%nat, ["a1"; "a2"]).
Proof.
  destruct (scan_range_streams 4 {| pr_Start := "a"; pr_End := "b" |} (Run.recording Run.key_text) Run.server1 (0%nat, []) demo_map)
    as (err & w' & Hs & Hl); [reflexivity|apply Nat.ltb_lt; by_vm|].
  assert (E : match ScanRange 4 {| pr_Start := "a"; pr_End := "b" |} (Run.recording Run.key_text) Run.server1 (0%nat, []) with
              | Some (None, w) => bool_decide (w = (0%nat, ["a1"; "a2"]))
              | _ => false
              end = true) by (vm_compute; reflexivity).
  rewrite Hs in E. destruct err; [done|]. apply bool_decide_eq_true in E as ->.
  destruct (Hl eq_refl) as (l & H1 & H2 & H3). exists l. exact (conj H1 (conj H2 (eq_sym H3))).
Defined.

Lemma results_correlated_witness :
  exists c, rtc (corr_step Run.NewString) (corr_start Run.server0 (0%nat, [])) c /\
    calls c = [("0", Run.callback, action_result Run.result)] /\ world c = (1%nat, ["done"]) /\
    PublishActionResult Run.result (server c) (world c) =
      (inr (StatusErr (MkStatus InvalidArgument "failed publishing ActionResult: unknown correlation id")), (server c, world c)).
Proof.
  pose (c1 := {| server := Run.registered; world := (1%nat, []) : Run.world; known := {["0" := Run.callback]}; pending := [];
                 calls := []; ended := ∅ |}).
  assert (H1 : rtc (corr_step Run.NewString) (corr_start Run.server0 (0%nat, [])) c1).
  { eapply rtc_l; [|apply rtc_refl]. by apply (step_deliver _ (corr_start Run.server0 (0%nat, [])) Run.act
      {| pac_Action := {| pa_Type := "t"; pa_Id := "a"; pa_Source := "s"; pa_Params := None; pa_DataContentType := "" |};
         pac_CorrelationId := "0" |} Run.registered (1%nat, [])). }
  destruct (PublishActionResult Run.result (server c1) (world c1)) as [r [s w]] eqn:E.
  destruct (proj2 (results_correlated Run.NewString Run.server0 (0%nat, []) c1 eq_refl H1) Run.result Run.callback Run.com r s w
    eq_refl eq_refl E) as (_ & c' & H2 & Hs & Hw & _ & Hc).
  exists c'. assert (Hr : rtc (corr_step Run.NewString) (corr_start Run.server0 (0%nat, [])) c') by (by transitivity c1).
  split; [exact Hr|]. split; [exact Hc|]. injection E as Er Es Ew. split; [by rewrite Hw, <- Ew|].
  refine (proj2 (proj1 (results_correlated Run.NewString Run.server0 (0%nat, []) c' eq_refl Hr) "0" Run.callback
    (action_result Run.result) _) _ Run.result Run.com eq_refl _); [rewrite Hc; by left|done|by rewrite Hs, <- Es].
Defined.
