(* ===== verification/GrpcOverMqtt.v ===== *)
(** * Actions between the clients of two agents
      ([apis/grpc/grpc.go] on [services/com/mqtt5/mqtt5.go])

    The gRPC handlers are verified against any communication service, the
    MQTT binding for whoever calls it.  Here the server's communication
    service is the binding, and an action published by a client of one agent
    is followed to a client of another agent, and its results back. *)

From S2P Require Import Prelude GoRuntime Services StoreApi Pebble ComApi Config Router Mqtt5 Grpc.

Section GrpcOverMqtt.
Context `{PahoLaws} {B : Type} `{StoreApi B}.
(** What the gRPC streams act on. *)
Context {V : Type}.

Abbreviation World := (prod Mqtt5Binding V).

(** An operation of the binding. *)
Definition lift {A} (m : Mqtt5Binding -> A * Mqtt5Binding) (w : World) : A * World :=
  let '(a, b) := m w.1 in (a, (b, w.2)).

(** ** The binding as the server's communication service

    Contexts are those of the route channels; [uuid] and [ctx] are the
    correlation id and the context the next call will use. *)
Definition com_service (uuid : string) (ctx : nat) : ComService (W := World) (Ctx := RouteChannel string Link) :=
  {| cs_PublishEvent := fun e => lift (fun b => run_callback (Mqtt5.PublishEvent e [] b) b);
     cs_SubscribeEvent := fun f => lift (Mqtt5.SubscribeEvent ctx f);
     cs_PublishAction := fun a => lift (Mqtt5.PublishAction uuid ctx a []);
     cs_SubscribeAction := fun f => lift (Mqtt5.SubscribeAction ctx f);
     cs_PublishQuery := fun q => lift (Mqtt5.PublishQuery uuid ctx q []);
     cs_SubscribeQuery := fun f => lift (Mqtt5.SubscribeQuery ctx f) |}.

(** An action as the handler [SubscribeAction] receives it. *)
Definition received_action (ac : ActionWithCallback Callback)
    : ActionWithCallback (ActionResult -> World -> goerr * World) :=
  {| awc_Action := awc_Action ac; awc_Callback := fun ar => lift (action_callback (awc_Callback ac) ar) |}.

(** The action the handler [PublishAction] publishes. *)
Definition action_of (pa : PbAction) : Action :=
  {| ac_Type := pa_Type pa; ac_Id := pa_Id pa; ac_Source := pa_Source pa; ac_Params := pa_Params pa;
     ac_DataContentType := pa_DataContentType pa |}.

Abbreviation server := (grpcServer (W := World) (Ctx := RouteChannel string Link) (B := B)).

Variable cancel : RouteChannel string Link -> World -> World.
Variable NewString : World -> string * World.

(** C6: an action between the clients of two agents.  The action that a
    client publishes through its agent's handler becomes one MQTT publication
    on the topic of its type; what another agent's binding makes of it is
    streamed by the handler [SubscribeAction] equal in every field, with a
    correlation id; and whenever a client of that agent publishes a result
    under this id, while its callback is registered, the handler publishes
    one MQTT publication, and reports its failure; when that arrives at the
    first agent, the handler [PublishAction] streams a result equal in every
    field to its client. *)
Theorem action_over_grpc (s1 s2 : server) (pa : PbAction) (uuid : string) (ctx : nat) (b1 b1' : Mqtt5Binding) (v : V)
    (c : Conn) (rc : RouteChannel string Link) :
  comApi s1 = Some (com_service uuid ctx) ->
  conn (link b1) = Some c -> good_name (cluster b1) -> router_ok (actionResultRouter b1) ->
  (forall t rcs rc', routes (actionResultRouter b1) !! t = Some rcs -> rc' ∈ rcs -> correlationId rc' <> uuid) ->
  cs_PublishAction (com_service uuid ctx) (action_of pa) (b1, v) = (inl rc, (b1', v)) ->
  exists pk ac,
    (exists c0, (conn_Publish pk c0).1 = None /\ conn (link b1') = Some (conn_Publish pk c0).2) /\
    parse_publication pk = Some (InAction
      {| Topic := (topicWithLevels (cluster b1) "" "" [levelAction; pa_Type pa]).1; CorrelationId := "" |} ac) /\
    forall w2 pac (s2' : server) w2', register_action NewString (received_action ac) (s2, w2) = (pac, (s2', w2')) ->
      pac_Action pac = pa /\
      forall (s3 : server) res w3 c3,
        comApi s3 <> None ->
        actionCallbacks s3 !! pac_CorrelationId pac = actionCallbacks s2' !! pac_CorrelationId pac ->
        conn (link w3.1) = Some c3 -> in_sint 64 (par_SequenceNumber res) ->
        exists pk2 ar,
          Grpc.PublishActionResult {| parc_Result := Some res; parc_CorrelationId := pac_CorrelationId pac |} s3 w3 =
            (match NewRetryableError (conn_Publish pk2 c3).1 with
             | None => inl tt
             | Some err => inr (StatusErr (status_of "failed publishing ActionResult" err))
             end,
             (forget_action (pac_CorrelationId pac) (par_SequenceNumber res) s3,
              (with_link (set_conn (conn_Publish pk2 c3).2 (link w3.1)) w3.1, w3.2))) /\
          (forall cancelled, ctx ∉ cancelled -> exists b3, handle cancelled pk2 b1' = Ret tt b3 /\
             chans (actionResultRouter b3) !! rc_addr rc = Some (push ar (make_chan 1))) /\
          forall stream w1, st_SendHeader stream (b1', v) = (None, w1) ->
            Grpc.PublishAction cancel pa stream [Item ar] s1 (b1, v) = (None, (s1, (st_Send stream res w1).2)).
Proof.
  intros Hs1 Hc Hcl Hok Hfresh Hpub. unfold com_service, lift in Hpub. cbn [cs_PublishAction fst snd] in Hpub.
  destruct (Mqtt5.PublishAction uuid ctx (action_of pa) [] b1) as [r b] eqn:Ep. injection Hpub as -> ->.
  destruct (action_exchange _ _ _ _ [] _ _ _ Hc Hcl ltac:(by left) Hok Hfresh Ep) as (pk & cb & Hsent & Hparse & Hback).
  exists pk, {| awc_Action := action_of pa; awc_Callback := cb |}. split_and!; [exact Hsent|exact Hparse|].
  intros w2 pac s2' w2' Hreg. unfold register_action, received_action in Hreg. cbn [awc_Action awc_Callback] in Hreg.
  destruct (NewString w2) as [cid w2'']. injection Hreg as <- <- <-. cbn [pac_Action pac_CorrelationId].
  split; [by destruct pa|]. intros s3 res w3 c3 Hcom Hcb Hc3 Hseq.
  set (ar := {| ar_Context := par_Context res; ar_Data := par_Data res; ar_DataContentType := par_DataContentType res;
                ar_SequenceNumber := par_SequenceNumber res |}).
  destruct (Hback w3.1 c3 ar Hc3 Hseq) as (pk2 & Hpub2 & Hhandle).
  exists pk2, ar. split_and!.
  - unfold Grpc.PublishActionResult. destruct (comApi s3); [|done]. cbn [parc_CorrelationId parc_Result].
    rewrite Hcb. cbn [set_callbacks actionCallbacks]. rewrite lookup_insert_eq.
    change (action_result _) with ar. unfold lift, action_callback. rewrite Hpub2. cbn [run_callback].
    by destruct (NewRetryableError _).
  - intros cancelled Hctx. destruct (Hhandle cancelled Hctx) as (b3 & Hb3 & Hch & _). by exists b3.
  - intros stream w1 Hh. unfold Grpc.PublishAction. rewrite Hs1. unfold serve_stream, com_service, lift.
    cbn [cs_PublishAction fst snd]. fold (action_of pa). rewrite Ep. simpl. rewrite Hh. simpl.
    assert (pb_action_result ar = res) as -> by by destruct res. by destruct (st_Send stream res w1).
Qed.
End GrpcOverMqtt.

(** ** A concrete run: two agents, streams that record what they are sent *)

Module Run.
Export Pebble.MemEngine Mqtt5.Run.

Definition World_ : Type := Mqtt5Binding * list PbActionResult.

Definition stream : ServerStream (W := World_) PbActionResult :=
  {| st_SendHeader := fun w => (None, w); st_Send := fun p w => (None, (w.1, w.2 ++ [p])); st_Done := fun _ => false |}.
Definition pb_action : PbAction :=
  {| pa_Type := "Do"; pa_Id := "1"; pa_Source := "s"; pa_Params := Some [one]; pa_DataContentType := "" |}.
Definition pb_result : PbActionResult :=
  {| par_Context := "x"; par_Data := Some [zero]; par_DataContentType := ""; par_SequenceNumber := 0 |}.

Definition server0 : grpcServer (W := World_) (Ctx := RouteChannel string Link) (B := Pebble.PebbleBinding) :=
  Grpc.New (Some (com_service "u" 3)) None None.
Definition cancel (ctx : RouteChannel string Link) (w : World_) : World_ := w.
Definition NewString (w : World_) : string * World_ := ("cid", w).
Definition published : (RouteChannel string Link + error) * Mqtt5Binding :=
  Mqtt5.PublishAction "u" 3 (action_of pb_action) [] agent.
Definition conn0 : Conn := {| Mqtt5.Run.subs := ∅; Mqtt5.Run.published := [] |}.
Definition asked : Mqtt5Binding := published.2.
Definition start : World_ := (agent, []).
End Run.
Import Run.

Lemma action_over_grpc_witness :
  exists pk f ac ar b3,
    parse_publication pk = Some (InAction f ac) /\
    handle ∅ b3.1 asked = Ret tt b3.2 /\
    chans (actionResultRouter b3.2) !! 0%nat = Some (MkChan 1 [ar] false) /\
    Grpc.PublishAction Run.cancel pb_action stream [Item ar] server0 start =
      (None, (server0, (asked, [pb_result]))).
Proof.
  destruct (action_over_grpc Run.cancel Run.NewString server0 server0 pb_action "u" 3 agent asked [] conn0 (rc_of published))
    as (pk & ac & _ & Hparse & Hx).
  - reflexivity.
  - reflexivity.
  - apply good_name_check. reflexivity.
  - apply router_ok_new.
  - intros t rcs rc' Hr. exfalso. revert Hr. simpl. by rewrite lookup_empty.
  - by_vm.
  - destruct (Hx start _ _ _ eq_refl) as [_ Hres].
    destruct (Hres (set_callbacks (<["cid" := fun ar => lift (action_callback (awc_Callback ac) ar)]> ∅) ∅ server0)
      pb_result start conn0) as (pk2 & ar & _ & Hh & Hstream);
      [discriminate|reflexivity|reflexivity|unfold in_sint; simpl; lia|].
    destruct (Hh ∅ (not_elem_of_empty _)) as (b3 & Hb3 & Hch).
    exists pk, {| Topic := "cl/com/act/Do"; CorrelationId := "" |}, ac, ar, (pk2, b3).
    split_and!; [exact Hparse|exact Hb3|exact Hch|].
    etransitivity; [exact (Hstream stream (asked, []) eq_refl)|reflexivity].
Defined.
