(* ===== verification/StateOverGrpc.v ===== *)
(** * What a client sees of the replicated state
      ([apis/grpc/grpc.go] on [services/state/raft/fsm.go])

    The state machine tells its observers every change, the handler
    [ObserveStateChange] forwards what an observation yields; put together,
    the messages a client is streamed rebuild the state of its agent. *)

From S2P Require Import Prelude GoRuntime Services StoreApi Pebble StateApi ComApi Grpc Fsm.

Section StateOverGrpc.
Context `{MapRange} `{!MsgPack (Input bytes)} `{!MsgPack (option (State bytes))}.
Context {W Ctx B : Type} `{StoreApi B}.

(** What a client makes of the messages, in their order: the operation is
    the enumeration [InputOperation] of the API. *)
Definition client_step (m : gmap string bytes) (p : PbInput) : gmap string bytes :=
  if decide (pi_Op p = InputOpSet) then <[pi_Key p := sl (pi_Value p)]> m
  else if decide (pi_Op p = InputOpDelete) then delete (pi_Key p) m
  else m.

Definition client_state (ps : list PbInput) : gmap string bytes := foldl client_step ∅ ps.

Lemma client_replays (h : list (Input bytes)) :
  Forall changes_state h -> client_state (pb_input <$> h) = replay h.
Proof.
  intros Hh. unfold client_state, replay. generalize (∅ : gmap string bytes) as m.
  induction Hh as [|i h Hi _ IH]; intros m; [done|]. simpl. rewrite IH. f_equal.
  unfold client_step, replay1. simpl. by destruct Hi as [-> | ->].
Qed.

Variable cancel : Ctx -> W -> W.

(** C12: a client of [ObserveStateChange] follows the state of its agent.  At
    any moment while Raft applies entries and restores no snapshot, the
    handler has streamed, in order and whether or not sends failed, what the
    observer was sent so far; what the client computes from these messages is
    exactly the replicated state of the agent once the pairs present at the
    start were sent, and a part of it before. *)
Theorem client_mirrors_state (s : Fsm.Sys) (c : nat) (srv : grpcServer (W := W) (Ctx := Ctx) (B := B))
    (st : StateService) (stream : ServerStream PbInput) (w w1 : W) (ctx : Ctx) :
  Fsm.reachable false s -> observed (fsm s) c ->
  stateApi srv = Some st -> ss_ObserveStateChange st w = (inl ctx, w1) ->
  exists ps, Grpc.ObserveStateChange cancel stream (Item <$> history (fsm s) c) srv w =
      (None, (srv, send_all stream ps w1)) /\
    (c ∉ syncing s -> client_state ps = view (fsm s)) /\ client_state ps ⊆ view (fsm s).
Proof.
  intros Hr Hc Hst Hobs. exists (pb_input <$> history (fsm s) c). split.
  - unfold Grpc.ObserveStateChange. rewrite Hst.
    refine (proj2 (serve_stream_items cancel pb_input _ _ false stream _ [ChanClosed] None srv w w1 w1 ctx Hobs eq_refl _)).
    constructor.
  - rewrite client_replays by by apply (ob_changes _ (reachable_observing _ Hr)). by apply observer_replays.
Qed.
End StateOverGrpc.

(** ** A concrete run: a stream that keeps what it is sent *)

Module Run.
Export Pebble.MemEngine Fsm.Run.
#[export] Existing Instance BitCodec.input_codec.
#[export] Existing Instance BitCodec.snapshot_codec.

Definition world := list PbInput.
Definition stream : ServerStream (W := world) PbInput :=
  {| st_SendHeader := fun w => (None, w); st_Send := fun p w => (None, w ++ [p]); st_Done := fun _ => false |}.
Definition state : StateService (W := world) (Ctx := nat) :=
  {| ss_ProposeInput := fun _ w => (None, w); ss_ObserveStateChange := fun w => (inl 7%nat, w);
     ss_ObserveMembershipChange := fun w => (inl 7%nat, w) |}.
Definition server : grpcServer (W := world) (Ctx := nat) (B := PebbleBinding) := Grpc.New None None (Some state).
End Run.
Import Run.

Lemma client_mirrors_state_witness :
  exists ps, Grpc.ObserveStateChange (fun _ w => w) stream (Item <$> history f3 5) server [] =
      (None, (server, send_all stream ps [])) /\
    client_state ps = view f3 /\ view f3 <> ∅.
Proof.
  destruct (client_mirrors_state (fun _ w => w) s3 5 server state stream [] [] 7%nat (reach3 false))
    as (ps & Hrun & Hview & _).
  - by exists 1.
  - reflexivity.
  - reflexivity.
  - exists ps. split; [exact Hrun|]. split; [exact (Hview (not_elem_of_nil _))|]. vm_compute. discriminate.
Defined.
