(* ===== verification/Dda.v ===== *)
(** * The agent ([dda/dda.go]) and its service factories
      ([services/{com,store,state}])

    The services and the gRPC server, modelled by the components' own files,
    are parameters here: what matters is which are created, and the order in
    which they are opened and closed. *)

From S2P Require Import Prelude GoRuntime Services GoStrings Config.

(** ** Factories *)

Definition com_New (protocol : string) : goerr :=
  if String.eqb protocol "mqtt5" then None
  else Some (ErrText ("communication protocol " +:+ protocol +:+ ": not supported")).

Definition store_New (engine : string) : goerr :=
  if String.eqb engine "pebble" then None
  else Some (ErrText ("storage engine " +:+ engine +:+ ": not supported")).

Definition state_New (protocol : string) : goerr :=
  if String.eqb protocol "raft" then None
  else Some (ErrText ("consensus protocol " +:+ protocol +:+ ": not supported")).

(** ** The agent *)

(** Which services and APIs are not nil. *)
Record Dda := {
  cfg : Config;
  comApi : bool;
  storeApi : bool;
  stateApi : bool;
  grpcServer : bool;
}.

Definition Identity (d : Dda) : Config.Identity := Identity_ (cfg d).

Definition New (cfg : Config) : Dda + error :=
  match Verify cfg with
  | Some err => inr err
  | None =>
      let sv := Services cfg in
      match (if com_Disabled (Com sv) then None else com_New (com_Protocol (Com sv))) with
      | Some err => inr err
      | None =>
          match (if store_Disabled (StoreSvc sv) then None else store_New (Engine (StoreSvc sv))) with
          | Some err => inr err
          | None =>
              match (if state_Disabled (State sv) then None
                     else if com_Disabled (Com sv)
                     then Some (ErrText "Dda cannot be created: state service requires com service to be enabled")
                     else state_New (state_Protocol (State sv))) with
              | Some err => inr err
              | None =>
                  inl {| cfg := cfg;
                         comApi := negb (com_Disabled (Com sv));
                         storeApi := negb (store_Disabled (StoreSvc sv));
                         stateApi := negb (state_Disabled (State sv));
                         grpcServer := negb (api_Disabled (Grpc (Apis cfg))) |}
              end
          end
      end
  end.

Section Agent.
Context {W : Type}.

(** The operations of the services and of the server. *)
Record ServiceOps := {
  com_Open : Config -> Z -> W -> goerr * W;
  store_Open : Config -> W -> goerr * W;
  state_Open : Config -> W -> goerr * W;
  grpc_Open : Config -> W -> goerr * W;
  com_Close : W -> W;
  store_Close : W -> W;
  state_Close : W -> W;
  grpc_Close : W -> W;
}.

Variable ops : ServiceOps.

(** [if d.x != nil { if err := d.x.Open(...); err != nil { return err } }] *)
Definition open_if (present : bool) (open : W -> goerr * W) (k : W -> goerr * W) (w : W) : goerr * W :=
  if present then
    match open w with
    | (Some err, w) => (Some err, w)
    | (None, w) => k w
    end
  else k w.

Definition Open (timeout : Z) (d : Dda) (w : W) : goerr * W :=
  open_if (comApi d) (com_Open ops (cfg d) timeout) (
  open_if (storeApi d) (store_Open ops (cfg d)) (
  open_if (stateApi d) (state_Open ops (cfg d)) (
  open_if (grpcServer d) (grpc_Open ops (cfg d)) (fun w => (None, w))))) w.

Definition close_if (present : bool) (close : W -> W) (w : W) : W := if present then close w else w.

(** The state service is closed before the communication service it uses to
    deregister. *)
Definition Close (d : Dda) (w : W) : W :=
  let w := close_if (grpcServer d) (grpc_Close ops) w in
  let w := close_if (stateApi d) (state_Close ops) w in
  let w := close_if (storeApi d) (store_Close ops) w in
  close_if (comApi d) (com_Close ops) w.
End Agent.

(** *** The order of opening and closing *)

Inductive Service := SvcCom | SvcStore | SvcState | SvcGrpc.
Inductive Action := Opened (s : Service) | Failed (s : Service) | Closed (s : Service).

#[global] Instance Service_eq_dec : EqDecision Service.
Proof. solve_decision. Defined.

Definition present (d : Dda) (s : Service) : bool :=
  match s with
  | SvcCom => comApi d
  | SvcStore => storeApi d
  | SvcState => stateApi d
  | SvcGrpc => grpcServer d
  end.

Definition all_services : list Service := [SvcCom; SvcStore; SvcState; SvcGrpc].

(** What a service needs while it is open. *)
Definition uses (s t : Service) : bool :=
  match s, t with
  | SvcState, SvcCom | SvcGrpc, SvcCom | SvcGrpc, SvcStore | SvcGrpc, SvcState => true
  | _, _ => false
  end.

(** Services that record what happens, of which those in [failing] do not
    open. *)
Definition recording (failing : Service -> goerr) : ServiceOps (W := list Action) :=
  let open s w := match failing s with
                  | Some err => (Some err, w ++ [Failed s])
                  | None => (None, w ++ [Opened s])
                  end in
  {| com_Open := fun _ _ => open SvcCom; store_Open := fun _ => open SvcStore;
     state_Open := fun _ => open SvcState; grpc_Open := fun _ => open SvcGrpc;
     com_Close := fun w => w ++ [Closed SvcCom]; store_Close := fun w => w ++ [Closed SvcStore];
     state_Close := fun w => w ++ [Closed SvcState]; grpc_Close := fun w => w ++ [Closed SvcGrpc] |}.

Definition remove (s : Service) (open : list Service) : list Service := filter (fun t => t <> s) open.

(** The services open after a history. *)
Fixpoint open_after (h : list Action) (open : list Service) : list Service :=
  match h with
  | [] => open
  | Opened s :: h => open_after h (s :: open)
  | Failed _ :: h => open_after h open
  | Closed s :: h => open_after h (remove s open)
  end.

(** Each service is opened once, when the present ones it uses are open, and
    closed when no service that uses it is open. *)
Fixpoint well_ordered (d : Dda) (h : list Action) (open : list Service) : bool :=
  match h with
  | [] => true
  | Opened s :: h =>
      forallb (fun t => negb (uses s t && present d t) || bool_decide (t ∈ open)) all_services &&
      negb (bool_decide (s ∈ open)) && well_ordered d h (s :: open)
  | Failed s :: h => well_ordered d h open
  | Closed s :: h => negb (existsb (fun t => uses t s) open) && well_ordered d h (remove s open)
  end.

Lemma New_inl c d : New c = inl d ->
  Verify c = None /\ cfg d = c /\
  comApi d = negb (com_Disabled (Com (Services c))) /\ storeApi d = negb (store_Disabled (StoreSvc (Services c))) /\
  stateApi d = negb (state_Disabled (State (Services c))) /\ grpcServer d = negb (api_Disabled (Grpc (Apis c))) /\
  (stateApi d = true -> comApi d = true).
Proof.
  unfold New. destruct (Verify c); [done|].
  destruct (if com_Disabled _ then _ else _) eqn:E1; [done|].
  destruct (if store_Disabled _ then _ else _) eqn:E2; [done|].
  destruct (state_Disabled (State (Services c))) eqn:E3; destruct (com_Disabled (Com (Services c))) eqn:E4; simpl;
    try done; [..|destruct (state_New _); [done|]]; intros [= <-]; simpl; rewrite ?E3, ?E4; done.
Qed.

(** C30: the agent's life.  [New] creates exactly the services that are not
    disabled, and the state service never without the communication service.
    Opening opens each of them once, every service after those it uses, and
    if it returns nil all are open; if a service fails to open, its error is
    returned.  Closing afterwards, also after a failure, closes every
    service, no service before one that uses it, and leaves none open. *)
Theorem agent_lifecycle (c : Config) (d : Dda) (timeout : Z) (failing : Service -> goerr) (err : goerr) (h : list Action) :
  New c = inl d -> Open (recording failing) timeout d [] = (err, h) ->
  (stateApi d = true -> comApi d = true) /\
  (forall s, present d s = match s with
     | SvcCom => negb (com_Disabled (Com (Services c))) | SvcStore => negb (store_Disabled (StoreSvc (Services c)))
     | SvcState => negb (state_Disabled (State (Services c))) | SvcGrpc => negb (api_Disabled (Grpc (Apis c))) end) /\
  well_ordered d (Close (recording failing) d h) [] = true /\
  open_after (Close (recording failing) d h) [] = [] /\
  (err = None -> forall s, bool_decide (s ∈ open_after h []) = present d s) /\
  (forall e, err = Some e -> exists s, failing s = Some e /\ present d s = true /\ Failed s ∈ h).
Proof.
  intros Hn Ho. apply New_inl in Hn as (_ & _ & H1 & H2 & H3 & H4 & H5).
  split; [done|]. split; [by intros []|]. clear H1 H2 H3 H4.
  destruct d as [cf co st sy gr]. simpl in *. unfold Open, open_if, Close, close_if, recording in *. simpl in *.
  destruct co, st, sy, gr; try (by specialize (H5 eq_refl));
    repeat match type of Ho with context [failing ?x] => destruct (failing x) eqn:?; simpl in Ho end; simplify_eq/=.
  all: split_and!; [reflexivity|reflexivity|intros E []; (discriminate E || reflexivity)|].
  all: intros ? He; simplify_eq; (eexists; split_and!; [eassumption|done|set_solver]).
Qed.

(** An agent with a communication and a state service whose store is disabled
    and whose gRPC server does not open. *)
Definition demo_cfg : Config :=
  let c := Config.New "id" in
  {| Version := Version c; Identity_ := Identity_ c; Cluster := Cluster c; Apis := Apis c;
     Services := {| Com := {| com_Protocol := "mqtt5"; Url := "tcp://host"; Auth := Auth (Com (Services c));
                              com_Opts := ∅; com_Disabled := false |};
                    StoreSvc := {| Engine := ""; Location := ""; store_Disabled := true |};
                    State := {| state_Protocol := "raft"; Store := ""; Bootstrap := true; state_Disabled := false;
                                state_Opts := ∅ |} |} |}.

Definition demo_failing (s : Service) : goerr :=
  match s with SvcGrpc => Some (ErrText "address in use") | _ => None end.

Lemma agent_lifecycle_witness :
  exists d h, New demo_cfg = inl d /\
    Open (recording demo_failing) 0 d [] = (Some (ErrText "address in use"), h) /\
    Close (recording demo_failing) d h =
      [Opened SvcCom; Opened SvcState; Failed SvcGrpc; Closed SvcGrpc; Closed SvcState; Closed SvcCom] /\
    well_ordered d (Close (recording demo_failing) d h) [] = true /\
    open_after (Close (recording demo_failing) d h) [] = [].
Proof.
  destruct (New demo_cfg) as [d|e] eqn:Hn; [|by vm_compute in Hn].
  destruct (Open (recording demo_failing) 0 d []) as [err h] eqn:Ho.
  destruct (agent_lifecycle demo_cfg d 0 demo_failing err h Hn Ho) as (_ & _ & Hw & Hc & _ & _).
  exists d, h. injection Hn as <-. injection Ho as <- <-. split_and!; [done|done|done|exact Hw|exact Hc].
Defined.
