(* ===== verification/Plog.v ===== *)
(** * Diagnostic output ([plog/plog.go])

    The package-level logger with its prefix and its switch.  The messages
    are given as they are formatted by [fmt]; the caller is given by the name
    [runtime.FuncForPC] has for it. *)

From S2P Require Import Prelude GoRuntime GoStrings.

(** ** State *)

(** [logger], of which the prefix matters, and [disabled]; what was written
    is kept as lines of a prefix and a message. *)
Record Log := {
  prefix : string;
  disabled : bool;
  written : list (string * string);
}.

Definition initial : Log := {| prefix := ""; disabled := false; written := [] |}.

Definition Disable (l : Log) : Log := {| prefix := prefix l; disabled := true; written := written l |}.
Definition Enable (l : Log) : Log := {| prefix := prefix l; disabled := false; written := written l |}.
Definition Enabled (l : Log) : bool := negb (disabled l).

(** ** The caller's package *)

(** [parts[pl-1-i]]; [None] is an index out of range. *)
Definition from_end (parts : list string) (i : nat) : option string := reverse parts !! i.

Definition pkg_part (parts : list string) : option string :=
  match from_end parts 1 with
  | None => None
  | Some EmptyString => None    (* its first byte *)
  | Some (String a s as part) =>
      if Ascii.eqb a "(" then from_end parts 2 (* method receiver *)
      else Some part                           (* plain function *)
  end.

Definition getPackagePrefix (name : string) : option string :=
  (fun pkgPart => string_from pkgPart (strings_LastIndex pkgPart "/" + 1) +:+ " ") <$> pkg_part (strings_Split name ".").

(** ** Output

    The logger locks itself for each of the two steps of an output, but not
    for both. *)
Inductive LogStep := SetPrefix (p : string) | Output (msg : string).

Definition do_step (l : Log) (s : LogStep) : Log :=
  match s with
  | SetPrefix p => {| prefix := p; disabled := disabled l; written := written l |}
  | Output msg => {| prefix := prefix l; disabled := disabled l; written := written l ++ [(prefix l, msg)] |}
  end.

(** [Print], [Printf] and [Println]: what they do, unless the log is
    disabled; [Fatal], [Fatalf] and [Fatalln], which exit afterwards. *)
Definition output_steps (name msg : string) : option (list LogStep) :=
  (fun p => [SetPrefix p; Output msg]) <$> getPackagePrefix name.

Definition Fatal (name msg : string) : M Log Z := fun l =>
  match output_steps name msg with
  | None => Panic "index out of range"
  | Some steps => Ret 1 (foldl do_step l steps)
  end.

Definition Print (name msg : string) : M Log unit := fun l =>
  if disabled l then Ret tt l
  else
    match output_steps name msg with
    | None => Panic "index out of range"
    | Some steps => Ret tt (foldl do_step l steps)
    end.

(** ** The prefix is the package's name *)

(** The last part of a string that ends without a separator: no new bytes. *)
Lemma Split_last c s t :
  string_free c t = true -> exists l u, strings_Split (s +:+ t) c = l ++ [u +:+ t] /\
    forall d, string_free d s = true -> string_free d u = true.
Proof.
  intros Ht. induction s as [|a s IH].
  - exists [], "". change ("" +:+ t) with t. by rewrite (Split_free c t Ht).
  - destruct IH as (l & u & E & Hu). change (String a s +:+ t) with (String a (s +:+ t)). simpl. rewrite E.
    destruct (Ascii.eqb a c); [|destruct l as [|w l]; simpl].
    + exists ("" :: l), u. split; [done|]. intros d [_ ?]%andb_true_iff. auto.
    + exists [], (String a u). split; [done|]. intros d [Ha ?]%andb_true_iff. simpl. by rewrite Ha, Hu.
    + exists (String a w :: l), u. split; [done|]. intros d [_ ?]%andb_true_iff. auto.
Qed.

Lemma string_length_app s t : String.length (s +:+ t) = (String.length s + String.length t)%nat.
Proof. induction s as [|a s IH]; simpl; [done|]. by rewrite IH. Qed.

Lemma last_index_free i s c last : string_free c s = true -> last_index_from i s c last = last.
Proof. revert i. induction s as [|a s IH]; intros i; simpl; [done|]. destruct (Ascii.eqb a c); [done|]. apply IH. Qed.

Lemma last_index_app s t c : forall i last,
  string_free c t = true -> last_index_from i (s +:+ String c t) c last = i + Z.of_nat (String.length s).
Proof.
  induction s as [|a s IH]; intros i last Ht.
  - simpl. rewrite Ascii.eqb_refl, last_index_free by done. lia.
  - change (String a s +:+ String c t) with (String a (s +:+ String c t)). simpl. rewrite IH by done. lia.
Qed.

Lemma substring_all s : String.substring 0 (String.length s) s = s.
Proof. induction s as [|a s IH]; simpl; [done|]. by rewrite IH. Qed.

Lemma substring_after s c t : String.substring (S (String.length s)) (String.length t) (s +:+ String c t) = t.
Proof. induction s as [|a s IH]; [apply substring_all|]. exact IH. Qed.

(** The last element of a path. *)
Definition base (path : string) : string := string_from path (strings_LastIndex path "/" + 1).

Lemma base_in dir pkg : string_free "/" pkg = true -> base (dir +:+ String "/" pkg) = pkg.
Proof.
  intros Hp. unfold base, strings_LastIndex. rewrite last_index_app by done. unfold string_from.
  rewrite string_length_app. replace (Z.to_nat (0 + Z.of_nat (String.length dir) + 1)) with (S (String.length dir)) by lia.
  cbn [String.length].
  replace (String.length dir + S (String.length pkg) - S (String.length dir))%nat with (String.length pkg) by lia.
  apply substring_after.
Qed.

Lemma base_free pkg : string_free "/" pkg = true -> base pkg = pkg.
Proof.
  intros Hp. unfold base, strings_LastIndex. rewrite last_index_free by done. unfold string_from. simpl.
  rewrite Nat.sub_0_r. apply substring_all.
Qed.

(** The import path of a package: its directory, if any, and its name. *)
Definition import_path (dir : option string) (pkg : string) : string :=
  match dir with
  | None => pkg
  | Some dir => dir +:+ String "/" pkg
  end.

(** Package names and directories as they occur. *)
Definition package (dir : option string) (pkg : string) : Prop :=
  pkg <> "" /\ string_free "." pkg = true /\ string_free "/" pkg = true /\ string_free "(" (import_path dir pkg) = true.

Lemma path_parts dir pkg rest :
  package dir pkg ->
  exists l part, strings_Split (import_path dir pkg +:+ String "." rest) "." = l ++ [part] ++ strings_Split rest "." /\
    base part = pkg /\ part <> "" /\ string_free "(" part = true.
Proof.
  intros (Hne & Hd & Hs & Hp). rewrite Split_snoc. destruct dir as [dir|]; simpl in *.
  - destruct (Split_last "." dir (String "/" pkg) Hd) as (l & u & E & Hu).
    exists l, (u +:+ String "/" pkg). rewrite string_free_app in Hp |- *. apply andb_true_iff in Hp as [Hp1 Hp2].
    rewrite E, <- app_assoc, base_in, Hu by done. split_and!; [done|done| |done]. by destruct u.
  - exists [], pkg. by rewrite Split_free, base_free.
Qed.

(** The names of a function of a package, and of a method of a pointer
    receiver. *)
Definition func_name (path fn : string) : string := path +:+ String "." fn.
Definition method_name (path typ fn : string) : string := path +:+ String "." (("(*" +:+ typ +:+ ")") +:+ String "." fn).

Lemma from_end_app l (r : list string) i : (i < length r)%nat -> from_end (l ++ r) i = from_end r i.
Proof. intros Hi. unfold from_end. rewrite reverse_app, lookup_app_l; [done|]. by rewrite length_reverse. Qed.

(** the prefix of a message is the name of the package whose function or
    method, of a plain type name, wrote it, whatever the dots and slashes in
    its import path; no name of this form makes the lookup panic. *)
Theorem package_prefix (dir : option string) (pkg typ fn : string) :
  package dir pkg -> string_free "." typ = true -> string_free "." fn = true ->
  getPackagePrefix (func_name (import_path dir pkg) fn) = Some (pkg +:+ " ") /\
  getPackagePrefix (method_name (import_path dir pkg) typ fn) = Some (pkg +:+ " ").
Proof.
  intros Hp Ht Hf. unfold getPackagePrefix, func_name, method_name, pkg_part. split.
  - destruct (path_parts dir pkg fn Hp) as (l & part & -> & Hb & Hne & Hpar).
    rewrite (Split_free "." fn Hf). rewrite !from_end_app by (simpl; lia).
    change (from_end ([part] ++ [fn]) 1) with (Some part).
    destruct part as [|a part]; [done|]. simpl in Hpar. destruct (Ascii.eqb a "("); [done|].
    simpl. by rewrite <- Hb.
  - destruct (path_parts dir pkg (("(*" +:+ typ +:+ ")") +:+ String "." fn) Hp) as (l & part & -> & Hb & Hne & Hpar).
    rewrite Split_app, (Split_free "." fn Hf).
    + rewrite !from_end_app by (simpl; lia).
      change (from_end ([part] ++ [("(*" +:+ typ +:+ ")"); fn]) 1) with (Some ("(*" +:+ typ +:+ ")")). simpl.
      change (from_end [part; _; fn] 2) with (Some part). simpl. by rewrite <- Hb.
    + by rewrite !string_free_app, Ht.
Qed.

Lemma package_prefix_witness :
  getPackagePrefix "github.com/coatyio/dda/services/state/raft.(*RaftBinding).Open" = Some "raft " /\
  getPackagePrefix "main.main" = Some "main ".
Proof.
  split.
  - refine (proj2 (package_prefix (Some "github.com/coatyio/dda/services/state") "raft" "RaftBinding" "Open" _ _ _));
      [|reflexivity..]. split_and!; [discriminate|reflexivity..].
  - refine (proj1 (package_prefix None "main" "" "main" _ _ _)); [|reflexivity..]. split_and!; [discriminate|reflexivity..].
Defined.

(** A function literal is named after the function it is in: its messages are
    prefixed with that function's name instead. *)
Theorem closure_prefix :
  getPackagePrefix "github.com/coatyio/dda/apis/grpc.(*grpcWebServer).openWebServer.func2" = Some "openWebServer ".
Proof. reflexivity. Qed.

(** ** Concurrent output *)

(** The steps of two goroutines, interleaved. *)
Inductive interleaving : list LogStep -> list LogStep -> list LogStep -> Prop :=
  | inter_nil : interleaving [] [] []
  | inter_left s l r h : interleaving l r h -> interleaving (s :: l) r (s :: h)
  | inter_right s l r h : interleaving l r h -> interleaving l (s :: r) (s :: h).

(** Nothing keeps another goroutine from setting its prefix between the two
    steps of an output: a message may carry another package's name. *)
Theorem prefix_of_another_package :
  exists l r h, output_steps "x/raft.Open" "opened" = Some l /\ output_steps "x/mqtt5.Open" "connected" = Some r /\
    interleaving l r h /\ ("mqtt5 ", "opened") ∈ written (foldl do_step initial h).
Proof.
  exists [SetPrefix "raft "; Output "opened"], [SetPrefix "mqtt5 "; Output "connected"],
    [SetPrefix "raft "; SetPrefix "mqtt5 "; Output "opened"; Output "connected"].
  split_and!; [reflexivity|reflexivity|repeat constructor|]. simpl. left.
Qed.

(** whatever the interleaving, every message of an enabled log is written
    once and in the order of its goroutine, also while it may be prefixed by
    the other's name; a disabled log writes none, except for a fatal message,
    which ends the process. *)
Theorem output_delivered (l : Log) (name1 name2 msg1 msg2 : string) (s1 s2 h : list LogStep) :
  output_steps name1 msg1 = Some s1 -> output_steps name2 msg2 = Some s2 -> interleaving s1 s2 h ->
  (exists p1 p2, written (foldl do_step l h) = written l ++ [(p1, msg1); (p2, msg2)] \/
                 written (foldl do_step l h) = written l ++ [(p2, msg2); (p1, msg1)]) /\
  Print name1 msg1 (Disable l) = Ret tt (Disable l) /\
  (exists l', Fatal name1 msg1 (Disable l) = Ret 1 l' /\ exists p, written l' = written l ++ [(p, msg1)]).
Proof.
  unfold Fatal. intros H1 H2 Hi. split_and!; [|done|].
  - unfold output_steps in *. destruct (getPackagePrefix name1) as [p1|]; [|done].
    destruct (getPackagePrefix name2) as [p2|]; [|done]. injection H1 as <-. injection H2 as <-.
    repeat match goal with Hx : interleaving _ _ _ |- _ => inversion Hx; subst; clear Hx end;
      simpl; rewrite <- app_assoc; simpl; eauto.
  - rewrite H1. eexists. split; [done|]. unfold output_steps in H1. destruct (getPackagePrefix name1); [|done].
    injection H1 as <-. simpl. eauto.
Qed.
