(* ===== verification/Cmd.v ===== *)
(** * The command ([cmd/dda/dda.go])

    The command line, and how the main goroutine, the one that waits for a
    signal and the one that opens the agent end up closing it.  Closing the
    agent may take any time: that it returns is an event of its own.  The
    flags are given as [flag.Parse] leaves them. *)

From S2P Require Import Prelude GoRuntime Services GoStrings Config Dda Plog.

(** ** The command line *)

Record Invocation := {
  configFile : string;   (* -c *)
  help : bool;           (* -h *)
  nolog : bool;          (* -n *)
  args : list string;    (* what is left *)
  env : string;          (* $DDA_CONFIGFILE *)
}.

Definition lookupConfigFile (env configFile : string) : string :=
  let configFile := if String.eqb configFile "" then env else configFile in
  if String.eqb configFile "" then "dda.yaml" else configFile.

Definition versionInfo (version goos goarch goversion : string) : string :=
  "dda " +:+ version +:+ " " +:+ goos +:+ "/" +:+ goarch +:+ " " +:+ goversion.

(** What is printed on the standard output. *)
Inductive Printed := PrintedVersion (s : string) | PrintedUsage.

(** [flag.Arg(0)] *)
Definition arg0 (i : Invocation) : string := default "" (head (args i)).

(** How [main] starts: it exits, or goes on with a configuration. *)
Inductive Started := Exit (code : Z) (out : list Printed) | Go (cfg : Config).

Section Main.
(** [version] and the runtime's, reading a configuration file (see Config),
    and the text of a configuration. *)
Variable info : string.
Variable ReadConfig : string -> Config + error.
Variable fmt_Config : Config -> string.

Definition start (i : Invocation) : M Log Started :=
  if String.eqb (arg0 i) "version" then mret (Exit 0 [PrintedVersion info])
  else if Nat.ltb 0 (length (args i)) then mret (Exit 2 [PrintedUsage])
  else if help i then mret (Exit 0 [PrintedUsage])
  else
    run! (if nolog i then (let! l := mget in mput (Disable l)) else mret tt);
    run! Print "main.main" info;
    let cfgFile := lookupConfigFile (env i) (configFile i) in
    match ReadConfig cfgFile with
    | inr err =>
        let! code := Fatal "main.main" ("Error reading DDA configuration file " +:+ cfgFile +:+ ": " +:+ Error err) in
        mret (Exit code [])
    | inl cfg => run! Print "main.main" ("config: " +:+ fmt_Config cfg); mret (Go cfg)
    end.
End Main.

(** ** The goroutines

    The main goroutine at its [select], or waiting for the signal with
    [agent.Close] deferred, or in that call, or gone. *)
Inductive Pos := AtSelect | AtSignal | Closing (d : Dda) | Exited (code : Z).

Record Process := {
  signaled : bool;         (* the channel is closed *)
  agent : option Dda;      (* set before [agentDone] is closed *)
  pos : Pos;
  closed : list Dda;       (* the agents [Close] was called on *)
}.

Definition started : Process := {| signaled := false; agent := None; pos := AtSelect; closed := [] |}.

(** A signal arrives; creating and opening the agent ends, the latter with
    [err]; the main goroutine runs, [pick] choosing the case of the [select]
    if both are ready; the deferred [Close], if it ever does, returns, and the
    process ends.  The lines these steps log are left out. *)
Inductive Happens := Signal | AgentDone (err : goerr) | MainRuns (pick : bool) | CloseReturns.

Definition exit_with (code : Z) (p : Process) : Process :=
  {| signaled := signaled p; agent := agent p; pos := Exited code; closed := closed p |}.

(** The deferred [agent.Close()] is called. *)
Definition close_agent (d : Dda) (p : Process) : Process :=
  {| signaled := signaled p; agent := agent p; pos := Closing d; closed := closed p ++ [d] |}.

Definition happens (cfg : Config) (p : Process) (h : Happens) : Process :=
  match pos p with
  | Exited _ => p
  | _ =>
      match h with
      | Signal => {| signaled := true; agent := agent p; pos := pos p; closed := closed p |}
      | AgentDone err =>
          match agent p with
          | Some _ => p
          | None =>
              match Dda.New cfg, err with
              | inr _, _ => exit_with 1 p         (* Fatalf *)
              | inl _, Some _ => exit_with 1 p    (* Fatalf *)
              | inl d, None => {| signaled := signaled p; agent := Some d; pos := pos p; closed := closed p |}
              end
          end
      | MainRuns pick =>
          match pos p, agent p with
          | AtSelect, None => if signaled p then exit_with 0 p else p
          | AtSelect, Some d =>
              if signaled p && pick then exit_with 0 p
              else {| signaled := signaled p; agent := agent p; pos := AtSignal; closed := closed p |}
          | AtSignal, Some d => if signaled p then close_agent d p else p
          | _, _ => p
          end
      | CloseReturns =>
          match pos p with
          | Closing _ => exit_with 0 p
          | _ => p
          end
      end
  end.

Definition run_main (cfg : Config) (hs : list Happens) : Process := foldl (happens cfg) started hs.

(** ** Properties *)

(** Which configuration file is read. *)
Theorem lookupConfigFile_order (env configFile : string) :
  lookupConfigFile env configFile =
  match configFile, env with
  | EmptyString, EmptyString => "dda.yaml"
  | EmptyString, _ => env
  | _, _ => configFile
  end.
Proof. by destruct configFile, env. Qed.

(** What holds of a process while it runs. *)
Record process_ok (p : Process) : Prop := {
  ok_wait : pos p = AtSignal -> agent p <> None;
  ok_running : pos p = AtSelect \/ pos p = AtSignal -> closed p = [];
  ok_closing : forall d, pos p = Closing d -> signaled p = true /\ agent p = Some d /\ closed p = [d];
  ok_exit : pos p = Exited 0 -> signaled p = true;
  ok_closed : forall d, d ∈ closed p -> agent p = Some d;
  ok_once : (length (closed p) <= 1)%nat;
}.

Lemma happens_ok cfg p h : process_ok p -> process_ok (happens cfg p h).
Proof.
  intros [H1 H2 H3 H4 H5 H6]. destruct p as [sig ag ps cl]. unfold happens, exit_with, close_agent. simpl in *.
  destruct ps as [| |d|code]; [rewrite H2 in * by auto..|destruct (H3 d eq_refl) as (-> & -> & ->)|done];
    destruct h as [|err|pick|]; simpl; try destruct ag as [d'|]; simpl; try destruct (Dda.New cfg), err; simpl;
    try destruct sig, pick; try destruct sig; split; simpl; try done; try set_solver; try lia.
  all: try (intros d' ->%list_elem_of_singleton; done). all: by intros ? [= <-].
Qed.

Lemma run_main_ok cfg hs : process_ok (run_main cfg hs).
Proof.
  unfold run_main. induction hs as [|h hs IH] using rev_ind; [|rewrite foldl_app; by apply happens_ok].
  split; simpl; try done; [set_solver|lia].
Qed.

(** A process in [Close] stays there until that returns. *)
Lemma closing_stays cfg p d hs :
  pos p = Closing d -> agent p = Some d -> CloseReturns ∉ hs -> pos (foldl (happens cfg) p hs) = Closing d.
Proof.
  revert p. induction hs as [|h hs IH]; intros p Hp Ha Hno; [done|]. apply not_elem_of_cons in Hno as [Hh Hno].
  simpl. apply IH; [..|done]; unfold happens; rewrite Hp, ?Ha; by destruct h.
Qed.

(** C40: the end of the process.  However signals, the agent's opening and the
    main goroutine interleave: the command succeeds only after a signal, it
    closes no agent but the one it opened, and that at most once.  Once a
    signal has arrived and the main goroutine has run twice, the process has
    ended, or the main goroutine is in the deferred [Close] of the agent, as
    it is if it had seen it opened before: then the process ends, with
    success, when that call returns, and whatever else happens not before.
    Whether it returns is up to the agent: [Close] may wait for ever
    ([close_and_forwarded_request_deadlock], [subscribe_and_close_deadlock]). *)
Theorem main_ends (cfg : Config) (hs : list Happens) (pick pick' : bool) :
  let p := run_main cfg hs in
  (pos p = Exited 0 -> signaled p = true) /\
  (forall d, d ∈ closed p -> agent p = Some d) /\ (length (closed p) <= 1)%nat /\
  let p' := run_main cfg (hs ++ [Signal; MainRuns pick; MainRuns pick']) in
  ((exists code, pos p' = Exited code) \/
   exists d, pos p' = Closing d /\ agent p' = Some d /\ closed p' = [d] /\
     pos (happens cfg p' CloseReturns) = Exited 0 /\
     forall hs', CloseReturns ∉ hs' -> pos (foldl (happens cfg) p' hs') = Closing d) /\
  (forall d, pos p = AtSignal -> agent p = Some d -> pos p' = Closing d).
Proof.
  intros p. pose proof (run_main_ok cfg hs) as Hok. split_and!; [apply Hok|apply Hok|apply Hok|].
  pose proof (run_main_ok cfg (hs ++ [Signal; MainRuns pick; MainRuns pick'])) as Hok'. intros p'. fold p' in Hok'.
  assert ((exists code, pos p' = Exited code) \/ exists d, pos p' = Closing d) as Hend.
  { unfold p', run_main. rewrite foldl_app. fold (run_main cfg hs). fold p in Hok |- *. simpl.
    destruct p as [sig ag ps cl]. destruct Hok as [H1 _ _ _ _ _]. simpl in *.
    destruct ps as [| |d|code]; [|destruct ag as [d|]; [|by destruct H1]|right; by exists d|left; by exists code].
    - destruct ag as [d|]; [|left; by exists 0]. destruct pick; [left; by exists 0|right; by exists d].
    - right. by exists d. }
  split.
  - destruct Hend as [?|[d Hd]]; [by left|right]. exists d. destruct (ok_closing _ Hok' d Hd) as (_ & Ha & Hc).
    split_and!; [done|done|done|unfold happens; by rewrite Hd|intros hs'; by apply closing_stays].
  - intros d Hp Ha. unfold p', run_main. rewrite foldl_app. fold (run_main cfg hs). fold p. simpl.
    destruct p as [sig ag ps cl]. simpl in *. by subst.
Qed.

(** An agent that is open when the signal is noticed is not always closed:
    [select] may pick either of the two cases that are ready. *)
Theorem open_agent_not_closed :
  exists cfg d, let p := run_main cfg [AgentDone None; Signal; MainRuns true] in
    agent p = Some d /\ pos p = Exited 0 /\ closed p = [].
Proof.
  exists demo_cfg. destruct (Dda.New demo_cfg) as [d|err] eqn:E; [exists d|by vm_compute in E].
  unfold run_main, foldl, happens, started. cbn [pos agent signaled closed]. by rewrite E.
Qed.
